(* ===== verification/_CoqProject ===== *)
-Q . S2P
Prelude.v
GoStd.v
Effects.v
Redis.v
Database.v
Proto.v
World.v
Rules.v
Frames.v
Lift.v
Goroutines.v
RefWorld.v
Store.v
Sessions.v
Auth.v
AuthSpec.v
GroupServer.v
GroupSpec.v
GroupPool.v
ChatServer.v
ChatSpec.v
Room.v
ConnectMem.v
RoomManager.v
RoomSpec.v
Registry.v
Connection.v
ConnectSpec.v
ClientPool.v
Consumer.v
ConsumerSpec.v
FanOut.v
ClaimSpec.v
PersistSpec.v
Config.v
Logging.v
Process.v
Offsets.v
Mains.v
ProcessLogic.v
MainsSpec.v
NodeSpec.v
Api.v
ApiSpec.v
Gateway.v
SessionPool.v
Knowledge.v
LogicPool.v
TaskPool.v
System.v
Delivery.v
DeliveryMany.v
Schema.v
RefCodec.v
WitnessLogic.v
WitnessConnect.v
WitnessTask.v
WitnessMains.v
WitnessSystem.v
WitnessDelivery.v
