(* ===== verification/Prelude.v ===== *)
(** * LikeGoChat: a verification development

    LikeGoChat (src/) is a chat system of four Go processes:

    - api (internal/api): the HTTP gateway; it verifies the session with the
      logic service and forwards registrations, logins, groups and messages;
    - logic (internal/logic): accounts, sessions, small groups, and the intake
      of messages, which it numbers and appends to Kafka;
    - task (internal/task): consumers of Kafka; they push each message to the
      connect nodes of its recipients and write it to MySQL;
    - connect (internal/connect): WebSocket nodes; they keep the connections and
      the rooms and register who is connected where.

    They share Redis (the double index of sessions, the member sets of groups,
    the routing table), MySQL (users, groups, memberships, messages), Kafka and
    gRPC.  A message travels api -> logic -> Kafka -> task -> connect -> client.

    ** How the code is modelled

    Effects.v defines [prog E A], programs as trees of calls: every call to
    Redis, MySQL, Kafka, gRPC, the clock, and every critical section on shared
    memory is one event, so a Go function becomes one definition with the same
    calls, guards and early returns in the same order.  Go's (value, error) is
    [res] (this file); [x, err := f(); if err != nil { return err }] is the
    notation [try x <- f ;; ...].

    The outside world is not invented: World.v states, event by event, the
    documented effect of a call that goes through ([doc]) and what a failure may
    leave ([fault]: an error is returned, and the effect took place or not).  An
    environment is any implementation of the class [World]; [fl = true] admits
    failures, [fl = false] does not.  Time passes by any amount before any call
    and expired keys vanish.  Redis.v and Database.v hold the documented meaning
    of the Redis commands, of Lua scripts and transactions, of SQL statements,
    and the column types and unique keys of sql/schema.sql.  Third-party code is
    a class with its laws as fields: bcrypt ([Crypto]), the collation of MySQL
    ([Collation]), protobuf ([Codec]: decoding inverts encoding), farm hash
    ([Farm]: 32 bits), encoding/json ([JsonRoomCmd]), grpc.NewClient ([Dialer]).
    A call between services is the method between two legs of a network, each of
    which may fail ([World.rpc]).

    Sequential claims are proved with weakest preconditions ([wp], Rules.v) and
    hold for every run [exec] in every environment.  Concurrent claims are
    proved by rely-guarantee ([rg]) and hold for every state reachable by the
    relation [pool_step], which lets goroutines arrive, interleaves them event by
    event, and lets sleeping goroutines wake.  What may arrive can depend on the
    state ([open_reachable]): a record must be in Kafka before it is consumed, a
    call must have been made before it is served.  Frames.v says which part of
    the state a call can touch, so that the invariants of components that share
    Redis and MySQL hold side by side; Lift.v puts the programs of several
    processes, each with its memory, into one pool.

    ** Files

    - Prelude, GoStd, Effects: results, lists, integers, strconv, programs and
      their logics.
    - Redis, Database, Proto, World, Rules: the vocabulary and documented
      behaviour of the outside, the messages, one proof rule per event.  Frames,
      Lift: what a call leaves alone, and processes side by side.
    - RefWorld, RefCodec: a concrete environment and concrete instances of the
      classes, on which the witnesses run.
    - Store (logic/store.go), Auth (logic/auth.go), GroupServer
      (logic/groupserver.go), ChatServer (logic/chatserver.go): the logic
      service, one definition per method.  Sessions relates the double index to
      an abstract map from users to their session.
    - Room (connect/room.go), ConnectMem (the shared memory of a node),
      RoomManager (connect/room_manager.go), Registry (connect/registry.go),
      Connection (connect/ws_handler.go, connect/grpcserver.go): the connect node.
    - ClientPool (task/rpc_client.go, common/connect_client.go), Consumer
      (task/consumer.go), Goroutines (its fan-outs: the loops that start
      goroutines under a semaphore and the wait for them): the task layer.
    - Api (api/handler_*.go) and Gateway (the routes of cmd/api/main.go): the
      gateway, over records of gRPC clients that [logic_auth] and [logic_chat]
      implement with the logic service.
    - Config (common/config.go), Logging (common/logger.go), Process (processes:
      their events, and common/redis.go, common/db.go, common/logic_client.go,
      logic/producer.go, which open clients), Mains (cmd/*/main.go): the four
      processes.  ProcessLogic is the logic for them: a weakest precondition for
      the main function under interference by its goroutines and by the others.
    - AuthSpec, SessionPool, GroupSpec, GroupPool, ChatSpec, RoomSpec,
      ConnectSpec, ConsumerSpec, ClaimSpec, PersistSpec, Offsets, ApiSpec,
      Gateway, MainsSpec, NodeSpec (and the ends of ClientPool and Logging): what
      they guarantee.  FanOut gives the fan-outs as a step relation without fuel,
      shows that every interleaving ends, and that Goroutines follows it.
    - Knowledge, LogicPool, TaskPool, System: the services together.  Knowledge
      joins the invariants of sessions, groups, records and calls; LogicPool and
      TaskPool show that the gateway with the logic service, and the task
      process, keep them; ConnectSpec states its invariant over any surroundings
      (the class [Ambient]), and System gives it these, for any number of
      processes of each kind.  Delivery follows a private message through all
      four, DeliveryMany a group and a room message.  Schema states sql/schema.sql
      as an invariant of all of them.
    - WitnessLogic, WitnessConnect, WitnessTask, WitnessMains, WitnessSystem,
      WitnessDelivery: concrete runs in which the hypotheses of each theorem hold.

    ** What is proved

    - The whole system.  However requests to the gateways, logins, consumers,
      connections, pushes and failing calls of all processes interleave: every
      record in Kafka was posted with a session of the user it names as sender,
      who was a member if it is for a group; sessions come from logins with the
      right password; and whatever waits in a send buffer is such a record, whose
      recipient, group or room includes the user of the connection.
    - Sessions.  The index implements the abstract map: Verify and Logout refine
      its operations; one user has one session under every interleaving; a second
      login ends the first; what was registered can log in.
    - Tables.  In the whole system the rows of MySQL stay of the types of their
      columns, under keys that do not clash, and none is removed or changed but
      for the counter of a group.
    - Groups.  member_count is the number of memberships and no membership is
      doubled, also when calls fail half-way; joining is idempotent; what the
      cached check answers is pinned for any contents of the cache, and it is
      what MySQL says when the cached sets are; a join is then visible to the
      next check.  When
      joins, checks, rebuilds and delayed deletions interleave, no stranger is
      ever admitted (but a member can be kept out, see below).
    - Intake.  Ids are positive, ordered by time and distinct within 2^20 draws
      of one process; an accepted message is in Kafka with its fields, a refused
      one is not; through the gateway its sender is the session's user, and
      nothing happens on any route without a live session.
    - Rooms.  A room is an ordered map; under every interleaving the buckets and
      rooms stay consistent and a member is never lost to the collection of empty
      rooms, even if the goroutine that collects had seen the room empty before
      the member joined; a broadcast reaches each member with room in its buffer once.
    - Connections.  No done channel is closed twice, no buffer overflows, a
      connection is served only to the session's user, an ended one is in no
      room, a replaced one cannot disturb its successor, writes are in order.
    - Delivery.  Private, group and room messages go to the right nodes and users
      only, once per node, and without failures to all of them; for a group these
      are the users of the cached set, stale or not, if there is one, else those
      of MySQL.
      The private messages of a partition are pushed in its order, its group
      messages in order, each until an attempt returns without an error (or it
      does not decode).  A message posted to the gateway
      reaches, stage by stage and without failing calls, the send buffer of its connected recipient, of
      every connected other member of the group, or of every user who has
      joined the room.  A fan-out ends, whatever its goroutines do, and cannot get stuck.
    - Persistence.  A marked record is in MySQL; redelivery changes nothing; if
      the records from some offset to the committed one are in MySQL, this stays
      so as the group goes on.
    - Processes.  The topics produced are the topics consumed; a connect node is
      listed under the address it listens on exactly while it runs; the task
      process tells its consumers to stop, then closes what it has opened in
      reverse order; the logging interceptor is transparent.
    - Known limits of the code, as theorems: ids of two processes collide; a
      second message without client id is dropped; a row that does not fit its
      table blocks its partition; the end of a connection unroutes a user who has
      moved to another node; the groups listed at login are selected by row id;
      a slow rebuild leaves a stale member set after the second deletion; a node
      whose gRPC port is taken ends by log.Fatal and stays listed; a consumer group without a committed
      offset skips records; the logic process is stopped without cleaning up.
      (And [ConnectSpec.null_message_panics]: the text null ends a connect node.)

    ** Bounds

    int64 and uint64 values are [Z], wrapped where the code can leave the range
    ([wrap_i64], [wrap_u64], [wrap_i32]).  The theorems on message ids assume a
    clock below 2^43 ms (the year 2248), where the shift by 20 still fits.
    FormatInt uses 20 digits of fuel: every uint64 has at most 20.  A group of
    goroutines gets as fuel the number of its steps, and [wp_errgroup_run] proves
    that it ends within it.  Loops that
    wait (retries, pumps) take the list of their turns: the theorems hold for
    every such list, so no bound is chosen; what they say of a loop is what it
    has done after any number of turns.

    ** What is not modelled

    In System.v the three topics have different names and a body decodes to
    numbers in int64.

    Of singleflight the keys (logic/store.go, the group id; task/consumer.go,
    refresh_group and the group id) and the table of calls in flight are not
    modelled: the result a goroutine shares is an argument of [Store.sg_do] and
    of the handlers of Consumer, and arbitrary in their theorems.  In
    [GroupPool.group_prog] and [System.sys_prog] callers share no successful
    result: a rebuild of the member cache is a call of its own there.

    A handler under [Logging.ZapGrpcLogger] writes no log lines of its own; the
    real handlers also send the trace lines of their SQL statements through the
    same Logger (common/db.go).  The password_hash of a user is left out of
    [Schema.user_fit]: bcrypt hashes have 60 bytes, its column takes 100.

    The generated gRPC stubs, the encoders and files of zap, the listeners and
    the internals of sarama: library code.  In the programs of the main
    functions the calls of the services are not interleaved with those of
    Process.v: the two are linked by what main starts (handlers, topics,
    addresses); Offsets.v writes out what sarama makes of the offsets of a consumer
    group and the configuration the code gives it.  WebSocket
    deadlines and pings appear as inputs of the pumps.  When a
    fan-out is cancelled the code returns while its goroutines finish: FanOut has
    these runs, in Consumer they finish first.  A caller that finds [closeOnce] taken
    does not wait for the first caller, which admits more interleavings than Go.
    Timeouts are failures that may strike any call. *)

From Stdlib Require Import ZArith Lia String.
From stdpp Require Import base tactics list gmap strings.

Declare Scope prog_scope.
Delimit Scope prog_scope with prog.

(** ** Go errors

    Every [error] value the code creates or receives.  [ErrMsg] is
    [errors.New]/[fmt.Errorf], [ErrStatus] is [status.Error]/[status.Errorf],
    [ErrRecordNotFound] is gorm's sentinel, [ErrExt] is an error produced by a
    library, a driver or the network with its text. *)
Inductive code :=
| Unknown | InvalidArgument | NotFound | PermissionDenied
| FailedPrecondition | Internal | Unavailable.

Inductive error :=
| ErrMsg (msg : string)
| ErrStatus (c : code) (msg : string)
| ErrRecordNotFound
| ErrExt (msg : string).

#[export] Instance code_eq_dec : EqDecision code.
Proof. solve_decision. Defined.
#[export] Instance error_eq_dec : EqDecision error.
Proof. solve_decision. Defined.

(** The pair [(value, error)] a Go function returns: either the error is nil
    and the value counts, or the error is set. *)
Inductive res (A : Type) :=
| Ok (a : A)
| Err (e : error).
Arguments Ok {A} _.
Arguments Err {A} _.

Definition is_ok {A} (r : res A) : bool :=
  match r with Ok _ => true | Err _ => false end.

Definition res_map {A B} (f : A -> B) (r : res A) : res B :=
  match r with Ok a => Ok (f a) | Err e => Err e end.

Definition code_string (c : code) : string :=
  match c with
  | Unknown => "Unknown"
  | InvalidArgument => "InvalidArgument"
  | NotFound => "NotFound"
  | PermissionDenied => "PermissionDenied"
  | FailedPrecondition => "FailedPrecondition"
  | Internal => "Internal"
  | Unavailable => "Unavailable"
  end.

(** [err.Error()]. *)
Definition Error (e : error) : string :=
  match e with
  | ErrMsg s => s
  | ErrStatus c s => "rpc error: code = " ++ code_string c ++ " desc = " ++ s
  | ErrRecordNotFound => "record not found"
  | ErrExt s => s
  end.

(** ** Tactics of the development *)

(** Split a conjunction and close the branches [done] or [lia] closes. *)
Ltac split_lia := repeat split; try done; try lia.

(** Destruct the scrutinee of a [match] in a hypothesis, keeping the equation. *)
Ltac case_on_hyp H :=
  match type of H with
  | context [match ?x with _ => _ end] => destruct x eqn:?
  end.

(** ** Lists *)

Lemma filter_none {A} (P : A -> Prop) `{forall x, Decision (P x)} (l : list A) :
  (forall x, x ∈ l -> ~ P x) -> filter P l = [].
Proof.
  intros Hn. destruct (filter P l) as [|x l'] eqn:Hf; [done|]. exfalso.
  assert (x ∈ filter P l) as Hx by (rewrite Hf; constructor).
  apply list_elem_of_filter in Hx as [HP Hx]. by eapply Hn.
Qed.

Lemma fmap_omap {A B C} (f : A -> option B) (g : B -> C) (l : list A) :
  g <$> omap f l = omap (fun x => g <$> f x) l.
Proof. induction l as [|x l IH]; [done|]. cbn. destruct (f x); cbn; by rewrite IH. Qed.

Lemma filter_omap {A B} (P : B -> Prop) `{forall x, Decision (P x)} (f : A -> option B) (l : list A) :
  filter P (omap f l) = omap (fun x => y ← f x; if decide (P y) then Some y else None) l.
Proof.
  induction l as [|x l IH]; [done|]. cbn. destruct (f x) as [y|]; [|done].
  cbn. by case_decide; rewrite <- IH.
Qed.

Lemma omap_list_filter {A B} (P : A -> Prop) `{forall x, Decision (P x)} (f : A -> option B) (l : list A) :
  omap f (filter P l) = omap (fun x => if decide (P x) then f x else None) l.
Proof. induction l as [|x l IH]; [done|]. rewrite filter_cons. cbn. case_decide; cbn; by rewrite IH. Qed.

Lemma filter_all {A} (P : A -> Prop) `{forall x, Decision (P x)} (l : list A) :
  (forall x, x ∈ l -> P x) -> filter P l = l.
Proof.
  induction l as [|x l IH]; intros Hall; [done|]. rewrite filter_cons, decide_True by (apply Hall; constructor).
  rewrite IH; [done|]. intros y Hy. apply Hall. by constructor.
Qed.

Lemma filter_ext_in {A} (P Q : A -> Prop) `{forall x, Decision (P x)} `{forall x, Decision (Q x)} (l : list A) :
  (forall x, x ∈ l -> P x <-> Q x) -> filter P l = filter Q l.
Proof.
  induction l as [|x l IH]; intros Hpq; [done|]. rewrite !filter_cons.
  rewrite IH by (intros y Hy; apply Hpq; by constructor).
  apply decide_ext, Hpq. by constructor.
Qed.

Lemma NoDup_fmap_filter {A B} (f : A -> B) (P : A -> Prop) `{forall x, Decision (P x)} (l : list A) :
  NoDup (f <$> l) -> NoDup (f <$> filter P l).
Proof.
  induction l as [|x l IH]; [done|]. intros [Hx Hl]%NoDup_cons. rewrite filter_cons. case_decide; [|auto].
  apply NoDup_cons. split; [|auto]. contradict Hx.
  apply list_elem_of_fmap in Hx as (y & Hy & [_ Hin]%list_elem_of_filter). apply list_elem_of_fmap. eauto.
Qed.

Lemma sublist_in {A} (l k : list A) x : sublist l k -> x ∈ l -> x ∈ k.
Proof.
  induction 1 as [|y l k Hs IH|y l k Hs IH]; [done|..]; rewrite ?elem_of_cons; tauto.
Qed.

Lemma omap_ext_in {A B} (f g : A -> option B) (l : list A) :
  (forall x, x ∈ l -> f x = g x) -> omap f l = omap g l.
Proof.
  induction l as [|x l IH]; intros Hfg; [done|]. cbn. rewrite (Hfg x) by constructor.
  rewrite IH; [done|]. intros y Hy. apply Hfg. by constructor.
Qed.

(** ** Machine integers

    Go's [int64] and [uint64] values are [Z]; arithmetic that can leave the
    range is wrapped explicitly. *)
Definition min_int64 : Z := -(2 ^ 63).
Definition max_int64 : Z := 2 ^ 63 - 1.
Definition in_int64 (z : Z) : Prop := (min_int64 <= z <= max_int64)%Z.

#[export] Instance in_int64_dec z : Decision (in_int64 z).
Proof. unfold in_int64. apply _. Defined.

Definition wrap_u64 (z : Z) : Z := (z mod 2 ^ 64)%Z.
Definition wrap_i64 (z : Z) : Z := ((z + 2 ^ 63) mod 2 ^ 64 - 2 ^ 63)%Z.

Lemma wrap_i64_id z : in_int64 z -> wrap_i64 z = z.
Proof.
  unfold in_int64, min_int64, max_int64, wrap_i64. intros.
  rewrite Z.mod_small; lia.
Qed.

Lemma wrap_i64_range z : in_int64 (wrap_i64 z).
Proof.
  unfold in_int64, min_int64, max_int64, wrap_i64.
  pose proof (Z.mod_pos_bound (z + 2 ^ 63) (2 ^ 64) ltac:(lia)). lia.
Qed.

Lemma wrap_u64_range z : (0 <= wrap_u64 z < 2 ^ 64)%Z.
Proof. unfold wrap_u64. apply Z.mod_pos_bound. lia. Qed.

Lemma wrap_u64_inj z1 z2 : in_int64 z1 -> in_int64 z2 -> wrap_u64 z1 = wrap_u64 z2 -> z1 = z2.
Proof.
  unfold in_int64, min_int64, max_int64, wrap_u64. intros H1 H2 Heq.
  destruct (decide (z1 < 0)%Z), (decide (z2 < 0)%Z);
    repeat match goal with
    | H : (?z < 0)%Z |- _ =>
        rewrite (Z.mod_eq z (2 ^ 64)) in Heq by lia;
        assert (z / 2 ^ 64 = -1)%Z as Hq by (symmetry; apply (Z.div_unique_pos _ _ _ (z + 2 ^ 64)); lia);
        rewrite Hq in Heq; clear Hq; revert H
    | H : ~ (?z < 0)%Z |- _ => rewrite (Z.mod_small z) in Heq by lia; revert H
    end; lia.
Qed.

Create HintDb chat discriminated.
#[export] Hint Resolve wrap_i64_range wrap_u64_range : chat.
