(* ===== verification/GoStd.v ===== *)
(** * Go's standard library, as far as the code uses it

    [strconv.FormatInt] and [strconv.ParseInt] in base 10 (session values, user
    ids in Redis keys and set members), [strings.Contains] (the consumers' error
    dispatch), and the round trip between the two conversions. *)

From Stdlib Require Import ZArith Lia String Ascii.
From stdpp Require Import base tactics list strings.
From S2P Require Import Prelude.

Local Open Scope Z_scope.

(** ** strconv.FormatInt(z, 10) *)

Definition digit_char (d : Z) : ascii := ascii_of_nat (48 + Z.to_nat d).

Fixpoint fmt_digits (fuel : nat) (n : Z) (acc : string) : string :=
  match fuel with
  | O => acc
  | S f =>
      let acc' := String (digit_char (n mod 10)) acc in
      if n <? 10 then acc' else fmt_digits f (n / 10) acc'
  end.

(** Twenty digits hold every [uint64]. *)
Definition FormatInt (z : Z) : string :=
  if z <? 0 then String "-" (fmt_digits 20 (- z) "") else fmt_digits 20 z "".

(** ** strconv.ParseInt(s, 10, 64) *)

Definition digit_val (c : ascii) : option Z :=
  let n := Z.of_nat (nat_of_ascii c) in
  if (48 <=? n) && (n <=? 57) then Some (n - 48) else None.

Definition ErrSyntax : error := ErrExt "strconv.ParseInt: invalid syntax".
Definition ErrRange : error := ErrExt "strconv.ParseInt: value out of range".

(** The digit loop of ParseUint: [cutoff] is [maxUint64/10 + 1]. *)
Definition cutoff : Z := (2 ^ 64 - 1) / 10 + 1.

Fixpoint parse_digits (s : string) (n : Z) : res Z :=
  match s with
  | EmptyString => Ok n
  | String c s' =>
      match digit_val c with
      | None => Err ErrSyntax
      | Some d =>
          if cutoff <=? n then Err ErrRange
          else if 2 ^ 64 - 1 <? n * 10 + d then Err ErrRange
          else parse_digits s' (n * 10 + d)
      end
  end.

Definition parse_uint (s : string) : res Z :=
  match s with EmptyString => Err ErrSyntax | _ => parse_digits s 0 end.

Definition ParseInt (s : string) : res Z :=
  match s with
  | EmptyString => Err ErrSyntax
  | String c s' =>
      let neg := Ascii.eqb c "-" in
      let body := if neg || Ascii.eqb c "+" then s' else s in
      match parse_uint body with
      | Err e => Err e
      | Ok un =>
          if negb neg && (2 ^ 63 <=? un) then Err ErrRange
          else if neg && (2 ^ 63 <? un) then Err ErrRange
          else Ok (if neg then - un else un)
      end
  end.

(** ** strings.Contains *)
Definition Contains (s substr : string) : bool :=
  match String.index 0 substr s with Some _ => true | None => false end.

(** ** The round trip *)

Lemma digit_val_char d : 0 <= d < 10 -> digit_val (digit_char d) = Some d.
Proof.
  intros Hd. unfold digit_val, digit_char.
  rewrite nat_ascii_embedding by lia.
  replace (Z.of_nat (48 + Z.to_nat d)) with (48 + d) by lia.
  destruct (48 <=? 48 + d) eqn:H1; [|lia]. destruct (48 + d <=? 57) eqn:H2; [|lia].
  simpl. f_equal. lia.
Qed.

Lemma cutoff_val : cutoff = 1844674407370955162.
Proof. reflexivity. Qed.

(** One digit more: the loop rebuilds [n] from its quotient. *)
Lemma parse_digit_step n acc :
  0 <= n < 2 ^ 64 ->
  parse_digits (String (digit_char (n mod 10)) acc) (n / 10) = parse_digits acc n.
Proof.
  intros Hn. cbn [parse_digits].
  pose proof (Z.mod_pos_bound n 10 ltac:(lia)).
  pose proof (Z.div_mod n 10 ltac:(lia)).
  rewrite digit_val_char by lia. rewrite cutoff_val.
  destruct (_ <=? n / 10) eqn:H1; [lia|].
  destruct (_ <? _) eqn:H2; [lia|]. f_equal. lia.
Qed.

Lemma parse_fmt_digits fuel n acc :
  0 <= n < 2 ^ 64 -> n < 10 ^ Z.of_nat fuel ->
  parse_digits (fmt_digits fuel n acc) 0 = parse_digits acc n.
Proof.
  revert n acc. induction fuel as [|f IH]; intros n acc Hn Hf.
  - cbn [fmt_digits]. replace n with 0; [done|]. simpl in Hf. lia.
  - cbn [fmt_digits]. destruct (n <? 10) eqn:Hlt.
    + rewrite <- (parse_digit_step n) by done. f_equal.
      symmetry. apply Z.div_small. lia.
    + rewrite IH; [by apply parse_digit_step| |].
      * pose proof (Z.div_pos n 10). pose proof (Z.div_le_upper_bound n 10 n). lia.
      * apply Z.div_lt_upper_bound; [lia|].
        rewrite Nat2Z.inj_succ, Z.pow_succ_r in Hf by lia. lia.
Qed.

Lemma fmt_digits_head fuel n acc :
  (0 < fuel)%nat -> 0 <= n ->
  exists d s, fmt_digits fuel n acc = String (digit_char d) s /\ 0 <= d < 10.
Proof.
  revert n acc. induction fuel as [|f IH]; intros n acc Hf Hn; [lia|].
  cbn [fmt_digits]. pose proof (Z.mod_pos_bound n 10 ltac:(lia)).
  destruct (n <? 10); [eauto|]. destruct f as [|f]; [eauto|].
  apply IH; [lia|]. apply Z.div_pos; lia.
Qed.

Lemma digit_char_not_sign d c : 0 <= d < 10 -> (c = "-" \/ c = "+")%char -> Ascii.eqb (digit_char d) c = false.
Proof.
  intros Hd Hc. apply Ascii.eqb_neq. intros Heq.
  pose proof (digit_val_char d Hd) as Hv. rewrite Heq in Hv.
  destruct Hc as [-> | ->]; discriminate.
Qed.

Lemma parse_uint_fmt n : 0 <= n < 2 ^ 64 -> parse_uint (fmt_digits 20 n "") = Ok n.
Proof.
  intros Hn. unfold parse_uint.
  destruct (fmt_digits_head 20 n "") as (d & s & Heq & _); [lia|lia|].
  rewrite Heq, <- Heq. rewrite parse_fmt_digits; [done|done|]. simpl. lia.
Qed.

(** The conversion the sessions rely on: a user id survives the trip through
    Redis. *)
Theorem ParseInt_FormatInt z : in_int64 z -> ParseInt (FormatInt z) = Ok z.
Proof.
  unfold in_int64, min_int64, max_int64. intros Hz. unfold FormatInt.
  destruct (z <? 0) eqn:Hneg.
  - unfold ParseInt. rewrite Ascii.eqb_refl. simpl orb. cbv iota.
    rewrite parse_uint_fmt by lia. simpl negb. simpl andb. cbv iota.
    destruct (2 ^ 63 <? - z) eqn:?; [lia|]. f_equal. lia.
  - destruct (fmt_digits_head 20 z "") as (d & s & Heq & Hd); [lia|lia|].
    unfold ParseInt. rewrite Heq, !digit_char_not_sign by auto. simpl orb. cbv iota.
    rewrite <- Heq. rewrite parse_uint_fmt by lia. simpl negb. simpl andb.
    destruct (2 ^ 63 <=? z) eqn:?; [lia|]. done.
Qed.

Lemma FormatInt_inj z1 z2 : in_int64 z1 -> in_int64 z2 -> FormatInt z1 = FormatInt z2 -> z1 = z2.
Proof.
  intros H1 H2 Heq. apply ParseInt_FormatInt in H1, H2.
  rewrite Heq, H2 in H1. by injection H1.
Qed.

Lemma parse_digits_range s n m : 0 <= n < 2 ^ 64 -> parse_digits s n = Ok m -> 0 <= m < 2 ^ 64.
Proof.
  revert n. induction s as [|c s IH]; intros n Hn; cbn [parse_digits].
  - by intros [= ->].
  - unfold digit_val.
    destruct ((48 <=? _) && _) eqn:Hd; [|done].
    apply andb_prop in Hd as [Hd1 Hd2].
    destruct (cutoff <=? n); [done|]. destruct (_ <? _) eqn:Hr; [done|].
    apply IH. lia.
Qed.

Lemma ParseInt_range s z : ParseInt s = Ok z -> in_int64 z.
Proof.
  unfold ParseInt, in_int64, min_int64, max_int64. destruct s as [|c s]; [done|].
  set (body := if Ascii.eqb c "-" || Ascii.eqb c "+" then s else String c s).
  destruct (parse_uint body) as [un|] eqn:Hp; [|done].
  assert (0 <= un < 2 ^ 64) as Hu.
  { unfold parse_uint in Hp. destruct body; [done|]. by eapply parse_digits_range, Hp. }
  destruct (Ascii.eqb c "-"); simpl; intros H; repeat case_on_hyp H; simplify_eq; lia.
Qed.

#[export] Hint Resolve ParseInt_range : chat.
