(* ===== verification/Effects.v ===== *)
(** * Effectful programs

    The Go functions of the repository are straight-line code around calls that
    leave the process (Redis, MySQL, Kafka, gRPC) or touch memory shared by
    goroutines.  A function body is a value of [prog E A]: a tree whose nodes
    are those calls (events of type [E]) and whose leaves are the returned
    values, so that the translation keeps the order of the calls and every early
    return.

    - [run] executes a program against a handler (a concrete environment);
    - [wp] is the weakest precondition against a relation [ext] that says what
      each event may do to the observable state;
    - [rg] is its rely-guarantee variant: between two events of the program any
      other program may run, and only an invariant [I g] indexed by a growing
      ghost state [g] is known;
    - [pool_step] interleaves any number of programs, and [pool_invariant] turns
      [rg] into an invariant of every reachable state. *)

From Stdlib Require Import Relations.
From stdpp Require Import base tactics list relations.
From S2P Require Import Prelude.

Set Default Proof Using "Type".

Inductive prog (E : Type -> Type) (A : Type) : Type :=
| Ret (a : A)
| Vis {X : Type} (e : E X) (k : X -> prog E A).
Arguments Ret {E A} a.
Arguments Vis {E A X} e k.

Fixpoint bind {E A B} (p : prog E A) (f : A -> prog E B) : prog E B :=
  match p with
  | Ret a => f a
  | Vis e k => Vis e (fun x => bind (k x) f)
  end.

(** The program has returned. *)
Definition finished {E A} (p : prog E A) : Prop := exists a, p = Ret a.

(** One call. *)
Definition call {E A} (e : E A) : prog E A := Vis e Ret.

Notation "x <- p ;; k" := (bind p (fun x => k))
  (at level 100, p at next level, right associativity) : prog_scope.
Notation "p ;; k" := (bind p (fun _ => k))
  (at level 100, right associativity) : prog_scope.
(** [x, err := p; if err != nil { return err }]. *)
Notation "'try' x <- p ;; k" :=
  (bind p (fun r => match r with Ok x => k | Err e => Ret (Err e) end))
  (at level 100, x name, p at next level, right associativity) : prog_scope.

Open Scope prog_scope.

(** A loop over a slice. *)
Fixpoint for_each {E A} (l : list A) (body : A -> prog E unit) : prog E unit :=
  match l with
  | [] => Ret tt
  | a :: l' => body a ;; for_each l' body
  end.

Lemma bind_ret_r {E A} (p : prog E A) (B : Type) (f : A -> prog E B) a :
  bind (Ret a) f = f a.
Proof. done. Qed.

(** ** Execution against a handler *)
Section run.
Context {E : Type -> Type} {W : Type}.
Variable handle : forall X, E X -> W -> X * W.

Fixpoint run {A} (p : prog E A) (w : W) : A * W :=
  match p with
  | Ret a => (a, w)
  | Vis e k => let '(x, w') := handle _ e w in run (k x) w'
  end.

Lemma run_bind {A B} (p : prog E A) (f : A -> prog E B) w :
  run (bind p f) w = let '(a, w') := run p w in run (f a) w'.
Proof.
  revert w. induction p as [a|X e k IH]; intros w; cbn; [done|].
  destruct (handle X e w). apply IH.
Qed.
End run.

(** ** Weakest preconditions *)
Section wp.
Context {E : Type -> Type} {S : Type}.
Variable ext : forall X, E X -> S -> X -> S -> Prop.

Fixpoint wp {A} (p : prog E A) (s : S) (Q : A -> S -> Prop) : Prop :=
  match p with
  | Ret a => Q a s
  | Vis e k => forall x s', ext _ e s x s' -> wp (k x) s' Q
  end.

Lemma wp_mono {A} (p : prog E A) s (Q Q' : A -> S -> Prop) :
  wp p s Q -> (forall a s', Q a s' -> Q' a s') -> wp p s Q'.
Proof. revert s. induction p as [a|X e k IH]; cbn; intros s H HQ; eauto. Qed.

Lemma wp_bind {A B} (p : prog E A) (f : A -> prog E B) s Q :
  wp (bind p f) s Q <-> wp p s (fun a s' => wp (f a) s' Q).
Proof.
  revert s. induction p as [a|X e k IH]; cbn; intros s; [done|].
  split; intros H x s' Hx; apply IH; eauto.
Qed.

Lemma wp_and {A} (p : prog E A) s (Q1 Q2 : A -> S -> Prop) :
  wp p s Q1 -> wp p s Q2 -> wp p s (fun a s' => Q1 a s' /\ Q2 a s').
Proof. revert s. induction p as [a|X e k IH]; cbn; intros s H1 H2; eauto. Qed.

(** A loop keeps an invariant indexed by the elements already done. *)
Lemma wp_for_each {A} (l : list A) (body : A -> prog E unit) (J : list A -> S -> Prop) s :
  J [] s ->
  (forall pre a rest s', l = pre ++ a :: rest -> J pre s' ->
    wp (body a) s' (fun _ s'' => J (pre ++ [a]) s'')) ->
  wp (for_each l body) s (fun _ s' => J l s').
Proof.
  intros Hinit Hstep.
  enough (forall todo pre s', l = pre ++ todo -> J pre s' ->
    wp (for_each todo body) s' (fun _ s'' => J l s'')) as H by (by apply (H l [])).
  induction todo as [|a todo IH]; intros pre s' Hl HJ; cbn.
  - by rewrite Hl, app_nil_r.
  - apply wp_bind. eapply wp_mono; [by eapply Hstep|].
    intros u s'' HJ'. apply (IH (pre ++ [a])); [|exact HJ'].
    by rewrite <- app_assoc.
Qed.
End wp.

(** What holds against the relation holds for every handler that respects it. *)
Lemma run_wp {E : Type -> Type} {S W : Type} (ext : forall X, E X -> S -> X -> S -> Prop)
    (handle : forall X, E X -> W -> X * W) (view : W -> S)
    (Hdoc : forall X (e : E X) w x w', handle X e w = (x, w') -> ext X e (view w) x (view w'))
    {A} (p : prog E A) w (Q : A -> S -> Prop) :
  wp ext p (view w) Q -> forall a w', run handle p w = (a, w') -> Q a (view w').
Proof.
  revert w. induction p as [a|X e k IH]; cbn; intros w H a' w' Hrun.
  - by injection Hrun as <- <-.
  - destruct (handle X e w) as [x w1] eqn:Hh. eapply IH; [|done]. eauto.
Qed.

(** ** Rely-guarantee reasoning and interleavings *)
Section rg.
Context {E : Type -> Type} {S G : Type}.
Variable ext : forall X, E X -> S -> X -> S -> Prop.
(** What the rest of the world does on its own (spawned goroutines). *)
Variable env : S -> S -> Prop.
Context (le : G -> G -> Prop) `{!PreOrder le}.
Variable I : G -> S -> Prop.

Fixpoint rg {A} (g : G) (p : prog E A) (Q : G -> A -> Prop) : Prop :=
  match p with
  | Ret a => Q g a
  | Vis e k =>
      forall g1 s x s', le g g1 -> I g1 s -> ext _ e s x s' ->
      exists g2, le g1 g2 /\ I g2 s' /\ rg g2 (k x) Q
  end.

Lemma rg_conseq {A} g (p : prog E A) (Q Q' : G -> A -> Prop) :
  rg g p Q -> (forall g' a, le g g' -> Q g' a -> Q' g' a) -> rg g p Q'.
Proof using PreOrder0.
  revert g. induction p as [a|X e k IH]; cbn; intros g H HQ; [by apply HQ|].
  intros g1 s x s' Hle HI Hx. destruct (H _ _ _ _ Hle HI Hx) as (g2 & Hle2 & HI2 & Hk).
  exists g2. split_and!; [done|done|]. eapply IH; [done|].
  intros g' a Hg'. apply HQ. by transitivity g2; [transitivity g1|].
Qed.

Lemma rg_bind {A B} g (p : prog E A) (f : A -> prog E B) Q :
  rg g p (fun g' a => rg g' (f a) Q) -> rg g (bind p f) Q.
Proof.
  revert g. induction p as [a|X e k IH]; cbn; intros g H; [done|].
  intros g1 s x s' Hle HI Hx. destruct (H _ _ _ _ Hle HI Hx) as (g2 & Hle2 & HI2 & Hk).
  exists g2. auto.
Qed.

Lemma rg_later {A} g g' (p : prog E A) (Q : G -> A -> Prop) :
  le g g' -> (forall g1 g2 a, le g1 g2 -> Q g1 a -> Q g2 a) -> rg g p Q -> rg g' p Q.
Proof using PreOrder0.
  intros Hle HQ. destruct p as [a|X e k]; cbn; [by apply HQ|].
  intros H g1 s x s' Hle1. apply H. by transitivity g'.
Qed.

(** A program that runs alone keeps the invariant too. *)
Lemma wp_rg {A} g (p : prog E A) Q s :
  rg g p Q -> I g s -> wp ext p s (fun a s' => exists g', le g g' /\ I g' s' /\ Q g' a).
Proof using PreOrder0.
  revert g s. induction p as [a|X e k IH]; cbn; intros g s H HI; [by exists g|].
  intros x s' Hx. destruct (H g s x s' ltac:(reflexivity) HI Hx) as (g2 & Hle & HI2 & Hk).
  eapply wp_mono; [by apply (IH x g2)|]. intros a s2 (g' & Hle' & Hrest). exists g'. split; [by transitivity g2|done].
Qed.

(** The rules of [wp] serve for [rg], one event at a time. *)
Lemma rg_vis {A X} g (e : E X) (k : X -> prog E A) Q :
  (forall g1 s, le g g1 -> I g1 s ->
    wp ext (call e) s (fun x s' => exists g2, le g1 g2 /\ I g2 s' /\ rg g2 (k x) Q)) ->
  rg g (Vis e k) Q.
Proof. cbn. intros H g1 s x s' Hle HI Hx. by apply (H g1 s). Qed.

(** An event that leaves the invariant alone, and a program of such events. *)
Definition keeps {X} (e : E X) : Prop := forall g s x s', I g s -> ext X e s x s' -> I g s'.

Fixpoint all_events {A} (P : forall X, E X -> Prop) (p : prog E A) : Prop :=
  match p with
  | Ret _ => True
  | Vis e k => P _ e /\ forall x, all_events P (k x)
  end.

Lemma all_events_bind {A B} (P : forall X, E X -> Prop) (p : prog E A) (f : A -> prog E B) :
  all_events P p -> (forall a, all_events P (f a)) -> all_events P (bind p f).
Proof. intros Hp Hf. induction p as [a|X e k IH]; cbn in *; [auto|]. destruct Hp. auto. Qed.

Lemma all_events_impl {A} (P P' : forall X, E X -> Prop) (p : prog E A) :
  (forall X e, P X e -> P' X e) -> all_events P p -> all_events P' p.
Proof. intros HP. induction p as [a|X e k IH]; cbn; [done|]. intros [He Hk]. auto. Qed.

Lemma rg_all_events {A} g (p : prog E A) : all_events (@keeps) p -> rg g p (fun _ _ => True).
Proof using PreOrder0.
  revert g. induction p as [a|X e k IH]; cbn; [done|]. intros g [He Hk] g1 s x s' Hle HI Hx. exists g1.
  split; [reflexivity|]. split; [by eapply He|auto].
Qed.

(** Threads of one service, requests arriving at any moment; which may arrive
    can depend on the state. *)
Context {A : Type} (Req : S -> prog E A -> Prop).

Inductive pool_step : list (prog E A) * S -> list (prog E A) * S -> Prop :=
| pool_arrive ps s p : Req s p -> pool_step (ps, s) (ps ++ [p], s)
| pool_event ps s i X (e : E X) k x s' :
    ps !! i = Some (Vis e k) -> ext X e s x s' ->
    pool_step (ps, s) (<[i := k x]> ps, s')
| pool_env ps s s' : env s s' -> pool_step (ps, s) (ps, s').

Definition open_reachable : list (prog E A) * S -> list (prog E A) * S -> Prop :=
  rtc pool_step.

(** What a thread that has finished answers; it stays true. *)
Context (Post : G -> A -> Prop).
Hypothesis Post_mono : forall g1 g2 a, le g1 g2 -> Post g1 a -> Post g2 a.
Hypothesis env_ok : forall g s s', I g s -> env s s' -> exists g', le g g' /\ I g' s'.
Hypothesis req_ok : forall g s p, I g s -> Req s p -> exists g', le g g' /\ I g' s /\ rg g' p Post.

Lemma open_invariant_post ps s ps' s' g :
  open_reachable (ps, s) (ps', s') ->
  I g s -> Forall (fun p => rg g p Post) ps ->
  exists g', le g g' /\ I g' s' /\ Forall (fun p => rg g' p Post) ps'.
Proof using PreOrder0 env_ok req_ok Post_mono.
  intros Hr. remember (ps, s) as c eqn:Hc. remember (ps', s') as c' eqn:Hc'.
  revert g ps s Hc. induction Hr as [c|c c1 c2 Hstep Hr IH]; intros g ps s Hc HI Hps.
  - simplify_eq. by exists g.
  - specialize (IH Hc').
    assert (forall g2 ps2, le g g2 -> Forall (fun p => rg g p Post) ps2 -> Forall (fun p => rg g2 p Post) ps2) as Hlater.
    { intros g2 ps2 Hle Hps2. eapply Forall_impl; [exact Hps2|]. intros p Hp. by eapply rg_later. }
    destruct Hstep as [ps1 s1 p Hp|ps1 s1 i X e k x s2 Hi Hx|ps1 s1 s2 He]; simplify_eq.
    + destruct (req_ok _ _ _ HI Hp) as (g2 & Hle & HI2 & Hk).
      destruct (IH g2 _ _ eq_refl HI2) as (g' & Hle' & Hrest).
      { apply Forall_app; split; [by apply Hlater|]. by constructor. }
      exists g'. split; [by transitivity g2|done].
    + pose proof (Forall_lookup_1 _ _ _ _ Hps Hi) as Hk. cbn in Hk.
      destruct (Hk g _ _ _ ltac:(reflexivity) HI Hx) as (g2 & Hle & HI2 & Hkx).
      destruct (IH g2 _ _ eq_refl HI2) as (g' & Hle' & Hrest); [apply Forall_insert; [by apply Hlater|done]|].
      exists g'. split; [by transitivity g2|done].
    + destruct (env_ok _ _ _ HI He) as (g2 & Hle & HI2).
      destruct (IH g2 _ _ eq_refl HI2) as (g' & Hle' & Hrest); [by apply Hlater|].
      exists g'. split; [by transitivity g2|done].
Qed.
End rg.

(** Requests that may always arrive. *)
Definition pool_reachable {E : Type -> Type} {S A : Type} (ext : forall X, E X -> S -> X -> S -> Prop) (env : S -> S -> Prop)
    (Req : prog E A -> Prop) := open_reachable ext env (fun _ => Req).

Lemma pool_invariant_post {E : Type -> Type} {S G A : Type} (ext : forall X, E X -> S -> X -> S -> Prop) (env : S -> S -> Prop)
    (le : G -> G -> Prop) `{!PreOrder le} (I : G -> S -> Prop) (Req : prog E A -> Prop) (Post : G -> A -> Prop) :
  (forall g1 g2 a, le g1 g2 -> Post g1 a -> Post g2 a) ->
  (forall g s s', I g s -> env s s' -> exists g', le g g' /\ I g' s') ->
  (forall g p, Req p -> rg ext le I g p Post) ->
  forall ps s ps' s' g, pool_reachable ext env Req (ps, s) (ps', s') ->
  I g s -> Forall (fun p => rg ext le I g p Post) ps ->
  exists g', le g g' /\ I g' s' /\ Forall (fun p => rg ext le I g' p Post) ps'.
Proof.
  intros HP He Hr ps s ps' s' g Hrun. apply (open_invariant_post ext env le I (fun _ => Req)); [done..| |exact Hrun].
  intros g0 s0 p HI Hp. exists g0. split; [reflexivity|]. auto.
Qed.

Lemma pool_invariant {E : Type -> Type} {S G A : Type} (ext : forall X, E X -> S -> X -> S -> Prop) (env : S -> S -> Prop)
    (le : G -> G -> Prop) `{!PreOrder le} (I : G -> S -> Prop) (Req : prog E A -> Prop) :
  (forall g s s', I g s -> env s s' -> exists g', le g g' /\ I g' s') ->
  (forall g p, Req p -> rg ext le I g p (fun _ _ => True)) ->
  forall ps s ps' s' g, pool_reachable ext env Req (ps, s) (ps', s') ->
  I g s -> Forall (fun p => rg ext le I g p (fun _ _ => True)) ps ->
  exists g', le g g' /\ I g' s' /\ Forall (fun p => rg ext le I g' p (fun _ _ => True)) ps'.
Proof. intros He Hr. by apply pool_invariant_post. Qed.

(** Two invariants, each with its ghost state. *)
Lemma rg_both {E : Type -> Type} {S G1 G2 A : Type} (ext : forall X, E X -> S -> X -> S -> Prop)
    (le1 : relation G1) (le2 : relation G2) (I1 : G1 -> S -> Prop) (I2 : G2 -> S -> Prop) g1 g2 (p : prog E A) Q1 Q2 :
  rg ext le1 I1 g1 p Q1 -> rg ext le2 I2 g2 p Q2 ->
  rg ext (prod_relation le1 le2) (fun g s => I1 g.1 s /\ I2 g.2 s) (g1, g2) p (fun g a => Q1 g.1 a /\ Q2 g.2 a).
Proof.
  revert g1 g2. induction p as [a|X e k IH]; intros g1 g2; cbn; [done|]. intros H1 H2 [h1 h2] s x s' [Hl1 Hl2] [HI1 HI2] Hx.
  cbn in *. destruct (H1 _ _ _ _ Hl1 HI1 Hx) as (h1' & ? & ? & ?). destruct (H2 _ _ _ _ Hl2 HI2 Hx) as (h2' & ? & ? & ?).
  exists (h1', h2'). split; [by split|]. split; [done|by apply IH].
Qed.

Lemma pool_mono {E : Type -> Type} {S A : Type} (ext : forall X, E X -> S -> X -> S -> Prop) (env : S -> S -> Prop)
    (Req Req' : prog E A -> Prop) c c' :
  (forall p, Req p -> Req' p) -> pool_reachable ext env Req c c' -> pool_reachable ext env Req' c c'.
Proof.
  intros HR. unfold pool_reachable, open_reachable. apply rtc_subrel. intros ? ? []; [apply pool_arrive; auto|by eapply pool_event|by apply pool_env].
Qed.
