(* ===== verification/Redis.v ===== *)
(** * The Redis commands the services issue

    Redis is not part of the repository.  This file only fixes the vocabulary
    of the calls the Go code makes ([rcmd], [wcmd] for the commands queued on a
    [TxPipeline], [prog rcmd] for a Lua script) and states, as [doc_cmd],
    [tx_run] and [lua_run], the behaviour the Redis documentation promises for
    them.  The services are proved against every environment whose answers
    respect that documentation (class [World] of World.v). *)

From Stdlib Require Import ZArith Lia String.
From stdpp Require Import base tactics list gmap strings.
From S2P Require Import Prelude Effects.

Local Open Scope Z_scope.

(** A key holds a string or a set of strings; [r_exp] is the instant, in
    milliseconds, at which the key expires. *)
Inductive rdata :=
| VStr (s : string)
| VSet (m : gset string).

Record rentry := REntry { r_val : rdata; r_exp : option Z }.

Abbreviation keyspace := (gmap string rentry).

Inductive rcmd : Type -> Type :=
| GET (k : string) : rcmd (option string)
| SET (k v : string) (ttl : option Z) : rcmd unit
| DEL (k : string) : rcmd Z
| EXISTS (k : string) : rcmd Z
| EXPIRE (k : string) (ttl : Z) : rcmd bool
| SADD (k : string) (ms : list string) : rcmd Z
| SREM (k : string) (ms : list string) : rcmd Z
| SISMEMBER (k m : string) : rcmd bool
| SMEMBERS (k : string) : rcmd (list string)
| MGET (ks : list string) : rcmd (list (option string)).

(** ** Documented behaviour *)

(** An expired key is never served. *)
Definition live (now : Z) (e : rentry) : Prop :=
  match r_exp e with None => True | Some d => now < d end.

#[export] Instance live_dec now e : Decision (live now e).
Proof. unfold live. destruct (r_exp e); apply _. Defined.

Definition purge (now : Z) (ks : keyspace) : keyspace :=
  filter (fun kv => live now kv.2) ks.

Definition wrongtype : error :=
  ErrExt "WRONGTYPE Operation against a key holding the wrong kind of value".
Definition bad_expire : error := ErrExt "ERR invalid expire time in 'set' command".

Definition get_string (o : option rentry) : res (option string) :=
  match o with
  | None => Ok None
  | Some (REntry (VStr s) _) => Ok (Some s)
  | Some (REntry (VSet _) _) => Err wrongtype
  end.

Definition get_set (o : option rentry) : res (gset string) :=
  match o with
  | None => Ok ∅
  | Some (REntry (VSet m) _) => Ok m
  | Some (REntry (VStr _) _) => Err wrongtype
  end.

Definition exp_of (o : option rentry) : option Z :=
  match o with None => None | Some e => r_exp e end.

Definition sadd (ms : list string) (m : gset string) : gset string := list_to_set ms ∪ m.
Definition srem (ms : list string) (m : gset string) : gset string := m ∖ list_to_set ms.

(** A set that becomes empty is removed. *)
Definition put_set (k : string) (m : gset string) (ex : option Z) (ks : keyspace) : keyspace :=
  if decide (m = ∅) then delete k ks else <[k := REntry (VSet m) ex]> ks.

(** The answer to a command and the key space after it, on a key space without
    expired keys. *)
Definition doc_cmd {A} (now : Z) (c : rcmd A) (ks : keyspace) : res A * keyspace :=
  match c in rcmd A return res A * keyspace with
  | GET k => (get_string (ks !! k), ks)
  | SET k v None => (Ok tt, <[k := REntry (VStr v) None]> ks)
  | SET k v (Some ttl) =>
      if decide (ttl <= 0) then (Err bad_expire, ks)
      else (Ok tt, <[k := REntry (VStr v) (Some (now + ttl))]> ks)
  | DEL k => (Ok (match ks !! k with Some _ => 1 | None => 0 end), delete k ks)
  | EXISTS k => (Ok (match ks !! k with Some _ => 1 | None => 0 end), ks)
  | EXPIRE k ttl =>
      match ks !! k with
      | None => (Ok false, ks)
      | Some e =>
          (Ok true, if decide (ttl <= 0) then delete k ks
                    else <[k := REntry (r_val e) (Some (now + ttl))]> ks)
      end
  | SADD k ms =>
      match ms, get_set (ks !! k) with
      | [], _ => (Err (ErrExt "ERR wrong number of arguments for 'sadd' command"), ks)
      | _, Err e => (Err e, ks)
      | _, Ok m =>
          (Ok (Z.of_nat (size (sadd ms m) - size m)),
           put_set k (sadd ms m) (exp_of (ks !! k)) ks)
      end
  | SREM k ms =>
      match get_set (ks !! k) with
      | Err e => (Err e, ks)
      | Ok m =>
          (Ok (Z.of_nat (size m - size (srem ms m))),
           put_set k (srem ms m) (exp_of (ks !! k)) ks)
      end
  | SISMEMBER k m =>
      match get_set (ks !! k) with
      | Err e => (Err e, ks)
      | Ok s => (Ok (bool_decide (m ∈ s)), ks)
      end
  | SMEMBERS k =>
      match get_set (ks !! k) with
      | Err e => (Err e, ks)
      | Ok s => (Ok (elements s), ks)
      end
  | MGET l =>
      (Ok ((fun k => match get_string (ks !! k) with Ok o => o | Err _ => None end) <$> l), ks)
  end.

(** SMEMBERS answers in no particular order; every other answer is determined. *)
Definition reply_ok {A} (c : rcmd A) (r r' : res A) : Prop :=
  match c in rcmd A return res A -> res A -> Prop with
  | SMEMBERS _ => fun r r' =>
      match r, r' with
      | Ok l, Ok l' => l ≡ₚ l'
      | Err e, Err e' => e = e'
      | _, _ => False
      end
  | _ => fun r r' => r = r'
  end r r'.

(** MULTI ... EXEC: all queued commands run in order, a failing one does not
    stop the others, and [Exec] reports the first error. *)
Inductive wcmd :=
| WCmd {A : Type} (c : rcmd A).

Fixpoint tx_run (now : Z) (cs : list wcmd) (ks : keyspace) : res unit * keyspace :=
  match cs with
  | [] => (Ok tt, ks)
  | WCmd c :: cs' =>
      let '(r, ks1) := doc_cmd now c ks in
      let '(r', ks2) := tx_run now cs' ks1 in
      (match r with Ok _ => r' | Err e => Err e end, ks2)
  end.

(** A script runs atomically; an error raised by [redis.call] ends it and what
    it already wrote stays. *)
Fixpoint lua_run {A} (now : Z) (p : prog rcmd A) (ks : keyspace) : res A * keyspace :=
  match p with
  | Ret a => (Ok a, ks)
  | Vis c k =>
      match doc_cmd now c ks with
      | (Ok x, ks') => lua_run now (k x) ks'
      | (Err e, ks') => (Err e, ks')
      end
  end.

(** ** Facts about the key space *)

Lemma lookup_purge now (ks : keyspace) k e :
  purge now ks !! k = Some e <-> ks !! k = Some e /\ live now e.
Proof. unfold purge. by rewrite map_lookup_filter_Some. Qed.

Lemma lookup_purge_None now (ks : keyspace) k :
  purge now ks !! k = None <-> forall e, ks !! k = Some e -> ~ live now e.
Proof.
  rewrite eq_None_not_Some. split.
  - intros H e He Hl. apply H. exists e. by apply lookup_purge.
  - intros H [e He]. apply lookup_purge in He as [He Hl]. by eapply H.
Qed.

Lemma purge_missing now (ks : keyspace) k : ks !! k = None -> purge now ks !! k = None.
Proof. intros H. apply lookup_purge_None. congruence. Qed.

Lemma live_mono now now' e : now <= now' -> live now' e -> live now e.
Proof. unfold live. destruct (r_exp e); lia. Qed.

Lemma purge_purge now now' ks : now <= now' -> purge now' (purge now ks) = purge now' ks.
Proof.
  intros Hle. apply map_eq. intros k. apply option_eq. intros e.
  rewrite !lookup_purge. split; [tauto|]. intros [H1 H2]. split_and!; [done| |done].
  by eapply live_mono.
Qed.

Lemma get_string_Some o s : get_string o = Ok (Some s) <-> exists ex, o = Some (REntry (VStr s) ex).
Proof. destruct o as [[[?|?] ?]|]; simpl; naive_solver. Qed.

Lemma get_string_None o : get_string o = Ok None <-> o = None.
Proof. destruct o as [[[?|?] ?]|]; simpl; naive_solver. Qed.
