(* ===== verification/Database.v ===== *)
(** * The MySQL tables (src/internal/common/db.go, src/sql/schema.sql)

    The rows are the gorm structs of common/db.go.  A statement the Go code
    builds with gorm is translated, next to the function that issues it, into a
    function on the tables; here are the tables, the shape of a statement, and
    the unique keys of sql/schema.sql that an INSERT checks.

    MySQL itself is not part of the repository: [stmt_run] and [tx_exec] are the
    documented meaning of one autocommitted statement and of a transaction
    (all statements or none), which World.v requires of an environment. *)

From Stdlib Require Import ZArith Lia String Ascii.
From stdpp Require Import base tactics list gmap strings.
From S2P Require Import Prelude Effects.

Local Open Scope Z_scope.

(** Instants are milliseconds since the epoch. *)
Record User := {
  u_ID : Z; u_Username : string; u_PasswordHash : string; u_CreatTime : Z }.

Record Group := {
  g_ID : Z; g_Name : string; g_Status : Z; g_OwnerUserID : Z;
  g_MemberCount : Z; g_CreatedAt : Z; g_UpdatedAt : Z }.

Record GroupMember := {
  gmb_ID : Z; gmb_GroupID : Z; gmb_UserID : Z; gmb_UserRole : Z;
  gmb_UserStatus : Z; gmb_JoinAt : Z; gmb_UpdateAt : Z }.

Record MessageRow := {
  mr_ID : Z; mr_MsgID : Z; mr_ClientMSGID : Z; mr_FromUserID : Z;
  mr_ToUserID : Z; mr_Content : string; mr_MsgType : Z; mr_Status : Z;
  mr_CreateTime : Z }.

Record GroupMessageRow := {
  gmw_ID : Z; gmw_MsgID : Z; gmw_ClientMSGID : Z; gmw_FromUserID : Z;
  gmw_GroupID : Z; gmw_Content : string; gmw_MsgType : Z; gmw_Status : Z;
  gmw_CreateTime : Z }.

(** No statement of the code reads or writes this one. *)
Record UserSession := {
  us_ID : Z; us_UserID : Z; us_SessionID : string; us_IssuedAt : option Z;
  us_ExpiresAt : Z; us_RevokedAt : option Z; us_IP : string; us_UserAgent : string }.

(** A table lists its rows in insertion order. *)
Record tables := Tables {
  t_users : list User;
  t_groups : list Group;
  t_members : list GroupMember;
  t_messages : list MessageRow;
  t_group_messages : list GroupMessageRow }.

Definition empty_tables : tables := Tables [] [] [] [] [].

Definition set_users f (t : tables) : tables :=
  Tables (f (t_users t)) (t_groups t) (t_members t) (t_messages t) (t_group_messages t).
Definition set_groups f (t : tables) : tables :=
  Tables (t_users t) (f (t_groups t)) (t_members t) (t_messages t) (t_group_messages t).
Definition set_members f (t : tables) : tables :=
  Tables (t_users t) (t_groups t) (f (t_members t)) (t_messages t) (t_group_messages t).
Definition set_messages f (t : tables) : tables :=
  Tables (t_users t) (t_groups t) (t_members t) (f (t_messages t)) (t_group_messages t).
Definition set_group_messages f (t : tables) : tables :=
  Tables (t_users t) (t_groups t) (t_members t) (t_messages t) (f (t_group_messages t)).

(** ** Statements

    [Stmt f]: [f ai t] is the answer and the tables after the statement on
    tables [t], when [ai] holds the AUTO_INCREMENT value each table would give
    to the next row, and the clock of the server. *)
Record autoinc := AutoInc {
  ai_users : Z; ai_groups : Z; ai_members : Z; ai_messages : Z; ai_group_messages : Z; ai_now : Z }.

Inductive sqlE : Type -> Type :=
| Stmt {A : Type} (f : autoinc -> tables -> res A * tables) : sqlE (res A).

(** A read. *)
Definition Scan {A} (q : tables -> res A) : sqlE (res A) := Stmt (fun _ t => (q t, t)).

(** AUTO_INCREMENT is positive and above every id of its table. *)
Definition above (i : Z) (l : list Z) : Prop := 0 < i /\ Forall (fun j => j < i) l.

Definition fresh_ids (ai : autoinc) (t : tables) : Prop :=
  above (ai_users ai) (u_ID <$> t_users t)
  /\ above (ai_groups ai) (g_ID <$> t_groups t)
  /\ above (ai_members ai) (gmb_ID <$> t_members t)
  /\ above (ai_messages ai) (mr_ID <$> t_messages t)
  /\ above (ai_group_messages ai) (gmw_ID <$> t_group_messages t).

(** AUTO_INCREMENT is exhausted at the end of BIGINT. *)
Definition no_more_ids : error := ErrExt "Error 1467 (HY000): Failed to read auto-increment value from storage engine".
Definition insert_id (i : Z) : res Z := if i <=? max_int64 then Ok i else Err no_more_ids.

(** ** Column types of sql/schema.sql

    A value that does not fit its column is an error of the statement (strict
    mode, the default).  The columns left out hold every value the code can
    write to them ([created_at] of users, a TIMESTAMP, until 2038). *)
Definition too_long : error := ErrExt "Error 1406 (22001): Data too long for column".
Definition out_of_range : error := ErrExt "Error 1264 (22003): Out of range value for column".

(** BIGINT UNSIGNED *)
Definition unsigned (z : Z) : res unit := if 0 <=? z then Ok tt else Err out_of_range.

(** TINYINT *)
Definition tinyint (z : Z) : res unit := if (-128 <=? z) && (z <=? 127) then Ok tt else Err out_of_range.

(** TEXT: a value is cut to 65535 bytes when only spaces are lost. *)
Definition text_value (s : string) : string :=
  if Z.of_nat (String.length s) <=? 65535 then s else substring 0 (Z.to_nat 65535) s.
Definition text_excess (s : string) : string := substring (Z.to_nat 65535) (String.length s - Z.to_nat 65535) s.
Definition text (s : string) : res unit :=
  if (Z.of_nat (String.length s) <=? 65535) || forallb (Ascii.eqb " "%char) (String.list_ascii_of_string (text_excess s))
  then Ok tt else Err too_long.

Lemma length_substring n s : (String.length (substring 0 n s) <= n)%nat.
Proof. revert s. induction n as [|n IH]; intros [|c s]; cbn; [lia..|]. specialize (IH s). lia. Qed.

Lemma text_value_length s : Z.of_nat (String.length (text_value s)) <= 65535.
Proof.
  unfold text_value. destruct (Z.leb_spec (Z.of_nat (String.length s)) 65535); [done|].
  pose proof (length_substring (Z.to_nat 65535) s). lia.
Qed.

(** DATETIME and TIMESTAMP without a fraction: the server rounds to the second. *)
Definition datetime (ms : Z) : Z := (ms + 500) / 1000 * 1000.

(** The first column that refuses its value. *)
Fixpoint columns (cs : list (res unit)) : res unit :=
  match cs with
  | [] => Ok tt
  | Ok _ :: rest => columns rest
  | Err e :: _ => Err e
  end.

(** The first [n] characters of a UTF-8 string, and the rest. *)
Definition utf8_continues (c : ascii) : bool :=
  let n := nat_of_ascii c in Nat.leb 128 n && Nat.ltb n 192.

Fixpoint utf8_take (n : nat) (s : string) : string * string :=
  match s with
  | EmptyString => (EmptyString, EmptyString)
  | String c s' =>
      if utf8_continues c then let '(a, b) := utf8_take n s' in (String c a, b)
      else match n with
           | O => (EmptyString, s)
           | S n' => let '(a, b) := utf8_take n' s' in (String c a, b)
           end
  end.

(** VARCHAR(n): what is stored; only spaces may be cut off. *)
Definition varchar (n : nat) (s : string) : res string :=
  let '(a, b) := utf8_take n s in
  if forallb (Ascii.eqb " "%char) (String.list_ascii_of_string b) then Ok a else Err too_long.

(** A field with a [default] tag: gorm writes the default for the zero value. *)
Definition gorm_default (d v : Z) : Z := if v =? 0 then d else v.

(** Equality of character columns is the equality of the server's collation. *)
Class Collation := {
  sql_eq : string -> string -> bool;
  sql_eq_refl s : sql_eq s s = true;
  sql_eq_sym s1 s2 : sql_eq s1 s2 = sql_eq s2 s1;
  sql_eq_trans s1 s2 s3 : sql_eq s1 s2 = true -> sql_eq s2 s3 = true -> sql_eq s1 s3 = true }.

(** ** Unique keys of sql/schema.sql *)

Definition dup_entry : error := ErrExt "Error 1062 (23000): Duplicate entry".

(** [UNIQUE KEY uk_username (username)] *)
Definition uk_username `{Collation} (name : string) (t : tables) : bool :=
  existsb (fun u => sql_eq (u_Username u) name) (t_users t).

(** [UNIQUE KEY (group_name)] *)
Definition uk_group_name `{Collation} (name : string) (t : tables) : bool :=
  existsb (fun g => sql_eq (g_Name g) name) (t_groups t).

(** [UNIQUE KEY uk_group_user (group_id,user_id)] *)
Definition uk_group_user (gid uid : Z) (t : tables) : bool :=
  existsb (fun m => (gmb_GroupID m =? gid) && (gmb_UserID m =? uid)) (t_members t).

(** [UNIQUE KEY uk_msg_id (msg_id)] and
    [UNIQUE KEY uk_from_client_msg (from_user_id, to_user_id, client_msg_id)] *)
Definition uk_message (r : MessageRow) (t : tables) : bool :=
  existsb (fun m => (mr_MsgID m =? mr_MsgID r)
    || ((mr_FromUserID m =? mr_FromUserID r) && (mr_ToUserID m =? mr_ToUserID r)
        && (mr_ClientMSGID m =? mr_ClientMSGID r))) (t_messages t).

(** [UNIQUE KEY uk_msg_id (msg_id)] and
    [UNIQUE KEY uk_from_client_msg (from_user_id, group_id, client_msg_id)] *)
Definition uk_group_message (r : GroupMessageRow) (t : tables) : bool :=
  existsb (fun m => (gmw_MsgID m =? gmw_MsgID r)
    || ((gmw_FromUserID m =? gmw_FromUserID r) && (gmw_GroupID m =? gmw_GroupID r)
        && (gmw_ClientMSGID m =? gmw_ClientMSGID r))) (t_group_messages t).

(** [Take]: the first matching row, or gorm's sentinel. *)
Definition Take {A} (p : A -> bool) (l : list A) : res A :=
  match List.find p l with Some a => Ok a | None => Err ErrRecordNotFound end.

(** ** Documented meaning *)

Definition stmt_run {X} (s : sqlE X) (t : tables) (x : X) (t' : tables) : Prop :=
  match s in sqlE X return X -> Prop with
  | Stmt f => fun x => exists ai, fresh_ids ai t /\ (x, t') = f ai t
  end x.

(** A statement that fails for an external reason changes nothing. *)
Definition stmt_fail {X} (s : sqlE X) (x : X) : Prop :=
  match s in sqlE X return X -> Prop with
  | Stmt f => fun x => exists msg, x = Err (ErrExt msg)
  end x.

(** [DB.Transaction(body)]: the body runs on [cur]; a nil error commits, an
    error rolls back to [t0].  With [fl] a statement may fail. *)
Fixpoint tx_exec {A} (fl : bool) (body : prog sqlE (res A)) (t0 cur : tables)
    (r : res A) (t' : tables) : Prop :=
  match body with
  | Ret (Ok a) => r = Ok a /\ t' = cur
  | Ret (Err e) => r = Err e /\ t' = t0
  | Vis s k =>
      exists x cur', ((stmt_run s cur x cur') \/ (fl = true /\ stmt_fail s x /\ cur' = cur))
        /\ tx_exec fl (k x) t0 cur' r t'
  end.

(** The weakest precondition of a transaction body: what must hold of the
    tables for every way its statements can go. *)
Fixpoint tx_wp {A} (fl : bool) (body : prog sqlE (res A)) (t0 cur : tables)
    (Q : res A -> tables -> Prop) : Prop :=
  match body with
  | Ret (Ok a) => Q (Ok a) cur
  | Ret (Err e) => Q (Err e) t0
  | Vis s k =>
      forall x cur', (stmt_run s cur x cur' \/ (fl = true /\ stmt_fail s x /\ cur' = cur)) ->
      tx_wp fl (k x) t0 cur' Q
  end.

Lemma tx_wp_sound {A} fl (body : prog sqlE (res A)) t0 cur Q r t' :
  tx_wp fl body t0 cur Q -> tx_exec fl body t0 cur r t' -> Q r t'.
Proof.
  revert cur. induction body as [[a|e]|X s k IH]; intros cur Hwp Hex; cbn in *.
  - by destruct Hex as [-> ->].
  - by destruct Hex as [-> ->].
  - destruct Hex as (x & cur' & Hs & Hex). eapply IH; [|done]. by apply Hwp.
Qed.

Lemma tx_exec_weaken {A} fl (body : prog sqlE (res A)) t0 cur r t' :
  tx_exec false body t0 cur r t' -> tx_exec fl body t0 cur r t'.
Proof.
  revert cur. induction body as [[a|e]|X s k IH]; intros cur; cbn; [done..|].
  intros (x & cur' & [Hs|[? _]] & Hex); [|done]. exists x, cur'. auto.
Qed.

(** ** Facts about the unique keys *)

Lemma Take_Ok {A} (p : A -> bool) l a : Take p l = Ok a -> In a l /\ p a = true.
Proof. unfold Take. destruct (List.find p l) eqn:Hf; [|done]. intros [= ->]. by apply List.find_some. Qed.

Lemma Take_Err {A} (p : A -> bool) l e :
  Take p l = Err e -> e = ErrRecordNotFound /\ forall a, In a l -> p a = false.
Proof.
  unfold Take. destruct (List.find p l) eqn:Hf; [done|]. intros [= <-].
  split; [done|]. by apply List.find_none.
Qed.

Lemma uk_group_user_true gid uid t :
  uk_group_user gid uid t = true <->
  exists m, In m (t_members t) /\ gmb_GroupID m = gid /\ gmb_UserID m = uid.
Proof.
  unfold uk_group_user. rewrite existsb_exists.
  split; intros (m & Hm & H); exists m; (split; [done|]); lia.
Qed.

Lemma existsb_false {A} (f : A -> bool) l : existsb f l = false <-> forall a, In a l -> f a = false.
Proof.
  rewrite <- Bool.not_true_iff_false, existsb_exists. split.
  - intros H a Ha. apply Bool.not_true_iff_false. eauto.
  - intros H (a & Ha & Hf). rewrite (H a Ha) in Hf. done.
Qed.

Lemma find_app_none {A} (p : A -> bool) l l' :
  (forall a, In a l -> p a = false) -> List.find p (l ++ l') = List.find p l'.
Proof.
  induction l as [|a l IH]; intros Hn; [done|]. cbn. rewrite Hn by (by left).
  apply IH. intros b Hb. apply Hn. by right.
Qed.

Lemma columns_Ok cs : columns cs = Ok tt <-> Forall (fun c => c = Ok tt) cs.
Proof.
  induction cs as [|[[]|e] cs IH]; cbn; [done| |].
  - rewrite IH, Forall_cons. tauto.
  - split; [done|]. by intros [? _]%Forall_cons.
Qed.

Lemma unsigned_Ok z : unsigned z = Ok tt <-> 0 <= z.
Proof. unfold unsigned. destruct (0 <=? z) eqn:?; split; intros; try done; lia. Qed.

Lemma insert_id_Ok i j : insert_id i = Ok j -> j = i /\ i <= max_int64.
Proof. unfold insert_id. destruct (i <=? max_int64) eqn:?; [|done]. intros [= <-]. lia. Qed.
