(* ===== verification/Proto.v ===== *)
(** * Messages of the gRPC services and of the Kafka topics

    One record per message of proto/*.proto that the hand-written code builds or
    reads, with the fields of the generated structs (src/internal/common/proto).
    A [bytes] field is a byte string. *)

From Stdlib Require Import ZArith String.
From stdpp Require Import base tactics list strings.
From S2P Require Import Prelude.

(** ** chatpb *)
Record SendMessageRequest := {
  smr_FromUserId : Z; smr_ToUserId : Z; smr_Content : string;
  smr_MsgType : Z; smr_ClietMsgId : Z }.

Record SendMessageReply := { smp_MsgId : Z; smp_Timestamp : Z }.

Record SendSmallGroupMessageRequest := {
  sgr_FromUserId : Z; sgr_GroupId : Z; sgr_Content : string;
  sgr_MsgType : Z; sgr_ClientMsgId : Z }.

Record SendRoomMessageRequest := {
  srr_FromUserId : Z; srr_RoomId : Z; srr_Content : string; srr_MsgType : Z }.

Record Message := {
  m_MsgId : Z; m_FromUserId : Z; m_ToUserId : Z; m_Content : string;
  m_MsgType : Z; m_CreateTime : Z; m_ClientMsgId : Z }.

Record GroupMessage := {
  gm_MsgId : Z; gm_FromUserId : Z; gm_GroupId : Z; gm_Content : string;
  gm_MsgType : Z; gm_CreateTime : Z; gm_ClientMsgId : Z }.

Record RoomMessage := {
  rm_MsgId : Z; rm_FromUserId : Z; rm_RoomId : Z; rm_Content : string;
  rm_MsgType : Z; rm_CreateTime : Z }.

Record GroupMembersRequest := { gmr_GroupId : Z }.
Record GroupMembersReply := { gmp_GroupMembers : list Z }.

(** ** authpb *)
Record RegisterRequest := { rr_Username : string; rr_Password : string }.
Record RegisterReply := { rp_UserId : Z }.

Record LoginRequest := {
  lr_Username : string; lr_Password : string; lr_Ip : string; lr_UserAgent : string }.

Record SmallGroupInfo := {
  sgi_GroupId : Z; sgi_GroupName : string; sgi_MemberCount : Z }.

Record LoginReply := {
  lp_UserId : Z; lp_SessionId : string; lp_SmallGroups : list SmallGroupInfo }.

Record VerifyRequest := { vr_SessionId : string }.
Record VerifyReply := { vp_UserId : Z }.
Record LogoutRequest := { lo_SessionId : string }.
Record LogoutReply := { lop_Ok : bool }.
Record AddGroupRequest := { agr_GroupId : Z; agr_UserId : Z }.
Record AddGroupReply := { agp_Ok : bool }.
Record CreateGroupRequest := { cgr_UserId : Z; cgr_GroupName : string }.
Record CreateGroupReply := { cgp_GroupId : Z }.

(** ** connectpb *)
Record PushMsgRequest := { pmr_ToUserId : Z; pmr_Payload : string; pmr_MsgType : Z }.

Record PushAllRequest := {
  par_GroupId : Z; par_Payload : string; par_UserIds : list Z; par_MsgType : Z }.

Record PushMsgReply := { pmp_Success : bool }.

Record BroadcastRoomRequest := {
  brr_RoomId : Z; brr_FromUserId : Z; brr_Payload : string; brr_MsgType : Z }.

Record BroadcastRoomReply := { brp_Success : bool; brp_Fanout : Z }.

(** The three calls the task layer makes to a connect node. *)
Inductive ConnectCall :=
| PushMsg (req : PushMsgRequest)
| PushMsgToUsers (req : PushAllRequest)
| BroadcastRoom (req : BroadcastRoomRequest).

#[export] Instance PushMsgRequest_eq_dec : EqDecision PushMsgRequest.
Proof. solve_decision. Defined.
#[export] Instance PushAllRequest_eq_dec : EqDecision PushAllRequest.
Proof. solve_decision. Defined.
#[export] Instance BroadcastRoomRequest_eq_dec : EqDecision BroadcastRoomRequest.
Proof. solve_decision. Defined.
#[export] Instance ConnectCall_eq_dec : EqDecision ConnectCall.
Proof. solve_decision. Defined.

(** ** Encoding

    proto.Marshal and proto.Unmarshal of the three messages that travel through
    Kafka: what is decoded is what was encoded. *)
Class Codec := {
  Marshal_Message : Message -> res string;
  Unmarshal_Message : string -> res Message;
  Marshal_GroupMessage : GroupMessage -> res string;
  Unmarshal_GroupMessage : string -> res GroupMessage;
  Marshal_RoomMessage : RoomMessage -> res string;
  Unmarshal_RoomMessage : string -> res RoomMessage;
  Message_roundtrip m b : Marshal_Message m = Ok b -> Unmarshal_Message b = Ok m;
  GroupMessage_roundtrip m b : Marshal_GroupMessage m = Ok b -> Unmarshal_GroupMessage b = Ok m;
  RoomMessage_roundtrip m b : Marshal_RoomMessage m = Ok b -> Unmarshal_RoomMessage b = Ok m }.
