(* ===== verification/World.v ===== *)
(** * The environment of a service

    [ev] lists the calls a service of the repository makes outside pure code;
    [sysview] is what can be observed of the environment: the clock, the Redis
    key space, the MySQL tables, the Kafka log, the gRPC calls connect nodes
    received, the goroutines still sleeping, and the memory [M] of the process.

    [doc] states, event by event, the documented effect of a call that goes
    through, and [fault] what may happen when the network, a driver or a timeout
    gets in the way: the caller sees an error, and the effect took place or not.
    An environment is any type with a handler whose every answer is allowed by
    [ext] (class [World]); with [fl = false] no call fails for an external
    reason.  Time passes arbitrarily between calls, and expired keys vanish. *)

From Stdlib Require Import ZArith Lia String.
From stdpp Require Import base tactics list gmap strings.
From S2P Require Import Prelude Effects Redis Database Proto.

Local Open Scope Z_scope.

(** bcrypt (golang.org/x/crypto): only the comparison is observable. *)
Class Crypto := { CompareHashAndPassword : string -> string -> bool }.

(** A record appended to a Kafka topic. *)
Record kmsg := KMsg { k_Topic : string; k_Key : string; k_Value : string }.

Record sysview (M : Type) := View {
  v_now : Z;
  v_rds : keyspace;
  v_db : tables;
  v_log : list kmsg;
  v_uuids : gset string;
  v_calls : list (string * ConnectCall);
  v_spawned : list (Z * rcmd Z);
  v_mem : M }.
Arguments View {M}.
Arguments v_now {M}.
Arguments v_rds {M}.
Arguments v_db {M}.
Arguments v_log {M}.
Arguments v_uuids {M}.
Arguments v_calls {M}.
Arguments v_spawned {M}.
Arguments v_mem {M}.

Section sysview.
Context {M : Type}.
Implicit Types v : sysview M.

Definition set_rds ks (v : sysview M) : sysview M := View (v_now v) ks (v_db v) (v_log v) (v_uuids v) (v_calls v) (v_spawned v) (v_mem v).
Definition set_db t (v : sysview M) : sysview M := View (v_now v) (v_rds v) t (v_log v) (v_uuids v) (v_calls v) (v_spawned v) (v_mem v).
Definition add_log m (v : sysview M) : sysview M := View (v_now v) (v_rds v) (v_db v) (v_log v ++ [m]) (v_uuids v) (v_calls v) (v_spawned v) (v_mem v).
Definition add_uuid u (v : sysview M) : sysview M := View (v_now v) (v_rds v) (v_db v) (v_log v) ({[u]} ∪ v_uuids v) (v_calls v) (v_spawned v) (v_mem v).
Definition add_call c (v : sysview M) : sysview M := View (v_now v) (v_rds v) (v_db v) (v_log v) (v_uuids v) (v_calls v ++ [c]) (v_spawned v) (v_mem v).
Definition set_spawned l (v : sysview M) : sysview M := View (v_now v) (v_rds v) (v_db v) (v_log v) (v_uuids v) (v_calls v) l (v_mem v).
Definition set_mem m (v : sysview M) : sysview M := View (v_now v) (v_rds v) (v_db v) (v_log v) (v_uuids v) (v_calls v) (v_spawned v) m.

(** The clock moves to [t]; keys whose expiry instant has come disappear. *)
Definition tick t (v : sysview M) : sysview M :=
  View t (purge t (v_rds v)) (v_db v) (v_log v) (v_uuids v) (v_calls v) (v_spawned v) (v_mem v).
End sysview.

Inductive ev (M : Type) : Type -> Type :=
| Rds {A : Type} (c : rcmd A) : ev M (res A)                 (* one Redis command *)
| RdsTx (cs : list wcmd) : ev M (res unit)                   (* TxPipeline ... Exec *)
| RdsEval {A : Type} (p : prog rcmd A) : ev M (res A)        (* Eval of a Lua script *)
| Sql {A : Type} (s : sqlE (res A)) : ev M (res A)           (* one statement *)
| SqlTx {A : Type} (body : prog sqlE (res A)) : ev M (res A) (* DB.Transaction *)
| TimeNow : ev M Z                                           (* time.Now().UnixMilli() *)
| NewUUID : ev M string                                      (* uuid.New().String() *)
| BcryptGen (pw : string) : ev M (res string)                (* bcrypt.GenerateFromPassword *)
| KafkaSend (m : kmsg) : ev M (res unit)                     (* SyncProducer.SendMessage *)
| ConnCall (server : string) (c : ConnectCall) : ev M (res unit) (* gRPC to a connect node *)
| Net : ev M (res unit)                                      (* one leg of a gRPC call *)
| Ctx : ev M (res unit)                                      (* is the context still live? *)
| Range {A : Type} (l : list A) : ev M (list A)              (* order of a map iteration, or of the cases of a select *)
| Mem {A : Type} (f : M -> A * M) : ev M A                   (* an atomic access to memory *)
| Spawn (delay : Z) (c : rcmd Z) : ev M unit.                (* go func: sleep, then c *)
Arguments Rds {M A} c.
Arguments RdsTx {M} cs.
Arguments RdsEval {M A} p.
Arguments Sql {M A} s.
Arguments SqlTx {M A} body.
Arguments TimeNow {M}.
Arguments NewUUID {M}.
Arguments BcryptGen {M} pw.
Arguments KafkaSend {M} m.
Arguments ConnCall {M} server c.
Arguments Net {M}.
Arguments Ctx {M}.
Arguments Range {M A} l.
Arguments Mem {M A} f.
Arguments Spawn {M} delay c.

Section ext.
Context `{Crypto} {M : Type}.

(** ** A call that goes through *)
Definition doc {X} (e : ev M X) (v : sysview M) (x : X) (v' : sysview M) : Prop :=
  match e in ev _ X return X -> Prop with
  | Rds c => fun x =>
      reply_ok c (doc_cmd (v_now v) c (v_rds v)).1 x
      /\ v' = set_rds (doc_cmd (v_now v) c (v_rds v)).2 v
  | RdsTx cs => fun x => (x, v') = (let '(r, ks) := tx_run (v_now v) cs (v_rds v) in (r, set_rds ks v))
  | RdsEval p => fun x => (x, v') = (let '(r, ks) := lua_run (v_now v) p (v_rds v) in (r, set_rds ks v))
  | Sql s => fun x => exists t, stmt_run s (v_db v) x t /\ v' = set_db t v
  | SqlTx body => fun x => exists t, tx_exec false body (v_db v) (v_db v) x t /\ v' = set_db t v
  | TimeNow => fun _ => v' = v
  | NewUUID => fun u => u <> EmptyString /\ (u ∉ v_uuids v) /\ v' = add_uuid u v
  | BcryptGen pw => fun x =>
      v' = v /\ if decide (String.length pw <= 72)%nat
                then exists h, x = Ok h /\ CompareHashAndPassword h pw = true
                else exists msg, x = Err (ErrExt msg)
  | KafkaSend m => fun x => x = Ok tt /\ v' = add_log m v
  | ConnCall srv c => fun x => x = Ok tt /\ v' = add_call (srv, c) v
  | Net => fun x => x = Ok tt /\ v' = v
  | Ctx => fun x => x = Ok tt /\ v' = v
  | Range l => fun l' => l ≡ₚ l' /\ v' = v
  | Mem f => fun a => (a, v') = (let '(a, m) := f (v_mem v) in (a, set_mem m v))
  | Spawn delay c => fun _ => v' = set_spawned (v_spawned v ++ [(v_now v + delay, c)]) v
  end x.

(** ** A call that fails for an external reason *)
Definition fault {X} (e : ev M X) (v : sysview M) (x : X) (v' : sysview M) : Prop :=
  match e in ev _ X return X -> Prop with
  | Rds c => fun x => (exists msg, x = Err (ErrExt msg)) /\ (v' = v \/ exists x0, doc (Rds c) v x0 v')
  | RdsTx cs => fun x => (exists msg, x = Err (ErrExt msg)) /\ (v' = v \/ exists x0, doc (RdsTx cs) v x0 v')
  | RdsEval p => fun x => (exists msg, x = Err (ErrExt msg)) /\ (v' = v \/ exists x0, doc (RdsEval p) v x0 v')
  | Sql s => fun x => (exists msg, x = Err (ErrExt msg)) /\ (v' = v \/ exists x0, doc (Sql s) v x0 v')
  | SqlTx body => fun x =>
      (exists t, tx_exec true body (v_db v) (v_db v) x t /\ v' = set_db t v)
      \/ ((exists msg, x = Err (ErrExt msg))
          /\ (v' = v \/ exists x0 t, tx_exec true body (v_db v) (v_db v) x0 t /\ v' = set_db t v))
  | KafkaSend m => fun x => (exists msg, x = Err (ErrExt msg)) /\ (v' = v \/ v' = add_log m v)
  | ConnCall srv c => fun x => (exists msg, x = Err (ErrExt msg)) /\ (v' = v \/ v' = add_call (srv, c) v)
  | Net => fun x => (exists msg, x = Err (ErrStatus Unavailable msg)) /\ v' = v
  | Ctx => fun x => (exists msg, x = Err (ErrExt msg)) /\ v' = v
  | _ => fun _ => False
  end x.

Definition ext (fl : bool) X (e : ev M X) (v : sysview M) (x : X) (v' : sysview M) : Prop :=
  exists t, v_now v <= t /\ (doc e (tick t v) x v' \/ (fl = true /\ fault e (tick t v) x v')).

(** A sleeping goroutine wakes up and issues its command. *)
Definition env (v v' : sysview M) : Prop :=
  exists t l1 due c l2, v_now v <= t /\ v_spawned v = l1 ++ (due, c) :: l2 /\ due <= t /\
    (v' = set_spawned (l1 ++ l2) (tick t v)
     \/ v' = set_spawned (l1 ++ l2) (set_rds (doc_cmd t c (purge t (v_rds v))).2 (tick t v))).

Lemma ext_weaken fl X (e : ev M X) v x v' : ext false X e v x v' -> ext fl X e v x v'.
Proof. intros (t & Ht & [Hd | [? _]]); [|done]. exists t. auto. Qed.
End ext.

(** ** Environments *)
Class World (fl : bool) (M W : Type) `{Crypto} := {
  handle : forall X, ev M X -> W -> X * W;
  view : W -> sysview M;
  handle_doc : forall X (e : ev M X) w x w',
    handle X e w = (x, w') -> ext fl X e (view w) x (view w') }.

(** The service runs in an environment. *)
Definition exec {fl M W A} `{World fl M W} (p : prog (ev M) A) (w : W) : A * W :=
  run handle p w.

Lemma exec_wp {fl M W A} `{World fl M W} (p : prog (ev M) A) w (Q : A -> sysview M -> Prop) :
  wp (ext fl) p (view w) Q -> forall a w', exec p w = (a, w') -> Q a (view w').
Proof. intros Hwp. apply run_wp with (ext := ext fl); [|done]. apply handle_doc. Qed.

(** ** Calls between services

    A gRPC method runs between the two legs of the call: the request may be
    lost, and so may the reply, after the method has run.  The caller sees the
    error of the method as a status. *)
Definition status_of (e : error) : error :=
  match e with ErrStatus _ _ => e | _ => ErrStatus Unknown (Error e) end.

Definition rpc {M A} (p : prog (ev M) (res A)) : prog (ev M) (res A) :=
  try request <- call Net ;;
  r <- p ;;
  try reply <- call Net ;;
  Ret (match r with Ok a => Ok a | Err e => Err (status_of e) end).

(** Replace a run [H : exec p w = (r, w')] and a goal about [r] and [view w']
    by the weakest precondition of [p]. *)
Ltac by_wp H :=
  match type of H with
  | exec ?p ?w = (?r, ?w') =>
      pattern r, (view w'); refine (exec_wp p w _ _ r w' H); cbv beta; clear H;
      try clear w'; try clear r
  end.
