(* ===== verification/Rules.v ===== *)
(** * Proof rules for the calls

    One rule per kind of event: to prove [wp] of a program that starts with the
    event it is enough to prove it for every answer the environment may give.
    The rules hide the passing of time ([tick]) and the two ways a failing call
    may leave the environment. *)

From Stdlib Require Import ZArith Lia String.
From stdpp Require Import base tactics list gmap strings.
From S2P Require Import Prelude Effects Redis Database Proto World.

Local Open Scope Z_scope.

Section rules.
Context `{Crypto} {M : Type} (fl : bool).
Implicit Types v : sysview M.

Lemma set_rds_tick t v : set_rds (purge t (v_rds v)) (tick t v) = tick t v.
Proof. done. Qed.

Lemma set_db_tick t v : set_db (v_db v) (tick t v) = tick t v.
Proof. done. Qed.

Lemma tick_tick t t' v : t <= t' -> tick t' (tick t v) = tick t' v.
Proof. intros Hle. unfold tick. cbn. by rewrite purge_purge. Qed.

(** Between [v] and [v'] only time and the key space moved. *)
Definition rds_only v v' : Prop :=
  v_now v <= v_now v' /\ v' = set_rds (v_rds v') (tick (v_now v') v).

Lemma rds_only_set t ks v : v_now v <= t -> rds_only v (set_rds ks (tick t v)).
Proof. by split. Qed.

Lemma rds_only_tick t v : v_now v <= t -> rds_only v (tick t v).
Proof. by split. Qed.

Lemma rds_only_refl v : rds_only v v.
Proof. destruct v. split; [cbn; lia|done]. Qed.

Lemma rds_only_trans v1 v2 v3 : rds_only v1 v2 -> rds_only v2 v3 -> rds_only v1 v3.
Proof.
  intros [H1 E1] [H2 E2]. split; [lia|]. rewrite E2 at 1. by rewrite E1.
Qed.

(** An external failure, as the caller sees it. *)
Definition ext_err {A} (r : res A) : Prop := fl = true /\ exists msg, r = Err (ErrExt msg).

(** A command that only reads. *)
Definition readonly {A} (c : rcmd A) : bool :=
  match c with
  | GET _ | EXISTS _ | SISMEMBER _ _ | SMEMBERS _ | MGET _ => true
  | _ => false
  end.

Lemma readonly_doc {A} (c : rcmd A) now ks : readonly c = true -> (doc_cmd now c ks).2 = ks.
Proof. destruct c; try done; cbn; intros _; by destruct (get_set _). Qed.

Lemma wp_read {A B} (c : rcmd A) (k : res A -> prog (ev M) B) v Q :
  readonly c = true ->
  (forall t r, v_now v <= t ->
    reply_ok c (doc_cmd t c (purge t (v_rds v))).1 r \/ ext_err r ->
    wp (ext fl) (k r) (tick t v) Q) ->
  wp (ext fl) (Vis (Rds c) k) v Q.
Proof.
  intros Hro Hk. cbn. intros r v' (t & Ht & [Hd | [Hfl Hf]]); cbn in *.
  - destruct Hd as [Hr ->]. rewrite readonly_doc by done.
    rewrite (set_rds_tick t v). auto.
  - destruct Hf as [He [-> | (x0 & _ & ->)]].
    + apply Hk; unfold ext_err; auto.
    + rewrite readonly_doc by done. rewrite (set_rds_tick t v).
      apply Hk; unfold ext_err; auto.
Qed.

Lemma wp_rds {A B} (c : rcmd A) (k : res A -> prog (ev M) B) v Q :
  (forall t r ks, v_now v <= t ->
    reply_ok c (doc_cmd t c (purge t (v_rds v))).1 r /\ ks = (doc_cmd t c (purge t (v_rds v))).2
    \/ ext_err r /\ (ks = purge t (v_rds v) \/ ks = (doc_cmd t c (purge t (v_rds v))).2) ->
    wp (ext fl) (k r) (set_rds ks (tick t v)) Q) ->
  wp (ext fl) (Vis (Rds c) k) v Q.
Proof.
  intros Hk. cbn. intros r v' (t & Ht & [Hd | [Hfl Hf]]); cbn in *.
  - destruct Hd as [Hr ->]. auto.
  - destruct Hf as [He [-> | (x0 & _ & ->)]].
    + rewrite <- (set_rds_tick t v). apply Hk; unfold ext_err; auto.
    + apply Hk; unfold ext_err; auto.
Qed.

(** A script or a transaction: its effect [ks1] takes place as a whole or not
    at all. *)
Lemma wp_eval {A B} (p : prog rcmd A) (k : res A -> prog (ev M) B) v Q :
  (forall t r ks, v_now v <= t ->
    lua_run t p (purge t (v_rds v)) = (r, ks)
    \/ ext_err r /\ (ks = purge t (v_rds v) \/ ks = (lua_run t p (purge t (v_rds v))).2) ->
    wp (ext fl) (k r) (set_rds ks (tick t v)) Q) ->
  wp (ext fl) (Vis (RdsEval p) k) v Q.
Proof.
  intros Hk. cbn. intros r v' (t & Ht & [Hd | [Hfl Hf]]); cbn in *;
    destruct (lua_run t p (purge t (v_rds v))) as [r1 ks1] eqn:Hrun.
  - simplify_eq. apply Hk; auto.
  - destruct Hf as [He [-> | (x0 & Hx)]]; simplify_eq.
    + rewrite <- (set_rds_tick t v). apply Hk; [done|]. right. unfold ext_err. auto.
    + apply Hk; [done|]. rewrite Hrun. right. unfold ext_err. auto.
Qed.

Lemma wp_tx {B} (cs : list wcmd) (k : res unit -> prog (ev M) B) v Q :
  (forall t r ks, v_now v <= t ->
    tx_run t cs (purge t (v_rds v)) = (r, ks)
    \/ ext_err r /\ (ks = purge t (v_rds v) \/ ks = (tx_run t cs (purge t (v_rds v))).2) ->
    wp (ext fl) (k r) (set_rds ks (tick t v)) Q) ->
  wp (ext fl) (Vis (RdsTx cs) k) v Q.
Proof.
  intros Hk. cbn. intros r v' (t & Ht & [Hd | [Hfl Hf]]); cbn in *;
    destruct (tx_run t cs (purge t (v_rds v))) as [r1 ks1] eqn:Hrun.
  - simplify_eq. apply Hk; auto.
  - destruct Hf as [He [-> | (x0 & Hx)]]; simplify_eq.
    + rewrite <- (set_rds_tick t v). apply Hk; [done|]. right. unfold ext_err. auto.
    + apply Hk; [done|]. rewrite Hrun. right. unfold ext_err. auto.
Qed.

Lemma wp_sql {A B} (s : sqlE (res A)) (k : res A -> prog (ev M) B) v Q :
  (forall t x db, v_now v <= t ->
    stmt_run s (v_db v) x db
    \/ ext_err x /\ (db = v_db v \/ exists x0, stmt_run s (v_db v) x0 db) ->
    wp (ext fl) (k x) (set_db db (tick t v)) Q) ->
  wp (ext fl) (Vis (Sql s) k) v Q.
Proof.
  intros Hk. cbn. intros r v' (t & Ht & [Hd | [Hfl Hf]]); cbn in *.
  - destruct Hd as (db & Hs & ->). auto.
  - destruct Hf as [He [-> | (x0 & db & Hs & ->)]].
    + rewrite <- (set_db_tick t v). apply Hk; [done|]. right. unfold ext_err. auto.
    + apply Hk; [done|]. right. unfold ext_err. eauto.
Qed.

(** A query changes nothing. *)
Lemma wp_scan {A B} (q : tables -> res A) (k : res A -> prog (ev M) B) v Q :
  (forall t x, v_now v <= t -> x = q (v_db v) \/ ext_err x ->
    wp (ext fl) (k x) (tick t v) Q) ->
  wp (ext fl) (Vis (Sql (Scan q)) k) v Q.
Proof.
  intros Hk. apply wp_sql. intros t x db Ht Hx.
  assert (db = v_db v) as ->.
  { destruct Hx as [(ai & _ & Hs) | [_ [-> | (x0 & ai & _ & Hs)]]]; [|done|]; by injection Hs as _ ->. }
  rewrite (set_db_tick t v). apply Hk; [done|].
  destruct Hx as [(ai & _ & Hs) | [He _]]; [|auto]. left. by injection Hs as ->.
Qed.

Lemma wp_sqltx {A B} (body : prog sqlE (res A)) (k : res A -> prog (ev M) B) v Q (P : res A -> tables -> Prop) :
  tx_wp fl body (v_db v) (v_db v) P ->
  (forall t x db, v_now v <= t ->
    P x db \/ ext_err x /\ (db = v_db v \/ exists x0, P x0 db) ->
    wp (ext fl) (k x) (set_db db (tick t v)) Q) ->
  wp (ext fl) (Vis (SqlTx body) k) v Q.
Proof.
  intros HP Hk. cbn. intros r v' (t & Ht & [Hd | [Hfl Hf]]); cbn in *.
  - destruct Hd as (db & Hs & ->). apply Hk; [done|]. left.
    eapply tx_wp_sound; [exact HP|]. by apply tx_exec_weaken.
  - destruct Hf as [(db & Hs & ->) | [He [-> | (x0 & db & Hs & ->)]]].
    + apply Hk; [done|]. left. rewrite <- Hfl in Hs. by eapply tx_wp_sound.
    + rewrite <- (set_db_tick t v). apply Hk; [done|]. right. unfold ext_err. auto.
    + apply Hk; [done|]. right. unfold ext_err. split; [auto|]. right. exists x0.
      rewrite <- Hfl in Hs. by eapply tx_wp_sound.
Qed.

Lemma wp_now {B} (k : Z -> prog (ev M) B) v Q :
  (forall t x, v_now v <= t -> wp (ext fl) (k x) (tick t v) Q) -> wp (ext fl) (Vis TimeNow k) v Q.
Proof. intros Hk. cbn. intros x v' (t & Ht & [-> | [_ []]]). auto. Qed.

Lemma wp_uuid {B} (k : string -> prog (ev M) B) v Q :
  (forall t u, v_now v <= t -> u <> EmptyString -> u ∉ v_uuids v ->
    wp (ext fl) (k u) (add_uuid u (tick t v)) Q) ->
  wp (ext fl) (Vis NewUUID k) v Q.
Proof. intros Hk. cbn. intros x v' (t & Ht & [(? & ? & ->) | [_ []]]). auto. Qed.

Lemma wp_bcrypt {B} pw (k : res string -> prog (ev M) B) v Q :
  (forall t h, v_now v <= t -> (String.length pw <= 72)%nat -> CompareHashAndPassword h pw = true ->
    wp (ext fl) (k (Ok h)) (tick t v) Q) ->
  (forall t msg, v_now v <= t -> (72 < String.length pw)%nat -> wp (ext fl) (k (Err (ErrExt msg))) (tick t v) Q) ->
  wp (ext fl) (Vis (BcryptGen pw) k) v Q.
Proof.
  intros Hk He. cbn. intros x v' (t & Ht & [[-> Hx] | [_ []]]).
  case_decide; [destruct Hx as (h & -> & Hh)|destruct Hx as [msg ->]]; [auto|].
  apply He; [done|lia].
Qed.

Lemma wp_kafka {B} m (k : res unit -> prog (ev M) B) v Q :
  (forall t, v_now v <= t -> wp (ext fl) (k (Ok tt)) (add_log m (tick t v)) Q) ->
  (forall t msg, v_now v <= t -> fl = true ->
    wp (ext fl) (k (Err (ErrExt msg))) (tick t v) Q
    /\ wp (ext fl) (k (Err (ErrExt msg))) (add_log m (tick t v)) Q) ->
  wp (ext fl) (Vis (KafkaSend m) k) v Q.
Proof.
  intros Hk He. cbn. intros x v' (t & Ht & [[-> ->] | [Hfl [[msg ->] Hv]]]); [auto|].
  destruct (He t msg Ht Hfl). by destruct Hv as [-> | ->].
Qed.

Lemma wp_conncall {B} srv c (k : res unit -> prog (ev M) B) v Q :
  (forall t, v_now v <= t -> wp (ext fl) (k (Ok tt)) (add_call (srv, c) (tick t v)) Q) ->
  (forall t msg, v_now v <= t -> fl = true ->
    wp (ext fl) (k (Err (ErrExt msg))) (tick t v) Q
    /\ wp (ext fl) (k (Err (ErrExt msg))) (add_call (srv, c) (tick t v)) Q) ->
  wp (ext fl) (Vis (ConnCall srv c) k) v Q.
Proof.
  intros Hk He. cbn. intros x v' (t & Ht & [[-> ->] | [Hfl [[msg ->] Hv]]]); [auto|].
  destruct (He t msg Ht Hfl). by destruct Hv as [-> | ->].
Qed.

Lemma wp_net {B} (k : res unit -> prog (ev M) B) v Q :
  (forall t, v_now v <= t -> wp (ext fl) (k (Ok tt)) (tick t v) Q) ->
  (forall t msg, v_now v <= t -> fl = true -> wp (ext fl) (k (Err (ErrStatus Unavailable msg))) (tick t v) Q) ->
  wp (ext fl) (Vis Net k) v Q.
Proof. intros Hk He. cbn. intros x v' (t & Ht & [[-> ->] | [Hfl [[msg ->] ->]]]); auto. Qed.

Lemma wp_ctx {B} (k : res unit -> prog (ev M) B) v Q :
  (forall t, v_now v <= t -> wp (ext fl) (k (Ok tt)) (tick t v) Q) ->
  (forall t msg, v_now v <= t -> fl = true -> wp (ext fl) (k (Err (ErrExt msg))) (tick t v) Q) ->
  wp (ext fl) (Vis Ctx k) v Q.
Proof. intros Hk He. cbn. intros x v' (t & Ht & [[-> ->] | [Hfl [[msg ->] ->]]]); auto. Qed.

Lemma wp_range {A B} (l : list A) (k : list A -> prog (ev M) B) v Q :
  (forall t l', v_now v <= t -> l ≡ₚ l' -> wp (ext fl) (k l') (tick t v) Q) ->
  wp (ext fl) (Vis (Range l) k) v Q.
Proof. intros Hk. cbn. intros x v' (t & Ht & [[Hp ->] | [_ []]]). auto. Qed.

Lemma wp_mem {A B} (f : M -> A * M) (k : A -> prog (ev M) B) v Q :
  (forall t, v_now v <= t ->
    wp (ext fl) (k (f (v_mem v)).1) (set_mem (f (v_mem v)).2 (tick t v)) Q) ->
  wp (ext fl) (Vis (Mem f) k) v Q.
Proof.
  intros Hk. cbn. intros x v' (t & Ht & [Hd | [_ []]]). cbn in Hd.
  specialize (Hk t Ht). destruct (f (v_mem v)). by simplify_eq.
Qed.

Lemma wp_spawn {B} d c (k : unit -> prog (ev M) B) v Q :
  (forall t, v_now v <= t ->
    wp (ext fl) (k tt) (set_spawned (v_spawned v ++ [(t + d, c)]) (tick t v)) Q) ->
  wp (ext fl) (Vis (Spawn d c) k) v Q.
Proof. intros Hk. cbn. intros [] v' (t & Ht & [-> | [_ []]]). auto. Qed.

(** Nothing happened but time. *)
Definition waited v v' : Prop := v' = v \/ exists t, v_now v <= t /\ v' = tick t v.

Lemma waited_tick t v v' : waited v v' -> v_now v' <= t -> waited v (tick t v').
Proof.
  intros [-> | (t' & Ht' & ->)] Ht; right; exists t; [done|]. cbn in Ht. split; [lia|by rewrite tick_tick].
Qed.

(** A call to another service. *)
Lemma wp_rpc {A} (p : prog (ev M) (res A)) v (Q : res A -> sysview M -> Prop) :
  (forall t msg, v_now v <= t -> fl = true -> Q (Err (ErrStatus Unavailable msg)) (tick t v)) ->
  (forall t, v_now v <= t -> wp (ext fl) p (tick t v) (fun r v1 => forall t1, v_now v1 <= t1 ->
     Q (match r with Ok a => Ok a | Err e => Err (status_of e) end) (tick t1 v1)
     /\ (fl = true -> forall msg, Q (Err (ErrStatus Unavailable msg)) (tick t1 v1)))) ->
  wp (ext fl) (rpc p) v Q.
Proof.
  intros Hlost Hp. unfold rpc. cbn [bind call]. apply wp_net; [|exact Hlost]. intros t Ht.
  apply wp_bind. eapply wp_mono; [by apply Hp|]. intros r v1 Hr. cbn [bind].
  apply wp_net; [intros t1 Ht1; apply (Hr t1 Ht1)|intros t1 msg Ht1 Hfl; by apply (Hr t1 Ht1)].
Qed.

(** ** The clock never goes back *)
Lemma doc_time {X} (e : ev M X) v x v' : doc e v x v' -> v_now v' = v_now v.
Proof.
  destruct e; cbn; intros Hd;
    repeat match goal with
    | H : _ /\ _ |- _ => destruct H
    | H : exists _, _ |- _ => destruct H
    | H : context [let '(_, _) := ?p in _] |- _ => destruct p
    end; by simplify_eq.
Qed.

Lemma fault_time {X} (e : ev M X) v x v' : fault e v x v' -> v_now v' = v_now v.
Proof.
  destruct e; cbn; intros Hd; try done;
    repeat match goal with
    | H : _ /\ _ |- _ => destruct H
    | H : _ \/ _ |- _ => destruct H
    | H : exists _, _ |- _ => destruct H
    | H : context [let '(_, _) := ?p in _] |- _ => destruct p
    end; by simplify_eq.
Qed.

Lemma ext_time {X} (e : ev M X) v x v' : ext fl X e v x v' -> v_now v <= v_now v'.
Proof.
  intros (t & Ht & [Hd%doc_time | [_ Hf%fault_time]]); cbn in *; lia.
Qed.

Lemma wp_time {A} (p : prog (ev M) A) v t0 :
  t0 <= v_now v -> wp (ext fl) p v (fun _ v' => t0 <= v_now v').
Proof.
  revert v. induction p as [a|X e k IH]; cbn; intros v Hv; [lia|].
  intros x v' Hx%ext_time. apply IH. lia.
Qed.
End rules.

(** ** Interleavings and the memory of the process *)
Section memory.
Context `{Crypto} {M : Type} (fl : bool).

(** Only a [Mem] event changes the memory. *)
Lemma ext_mem {X} (e : ev M X) v x v' :
  ext fl X e v x v' -> (forall f : M -> X * M, e <> Mem f) -> v_mem v' = v_mem v.
Proof.
  intros (t & _ & [Hd | [_ Hd]]) He; destruct e; cbn in Hd; try done;
    repeat match goal with
    | H : _ /\ _ |- _ => destruct H
    | H : _ \/ _ |- _ => destruct H
    | H : exists _, _ |- _ => destruct H
    | H : context [let '(_, _) := ?p in _] |- _ => destruct p
    end; simplify_eq/=; try done.
  all: exfalso; by eapply He.
Qed.

Lemma env_mem (v v' : sysview M) : env v v' -> v_mem v' = v_mem v.
Proof. by intros (t & l1 & due & c & l2 & _ & _ & _ & [-> | ->]). Qed.

(** Rely-guarantee for an invariant [J] of the memory. *)
Context {G : Type} (le : G -> G -> Prop) `{!PreOrder le} (J : G -> M -> Prop).
Local Abbreviation rgm := (rg (ext fl) le (fun g (v : sysview M) => J g (v_mem v))).

Lemma rg_mem {A B} g (f : M -> A * M) (k : A -> prog (ev M) B) Q :
  (forall g1 m, le g g1 -> J g1 m -> exists g2, le g1 g2 /\ J g2 (f m).2 /\ rgm g2 (k (f m).1) Q) ->
  rgm g (Vis (Mem f) k) Q.
Proof.
  intros Hk. apply rg_vis. intros g1 v Hle HJ. apply wp_mem. intros t Ht. cbn.
  destruct (Hk g1 (v_mem v) Hle HJ) as (g2 & Hle2 & HJ2 & Hrg). eauto.
Qed.

Lemma rg_read {A B} g (f : M -> A) (k : A -> prog (ev M) B) Q :
  (forall g1 m, le g g1 -> J g1 m -> rgm g1 (k (f m)) Q) ->
  rgm g (Vis (Mem (fun m => (f m, m))) k) Q.
Proof. intros Hk. apply rg_mem. intros g1 m Hle HJ. exists g1. split; [reflexivity|]. cbn. auto. Qed.

Lemma rg_other {A X} g (e : ev M X) (k : X -> prog (ev M) A) Q :
  (forall f, e <> Mem f) ->
  (forall g1 x, le g g1 -> rgm g1 (k x) Q) -> rgm g (Vis e k) Q.
Proof.
  intros He Hk g1 v x v' Hle HJ Hx. exists g1. rewrite (ext_mem _ _ _ _ Hx He). split_and!; [reflexivity|done|auto].
Qed.

(** The order of a map iteration. *)
Lemma rg_range {A X} g (l : list X) (k : list X -> prog (ev M) A) Q :
  (forall g1 l', le g g1 -> l ≡ₚ l' -> rgm g1 (k l') Q) -> rgm g (Vis (Range l) k) Q.
Proof.
  intros Hk. apply rg_vis. intros g1 v Hle HJ. apply wp_range. intros t l' Ht Hp. cbn.
  exists g1. split_and!; [reflexivity|done|auto].
Qed.

(** A program that never touches the memory. *)
Fixpoint nomem {A} (p : prog (ev M) A) : Prop :=
  match p with
  | Ret _ => True
  | Vis e k => (forall f, e <> Mem f) /\ forall x, nomem (k x)
  end.

Lemma nomem_bind {A B} (p : prog (ev M) A) (f : A -> prog (ev M) B) :
  nomem p -> (forall a, nomem (f a)) -> nomem (bind p f).
Proof. intros Hp Hf. induction p as [a|X e k IH]; cbn in *; [auto|]. destruct Hp. auto. Qed.

Lemma rg_nomem {A} g (p : prog (ev M) A) Q :
  nomem p -> (forall g' a, le g g' -> Q g' a) -> rgm g p Q.
Proof using PreOrder0.
  revert g. induction p as [a|X e k IH]; intros g Hp HQ; [apply HQ; reflexivity|].
  destruct Hp as [He Hk]. apply rg_other; [done|]. intros g1 x Hle. apply IH; [done|].
  intros g' a Hle'. apply HQ. by transitivity g1.
Qed.

(** Any number of goroutines that respect the invariant keep it. *)
Lemma mem_pool {A} (Req : prog (ev M) A -> Prop) g ps v ps' v' :
  (forall g p, Req p -> rgm g p (fun _ _ => True)) ->
  pool_reachable (ext fl) env Req (ps, v) (ps', v') -> J g (v_mem v) -> Forall finished ps ->
  exists g', le g g' /\ J g' (v_mem v').
Proof.
  intros Hreq Hrun HJ Hps.
  assert (forall g0 s s', J g0 (v_mem s) -> env s s' -> exists g', le g0 g' /\ J g' (v_mem s')) as Henv.
  { intros g0 s s' HJ0 He%env_mem. exists g0. split; [reflexivity|]. by rewrite He. }
  destruct (pool_invariant (ext fl) env le (fun g (v : sysview M) => J g (v_mem v)) Req Henv Hreq _ _ _ _ g Hrun HJ)
    as (g' & Hle & HJ' & _); [|by exists g'].
  eapply Forall_impl; [exact Hps|]. by intros p [a ->].
Qed.
End memory.

(** ** Interleavings, the memory of the process and its surroundings

    As above, for an invariant that says of the rest of the world what [K] says:
    [K] depends on the memory in no way, and it is kept by the calls the
    programs make. *)
Section ambient.
Context `{Crypto} {M : Type} (fl : bool).
Context {G : Type} (le : G -> G -> Prop) `{!PreOrder le} (J : G -> M -> Prop) (K : G -> sysview M -> Prop).
Hypothesis K_still : forall g v m t, v_now v <= t -> K g v -> K g (set_mem m (tick t v)).

Definition amb_I (g : G) (v : sysview M) : Prop := J g (v_mem v) /\ K g v.
Local Abbreviation rga := (rg (ext fl) le amb_I).

Lemma rga_mem {A B} g (f : M -> A * M) (k : A -> prog (ev M) B) Q :
  (forall g1 m, le g g1 -> J g1 m -> exists g2, le g1 g2 /\ (forall v, K g1 v -> K g2 v)
     /\ J g2 (f m).2 /\ rga g2 (k (f m).1) Q) ->
  rga g (Vis (Mem f) k) Q.
Proof using K_still.
  intros Hk. apply rg_vis. intros g1 v Hle [HJ HK]. apply wp_mem. intros t Ht. cbn.
  destruct (Hk g1 (v_mem v) Hle HJ) as (g2 & Hle2 & HK2 & HJ2 & Hrg). exists g2. split; [done|]. split; [|done].
  split; [done|]. by apply K_still, HK2.
Qed.

(** An access that needs no new ghost state. *)
Lemma rga_access {A B} g (f : M -> A * M) (k : A -> prog (ev M) B) Q :
  (forall g1 m, le g g1 -> J g1 m -> J g1 (f m).2 /\ rga g1 (k (f m).1) Q) ->
  rga g (Vis (Mem f) k) Q.
Proof using K_still PreOrder0.
  intros Hk. apply rga_mem. intros g1 m Hle HJ. exists g1. split; [reflexivity|]. split; [done|by apply Hk].
Qed.

Lemma rga_read {A B} g (f : M -> A) (k : A -> prog (ev M) B) Q :
  (forall g1 m, le g g1 -> J g1 m -> rga g1 (k (f m)) Q) ->
  rga g (Vis (Mem (fun m => (f m, m))) k) Q.
Proof using K_still PreOrder0. intros Hk. apply rga_access. intros g1 m Hle HJ. split; [done|by apply Hk]. Qed.

Lemma rga_other {A X} g (e : ev M X) (k : X -> prog (ev M) A) Q :
  (forall f, e <> Mem f) ->
  (forall g1 v x v', le g g1 -> K g1 v -> ext fl X e v x v' -> K g1 v') ->
  (forall g1 x, le g g1 -> rga g1 (k x) Q) -> rga g (Vis e k) Q.
Proof using PreOrder0.
  intros He HK Hk g1 v x v' Hle [HJ HK1] Hx. exists g1. split; [reflexivity|]. split; [|auto].
  split; [by rewrite (ext_mem fl _ _ _ _ Hx He)|by eapply HK].
Qed.

Lemma rga_range {A X} g (l : list X) (k : list X -> prog (ev M) A) Q :
  (forall g1 l', le g g1 -> l ≡ₚ l' -> rga g1 (k l') Q) -> rga g (Vis (Range l) k) Q.
Proof using K_still PreOrder0.
  intros Hk. apply rg_vis. intros g1 v Hle [HJ HK]. apply wp_range. intros t l' Ht Hp. cbn.
  exists g1. split; [reflexivity|]. split; [split; [done|]|auto]. exact (K_still g1 v (v_mem v) t Ht HK).
Qed.

(** Any number of goroutines that respect the invariant keep it. *)
Lemma amb_pool {A} (Req : prog (ev M) A -> Prop) g ps v ps' v' :
  (forall g v v', K g v -> env v v' -> exists g', le g g' /\ K g' v' /\ forall m, J g m -> J g' m) ->
  (forall g p, Req p -> rga g p (fun _ _ => True)) ->
  pool_reachable (ext fl) env Req (ps, v) (ps', v') -> J g (v_mem v) -> K g v -> Forall finished ps ->
  exists g', le g g' /\ J g' (v_mem v') /\ K g' v'.
Proof using PreOrder0.
  intros HKe Hreq Hrun HJ HK Hps.
  assert (forall g0 s s', amb_I g0 s -> env s s' -> exists g', le g0 g' /\ amb_I g' s') as Henv.
  { intros g0 s s' [HJ0 HK0] He. destruct (HKe g0 s s' HK0 He) as (g' & Hle & HK' & Hm). exists g'.
    split; [done|]. split; [|done]. apply env_mem in He. rewrite He. auto. }
  destruct (pool_invariant (ext fl) env le amb_I Req Henv Hreq _ _ _ _ g Hrun) as (g' & Hle & [HJ' HK'] & _);
    [by split| |by exists g'].
  eapply Forall_impl; [exact Hps|]. by intros p [a ->].
Qed.
End ambient.

(** The ghost state of the surroundings is a component of its own: a program
    that never touches the memory is as good as it is there. *)
Lemma rga_foreign `{Crypto} {M A : Type} (fl : bool) {G X : Type} (le : relation G) (leX : relation X)
    `{!PreOrder le, !PreOrder leX} (J : G * X -> M -> Prop) (K : X -> sysview M -> Prop)
    g x (p : prog (ev M) A) Q :
  (forall g x x' m, leX x x' -> J (g, x) m -> J (g, x') m) ->
  nomem p -> rg (ext fl) leX K x p Q ->
  rg (ext fl) (prod_relation le leX) (amb_I J (fun gx => K gx.2)) (g, x) p (fun g' a => Q g'.2 a).
Proof.
  intros HJ. revert g x. induction p as [a|Y e k IH]; intros g x; cbn; [done|]. intros [He Hk] Hrg.
  intros [g1 x1] v y v' [Hg Hx] [HJ1 HK1] Hy. cbn in *. destruct (Hrg x1 v y v' Hx HK1 Hy) as (x2 & Hx2 & HK2 & Hrg2).
  exists (g1, x2). split; [by split|]. split; [|by apply IH].
  split; [|done]. rewrite (ext_mem fl _ _ _ _ Hy He). by eapply HJ.
Qed.

Lemma exec_time {fl M W A} `{World fl M W} (p : prog (ev M) A) w r w' :
  exec p w = (r, w') -> v_now (view w) <= v_now (view w').
Proof. intros Hr. by_wp Hr. by apply wp_time. Qed.

Arguments ext_err fl {A} r /.

#[export] Hint Resolve rds_only_set rds_only_tick : chat.
