(* ===== verification/Frames.v ===== *)
(** * What a call leaves alone

    To run the services together, the invariant of one has to survive the calls
    of the others.  Here is the part of a call that can be read off the program
    text: the Redis keys it may write, what its statements do to some tables,
    the goroutines it leaves behind. *)

From Stdlib Require Import ZArith Lia String.
From stdpp Require Import base tactics list gmap strings.
From S2P Require Import Prelude Effects Redis Database Proto World Rules.

Local Open Scope Z_scope.

(** ** Redis keys *)

(** The key a command may write. *)
Definition writes {A} (c : rcmd A) : option string :=
  match c with
  | SET k _ _ | DEL k | EXPIRE k _ | SADD k _ | SREM k _ => Some k
  | GET _ | EXISTS _ | SISMEMBER _ _ | SMEMBERS _ | MGET _ => None
  end.

(** A command that leaves the keys [P] alone. *)
Definition spares (P : string -> Prop) {A} (c : rcmd A) : Prop :=
  match writes c with Some k => ~ P k | None => True end.

Definition spares_queued (P : string -> Prop) (c : wcmd) : Prop := match c with WCmd c => spares P c end.

Section keys.
Context (P : string -> Prop).

Lemma doc_spares {A} (c : rcmd A) now ks key : spares P c -> P key -> (doc_cmd now c ks).2 !! key = ks !! key.
Proof.
  intros Hc Hk. assert (forall k, writes c = Some k -> k <> key) as Hne.
  { intros k Hw. unfold spares in Hc. rewrite Hw in Hc. by intros ->. }
  destruct c; cbn in *; try done; repeat case_match; cbn; unfold put_set; try done; repeat case_decide; try done;
    (apply lookup_insert_ne || apply lookup_delete_ne); by apply Hne.
Qed.

Lemma tx_spares cs now ks key : Forall (spares_queued P) cs -> P key -> (tx_run now cs ks).2 !! key = ks !! key.
Proof.
  intros Hcs Hk. revert ks. induction Hcs as [|[A c] cs Hc Hcs IH]; intros ks; cbn; [done|].
  pose proof (doc_spares c now ks key Hc Hk) as H1. destruct (doc_cmd now c ks) as [r ks1]. cbn in H1.
  specialize (IH ks1). destruct (tx_run now cs ks1) as [r' ks2]. cbn in *. congruence.
Qed.

Lemma lua_spares {A} (p : prog rcmd A) now ks key :
  all_events (fun _ c => spares P c) p -> P key -> (lua_run now p ks).2 !! key = ks !! key.
Proof.
  intros Hp Hk. revert ks. induction p as [a|X c k IH]; intros ks; cbn in *; [done|]. destruct Hp as [Hc Hp].
  pose proof (doc_spares c now ks key Hc Hk) as H1. destruct (doc_cmd now c ks) as [[x|e] ks1]; cbn in *; [|done].
  rewrite IH; [done|apply Hp].
Qed.
End keys.

(** ** Events *)

(** A statement that changes the tables only as [T] says. *)
Definition stmt_within (T : relation tables) {X} (s : sqlE X) : Prop := forall t x t', stmt_run s t x t' -> T t t'.

Lemma tx_within (T : relation tables) `{!PreOrder T} {A} fl (body : prog sqlE (res A)) t0 cur r t' :
  all_events (fun _ s => stmt_within T s) body -> T t0 cur -> tx_exec fl body t0 cur r t' -> T t0 t'.
Proof.
  revert cur. induction body as [[a|e]|X s k IH]; intros cur; cbn; [by intros _ ? [_ ->]|by intros _ _ [_ ->]|].
  intros [Hs Hk] Hcur (x & cur' & Hx & Hex). eapply IH; [apply Hk| |exact Hex].
  destruct Hx as [Hx|(_ & _ & ->)]; [|done]. etransitivity; [exact Hcur|by eapply Hs].
Qed.

(** An event that writes none of the keys [P], changes the tables as [T] says
    and leaves goroutines [Sp] behind. *)
Definition event_within (P : string -> Prop) (T : relation tables) (Sp : Z * rcmd Z -> Prop) {M X} (e : ev M X) : Prop :=
  match e with
  | Rds c => spares P c
  | RdsTx cs => Forall (spares_queued P) cs
  | RdsEval p => all_events (fun _ c => spares P c) p
  | Sql s => stmt_within T s
  | SqlTx body => all_events (fun _ s => stmt_within T s) body
  | Spawn _ c => forall t, Sp (t, c)
  | _ => True
  end.

(** What such an event does. *)
Record within (P : string -> Prop) (T : relation tables) (Sp : Z * rcmd Z -> Prop) {M} (v v' : sysview M) : Prop := {
  wi_now : v_now v <= v_now v';
  wi_keys : forall key, P key -> v_rds v' !! key = purge (v_now v') (v_rds v) !! key;
  wi_tables : T (v_db v) (v_db v');
  wi_uuids : v_uuids v ⊆ v_uuids v';
  wi_spawned : Forall Sp (v_spawned v) -> Forall Sp (v_spawned v') }.

Section events.
Context `{HC : Crypto} {M : Type} (fl : bool) (P : string -> Prop) (T : relation tables) `{!PreOrder T} (Sp : Z * rcmd Z -> Prop).
Implicit Types v : sysview M.

Lemma doc_within {X} (e : ev M X) v x v' :
  event_within P T Sp e -> doc e v x v' ->
  (forall key, P key -> v_rds v' !! key = v_rds v !! key) /\ v_now v' = v_now v /\ T (v_db v) (v_db v')
  /\ v_uuids v ⊆ v_uuids v' /\ (Forall Sp (v_spawned v) -> Forall Sp (v_spawned v')).
Proof.
  intros He Hd. destruct e; cbn in He, Hd.
  - destruct Hd as [_ ->]. split_and!; try done. intros key Hk. by apply doc_spares with (P := P).
  - pose proof (fun key => tx_spares P cs (v_now v) (v_rds v) key He) as Hk. destruct (tx_run _ _ _). simplify_eq. by split_and!.
  - pose proof (fun key => lua_spares P p (v_now v) (v_rds v) key He) as Hk. destruct (lua_run _ _ _). simplify_eq. by split_and!.
  - destruct Hd as (t & Ht & ->). split_and!; try done. by eapply He.
  - destruct Hd as (t & Ht & ->). split_and!; try done. by eapply tx_within.
  - subst. by split_and!.
  - destruct Hd as (_ & _ & ->). split_and!; try done. cbn. set_solver.
  - destruct Hd as [-> _]. by split_and!.
  - destruct Hd as [_ ->]. by split_and!.
  - destruct Hd as [_ ->]. by split_and!.
  - destruct Hd as [_ ->]. by split_and!.
  - destruct Hd as [_ ->]. by split_and!.
  - destruct Hd as [_ ->]. by split_and!.
  - destruct (f (v_mem v)). simplify_eq. by split_and!.
  - subst. split_and!; try done. cbn. intros Hs. apply Forall_app. split; [done|]. by constructor.
Qed.

Lemma fault_within {X} (e : ev M X) v x v' :
  event_within P T Sp e -> fault e v x v' ->
  (forall key, P key -> v_rds v' !! key = v_rds v !! key) /\ v_now v' = v_now v /\ T (v_db v) (v_db v')
  /\ v_uuids v ⊆ v_uuids v' /\ (Forall Sp (v_spawned v) -> Forall Sp (v_spawned v')).
Proof.
  intros He Hf. destruct e; cbn in Hf; try done.
  - destruct Hf as [_ [-> | [x0 Hd]]]; [by split_and!|exact (doc_within (Rds c) _ _ _ He Hd)].
  - destruct Hf as [_ [-> | [x0 Hd]]]; [by split_and!|exact (doc_within (RdsTx cs) _ _ _ He Hd)].
  - destruct Hf as [_ [-> | [x0 Hd]]]; [by split_and!|exact (doc_within (RdsEval p) _ _ _ He Hd)].
  - destruct Hf as [_ [-> | [x0 Hd]]]; [by split_and!|exact (doc_within (Sql s) _ _ _ He Hd)].
  - destruct Hf as [(t & Ht & ->) | [_ [-> | (x0 & t & Ht & ->)]]]; split_and!; try done; by eapply tx_within.
  - destruct Hf as [_ [-> | ->]]; by split_and!.
  - destruct Hf as [_ [-> | ->]]; by split_and!.
  - destruct Hf as [_ ->]; by split_and!.
  - destruct Hf as [_ ->]; by split_and!.
Qed.

Lemma ext_within {X} (e : ev M X) v x v' : event_within P T Sp e -> ext fl X e v x v' -> within P T Sp v v'.
Proof.
  intros He (t & Ht & [Hd | [_ Hf]]); [destruct (doc_within _ _ _ _ He Hd) as (H1 & H2 & H3 & H4 & H5)
    |destruct (fault_within _ _ _ _ He Hf) as (H1 & H2 & H3 & H4 & H5)]; split; cbn in *; rewrite ?H2; done.
Qed.
End events.

(** ** Programs that leave keys alone *)

(** Nothing has happened to the keys [P] but time. *)
Definition kept (P : string -> Prop) {M} (v v' : sysview M) : Prop :=
  (v_now v' = v_now v /\ v_rds v' = v_rds v) \/ (v_now v <= v_now v' /\ forall key, P key -> v_rds v' !! key = purge (v_now v') (v_rds v) !! key).

Lemma kept_mono (P P' : string -> Prop) {M} (v v' : sysview M) : (forall key, P' key -> P key) -> kept P v v' -> kept P' v v'.
Proof. intros HP [?|[Ht Hk]]; [by left|right]. split; [done|]. intros key Hkey. by apply Hk, HP. Qed.

Lemma wp_within `{Crypto} {M A} fl (P : string -> Prop) (T : relation tables) `{!PreOrder T} (p : prog (ev M) A) v :
  all_events (fun _ e => event_within P T (fun _ => True) e) p ->
  wp (ext fl) p v (fun _ v' => kept P v v' /\ T (v_db v) (v_db v')).
Proof.
  revert v. induction p as [a|X e k IH]; intros v; cbn [all_events wp]; [by split; [left|]|]. intros [He Hk] x v1 Hx.
  apply (ext_within fl P T (fun _ => True)) in Hx as [Hn1 Hk1 Ht1 _ _]; [|done].
  eapply wp_mono; [by apply IH|]. intros a v2 [Hk2' Ht2]. split; [|by etransitivity].
  destruct Hk2' as [[Hn2 Hr2] | [Hn2 Hk2]]; right; [by rewrite Hn2, Hr2|]. split; [lia|].
  intros key HP. rewrite Hk2 by done. apply option_eq. intros e0. rewrite !lookup_purge, Hk1 by done. rewrite lookup_purge.
  split; [tauto|]. intros [H1 H2]. split_and!; [done| |done]. by eapply live_mono.
Qed.

Lemma wp_kept `{Crypto} {M A} fl (P : string -> Prop) (p : prog (ev M) A) v :
  all_events (fun _ e => event_within P (fun _ _ => True) (fun _ => True) e) p -> wp (ext fl) p v (fun _ v' => kept P v v').
Proof.
  intros Hp. assert (PreOrder (fun _ _ : tables => True)) by by split.
  eapply wp_mono; [by apply (wp_within fl P (fun _ _ => True))|]. by intros a v' [Hk _].
Qed.

(** Nothing has happened to Redis and MySQL but time. *)
Abbreviation all_keys := (fun _ : string => True).
Definition quiet {M} (v v' : sysview M) : Prop := kept all_keys v v' /\ v_db v' = v_db v.

Lemma quiet_rds {M} (v v' : sysview M) : quiet v v' ->
  v_now v <= v_now v' /\ (v_rds v' = v_rds v \/ v_rds v' = purge (v_now v') (v_rds v)).
Proof. intros [[[Hn Hr]|[Hn Hk]] _]; [split; [lia|by left]|]. split; [done|right]. apply map_eq. intros key. by apply Hk. Qed.

Lemma wp_quiet `{Crypto} {M A} fl (p : prog (ev M) A) v :
  all_events (fun _ e => event_within all_keys eq (fun _ => True) e) p -> wp (ext fl) p v (fun _ v' => quiet v v').
Proof. intros Hp. eapply wp_mono; [by apply (wp_within fl all_keys eq)|]. intros a v' [Hk Hd]. by split. Qed.

(** ** Kafka and the connect nodes *)

(** Only two kinds of event reach them. *)
Definition outbound {M X} (e : ev M X) : bool := match e with KafkaSend _ | ConnCall _ _ => true | _ => false end.

Lemma ext_inbound `{Crypto} {M X} fl (e : ev M X) v x v' :
  outbound e = false -> ext fl X e v x v' -> v_log v' = v_log v /\ v_calls v' = v_calls v.
Proof.
  intros He (t & _ & [Hd | [_ Hd]]); destruct e; cbn in He, Hd; try done;
    repeat match goal with
    | H : _ /\ _ |- _ => destruct H
    | H : _ \/ _ |- _ => destruct H
    | H : exists _, _ |- _ => destruct H
    | H : context [let '(_, _) := ?p in _] |- _ => destruct p
    end; by simplify_eq/=.
Qed.

(** A goroutine that wakes up changes nothing but its key. *)
Lemma env_inbound {M} (v v' : sysview M) : env v v' -> v_log v' = v_log v /\ v_calls v' = v_calls v.
Proof. by intros (t & l1 & due & c & l2 & _ & _ & _ & [-> | ->]). Qed.

(** Every call of a program, by computation on its text. *)
Ltac solve_events :=
  repeat (cbn; match goal with
  | |- True => exact I
  | |- all_events _ (bind _ _) => apply all_events_bind; [|intros]
  | |- all_events _ (match ?x with _ => _ end) => destruct x
  | |- _ /\ (forall _, _) => split; [|intros]
  | |- all_events _ (Vis _ _) => split; [|intros]
  end).
