(* ===== verification/Lift.v ===== *)
(** * Programs that run on a part of the memory

    The processes of the system share Redis, MySQL and Kafka but not their
    memory.  [lift] runs a program of one process on the memory of all of them;
    what it does there is what it does at home. *)

From Stdlib Require Import ZArith Lia String.
From stdpp Require Import base tactics list gmap strings.
From S2P Require Import Prelude Effects Redis Database Proto World Rules.

Local Open Scope Z_scope.

Section lift.
Context {M N : Type} (get : N -> M) (put : M -> N -> N).

Definition lift_ev {X} (e : ev M X) : ev N X :=
  match e in ev _ X return ev N X with
  | Rds c => Rds c
  | RdsTx cs => RdsTx cs
  | RdsEval p => RdsEval p
  | Sql s => Sql s
  | SqlTx body => SqlTx body
  | TimeNow => TimeNow
  | NewUUID => NewUUID
  | BcryptGen pw => BcryptGen pw
  | KafkaSend m => KafkaSend m
  | ConnCall srv c => ConnCall srv c
  | Net => Net
  | Ctx => Ctx
  | Range l => Range l
  | Mem f => Mem (fun n => let '(a, m) := f (get n) in (a, put m n))
  | Spawn d c => Spawn d c
  end.

Fixpoint lift {A} (p : prog (ev M) A) : prog (ev N) A :=
  match p with
  | Ret a => Ret a
  | Vis e k => Vis (lift_ev e) (fun x => lift (k x))
  end.

(** What the process sees of the whole. *)
Definition part (v : sysview N) : sysview M :=
  View (v_now v) (v_rds v) (v_db v) (v_log v) (v_uuids v) (v_calls v) (v_spawned v) (get (v_mem v)).

Context `{HC : Crypto} (fl : bool) (get_put : forall m n, get (put m n) = m).

Lemma doc_lift {X} (e : ev M X) v x v' :
  doc (lift_ev e) v x v' -> doc e (part v) x (part v') /\ (v_mem v' = v_mem v \/ exists m, v_mem v' = put m (v_mem v)).
Proof using get_put.
  destruct e; cbn; intros Hd;
    repeat match goal with
    | H : _ /\ _ |- _ => destruct H
    | H : exists _, _ |- _ => destruct H
    | H : context [let '(_, _) := ?p in _] |- _ => destruct p eqn:?
    end; simplify_eq/=; try (split; [by eauto|by left]).
  split; [|by right; eexists]. unfold part, set_mem. cbn. by rewrite get_put.
Qed.

Lemma fault_lift {X} (e : ev M X) v x v' : fault (lift_ev e) v x v' -> fault e (part v) x (part v') /\ v_mem v' = v_mem v.
Proof.
  destruct e; cbn; intros Hd; try done;
    repeat match goal with
    | H : _ /\ _ |- _ => destruct H
    | H : _ \/ _ |- _ => destruct H
    | H : exists _, _ |- _ => destruct H
    | H : context [let '(_, _) := ?p in _] |- _ => destruct p eqn:?
    end; simplify_eq/=; (split; [by eauto 8|done]).
Qed.

Lemma ext_lift {X} (e : ev M X) v x v' :
  ext fl X (lift_ev e) v x v' ->
  ext fl X e (part v) x (part v') /\ (v_mem v' = v_mem v \/ exists m, v_mem v' = put m (v_mem v)).
Proof using get_put.
  intros (t & Ht & [Hd | [Hfl Hd]]).
  - apply doc_lift in Hd as [Hd Hm]. split; [|exact Hm]. exists t. split; [done|]. by left.
  - apply fault_lift in Hd as [Hd Hm]. split; [|by left]. exists t. split; [done|]. by right.
Qed.

(** What holds of a program at home holds of it among the others, and it changes
    nothing that [put] does not. *)
Lemma wp_lift {A} (p : prog (ev M) A) v Q :
  wp (ext fl) p (part v) Q ->
  wp (ext fl) (lift p) v (fun a v' => Q a (part v') /\ forall B (f : N -> B), (forall m n, f (put m n) = f n) -> f (v_mem v') = f (v_mem v)).
Proof using get_put.
  revert v. induction p as [a|X e k IH]; intros v; cbn [lift wp]; [by split|]. intros Hp x v1 Hx.
  apply ext_lift in Hx as [Hx Hm]. eapply wp_mono; [by apply IH, Hp|]. intros a v2 [HQ Hf]. split; [done|].
  intros B f Hput. rewrite Hf by done. destruct Hm as [-> | [m ->]]; [done|apply Hput].
Qed.

Lemma env_part v v' : env v v' -> env (part v) (part v').
Proof.
  intros (t & l1 & due & c & l2 & H1 & H2 & H3 & H4). exists t, l1, due, c, l2. split_and!; [done..|].
  destruct H4 as [-> | ->]; [by left|by right].
Qed.
End lift.
