(* ===== verification/Goroutines.v ===== *)
(** * Groups of goroutines (golang.org/x/sync/errgroup, as the consumers use it)

    [Go_all limit tasks] is a loop that starts one goroutine per task, with at
    most [limit] of them alive (the channel [sem]), then waits for all of them.
    Between two calls the scheduler may switch to any goroutine or to the loop;
    it is the environment that chooses ([choose]).  The loop stops at a
    cancelled context and hands its error back; the code then returns at once,
    while here the goroutines that were started end first. *)

From Stdlib Require Import ZArith Lia String.
From stdpp Require Import base tactics list gmap strings.
From S2P Require Import Prelude Effects Redis Database Proto World Rules.

Local Open Scope string_scope.
Local Open Scope Z_scope.

Section group.
Context {M : Type}.

(** One of [0 .. n-1]. *)
Definition choose (n : nat) : prog (ev M) nat :=
  order <- call (Range (seq 0 n)) ;; Ret (default 0%nat (head order)).

(** Who may run: the goroutines alive, and the loop, of index [length alive],
    when it has a task left and there is a token. *)
Definition runnable {A} (limit : nat) (pending alive : list A) : nat :=
  length alive + (if (0 <? length pending)%nat && (length alive <? limit)%nat then 1 else 0).

(** [pending]: the tasks the loop has not reached; [alive]: the goroutines
    that hold a token. *)
Fixpoint errgroup_run (fuel limit : nat) (pending alive : list (prog (ev M) unit)) (result : res unit) : prog (ev M) (res unit) :=
  match fuel with
  | O => Ret (Err (ErrMsg "errgroup_run: out of fuel"))
  | S fuel =>
      if Nat.eqb (length pending + length alive) 0 then Ret result
      else
        i <- choose (runnable limit pending alive) ;;
        match alive !! i with
        | Some (Ret _) => errgroup_run fuel limit pending (delete i alive) result
        | Some (Vis e k) => x <- call e ;; errgroup_run fuel limit pending (<[i := k x]> alive) result
        | None =>
            c <- call Ctx ;;
            match c, pending with
            | Ok _, task :: rest => errgroup_run fuel limit rest (alive ++ [task]) result
            | Ok _, [] => errgroup_run fuel limit [] alive result
            | Err err, _ => errgroup_run fuel limit [] alive (Err err)
            end
        end
  end%list.

(** [steps] bounds the calls of one task. *)
Definition Go_all (steps limit : nat) (tasks : list (prog (ev M) unit)) : prog (ev M) (res unit) :=
  errgroup_run (S (length tasks * S (S steps))) limit tasks [] (Ok tt).
End group.

(** Every call of a group is one of its goroutines', or of the scheduler and the loop. *)
Section group_events.
Context {M : Type} (P : forall X, ev M X -> Prop) (HR : forall A (l : list A), P _ (Range l)) (HCtx : P _ Ctx).

Lemma errgroup_events fuel limit pending alive result :
  Forall (all_events P) pending -> Forall (all_events P) alive -> all_events P (errgroup_run fuel limit pending alive result).
Proof using HR HCtx.
  revert pending alive result. induction fuel as [|fuel IH]; intros pending alive result Hp Ha; cbn [errgroup_run]; [done|].
  destruct (Nat.eqb _ 0); [done|]. unfold choose. cbn [bind call]. split; [apply HR|]. intros order.
  destruct (alive !! _) as [[u|X e k]|] eqn:Hi.
  - apply IH; [done|]. by apply Forall_delete.
  - pose proof (Forall_lookup_1 _ _ _ _ Ha Hi) as [He Hk]. cbn [bind call]. split; [done|]. intros x. apply IH; [done|].
    apply Forall_insert; [done|apply Hk].
  - cbn [bind call]. split; [done|]. intros [u|e]; [|by apply IH]. destruct pending as [|task rest]; [by apply IH|].
    apply Forall_cons in Hp as [Ht Hr]. apply IH; [done|]. apply Forall_app. split; [done|by apply Forall_singleton].
Qed.

Lemma Go_all_events steps limit tasks : Forall (all_events P) tasks -> all_events P (Go_all steps limit tasks).
Proof using HR HCtx. intros Ht. by apply errgroup_events. Qed.
End group_events.

(** ** Calls to connect nodes

    Some calls were added, time passed, the tables did not move. *)
Definition called {M} (cs : list (string * ConnectCall)) (v v' : sysview M) : Prop :=
  v_calls v' = (v_calls v ++ cs)%list /\ v_db v' = v_db v /\ v_now v <= v_now v'.

Lemma called_nil {M} (v v' : sysview M) :
  v_calls v' = v_calls v -> v_db v' = v_db v -> v_now v <= v_now v' -> called [] v v'.
Proof. intros H1 H2 H3. split_and!; [by rewrite app_nil_r|done|done]. Qed.

Lemma called_trans {M} cs1 cs2 (v1 v2 v3 : sysview M) : called cs1 v1 v2 -> called cs2 v2 v3 -> called (cs1 ++ cs2)%list v1 v3.
Proof. intros (H1 & H2 & H3) (H4 & H5 & H6). split_and!; [by rewrite H4, H1, app_assoc|congruence|lia]. Qed.

Lemma called_tick {M} t cs (v v' : sysview M) : v_now v <= t -> called cs (tick t v) v' -> called cs v v'.
Proof. intros Ht. apply (called_trans [] cs v (tick t v)). by apply called_nil. Qed.

(** An element of a list and its companion in another. *)
Lemma Forall2_focus {A B} (R : A -> B -> Prop) la lb i a :
  Forall2 R la lb -> la !! i = Some a ->
  exists b1 b b2, lb = (b1 ++ b :: b2)%list /\ R a b
    /\ Forall2 R (delete i la) (b1 ++ b2) /\ forall a' b', R a' b' -> Forall2 R (<[i := a']> la) (b1 ++ b' :: b2).
Proof.
  intros HR. revert i. induction HR as [|a0 b0 la lb H0 HR IH]; intros [|i] Hi; simplify_eq/=.
  - exists [], b0, lb. split_and!; [done|done|done|]. by constructor.
  - destruct (IH i Hi) as (b1 & b & b2 & -> & Hab & Hdel & Hins). exists (b0 :: b1), b, b2. cbn.
    split_and!; [done|done|by constructor|]. intros a' b' Hab'. constructor; auto.
Qed.

Section proofs.
Context `{HC : Crypto} {M : Type} (fl : bool).
Implicit Types v : sysview M.

Lemma wp_choose {A} n (k : nat -> prog (ev M) A) v Q :
  (0 < n)%nat -> (forall t i, v_now v <= t -> (i < n)%nat -> wp (ext fl) (k i) (tick t v) Q) ->
  wp (ext fl) (bind (choose n) k) v Q.
Proof.
  intros Hn Hk. unfold choose. cbn [bind call]. apply wp_range. intros t l' Ht Hp. apply Hk; [done|].
  destruct l' as [|i l']; [apply Permutation_nil_r in Hp; by destruct n|].
  assert (i ∈ seq 0 n) as Hi by (rewrite Hp; constructor). apply elem_of_seq in Hi. cbn. lia.
Qed.

(** The goroutine [p] makes at most [steps] calls and sends the connect nodes
    [todo], whatever the others do meanwhile: once, at one moment, or, only
    when [sure] is false, never. *)
Fixpoint sends {A} (sure : Prop) (p : prog (ev M) A) (steps : nat) (todo : list (string * ConnectCall)) : Prop :=
  match p with
  | Ret _ => sure -> todo = []
  | Vis e k => exists n, steps = S n /\ forall v x v', ext fl _ e v x v' ->
      called [] v v' /\ sends sure (k x) n todo \/ called todo v v' /\ sends sure (k x) n []
  end.

Lemma sends_weaken {A} sure (p : prog (ev M) A) m n todo : (m <= n)%nat -> sends sure p m todo -> sends sure p n todo.
Proof.
  revert m n todo. induction p as [u|X e k IH]; intros m n todo Hle; cbn; [done|]. intros (m' & -> & Hk).
  destruct n as [|n']; [lia|]. exists n'. split; [done|]. intros v x v' Hx.
  destruct (Hk v x v' Hx) as [[Hc Hs]|[Hc Hs]]; [left|right]; (split; [done|]); eapply IH; try exact Hs; lia.
Qed.

Lemma sends_map {A B} sure (p : prog (ev M) A) (f : A -> prog (ev M) B) n todo :
  (forall a, finished (f a)) -> sends sure p n todo -> sends sure (bind p f) n todo.
Proof.
  intros Hf. revert n todo. induction p as [a|X e k IH]; intros n todo; cbn; [by destruct (Hf a) as [b ->]|].
  intros (m & -> & Hk). exists m. split; [done|]. intros v x v' Hx.
  destruct (Hk v x v' Hx) as [[Hc Hs]|[Hc Hs]]; [left|right]; (split; [done|]); by apply IH.
Qed.

Abbreviation info := (nat * list (string * ConnectCall))%type.
Definition todos (l : list info) : list (string * ConnectCall) := l ≫= snd.

Lemma todos_app l1 l2 : todos (l1 ++ l2) = (todos l1 ++ todos l2)%list.
Proof. apply bind_app. Qed.

(** The calls [cs] were sent, out of [all]. *)
Definition sent (sure : Prop) (all cs : list (string * ConnectCall)) : Prop := cs ⊆+ all /\ (sure -> cs ≡ₚ all).

Lemma sent_app sure a1 a2 c1 c2 : sent sure a1 c1 -> sent sure a2 c2 -> sent sure (a1 ++ a2) (c1 ++ c2)%list.
Proof. intros [H1 H2] [H3 H4]. split; [by apply submseteq_app|]. intros Hs. by rewrite H2, H4. Qed.

Lemma sent_perm sure a1 a2 cs : a1 ≡ₚ a2 -> sent sure a1 cs -> sent sure a2 cs.
Proof. intros Hp [H1 H2]. split; [by rewrite <- Hp|]. intros Hs. by rewrite H2. Qed.

Definition group_post sure v pinfo ainfo result (r : res unit) v' : Prop :=
  exists cs, called cs v v' /\ sent sure (todos (pinfo ++ ainfo)) cs /\ (r = result \/ ext_err fl r).

Lemma group_post_tick sure t v pinfo ainfo result r v' :
  v_now v <= t -> group_post sure (tick t v) pinfo ainfo result r v' -> group_post sure v pinfo ainfo result r v'.
Proof. intros Ht (cs & Hc & Hrest). exists cs. split; [by eapply called_tick|done]. Qed.

(** Calls done first, the rest of the group after. *)
Lemma group_post_step sure v1 v2 cs1 pinfo ainfo pinfo' ainfo' result r v' :
  called cs1 v1 v2 ->
  (forall cs, sent sure (todos (pinfo' ++ ainfo')) cs ->
     sent sure (todos (pinfo ++ ainfo)) (cs1 ++ cs)%list) ->
  group_post sure v2 pinfo' ainfo' result r v' -> group_post sure v1 pinfo ainfo result r v'.
Proof.
  intros Hc1 Hsent (cs & Hc & Hs & Hr). exists (cs1 ++ cs)%list. split_and!; [by eapply called_trans|auto|done].
Qed.

(** The fuel is enough, every goroutine ends, and the calls they had to make
    were sent, in some order. *)
Lemma wp_errgroup_run sure fuel limit pending alive pinfo ainfo result v :
  (sure -> fl = false) -> (0 < limit)%nat ->
  Forall2 (fun p i => sends sure p i.1 i.2) pending pinfo ->
  Forall2 (fun p i => sends sure p i.1 i.2) alive ainfo ->
  (sum_list_with (fun i => S (S i.1)) pinfo + sum_list_with (fun i => S i.1) ainfo < fuel)%nat ->
  wp (ext fl) (errgroup_run fuel limit pending alive result) v (group_post sure v pinfo ainfo result).
Proof.
  intros Hsure Hlim. revert pending alive pinfo ainfo result v.
  induction fuel as [|fuel IH]; intros pending alive pinfo ainfo result v Hp Ha Hfuel; [lia|].
  cbn [errgroup_run].
  destruct (Nat.eqb_spec (length pending + length alive) 0) as [H0|H0].
  { destruct pending, alive; try (cbn in H0; lia). apply Forall2_nil_inv_l in Hp as ->, Ha as ->.
    exists []. split; [by apply called_nil; [..|lia]|]. split; [done|by left]. }
  apply wp_choose; [unfold runnable; destruct alive; [|cbn; lia]; destruct pending; [done|destruct limit; cbn; lia]|].
  intros t i Ht Hi. eapply wp_mono; [|intros r v'; by apply (group_post_tick sure t)].
  destruct (alive !! i) as [p|] eqn:Hpi.
  - destruct (Forall2_focus _ _ _ _ _ Ha Hpi) as (b1 & [steps todo] & b2 & -> & Hsend & Hdel & Hins). cbn in Hsend.
    rewrite sum_list_with_app in Hfuel. cbn in Hfuel. destruct p as [u|X e k].
    + eapply wp_mono; [apply (IH _ _ pinfo (b1 ++ b2)%list); [done|done|rewrite sum_list_with_app; lia]|].
      intros r v'. apply (group_post_step sure _ _ []); [by apply called_nil; [..|lia]|]. intros cs. cbn [app].
      rewrite !todos_app. cbn. intros [H1 H2]. split.
      * etransitivity; [exact H1|]. apply submseteq_skips_l, submseteq_skips_l. cbn. by apply submseteq_inserts_l.
      * intros Hs. rewrite H2 by done. by rewrite (Hsend Hs).
    + destruct Hsend as (n & -> & Hsend). cbn [bind call wp]. intros x v1 Hx.
      destruct (Hsend _ _ _ Hx) as [[Hc Hk]|[Hc Hk]].
      * eapply wp_mono; [apply (IH _ _ pinfo (b1 ++ (n, todo) :: b2)%list); [done|by apply Hins|rewrite sum_list_with_app; cbn; lia]|].
        intros r v'. apply (group_post_step sure _ _ []); [done|]. intros cs. by rewrite !todos_app.
      * eapply wp_mono; [apply (IH _ _ pinfo (b1 ++ (n, []) :: b2)%list); [done|by apply Hins|rewrite sum_list_with_app; cbn; lia]|].
        intros r v'. apply (group_post_step sure _ _ todo); [done|]. intros cs Hcs.
        eapply sent_perm; [|apply (sent_app _ todo); [split; [reflexivity|done]|exact Hcs]].
        rewrite !todos_app. cbn. by rewrite !(Permutation_app_swap_app todo).
  - destruct Hp as [|task [n todo] rest pinfo Htask Hp].
    { exfalso. apply lookup_ge_None in Hpi. unfold runnable in Hi. cbn in Hi. lia. }
    cbn in Hfuel. cbn [bind call]. apply wp_ctx; intros t1.
    + intros Ht1. eapply wp_mono; [|intros r v'; by apply (group_post_tick sure t1)].
      eapply wp_mono; [apply (IH _ _ pinfo (ainfo ++ [(n, todo)])%list); [done|by apply Forall2_app; [|constructor]|rewrite sum_list_with_app; cbn; lia]|].
      intros r v'. apply (group_post_step sure _ _ []); [by apply called_nil; [..|lia]|]. intros cs. apply sent_perm.
      rewrite !todos_app. cbn. rewrite app_nil_r, <- app_assoc, app_assoc. apply Permutation_app_comm.
    + intros msg Ht1 Hfl. eapply wp_mono; [refine (IH [] _ [] ainfo _ _ (List.Forall2_nil _) Ha _); cbn; lia|].
      intros r v' (cs & Hc & [Hs _] & Hr). exists cs. split_and!; [by eapply called_tick| |right; destruct Hr as [->|Hr]; [unfold ext_err; eauto|done]].
      split; [|intros Hyes; apply Hsure in Hyes; congruence]. change (cs ⊆+ todos ainfo) in Hs. rewrite todos_app. by apply submseteq_inserts_l.
Qed.

(** A group whose tasks make at most [steps] calls each. *)
Lemma wp_Go_all sure steps limit tasks todo v :
  (sure -> fl = false) -> (0 < limit)%nat -> Forall2 (fun p c => sends sure p steps [c]) tasks todo ->
  wp (ext fl) (Go_all steps limit tasks) v (fun r v' => exists cs,
    called cs v v' /\ sent sure todo cs /\ (r = Ok tt \/ ext_err fl r)).
Proof.
  intros Hsure Hlim Htasks. set (pinfo := (fun c : string * ConnectCall => (steps, [c])) <$> todo).
  assert (todos (pinfo ++ []) = todo) as Htodo.
  { rewrite app_nil_r. unfold pinfo. clear. induction todo as [|c todo IH]; [done|]. cbn. by f_equal. }
  eapply wp_mono; [apply (wp_errgroup_run sure _ _ _ _ pinfo []); [done|done| |constructor|]|].
  - unfold pinfo. by apply Forall2_fmap_r.
  - rewrite (Forall2_length _ _ _ Htasks). unfold pinfo. clear. induction todo as [|c todo IH]; cbn in *; lia.
  - intros r v' (cs & Hc & Hs & Hr). rewrite Htodo in Hs. by exists cs.
Qed.
End proofs.
