(* ===== verification/RefWorld.v ===== *)
(** * A reference environment

    A concrete, executable environment that respects the documented behaviour of
    World.v.  The witnesses of the theorems run the services in it.  A script
    [rw_script] says, call by call, how much time passes before the call and
    whether the call fails. *)

From Stdlib Require Import ZArith Lia String.
From stdpp Require Import base tactics list gmap strings relations.
From S2P Require Import Prelude Effects Redis Database Proto World.

Local Open Scope Z_scope.

(** bcrypt: a hash that keeps the password readable. *)
Definition ref_hash (pw : string) : string := ("$2a$10$" ++ pw)%string.

#[export] Instance ref_crypto : Crypto :=
  {| CompareHashAndPassword h pw := String.eqb h (ref_hash pw) |}.

(** A binary collation. *)
#[export] Instance ref_collation : Collation.
Proof.
  refine {| sql_eq := String.eqb |}.
  - apply String.eqb_refl.
  - apply String.eqb_sym.
  - intros s1 s2 s3 H12 H23. apply String.eqb_eq in H12, H23. subst. apply String.eqb_refl.
Defined.

(** A string longer than every string of the set. *)
Definition fresh_uuid (s : gset string) : string :=
  String.string_of_list_ascii
    (replicate (S (max_list (String.length <$> elements s))) (Ascii.ascii_of_nat 117)).

Definition next_id (l : list Z) : Z := 1 + foldr Z.max 0 l.

Definition next_ids (t : tables) : autoinc :=
  AutoInc (next_id (u_ID <$> t_users t)) (next_id (g_ID <$> t_groups t))
    (next_id (gmb_ID <$> t_members t)) (next_id (mr_ID <$> t_messages t))
    (next_id (gmw_ID <$> t_group_messages t)) 0.

Definition ref_stmt {X} (s : sqlE X) (t : tables) : X * tables :=
  match s in sqlE X return X * tables with Stmt f => f (next_ids t) t end.

Fixpoint ref_tx {A} (body : prog sqlE (res A)) (t0 cur : tables) : res A * tables :=
  match body with
  | Ret (Ok a) => (Ok a, cur)
  | Ret (Err e) => (Err e, t0)
  | Vis s k => let '(x, cur') := ref_stmt s cur in ref_tx (k x) t0 cur'
  end.

Definition reset : error := ErrExt "connection reset by peer".

Section ref.
Context {M : Type}.

Record refworld := RefWorld { rw_view : sysview M; rw_script : list (Z * bool) }.

(** The call goes through. *)
Definition ref_doc {X} (e : ev M X) (v : sysview M) : X * sysview M :=
  match e in ev _ X return X * sysview M with
  | Rds c => let '(r, ks) := doc_cmd (v_now v) c (v_rds v) in (r, set_rds ks v)
  | RdsTx cs => let '(r, ks) := tx_run (v_now v) cs (v_rds v) in (r, set_rds ks v)
  | RdsEval p => let '(r, ks) := lua_run (v_now v) p (v_rds v) in (r, set_rds ks v)
  | Sql s => let '(r, t) := ref_stmt s (v_db v) in (r, set_db t v)
  | SqlTx body => let '(r, t) := ref_tx body (v_db v) (v_db v) in (r, set_db t v)
  | TimeNow => (v_now v, v)
  | NewUUID => (fresh_uuid (v_uuids v), add_uuid (fresh_uuid (v_uuids v)) v)
  | BcryptGen pw =>
      (if decide (String.length pw <= 72)%nat then Ok (ref_hash pw)
       else Err (ErrExt "bcrypt: password length exceeds 72 bytes"), v)
  | KafkaSend m => (Ok tt, add_log m v)
  | ConnCall srv c => (Ok tt, add_call (srv, c) v)
  | Net => (Ok tt, v)
  | Ctx => (Ok tt, v)
  | Range l => (l, v)
  | Mem f => let '(a, m) := f (v_mem v) in (a, set_mem m v)
  | Spawn delay c => (tt, set_spawned (v_spawned v ++ [(v_now v + delay, c)]) v)
  end.

(** The call fails and has no effect, where it can fail. *)
Definition ref_fault {X} (e : ev M X) (v : sysview M) : X * sysview M :=
  match e in ev _ X return X * sysview M -> X * sysview M with
  | Rds _ | RdsEval _ | Sql _ | SqlTx _ => fun _ => (Err reset, v)
  | RdsTx _ | KafkaSend _ | ConnCall _ _ => fun _ => (Err reset, v)
  | Net => fun _ => (Err (ErrStatus Unavailable "connection refused"), v)
  | Ctx => fun _ => (Err (ErrExt "context deadline exceeded"), v)
  | _ => fun d => d
  end (ref_doc e v).

Definition ref_handle (fl : bool) X (e : ev M X) (w : refworld) : X * refworld :=
  let '(dt, fail, script) :=
    match rw_script w with [] => (0, false, []) | (dt, b) :: s => (dt, b, s) end in
  let v := tick (v_now (rw_view w) + Z.max 0 dt) (rw_view w) in
  let '(x, v') := if fl && fail then ref_fault e v else ref_doc e v in
  (x, RefWorld v' script).

(** The state a witness starts from: tables, key space and memory given. *)
Definition ref_start (now : Z) (ks : keyspace) (t : tables) (m : M) (script : list (Z * bool)) : refworld :=
  RefWorld (View now ks t [] ∅ [] [] m) script.
End ref.
Arguments refworld : clear implicits.

(** ** It respects the documentation *)

Lemma string_of_list_ascii_length (l : list Ascii.ascii) :
  String.length (String.string_of_list_ascii l) = List.length l.
Proof. induction l; simpl; auto. Qed.

Lemma fresh_uuid_ok s : fresh_uuid s <> EmptyString /\ fresh_uuid s ∉ s.
Proof.
  assert (String.length (fresh_uuid s) = S (max_list (String.length <$> elements s))) as Hl.
  { unfold fresh_uuid. rewrite string_of_list_ascii_length. apply length_replicate. }
  split.
  - intros Heq. rewrite Heq in Hl. done.
  - intros Hin. assert (String.length (fresh_uuid s) <= max_list (String.length <$> elements s))%nat; [|lia].
    apply max_list_elem_of_le, list_elem_of_fmap. eexists; split; [done|]. by apply elem_of_elements.
Qed.

Lemma next_id_above l : above (next_id l) l.
Proof.
  unfold above, next_id.
  assert (forall m, foldr Z.max 0 l <= m -> 0 <= m /\ Forall (fun j => j < 1 + m) l) as H.
  { induction l as [|a l IH]; intros m Hm; simpl in *; [split; [lia|constructor]|].
    destruct (IH m) as [? ?]; [lia|]. split; [done|]. constructor; [lia|done]. }
  destruct (H _ (Z.le_refl _)). split; [lia|done].
Qed.

Lemma ref_stmt_ok {X} (s : sqlE X) t : stmt_run s t (ref_stmt s t).1 (ref_stmt s t).2.
Proof.
  destruct s as [A f]. exists (next_ids t). cbn [ref_stmt]. split; [|by destruct (f (next_ids t) t)].
  unfold fresh_ids. cbn. auto using next_id_above.
Qed.

Lemma ref_tx_ok {A} fl (body : prog sqlE (res A)) t0 cur :
  tx_exec fl body t0 cur (ref_tx body t0 cur).1 (ref_tx body t0 cur).2.
Proof.
  revert cur. induction body as [[a|e]|X s k IH]; intros cur; cbn; [done|done|].
  pose proof (ref_stmt_ok s cur) as Hs. destruct (ref_stmt s cur) as [x cur']. eauto.
Qed.

Lemma reply_ok_refl {A} (c : rcmd A) r : reply_ok c r r.
Proof. destruct c; simpl; try done. by destruct r. Qed.

Lemma ref_doc_ok {M X} (e : ev M X) v x v' : ref_doc e v = (x, v') -> doc e v x v'.
Proof.
  destruct e; cbn; intros Heq.
  - destruct (doc_cmd (v_now v) c (v_rds v)). simplify_eq/=. split; [apply reply_ok_refl|done].
  - destruct (tx_run (v_now v) cs (v_rds v)). by simplify_eq.
  - destruct (lua_run (v_now v) p (v_rds v)). by simplify_eq.
  - pose proof (ref_stmt_ok s (v_db v)). destruct (ref_stmt s (v_db v)). simplify_eq. eauto.
  - pose proof (ref_tx_ok false body (v_db v) (v_db v)).
    destruct (ref_tx body (v_db v) (v_db v)). simplify_eq. eauto.
  - by simplify_eq.
  - simplify_eq. destruct (fresh_uuid_ok (v_uuids v)). eauto.
  - simplify_eq. split; [done|]. case_decide; [|eauto].
    eexists. split; [done|]. apply String.eqb_refl.
  - by simplify_eq.
  - by simplify_eq.
  - by simplify_eq.
  - by simplify_eq.
  - by simplify_eq.
  - destruct (f (v_mem v)). by simplify_eq.
  - by simplify_eq.
Qed.

Lemma ref_fault_ok {M X} (e : ev M X) v x v' :
  ref_fault e v = (x, v') -> doc e v x v' \/ fault e v x v'.
Proof.
  unfold ref_fault. destruct e; intros Heq; try (left; by apply ref_doc_ok in Heq);
    right; cbn in *; simplify_eq; eauto.
Qed.

#[export] Instance ref_env (fl : bool) M : World fl M (refworld M).
Proof.
  refine {| handle := ref_handle fl; view := rw_view |}.
  intros X e w x w' Heq. unfold ref_handle in Heq.
  destruct (match rw_script w with [] => _ | _ => _ end) as [[dt fail] script].
  destruct (if _ && fail then _ else _) as [x1 v1] eqn:Hx. simplify_eq. cbn.
  exists (v_now (rw_view w) + Z.max 0 dt). split; [lia|].
  destruct fl, fail; cbn in Hx; try (left; by apply ref_doc_ok).
  apply ref_fault_ok in Hx as [?|?]; auto.
Defined.

(** ** Concrete interleavings

    A schedule of goroutines: [Turn i dt fail] lets [dt] pass and goroutine [i]
    make its next call; [Wake dt] wakes the goroutine that sleeps longest, if
    it is due. *)
Inductive turn := Turn (i : nat) (dt : Z) (fail : bool) | Wake (dt : Z).

Section schedule.
Context {M A : Type} (fl : bool).
Implicit Types v : sysview M.

Definition wake dt v : sysview M :=
  let t := v_now v + Z.max 0 dt in
  match v_spawned v with
  | (due, c) :: rest =>
      if due <=? t then set_spawned rest (set_rds (doc_cmd t c (purge t (v_rds v))).2 (tick t v)) else v
  | [] => v
  end.

Definition sched_turn (u : turn) (s : list (prog (ev M) A) * sysview M) : list (prog (ev M) A) * sysview M :=
  match u with
  | Turn i dt fail =>
      match s.1 !! i with
      | Some (Vis e k) =>
          let '(x, w) := ref_handle fl _ e (RefWorld s.2 [(dt, fail)]) in (<[i := k x]> s.1, rw_view w)
      | _ => s
      end
  | Wake dt => (s.1, wake dt s.2)
  end.

Definition sched (us : list turn) (s : list (prog (ev M) A) * sysview M) := foldl (fun s u => sched_turn u s) s us.

Lemma sched_turn_ok (Req : sysview M -> prog (ev M) A -> Prop) u s :
  open_reachable (ext fl) env Req s (sched_turn u s).
Proof.
  destruct s as [ps v], u as [i dt fail|dt]; cbn [sched_turn fst snd].
  - destruct (ps !! i) as [[a|X e k]|] eqn:Hi; [apply rtc_refl| |apply rtc_refl].
    destruct (ref_handle fl X e _) as [x w] eqn:Hh. apply rtc_once, (pool_event _ _ _ _ _ _ X e k x); [done|].
    exact (handle_doc (World := ref_env fl M) X e (RefWorld v [(dt, fail)]) x w Hh).
  - unfold wake. destruct (v_spawned v) as [|[due c] rest] eqn:Hs; [apply rtc_refl|].
    destruct (Z.leb_spec due (v_now v + Z.max 0 dt)); [|apply rtc_refl]. apply rtc_once, pool_env.
    exists (v_now v + Z.max 0 dt), [], due, c, rest. cbn [app]. split_and!; [lia|done|done|by right].
Qed.

Lemma sched_ok (Req : sysview M -> prog (ev M) A -> Prop) us s : open_reachable (ext fl) env Req s (sched us s).
Proof.
  revert s. induction us as [|u us IH]; intros s; cbn; [apply rtc_refl|].
  etransitivity; [apply sched_turn_ok|apply IH].
Qed.

Lemma arrive_ok (Req : prog (ev M) A -> Prop) ps v :
  Forall Req ps -> pool_reachable (ext fl) env Req ([], v) (ps, v).
Proof.
  intros Hps. change ps with ([] ++ ps)%list. generalize (@nil (prog (ev M) A)) as done_.
  induction Hps as [|p ps Hp Hps IH]; intros ps0; [rewrite app_nil_r; apply rtc_refl|].
  eapply rtc_l; [by apply pool_arrive|]. replace (ps0 ++ p :: ps)%list with ((ps0 ++ [p]) ++ ps)%list by by rewrite <- app_assoc. apply IH.
Qed.

(** Request [p] arrives and runs under the schedule [us]. *)
Lemma sched_arrive (Req : sysview M -> prog (ev M) A -> Prop) us p s0 ps v :
  open_reachable (ext fl) env Req s0 (ps, v) -> Req v p ->
  open_reachable (ext fl) env Req s0 (sched us (ps ++ [p], v)).
Proof. intros Hr Hp. etransitivity; [exact Hr|]. eapply rtc_l; [by apply pool_arrive|apply sched_ok]. Qed.

(** The requests [ps] arrive and run under the schedule [us]. *)
Lemma sched_reachable (Req : prog (ev M) A -> Prop) us ps v :
  Forall Req ps -> pool_reachable (ext fl) env Req ([], v) (sched us (ps, v)).
Proof. intros Hps. etransitivity; [by apply arrive_ok|apply (sched_ok (fun _ => Req))]. Qed.
End schedule.
