(* ===== verification/Store.v ===== *)
(** * The data access layer (src/internal/logic/store.go)

    One definition per method of [Store].  Sessions are a double index in
    Redis: [sess:<session> -> user] and [user_sess:<user> -> session]; the
    members of a small group are cached in the set [group_members:<group>]. *)

From Stdlib Require Import ZArith Lia String.
From stdpp Require Import base tactics list gmap strings.
From S2P Require Import Prelude GoStd Effects Redis Database Proto World.

Local Open Scope string_scope.
Local Open Scope Z_scope.

(** ** Keys *)

Definition redisSessPrefix : string := "sess:".
Definition redisUserPrefix : string := "user_sess:".
Definition redisGroupUserPrefix : string := "group_members:".

Definition sessionKey (sessionID : string) : string := redisSessPrefix ++ sessionID.
Definition userSessionKey (userID : Z) : string := redisUserPrefix ++ FormatInt userID.

(** [fmt.Sprintf("%s%d", redisGroupUserPrefix, groupID)] *)
Definition groupMembersKey (groupID : Z) : string := redisGroupUserPrefix ++ FormatInt groupID.

(** [Store.SessionTTL], a [time.Duration] in nanoseconds; the connections are
    the environment. *)
Record Store := { SessionTTL : Z }.

Definition second_ns : Z := 10 ^ 9.
Definition minute_ms : Z := 60 * 1000.
Definition hour_ms : Z := 60 * minute_ms.

(** [int(s.SessionTTL.Seconds())] *)
Definition ttl_seconds (s : Store) : Z := Z.quot (SessionTTL s) second_ns.

(** The expiry [RDB.Set] passes for a [time.Duration]: none when it is not
    positive, otherwise at least one millisecond. *)
Definition set_expiration (d : Z) : option Z :=
  if d <=? 0 then None else Some (Z.max 1 (Z.quot d (10 ^ 6))).

(** The members of group [gid] whose status is active. *)
Definition active_members (gid : Z) (t : tables) : list Z :=
  gmb_UserID <$> filter (fun m => gmb_GroupID m = gid /\ gmb_UserStatus m = 0) (t_members t).

(** singleflight.Group.Do: [flight] is the result of the call another goroutine
    has in flight under the same key, if there is one; otherwise [fn] runs. The
    keys and the table of the calls in flight are not modelled. *)
Definition sg_do {E A} (flight : option (res A)) (fn : prog E (res A)) : prog E (res A) :=
  match flight with Some r => Ret r | None => fn end.

(** The queued commands that rebuild a member set: [members] or, to stop
    further reads of MySQL, the placeholder -1 with a shorter life. *)
Definition rebuild_cache (key : string) (members : list Z) : list wcmd :=
  match members with
  | [] => [WCmd (DEL key); WCmd (SADD key [FormatInt (-1)]); WCmd (EXPIRE key (5 * minute_ms))]
  | _ => [WCmd (DEL key); WCmd (SADD key (FormatInt <$> members)); WCmd (EXPIRE key (24 * hour_ms))]
  end.

Section store.
Context `{Collation} {M : Type}.

(** ** Users *)

(** [INSERT INTO users (username, password_hash, created_at)] *)
Definition insert_user (username passwordHash : string) (now : Z) (ai : autoinc) (t : tables) : res Z * tables :=
  match varchar 64 username with
  | Err e => (Err e, t)
  | Ok stored =>
      if uk_username stored t then (Err dup_entry, t)
      else match insert_id (ai_users ai) with
           | Err e => (Err e, t)
           | Ok id =>
               (Ok id, set_users (fun l => l ++ [{| u_ID := id; u_Username := stored;
                          u_PasswordHash := passwordHash; u_CreatTime := datetime now |}])%list t)
           end
  end.

(** gorm fills [created_at] with the current time (autoCreateTime). *)
Definition CreateUser (username passwordHash : string) : prog (ev M) (res Z) :=
  now <- call TimeNow ;;
  call (Sql (Stmt (insert_user username passwordHash now))).

Definition GetUserByUsername (username : string) : prog (ev M) (res User) :=
  call (Sql (Scan (fun t => Take (fun u => sql_eq (u_Username u) username) (t_users t)))).

(** ** Sessions *)

Definition RevokeActiveSessionForUser (userID : Z) : prog (ev M) (res unit) :=
  try o <- call (Rds (GET (userSessionKey userID))) ;;
  match o with
  | None => Ret (Ok tt)
  | Some oldSid =>
      try n1 <- call (Rds (DEL (sessionKey oldSid))) ;;
      try n2 <- call (Rds (DEL (userSessionKey userID))) ;;
      Ret (Ok tt)
  end.

Definition CreateSession (s : Store) (userID : Z) (sessionID : string) : prog (ev M) (res unit) :=
  call (RdsTx [WCmd (SET (userSessionKey userID) sessionID (set_expiration (SessionTTL s)));
               WCmd (SET (sessionKey sessionID) (FormatInt userID) (set_expiration (SessionTTL s)))]).

(** The Lua script of RefreshSession. *)
Definition refresh_script (KEYS1 KEYS2 ARGV1 ARGV2 : string) (ARGV3 : Z) : prog rcmd Z :=
  oldSid <- call (GET KEYS1) ;;
  (match oldSid with
   | Some o => n <- call (DEL (KEYS2 ++ o)) ;; Ret tt
   | None => Ret tt
   end) ;;
  call (SET KEYS1 ARGV1 (Some (ARGV3 * 1000))) ;;
  call (SET (KEYS2 ++ ARGV1) ARGV2 (Some (ARGV3 * 1000))) ;;
  Ret 1.

Definition RefreshSession (s : Store) (userID : Z) (sessionID : string) : prog (ev M) (res unit) :=
  r <- call (RdsEval (refresh_script (userSessionKey userID) redisSessPrefix
                        sessionID (FormatInt userID) (ttl_seconds s))) ;;
  Ret (res_map (fun _ => tt) r).

Definition IsSessionActive (sessionID : string) : prog (ev M) (res Z) :=
  try o <- call (Rds (GET (sessionKey sessionID))) ;;
  match o with
  | None => Ret (Err (ErrMsg "invalid session"))
  | Some val =>
      match ParseInt val with
      | Err e => Ret (Err e)
      | Ok userID =>
          try a <- call (Rds (GET (userSessionKey userID))) ;;
          match a with
          | None => Ret (Err (ErrMsg "session expired or revoked"))
          | Some activeSessionID =>
              if String.eqb activeSessionID sessionID then Ret (Ok userID)
              else Ret (Err (ErrMsg "session revoked by another device"))
          end
      end
  end.

(** The Lua script of DeleteSession. *)
Definition delete_script (KEYS1 KEYS2 ARGV1 : string) : prog rcmd Z :=
  n <- call (DEL KEYS1) ;;
  currentSid <- call (GET KEYS2) ;;
  (match currentSid with
   | Some c => if String.eqb c ARGV1 then n' <- call (DEL KEYS2) ;; Ret tt else Ret tt
   | None => Ret tt
   end) ;;
  Ret 1.

Definition DeleteSession (sessionID : string) : prog (ev M) (res unit) :=
  try o <- call (Rds (GET (sessionKey sessionID))) ;;
  match o with
  | None => Ret (Ok tt)
  | Some val =>
      match ParseInt val with
      | Err e => Ret (Err e)
      | Ok userID =>
          r <- call (RdsEval (delete_script (sessionKey sessionID) (userSessionKey userID) sessionID)) ;;
          Ret (res_map (fun _ => tt) r)
      end
  end.

(** ** Group members *)

(** The function IsGroupMember hands to singleflight: MySQL, then the cache. *)
Definition member_fallback (groupID : Z) : prog (ev M) (res (gset Z)) :=
  try members <- call (Sql (Scan (fun t => Ok (active_members groupID t)))) ;;
  pipeErr <- call (RdsTx (rebuild_cache (groupMembersKey groupID) members)) ;;
  Ret (Ok (list_to_set members)).

Definition IsGroupMember (flight : option (res (gset Z))) (groupID userID : Z) : prog (ev M) (res bool) :=
  let key := groupMembersKey groupID in
  try isMember <- call (Rds (SISMEMBER key (FormatInt userID))) ;;
  if isMember : bool then Ret (Ok true)
  else
    try exists_ <- call (Rds (EXISTS key)) ;;
    if 0 <? exists_ then Ret (Ok false)
    else
      try memberMap <- sg_do flight (member_fallback groupID) ;;
      Ret (Ok (bool_decide (userID ∈ memberMap))).
End store.

(** ** Keys do not collide *)

#[export] Instance append_inj' s : Inj (=) (=) (String.append s).
Proof. induction s as [|c s IH]; intros x y; [done|]. simpl. intros [= H]. by apply IH. Qed.

Lemma sessionKey_inj s1 s2 : sessionKey s1 = sessionKey s2 -> s1 = s2.
Proof. apply (inj (String.append _)). Qed.

Lemma userSessionKey_inj u1 u2 : in_int64 u1 -> in_int64 u2 -> userSessionKey u1 = userSessionKey u2 -> u1 = u2.
Proof. intros H1 H2 Heq. apply (inj (String.append _)) in Heq. by apply FormatInt_inj. Qed.

Lemma sessionKey_userSessionKey s u : sessionKey s <> userSessionKey u.
Proof. done. Qed.

Lemma sessionKey_groupMembersKey s g : sessionKey s <> groupMembersKey g.
Proof. done. Qed.

Lemma userSessionKey_groupMembersKey u g : userSessionKey u <> groupMembersKey g.
Proof. done. Qed.

#[export] Hint Resolve sessionKey_userSessionKey sessionKey_groupMembersKey
  userSessionKey_groupMembersKey not_eq_sym : chat.
