(* ===== verification/Sessions.v ===== *)
(** * The session index as an abstract map

    The double index the session methods keep in Redis implements a map from
    users to their only active session and its expiry ([active]).  [sess_rep]
    relates the two; [owner] records for which user a session id was issued.
    The lemmas say what the two Lua scripts, a read and the passing of time do
    to the abstract map; the theorems about the services are in AuthSpec.v. *)

From Stdlib Require Import ZArith Lia String.
From stdpp Require Import base tactics list gmap strings.
From S2P Require Import Prelude GoStd Effects Redis Database World Store.

Local Open Scope Z_scope.

(** user -> (session, expiry instant) *)
Abbreviation active := (gmap Z (string * Z)).
(** session -> user it was issued for *)
Abbreviation owners := (gmap string Z).

Definition user_entry (p : string * Z) : rentry := REntry (VStr p.1) (Some p.2).
Definition sess_entry (uid ex : Z) : rentry := REntry (VStr (FormatInt uid)) (Some ex).

Record sess_rep (own : owners) (act : active) (ks : keyspace) : Prop := {
  rep_user uid : in_int64 uid -> ks !! userSessionKey uid = user_entry <$> act !! uid;
  rep_sess sid e :
    ks !! sessionKey sid = Some e <->
    exists uid ex, act !! uid = Some (sid, ex) /\ e = sess_entry uid ex;
  rep_own uid sid ex : act !! uid = Some (sid, ex) -> in_int64 uid /\ own !! sid = Some uid }.

(** ** The abstract operations *)

(** Login: the user's previous session is replaced. *)
Definition act_login (now ttl : Z) (uid : Z) (sid : string) (act : active) : active :=
  <[uid := (sid, now + ttl * 1000)]> act.

(** Logout: only the user's current session is removed. *)
Definition act_logout (uid : Z) (sid : string) (act : active) : active :=
  match act !! uid with
  | Some (sid', _) => if String.eqb sid' sid then delete uid act else act
  | None => act
  end.

(** Logout, from the session alone. *)
Definition act_remove (sid : string) (act : active) : active :=
  filter (fun p => p.2.1 <> sid) act.

(** Time: expired sessions vanish. *)
Definition act_expire (now : Z) (act : active) : active :=
  filter (fun p => now < p.2.2) act.

(** ** Facts *)

Section rep.
Context (own : owners).
Implicit Types (act : active) (ks : keyspace).

(** A session belongs to one user. *)
Lemma rep_unique act ks uid1 uid2 sid ex1 ex2 :
  sess_rep own act ks -> act !! uid1 = Some (sid, ex1) -> act !! uid2 = Some (sid, ex2) -> uid1 = uid2.
Proof.
  intros R H1 H2. apply (rep_own _ _ _ R) in H1 as [_ H1], H2 as [_ H2]. congruence.
Qed.

Lemma rep_sess_lookup act ks uid sid ex :
  sess_rep own act ks -> act !! uid = Some (sid, ex) -> ks !! sessionKey sid = Some (sess_entry uid ex).
Proof. intros R Hu. apply (rep_sess _ _ _ R). eauto. Qed.

Lemma rep_sess_other act ks sid :
  sess_rep own act ks -> (forall uid ex, act !! uid <> Some (sid, ex)) -> ks !! sessionKey sid = None.
Proof.
  intros R Hn. destruct (ks !! sessionKey sid) eqn:He; [|done].
  apply (rep_sess _ _ _ R) in He as (uid & ex & Hu & _). by edestruct Hn.
Qed.

Lemma rep_own_mono own' act ks : own ⊆ own' -> sess_rep own act ks -> sess_rep own' act ks.
Proof.
  intros Hsub R. split; [apply R|apply R|].
  intros uid sid ex Hu. apply (rep_own _ _ _ R) in Hu as [? Ho]. split; [done|].
  by eapply lookup_weaken.
Qed.

(** Writes to other keys do not touch the index. *)
Lemma rep_frame act ks ks' :
  (forall sid, ks' !! sessionKey sid = ks !! sessionKey sid) ->
  (forall uid, ks' !! userSessionKey uid = ks !! userSessionKey uid) ->
  sess_rep own act ks -> sess_rep own act ks'.
Proof.
  intros H1 H2 [R1 R2 R3]. split; [|intros sid e; rewrite H1; apply R2|done].
  intros uid Hu. rewrite H2. auto.
Qed.

Lemma rep_purge now act ks : sess_rep own act ks -> sess_rep own (act_expire now act) (purge now ks).
Proof.
  intros R. unfold act_expire. split.
  - intros uid Hu. apply option_eq. intros e. rewrite lookup_purge, (rep_user _ _ _ R uid Hu).
    rewrite !fmap_Some. split.
    + intros [([sid ex] & Ha & ->) Hl]. exists (sid, ex). split; [|done].
      by apply map_lookup_filter_Some.
    + intros ([sid ex] & Ha & ->). apply map_lookup_filter_Some in Ha as [Ha Hl]. split; [|done].
      by exists (sid, ex).
  - intros sid e. rewrite lookup_purge, (rep_sess _ _ _ R). split.
    + intros [(uid & ex & Ha & ->) Hl]. exists uid, ex. split; [|done].
      by apply map_lookup_filter_Some.
    + intros (uid & ex & Ha & ->). apply map_lookup_filter_Some in Ha as [Ha Hl]. split; [|done].
      by exists uid, ex.
  - intros uid sid ex Ha. apply map_lookup_filter_Some in Ha as [Ha _]. by eapply rep_own.
Qed.

Lemma rep_get_user act ks uid :
  sess_rep own act ks -> in_int64 uid ->
  get_string (ks !! userSessionKey uid) = Ok (fst <$> act !! uid).
Proof. intros R Hu. rewrite (rep_user _ _ _ R uid Hu). by destruct (act !! uid) as [[sid ex]|]. Qed.

(** The key space after the script of RefreshSession, given the active
    sessions before it. *)
Definition drop_old act uid ks : keyspace :=
  match act !! uid with Some (old, _) => delete (sessionKey old) ks | None => ks end.

Definition ks_login act uid sid d ks : keyspace :=
  <[sessionKey sid := sess_entry uid d]>
    (<[userSessionKey uid := user_entry (sid, d)]> (drop_old act uid ks)).

Lemma refresh_script_run now ttl act ks uid sid :
  0 < ttl -> in_int64 uid -> sess_rep own act ks ->
  lua_run now (refresh_script (userSessionKey uid) redisSessPrefix sid (FormatInt uid) ttl) ks
  = (Ok 1, ks_login act uid sid (now + ttl * 1000) ks).
Proof.
  intros Httl Hu R. unfold refresh_script, ks_login, drop_old.
  cbn [bind call lua_run doc_cmd]. rewrite (rep_get_user act) by done.
  destruct (act !! uid) as [[old ex]|];
    cbn [fmap option_fmap option_map fst bind call lua_run doc_cmd];
    rewrite !decide_False by lia; reflexivity.
Qed.

Lemma drop_old_user act uid u ks : drop_old act uid ks !! userSessionKey u = ks !! userSessionKey u.
Proof.
  unfold drop_old. destruct (act !! uid) as [[old ex]|]; [|done].
  rewrite lookup_delete_ne; auto with chat.
Qed.

Lemma drop_old_sess act uid s e ks :
  drop_old act uid ks !! sessionKey s = Some e <->
  ks !! sessionKey s = Some e /\ forall ex, act !! uid <> Some (s, ex).
Proof.
  unfold drop_old. destruct (act !! uid) as [[old ex]|] eqn:Ha; [|naive_solver].
  destruct (decide (s = old)) as [->|Ho'].
  - rewrite lookup_delete_eq. naive_solver.
  - rewrite lookup_delete_ne by (intros Heq; apply Ho'; symmetry; by apply sessionKey_inj).
    naive_solver.
Qed.

(** The script of RefreshSession performs the abstract login. *)
Lemma rep_login now ttl act ks uid sid :
  in_int64 uid -> own !! sid = Some uid -> sess_rep own act ks ->
  sess_rep own (act_login now ttl uid sid act) (ks_login act uid sid (now + ttl * 1000) ks).
Proof.
  intros Hu Ho R. unfold ks_login, act_login. set (d := now + ttl * 1000). split.
  - intros u Hin. rewrite lookup_insert_ne by auto with chat.
    destruct (decide (u = uid)) as [->|Hne]; [by rewrite !lookup_insert_eq|].
    rewrite lookup_insert_ne by (intros Heq; apply Hne; symmetry; by apply userSessionKey_inj).
    rewrite lookup_insert_ne by done. rewrite drop_old_user. by apply R.
  - intros s e. destruct (decide (s = sid)) as [->|Hne].
    + rewrite lookup_insert_eq. split.
      * intros [= <-]. exists uid, d. by rewrite lookup_insert_eq.
      * intros (u & ex & Ha & ->). destruct (decide (u = uid)) as [->|Hu'].
        { rewrite lookup_insert_eq in Ha. by simplify_eq. }
        rewrite lookup_insert_ne in Ha by done.
        apply (rep_own _ _ _ R) in Ha as [_ Ha]. congruence.
    + rewrite lookup_insert_ne by (intros Heq; apply Hne; symmetry; by apply sessionKey_inj).
      rewrite lookup_insert_ne by auto with chat.
      rewrite drop_old_sess, (rep_sess _ _ _ R). split.
      * intros [(u & ex & Ha & ->) Hno]. exists u, ex. split; [|done].
        rewrite lookup_insert_ne; [done|]. intros ->. by eapply Hno.
      * intros (u & ex & Ha & ->). destruct (decide (u = uid)) as [->|Hu'].
        { rewrite lookup_insert_eq in Ha. simplify_eq. }
        rewrite lookup_insert_ne in Ha by done. split; [eauto|].
        intros ex' Ha'. apply Hu'. by eapply rep_unique.
  - intros u s ex Ha. destruct (decide (u = uid)) as [->|Hu'].
    + rewrite lookup_insert_eq in Ha. by simplify_eq.
    + rewrite lookup_insert_ne in Ha by done. by eapply rep_own.
Qed.

(** The key space after the script of DeleteSession. *)
Definition ks_logout act uid sid ks : keyspace :=
  match act !! uid with
  | Some (c, _) =>
      if String.eqb c sid then delete (userSessionKey uid) (delete (sessionKey sid) ks)
      else delete (sessionKey sid) ks
  | None => delete (sessionKey sid) ks
  end.

Lemma delete_script_run now act ks uid sid :
  in_int64 uid -> sess_rep own act ks ->
  lua_run now (delete_script (sessionKey sid) (userSessionKey uid) sid) ks
  = (Ok 1, ks_logout act uid sid ks).
Proof.
  intros Hu R. unfold delete_script, ks_logout. cbn [bind call lua_run doc_cmd].
  rewrite lookup_delete_ne by auto with chat. rewrite (rep_get_user act) by done.
  destruct (act !! uid) as [[c ex]|]; cbn [fmap option_fmap option_map fst bind call lua_run doc_cmd]; [|done].
  by destruct (String.eqb c sid).
Qed.

(** The script of DeleteSession performs the abstract logout. *)
Lemma rep_logout act ks uid sid :
  in_int64 uid -> own !! sid = Some uid -> sess_rep own act ks ->
  sess_rep own (act_logout uid sid act) (ks_logout act uid sid ks).
Proof.
  intros Hu Ho R. unfold ks_logout, act_logout.
  destruct (act !! uid) as [[c ex]|] eqn:Ha;
    [destruct (String.eqb_spec c sid) as [->|Hc]|].
  - split.
    + intros u Hin. destruct (decide (u = uid)) as [->|Hne].
      * by rewrite !lookup_delete_eq.
      * rewrite lookup_delete_ne by (intros Heq; apply Hne; symmetry; by apply userSessionKey_inj).
        rewrite !lookup_delete_ne by auto with chat. by apply R.
    + intros s e. rewrite lookup_delete_ne by auto with chat.
      destruct (decide (s = sid)) as [->|Hne].
      * rewrite lookup_delete_eq. split; [done|]. intros (u & ex' & Hd & ->).
        apply lookup_delete_Some in Hd as [Hne Hd]. exfalso. apply Hne. symmetry.
        by eapply rep_unique.
      * rewrite lookup_delete_ne by (intros Heq; apply Hne; symmetry; by apply sessionKey_inj).
        rewrite (rep_sess _ _ _ R). setoid_rewrite lookup_delete_Some.
        split; intros (u & ex' & Hd & ->); [|naive_solver].
        exists u, ex'. split_and!; [|done|done]. intros ->. congruence.
    + intros u s ex' Hd. apply lookup_delete_Some in Hd as [_ Hd]. by eapply rep_own.
  - rewrite delete_id; [done|]. eapply rep_sess_other; [done|].
    intros u ex' Hd. pose proof (rep_own _ _ _ R _ _ _ Hd) as [_ Hd']. congruence.
  - rewrite delete_id; [done|]. eapply rep_sess_other; [done|].
    intros u ex' Hd. pose proof (rep_own _ _ _ R _ _ _ Hd) as [_ Hd']. congruence.
Qed.

(** What a reader of the index sees. *)
Lemma rep_get_sess act ks sid :
  sess_rep own act ks ->
  (exists uid ex, act !! uid = Some (sid, ex)
     /\ get_string (ks !! sessionKey sid) = Ok (Some (FormatInt uid)) /\ in_int64 uid)
  \/ ((forall uid ex, act !! uid <> Some (sid, ex)) /\ get_string (ks !! sessionKey sid) = Ok None).
Proof.
  intros R. destruct (ks !! sessionKey sid) as [e|] eqn:He.
  - left. apply (rep_sess _ _ _ R) in He as (uid & ex & Ha & ->). exists uid, ex.
    split_and!; [done|done|]. by eapply rep_own.
  - right. split; [|done]. intros uid ex Ha.
    rewrite (rep_sess_lookup act ks uid sid ex) in He by done. done.
Qed.

Lemma act_remove_absent act sid :
  (forall uid ex, act !! uid <> Some (sid, ex)) -> act_remove sid act = act.
Proof.
  intros Hn. apply map_filter_id. intros uid [s ex] Ha. cbn. intros ->. by eapply Hn.
Qed.

(** The two readings of a logout agree. *)
Lemma act_logout_remove act ks uid sid :
  sess_rep own act ks -> own !! sid = Some uid -> act_logout uid sid act = act_remove sid act.
Proof.
  intros R Ho. unfold act_logout.
  assert (forall u ex, act !! u = Some (sid, ex) -> u = uid) as Hu.
  { intros u ex Ha. apply (rep_own _ _ _ R) in Ha as [_ Ha]. congruence. }
  destruct (act !! uid) as [[c ex]|] eqn:Ha; [destruct (String.eqb_spec c sid) as [->|Hc]|].
  - apply map_eq. intros u. apply option_eq. intros [s e].
    unfold act_remove. rewrite map_lookup_filter_Some, lookup_delete_Some. cbn.
    split; [intros [Hne Hs]|intros [Hs Hne]]; (split; [try done|try done]).
    + intros ->. apply Hne. symmetry. by eapply Hu.
    + intros ->. congruence.
  - symmetry. apply act_remove_absent. intros u e Hs. assert (u = uid) as -> by eauto. congruence.
  - symmetry. apply act_remove_absent. intros u e Hs. assert (u = uid) as -> by eauto. congruence.
Qed.
End rep.

Lemma rep_empty : sess_rep ∅ ∅ ∅.
Proof.
  split; intros; rewrite ?lookup_empty in *; [done| |done].
  split; [done|]. by intros (? & ? & ? & _).
Qed.

(** An active session stays the user's session until it expires. *)
Lemma act_expire_lookup now act uid p :
  act_expire now act !! uid = Some p <-> act !! uid = Some p /\ now < p.2.
Proof. unfold act_expire. by rewrite map_lookup_filter_Some. Qed.

Lemma act_expire_expire now now' act :
  now <= now' -> act_expire now' (act_expire now act) = act_expire now' act.
Proof.
  intros Hle. apply map_eq. intros u. apply option_eq. intros p.
  rewrite !act_expire_lookup. intuition lia.
Qed.
