(* ===== verification/Auth.v ===== *)
(** * The authentication service (src/internal/logic/auth.go)

    Register, Login, Verify and Logout of [AuthServer], and the query of a
    user's small groups that Login answers with. *)

From Stdlib Require Import ZArith Lia String.
From stdpp Require Import base tactics list gmap strings sorting.
From S2P Require Import Prelude GoStd Effects Redis Database Proto World Store.

Local Open Scope string_scope.
Local Open Scope Z_scope.

Record UserSmallGroup := { usg_GroupID : Z; usg_GroupName : string; usg_MemberCount : Z }.

(** ** The query of ListUserSmallGroups, clause by clause *)

(** [LEFT JOIN groups ON group_members.group_id = groups.id] *)
Definition left_join (t : tables) : list (GroupMember * option Group) :=
  t_members t ≫= fun m =>
    match filter (fun g => g_ID g = gmb_GroupID m) (t_groups t) with
    | [] => [(m, None)]
    | gs => (fun g => (m, Some g)) <$> gs
    end.

(** [WHERE group_members.id=? AND groups.group_status=0 AND
    group_members.user_status=0] *)
Definition small_groups_where (userID : Z) (r : GroupMember * option Group) : bool :=
  (gmb_ID r.1 =? userID)
  && (match r.2 with Some g => g_Status g =? 0 | None => false end)
  && (gmb_UserStatus r.1 =? 0).

(** [ORDER BY group_members.joined_at DESC] *)
Definition later_join (r1 r2 : GroupMember * option Group) : Prop :=
  gmb_JoinAt r2.1 <= gmb_JoinAt r1.1.
#[export] Instance later_join_dec : RelDecision later_join.
Proof. intros r1 r2. unfold later_join. apply _. Defined.

(** [SELECT group_members.group_id, groups.group_name, groups.member_count] *)
Definition small_groups_select (r : GroupMember * option Group) : UserSmallGroup :=
  {| usg_GroupID := gmb_GroupID r.1;
     usg_GroupName := match r.2 with Some g => g_Name g | None => "" end;
     usg_MemberCount := match r.2 with Some g => g_MemberCount g | None => 0 end |}.

Definition small_groups_query (userID : Z) (t : tables) : list UserSmallGroup :=
  small_groups_select <$>
    merge_sort later_join (List.filter (small_groups_where userID) (left_join t)).

Section auth.
Context `{Crypto} `{Collation} {M : Type} (s : Store).

Definition ListUserSmallGroups (userID : Z) : prog (ev M) (res (list UserSmallGroup)) :=
  call (Sql (Scan (fun t => Ok (small_groups_query userID t)))).

Definition Register (req : RegisterRequest) : prog (ev M) (res RegisterReply) :=
  if String.eqb (rr_Username req) "" || String.eqb (rr_Password req) "" then
    Ret (Err (ErrMsg "username/password required"))
  else
    try hash <- call (BcryptGen (rr_Password req)) ;;
    try id <- CreateUser (rr_Username req) hash ;;
    Ret (Ok {| rp_UserId := id |}).

Definition Login (req : LoginRequest) : prog (ev M) (res LoginReply) :=
  if String.eqb (lr_Username req) "" || String.eqb (lr_Password req) "" then
    Ret (Err (ErrMsg "empty username or password"))
  else
    u <- call (Sql (Scan (fun t =>
           Take (fun u => sql_eq (u_Username u) (lr_Username req)) (t_users t)))) ;;
    match u with
    | Err ErrRecordNotFound => Ret (Err (ErrMsg "invalid password or username"))
    | Err e => Ret (Err e)
    | Ok user =>
        if CompareHashAndPassword (u_PasswordHash user) (lr_Password req) then
          sessionID <- call NewUUID ;;
          r <- RefreshSession s (u_ID user) sessionID ;;
          match r with
          | Err e => Ret (Err (ErrMsg ("refresh seesion faild:" ++ Error e)))
          | Ok _ =>
              gs <- ListUserSmallGroups (u_ID user) ;;
              match gs with
              | Err e => Ret (Err (ErrMsg ("load small group failed:" ++ Error e)))
              | Ok groups =>
                  Ret (Ok {| lp_UserId := u_ID user; lp_SessionId := sessionID;
                             lp_SmallGroups :=
                               (fun g => {| sgi_GroupId := usg_GroupID g;
                                            sgi_GroupName := usg_GroupName g;
                                            sgi_MemberCount := usg_MemberCount g |}) <$> groups |})
              end
          end
        else Ret (Err (ErrMsg "invalid password or username"))
    end.

Definition Verify (req : VerifyRequest) : prog (ev M) (res VerifyReply) :=
  if String.eqb (vr_SessionId req) "" then Ret (Err (ErrMsg "empty session"))
  else
    r <- IsSessionActive (vr_SessionId req) ;;
    match r with
    | Ok userID => Ret (Ok {| vp_UserId := userID |})
    | Err e => Ret (Err e)
    end.

Definition Logout (req : LogoutRequest) : prog (ev M) (res LogoutReply) :=
  if String.eqb (lo_SessionId req) "" then Ret (Err (ErrMsg "empty sessionID"))
  else
    try u <- DeleteSession (lo_SessionId req) ;;
    Ret (Ok {| lop_Ok := true |}).
End auth.
