(* ===== verification/AuthSpec.v ===== *)
(** * What the authentication service guarantees

    Weakest preconditions of the session and account methods over the abstract
    session map of Sessions.v, and the theorems they give. *)

From Stdlib Require Import ZArith Lia String.
From stdpp Require Import base tactics list gmap strings sorting.
From S2P Require Import Prelude GoStd Effects Redis Database Proto World Rules RefWorld Store Sessions Auth.

Local Open Scope string_scope.
Local Open Scope Z_scope.

(** ** The methods against the abstract map *)
Section methods.
Context `{Crypto} `{Collation} {M : Type} (fl : bool).
Implicit Types v : sysview M.

Lemma wp_IsSessionActive own act v sid :
  sess_rep own act (v_rds v) ->
  wp (ext fl) (IsSessionActive sid) v (fun r v' =>
    v_now v <= v_now v' /\ v' = tick (v_now v') v /\
    match r with
    | Ok uid => exists ex, act !! uid = Some (sid, ex) /\ v_now v' < ex
    | Err _ => fl = false -> forall uid ex, act !! uid = Some (sid, ex) -> ex <= v_now v'
    end).
Proof.
  intros R. apply wp_read; [done|]. intros t r Ht [Hr | [-> [msg ->]]]; [cbn in Hr; subst r|cbn; split_lia].
  pose proof (rep_purge own t act _ R) as R1.
  destruct (rep_get_sess _ _ _ sid R1) as [(uid & ex & Ha & -> & Hin) | [Hn ->]].
  - rewrite ParseInt_FormatInt by done. apply wp_read; [done|].
    intros t2 r Ht2 [Hr | [-> [msg ->]]]; [cbn in Hr; subst r|cbn in *; rewrite tick_tick by done; split_lia].
    rewrite purge_purge by done. pose proof (rep_purge own t2 act _ R) as R2.
    rewrite (rep_get_user _ _ _ _ R2 Hin). cbn in Ht2.
    apply act_expire_lookup in Ha as [Ha Hex]; cbn in Hex.
    destruct (act_expire t2 act !! uid) as [[sid' ex']|] eqn:Ha2; cbn.
    + apply act_expire_lookup in Ha2 as [Ha2 Hex']; cbn in Hex'.
      assert (sid' = sid /\ ex' = ex) as [-> ->] by (by simplify_eq).
      rewrite String.eqb_refl. cbn. rewrite tick_tick by done. split_and!; [lia|done|eauto].
    + rewrite tick_tick by done. split_and!; [lia|done|]. intros _ u ex' Hu.
      assert (u = uid) as -> by exact (rep_unique _ _ _ _ _ _ _ _ R Hu Ha).
      assert (ex' = ex) as -> by (by simplify_eq).
      destruct (decide (ex <= t2)); [done|].
      assert (act_expire t2 act !! uid = Some (sid, ex)); [|congruence].
      apply act_expire_lookup. split; [done|]. cbn. lia.
  - cbn. split_and!; [lia|done|]. intros _ u ex Hu. destruct (decide (ex <= t)); [done|].
    exfalso. apply (Hn u ex), act_expire_lookup. cbn. split; [done|lia].
Qed.

Lemma wp_Verify own act v sid :
  sess_rep own act (v_rds v) ->
  wp (ext fl) (Verify {| vr_SessionId := sid |}) v (fun r v' =>
    v_now v <= v_now v' /\ (v' = v \/ v' = tick (v_now v') v) /\
    match r with
    | Ok rp => exists ex, act !! vp_UserId rp = Some (sid, ex) /\ v_now v' < ex
    | Err _ => sid <> "" -> fl = false -> forall uid ex, act !! uid = Some (sid, ex) -> ex <= v_now v'
    end).
Proof.
  intros R. unfold Verify. cbn [vr_SessionId].
  destruct (String.eqb_spec sid "") as [?|Hne]; [cbn; split_and!; [lia|by left|done]|].
  apply wp_bind. eapply wp_mono; [exact (wp_IsSessionActive own act v sid R)|].
  intros r v' (Hn & Hv & Hr). destruct r as [u|e]; cbn; (split_and!; [done|by right|]); [done|]. intros _. done.
Qed.

Lemma wp_RefreshSession s own act v uid sid :
  in_int64 uid -> own !! sid = Some uid -> 0 < ttl_seconds s -> sess_rep own act (v_rds v) ->
  wp (ext fl) (RefreshSession s uid sid) v (fun r v' =>
    rds_only v v' /\
    let before := act_expire (v_now v') act in
    let after := act_login (v_now v') (ttl_seconds s) uid sid before in
    match r with
    | Ok _ => sess_rep own after (v_rds v')
    | Err _ => fl = true /\ (sess_rep own before (v_rds v') \/ sess_rep own after (v_rds v'))
    end).
Proof.
  intros Hu Ho Httl R. apply wp_eval. intros t r ks Ht Hr. cbn.
  pose proof (rep_purge own t act _ R) as R1.
  rewrite (refresh_script_run own _ _ _ _ _ _ Httl Hu R1) in Hr.
  pose proof (rep_login own t (ttl_seconds s) _ _ _ _ Hu Ho R1) as R2.
  split; [by apply rds_only_set|].
  destruct Hr as [Hr | [[-> [msg ->]] [-> | ->]]]; [by simplify_eq|cbn; auto..].
Qed.

Lemma wp_DeleteSession own act v sid :
  sess_rep own act (v_rds v) ->
  wp (ext fl) (DeleteSession sid) v (fun r v' =>
    rds_only v v' /\
    let before := act_expire (v_now v') act in
    match r with
    | Ok _ => sess_rep own (act_remove sid before) (v_rds v')
    | Err _ => fl = true /\
        (sess_rep own before (v_rds v') \/ sess_rep own (act_remove sid before) (v_rds v'))
    end).
Proof.
  intros R. apply wp_read; [done|].
  intros t r Ht [Hr | [-> [msg ->]]]; pose proof (rep_purge own t act _ R) as R1;
    [cbn in Hr; subst r|cbn; auto with chat].
  destruct (rep_get_sess _ _ _ sid R1) as [(uid & ex & Ha & -> & Hin) | [Hn ->]];
    [|cbn; rewrite act_remove_absent by done; auto with chat].
  rewrite ParseInt_FormatInt by done. apply wp_eval. intros t2 r ks Ht2 Hr. cbn in Ht2 |- *. cbn [v_rds tick] in Hr.
  rewrite purge_purge in Hr by done. pose proof (rep_purge own t2 act _ R) as R2.
  rewrite (delete_script_run own t2 _ _ _ sid Hin R2) in Hr.
  assert (own !! sid = Some uid) as Ho by exact (proj2 (rep_own _ _ _ R1 _ _ _ Ha)).
  pose proof (rep_logout own _ _ uid sid Hin Ho R2) as R3.
  rewrite (act_logout_remove own _ _ _ _ R2 Ho) in R3.
  split; [apply rds_only_trans with (tick t v); auto with chat|].
  destruct Hr as [Hr | [[-> [msg ->]] [-> | ->]]]; [by simplify_eq|cbn; auto..].
Qed.

(** Every user id fits the column. *)
Definition users_ok (t : tables) : Prop := Forall (fun u => in_int64 (u_ID u)) (t_users t).

(** The row the query of Login finds, if the password matches it. *)
Definition opens (t : tables) (name pw : string) (user : User) : Prop :=
  Take (fun u => sql_eq (u_Username u) name) (t_users t) = Ok user
  /\ CompareHashAndPassword (u_PasswordHash user) pw = true.

Lemma wp_ListUserSmallGroups uid v :
  wp (ext fl) (ListUserSmallGroups uid) v (fun r v' =>
    v_now v <= v_now v' /\ v' = tick (v_now v') v
    /\ (r = Ok (small_groups_query uid (v_db v)) \/ ext_err fl r)).
Proof. apply wp_scan. intros t x Ht Hx. split_and!; [done|done|by cbn]. Qed.

Lemma wp_Login s own act v req :
  sess_rep own act (v_rds v) -> dom own ⊆ v_uuids v -> users_ok (v_db v) -> 0 < ttl_seconds s ->
  wp (ext fl) (Login s req) v (fun r v' =>
    v_db v' = v_db v /\ v_now v <= v_now v' /\
    match r with
    | Ok lp =>
        let uid := lp_UserId lp in
        let sid := lp_SessionId lp in
        (sid ∉ v_uuids v) /\ sid <> EmptyString /\ v_uuids v' = {[sid]} ∪ v_uuids v /\
        (exists user, opens (v_db v) (lr_Username req) (lr_Password req) user /\ u_ID user = uid) /\
        (exists t, v_now v <= t <= v_now v' /\
          sess_rep (<[sid := uid]> own)
            (act_expire (v_now v') (act_login t (ttl_seconds s) uid sid (act_expire t act)))
            (v_rds v'))
    | Err e =>
        fl = false ->
        (v' = v \/ v' = tick (v_now v') v) /\
        (e = ErrMsg "empty username or password" /\ (lr_Username req = "" \/ lr_Password req = "")
         \/ e = ErrMsg "invalid password or username"
            /\ forall user, ~ opens (v_db v) (lr_Username req) (lr_Password req) user)
    end).
Proof.
  intros R Hdom Husers Httl. unfold Login.
  destruct (String.eqb_spec (lr_Username req) "") as [?|Hu];
    [cbn; split_and!; [done|lia|auto]|].
  destruct (String.eqb_spec (lr_Password req) "") as [?|Hp];
    [cbn; split_and!; [done|lia|auto]|].
  cbn [orb]. apply wp_scan. intros t x Ht Hx.
  destruct Hx as [Hx | [-> [msg ->]]]; [|cbn; split_lia].
  destruct (Take _ _) as [user|e] eqn:Hq; subst x.
  2:{ apply Take_Err in Hq as Hq'. destruct Hq' as [-> _]. cbn. split_and!; [done|done|].
      intros _. split; [auto|]. right. split; [done|]. intros user [Hq' _]. congruence. }
  destruct (CompareHashAndPassword _ _) eqn:Hc.
  2:{ cbn. split_and!; [done|done|]. intros _. split; [auto|]. right. split; [done|].
      intros user' [Hq' Hc']. congruence. }
  apply wp_uuid. cbn [v_now v_uuids tick]. intros t1 sid Ht1 Hsid Hfresh.
  apply wp_bind. set (uid := u_ID user).
  assert (in_int64 uid) as Hin.
  { apply Take_Ok in Hq as [Hq _]. unfold users_ok in Husers. rewrite Forall_forall in Husers. apply Husers. by apply list_elem_of_In. }
  set (v1 := add_uuid sid (tick t1 (tick t v))).
  assert (sess_rep (<[sid:=uid]> own) (act_expire t1 act) (v_rds v1)) as R1.
  { cbn. rewrite purge_purge by done. apply rep_own_mono with own; [|by apply rep_purge].
    apply insert_subseteq, not_elem_of_dom. set_solver. }
  eapply wp_mono; [apply (wp_RefreshSession s (<[sid:=uid]> own)); [done|by rewrite lookup_insert_eq|done|exact R1]|].
  intros r v2 [[Hn2 Hv2] Hr]. cbn in Hn2.
  destruct r as [[]|e]; [|cbn; destruct Hr as [-> _]; split_and!; [by rewrite Hv2|lia|done]].
  apply wp_bind. eapply wp_mono; [apply wp_ListUserSmallGroups|].
  intros r v3 (Hn3 & Hv3 & Hr3).
  destruct Hr3 as [-> | [-> [msg ->]]]; cbn; [|split_and!; [by rewrite Hv3, Hv2|lia|done]].
  split_and!; [by rewrite Hv3, Hv2|lia|done|done|by rewrite Hv3, Hv2|exists user; by repeat split|].
  exists (v_now v2). split; [lia|]. rewrite Hv3 at 2. cbn.
  apply rep_purge. cbn in Hr. by rewrite act_expire_expire in Hr by done.
Qed.

Lemma varchar_fits n s stored : (utf8_take n s).2 = "" -> varchar n s = Ok stored -> stored = s.
Proof.
  intros Hb. unfold varchar. destruct (utf8_take n s) as [a b] eqn:Hs. cbn in Hb. subst b. intros [= <-]. cbn in *.
  revert n a Hs. induction s as [|c s IH]; intros n a Hs; cbn in Hs; [congruence|].
  destruct (utf8_continues c).
  - destruct (utf8_take n s) as [a' b'] eqn:Hs'. injection Hs as <- ->. f_equal. by eapply IH.
  - destruct n as [|n]; [done|]. destruct (utf8_take n s) as [a' b'] eqn:Hs'. injection Hs as <- ->. f_equal. by eapply IH.
Qed.

Lemma insert_user_ok name h now ai t x t' :
  fresh_ids ai t -> users_ok t -> (x, t') = insert_user name h now ai t ->
  users_ok t' /\
  match x with
  | Ok id => exists stored, varchar 64 name = Ok stored /\ uk_username stored t = false /\
      t' = set_users (fun l => l ++ [{| u_ID := id; u_Username := stored;
             u_PasswordHash := h; u_CreatTime := datetime now |}])%list t
  | Err _ => t' = t
  end.
Proof.
  intros [[Hpos _] _] Hu Hx. unfold insert_user in Hx.
  destruct (varchar 64 name) as [stored|e]; [|by simplify_eq].
  destruct (uk_username stored t) eqn:Huk; [by simplify_eq|].
  destruct (insert_id (ai_users ai)) as [id|e] eqn:Hid; simplify_eq; [|done]. split; [|by exists stored].
  apply insert_id_Ok in Hid as [-> Hmax].
  apply Forall_app; split; [exact Hu|]. constructor; [|done]. cbn. unfold in_int64, min_int64. lia.
Qed.

Lemma wp_Register own act v req :
  sess_rep own act (v_rds v) -> users_ok (v_db v) ->
  wp (ext fl) (Register req) v (fun r v' =>
    v_now v <= v_now v' /\ v_uuids v' = v_uuids v /\ users_ok (v_db v') /\
    match r with
    | Ok rp =>
        sess_rep own (act_expire (v_now v') act) (v_rds v') /\
        rr_Username req <> "" /\ rr_Password req <> "" /\
        exists stored h at_, varchar 64 (rr_Username req) = Ok stored /\ uk_username stored (v_db v) = false /\
          CompareHashAndPassword h (rr_Password req) = true /\
          v_db v' = set_users (fun l => (l ++ [{| u_ID := rp_UserId rp; u_Username := stored;
                                               u_PasswordHash := h; u_CreatTime := at_ |}])%list) (v_db v)
    | Err _ => fl = false -> v_db v' = v_db v
    end).
Proof.
  intros R Hu. unfold Register.
  destruct (String.eqb_spec (rr_Username req) "") as [?|Hn]; [cbn; split_and!; [lia|done..]|].
  destruct (String.eqb_spec (rr_Password req) "") as [?|Hp]; [cbn; split_and!; [lia|done..]|].
  cbn [orb]. apply wp_bcrypt; [|intros t msg Ht _; cbn; split_and!; [lia|done..]].
  intros t h Ht _ Hh. unfold CreateUser. cbn [bind call]. apply wp_now. intros t1 at_ Ht1.
  apply wp_sql. intros t2 x db Ht2 Hx. cbn [v_now v_db tick] in *.
  destruct Hx as [(ai & Hai & Hx) | [[-> [msg ->]] [-> | (x0 & ai & Hai & Hx)]]];
    [|cbn; split_and!; [lia|done..]|].
  - destruct (insert_user_ok _ _ _ _ _ _ _ Hai Hu Hx) as [Hu' Hcase]. destruct x as [id|e]; cbn.
    + destruct Hcase as (stored & Hst & Huk & ->). split_and!; [lia|done|done| |done|done|by eexists stored, h, _].
      rewrite !purge_purge by lia. by apply rep_purge.
    + split_and!; [lia|done..].
  - destruct (insert_user_ok _ _ _ _ _ _ _ Hai Hu Hx) as [Hu' _]. cbn. split_and!; [lia|done..].
Qed.
End methods.

(** ** Theorems about the service in any environment *)
Section theorems.
Context `{HC : Crypto} `{HCo : Collation} {M W : Type} `{HW : !World false M W}.

Lemma Verify_post own act w sid r w' :
  sess_rep own act (v_rds (view w)) -> sid <> "" ->
  exec (Verify {| vr_SessionId := sid |}) w = (r, w') ->
  let act' := act_expire (v_now (view w')) act in
  sess_rep own act' (v_rds (view w'))
  /\ forall uid, r = Ok {| vp_UserId := uid |} <-> exists ex, act' !! uid = Some (sid, ex).
Proof.
  intros R Hsid Hrun.
  by_wp Hrun. unfold Verify. cbn [vr_SessionId].
  destruct (String.eqb_spec sid "") as [?|_]; [done|].
  apply wp_bind. eapply wp_mono; [exact (wp_IsSessionActive _ own act _ _ R)|].
  intros r v' (Hn & Hv & Hr). destruct r as [u|e]; cbn; (split; [rewrite Hv at 2; by apply rep_purge|]);
    intros uid; setoid_rewrite act_expire_lookup; cbn.
  - destruct Hr as (ex & Ha & Hex). split; [intros [= <-]; eauto|].
    intros (ex' & Ha' & _). do 2 f_equal. by eapply rep_unique.
  - split; [done|]. intros (ex & Ha & Hex). specialize (Hr eq_refl _ _ Ha). lia.
Qed.

(** C23. Verify answers exactly the abstract session map: a non-empty session
    is accepted, for user [uid], if and only if it is the active session of
    [uid] and has not expired when the answer is given; and the index keeps
    implementing the map. *)
Theorem Verify_refines own act w sid r w' :
  sess_rep own act (v_rds (view w)) -> sid <> "" ->
  exec (Verify {| vr_SessionId := sid |}) w = (r, w') ->
  let act' := act_expire (v_now (view w')) act in
  sess_rep own act' (v_rds (view w'))
  /\ forall uid, r = Ok {| vp_UserId := uid |} <-> exists ex, act' !! uid = Some (sid, ex).
Proof. apply Verify_post. Qed.

(** What a successful login leaves, for the next request. *)
Lemma Login_post s own act w q l w' :
  sess_rep own act (v_rds (view w)) -> dom own ⊆ v_uuids (view w) ->
  users_ok (v_db (view w)) -> 0 < ttl_seconds s ->
  exec (Login s q) w = (Ok l, w') ->
  (lp_SessionId l ∉ v_uuids (view w)) /\ lp_SessionId l <> ""
  /\ v_uuids (view w') = {[lp_SessionId l]} ∪ v_uuids (view w)
  /\ users_ok (v_db (view w')) /\ v_now (view w) <= v_now (view w')
  /\ exists t, v_now (view w) <= t <= v_now (view w')
     /\ sess_rep (<[lp_SessionId l := lp_UserId l]> own)
          (act_expire (v_now (view w'))
             (act_login t (ttl_seconds s) (lp_UserId l) (lp_SessionId l) (act_expire t act)))
          (v_rds (view w')).
Proof.
  intros R Hd Hu Ht H. pose proof (exec_wp _ _ _ (wp_Login _ s own act _ q R Hd Hu Ht) _ _ H) as Hp.
  cbn in Hp. destruct Hp as (Hdb & Hn & Hf & Hne & Huu & _ & Hr). rewrite Hdb. split_and!; done.
Qed.

(** C7. Single login: when the same user logs in twice, the first session is
    refused from then on, and the second is accepted for that user as long as
    its time to live has not passed. *)
Theorem single_active_session s own act w0 q1 q2 l1 l2 r1 r2 w1 w2 w3 w4 :
  sess_rep own act (v_rds (view w0)) -> dom own ⊆ v_uuids (view w0) ->
  users_ok (v_db (view w0)) -> 0 < ttl_seconds s ->
  exec (Login s q1) w0 = (Ok l1, w1) ->
  exec (Login s q2) w1 = (Ok l2, w2) ->
  lp_UserId l1 = lp_UserId l2 ->
  exec (Verify {| vr_SessionId := lp_SessionId l1 |}) w2 = (r1, w3) ->
  exec (Verify {| vr_SessionId := lp_SessionId l2 |}) w3 = (r2, w4) ->
  v_now (view w4) < v_now (view w1) + ttl_seconds s * 1000 ->
  is_ok r1 = false /\ r2 = Ok {| vp_UserId := lp_UserId l2 |}.
Proof.
  intros R Hd Hu Httl H1 H2 Huid H3 H4 Hlt.
  apply (Login_post s own act) in H1 as (Hf1 & Hne1 & Huu1 & Hu1 & Hn1 & t1 & Ht1 & R1); [|done..].
  apply (Login_post s _ _ _ _ _ _ R1) in H2 as (Hf2 & Hne2 & Huu2 & Hu2 & Hn2 & t2 & Ht2 & R2); [|set_solver|done|done].
  rewrite Huid in *. set (uid := lp_UserId l2) in *.
  pose proof (exec_time _ _ _ _ H3) as Hn3. pose proof (exec_time _ _ _ _ H4) as Hn4.
  apply (Verify_post _ _ _ _ _ _ R2 Hne1) in H3 as [R3 Hv1].
  apply (Verify_post _ _ _ _ _ _ R3 Hne2) in H4 as [R4 Hv2]. split.
  - destruct r1 as [[u]|e]; [|done]. destruct (proj1 (Hv1 u) eq_refl) as [ex Hex].
    apply (rep_own _ _ _ R3) in Hex as Ho. destruct Ho as [_ Ho].
    assert (lp_SessionId l1 <> lp_SessionId l2) as Hne by set_solver.
    rewrite lookup_insert_ne, lookup_insert_eq in Ho by done. injection Ho as <-.
    apply act_expire_lookup in Hex as [Hex _]. apply act_expire_lookup in Hex as [Hex _].
    unfold act_login in Hex. rewrite lookup_insert_eq in Hex. by simplify_eq.
  - apply Hv2. exists (t2 + ttl_seconds s * 1000).
    rewrite !act_expire_lookup. unfold act_login. rewrite lookup_insert_eq. cbn. split_lia.
Qed.

(** Logout removes the session it is given and no other: a logout with a
    session that was replaced by a newer login does not log the user out. *)
Theorem Logout_refines own act w sid r w' :
  sess_rep own act (v_rds (view w)) -> sid <> "" ->
  exec (Logout {| lo_SessionId := sid |}) w = (r, w') ->
  r = Ok {| lop_Ok := true |}
  /\ sess_rep own (act_remove sid (act_expire (v_now (view w')) act)) (v_rds (view w')).
Proof.
  intros R Hsid Hrun. by_wp Hrun. unfold Logout. cbn [lo_SessionId].
  destruct (String.eqb_spec sid "") as [?|_]; [done|].
  apply wp_bind. eapply wp_mono; [exact (wp_DeleteSession _ own act _ _ R)|].
  intros r v' [_ Hr]. destruct r as [u|e]; cbn; [done|]. by destruct Hr.
Qed.

(** C29. A registered user whose name fits its column can log in with the
    password chosen, and is the user that was registered. *)
Theorem register_then_login s own act w0 name pw ip ua rp w1 r w2 :
  sess_rep own act (v_rds (view w0)) -> dom own ⊆ v_uuids (view w0) ->
  users_ok (v_db (view w0)) -> 0 < ttl_seconds s -> (utf8_take 64 name).2 = "" ->
  exec (Register {| rr_Username := name; rr_Password := pw |}) w0 = (Ok rp, w1) ->
  exec (Login s {| lr_Username := name; lr_Password := pw; lr_Ip := ip; lr_UserAgent := ua |}) w1 = (r, w2) ->
  exists lp, r = Ok lp /\ lp_UserId lp = rp_UserId rp.
Proof.
  intros R Hd Hu Httl Hlen H1 H2.
  pose proof (exec_wp _ _ _ (wp_Register _ own act _ _ R Hu) _ _ H1) as Hp. cbn in Hp. clear H1.
  destruct Hp as (_ & Huu & Hu1 & R1 & Hn & Hpw & stored & h & at_ & Hst & Huk & Hh & Hdb).
  apply varchar_fits in Hst as ->; [|done].
  rewrite <- Huu in Hd.
  pose proof (exec_wp _ _ _ (wp_Login _ s own _ _ _ R1 Hd Hu1 Httl) _ _ H2) as Hp. cbn in Hp. clear H2.
  destruct Hp as (_ & _ & Hp).
  assert (Take (fun u => sql_eq (u_Username u) name) (t_users (v_db (view w1)))
          = Ok {| u_ID := rp_UserId rp; u_Username := name; u_PasswordHash := h; u_CreatTime := at_ |}) as Htake.
  { rewrite Hdb. cbn. unfold Take. rewrite find_app_none; [cbn; by rewrite sql_eq_refl|].
    unfold uk_username in Huk. by rewrite existsb_false in Huk. }
  destruct r as [lp|e].
  - exists lp. split; [done|]. destruct Hp as (_ & _ & _ & (user & [Hq _] & <-) & _).
    rewrite Htake in Hq. by injection Hq as <-.
  - destruct (Hp eq_refl) as [_ [[_ [?|?]] | [_ Hno]]]; [done..|].
    exfalso. by eapply Hno.
Qed.

(** The small groups a login answers are those of the membership rows
    whose own id is the user's id: a user with memberships under other row
    ids, which is the normal case, gets none of them. *)
Theorem small_groups_by_row_id uid w gs w' :
  exec (ListUserSmallGroups uid) w = (Ok gs, w') ->
  (forall g, g ∈ gs -> exists row, row ∈ t_members (v_db (view w)) /\ gmb_ID row = uid /\ usg_GroupID g = gmb_GroupID row)
  /\ ((forall row, row ∈ t_members (v_db (view w)) -> gmb_ID row <> uid) -> gs = []).
Proof.
  intros Hrun.
  assert (gs = small_groups_query uid (v_db (view w))) as ->.
  { pose proof (exec_wp _ _ _ (wp_ListUserSmallGroups false uid (view w)) _ _ Hrun) as (_ & _ & [Hr | [? _]]); [|done].
    by injection Hr. }
  assert (forall r, In r (List.filter (small_groups_where uid) (left_join (v_db (view w)))) ->
    r.1 ∈ t_members (v_db (view w)) /\ gmb_ID r.1 = uid) as Hin.
  { intros r [Hr Hw]%List.filter_In. apply list_elem_of_In in Hr. unfold left_join in Hr.
    apply list_elem_of_bind in Hr as (m & Hr & Hm). unfold small_groups_where in Hw.
    apply andb_prop in Hw as [[Hw _]%andb_prop _]. apply Z.eqb_eq in Hw. split; [|done].
    destruct (filter _ _); [apply list_elem_of_singleton in Hr as ->; done|].
    by apply list_elem_of_fmap in Hr as (g0 & -> & _). }
  split.
  - intros g (r & -> & Hr)%list_elem_of_fmap. rewrite merge_sort_Permutation in Hr. apply list_elem_of_In in Hr.
    destruct (Hin r Hr) as [Hm Hid]. by exists r.1.
  - intros Hno. unfold small_groups_query.
    destruct (List.filter (small_groups_where uid) (left_join (v_db (view w)))) as [|r l] eqn:Hf; [done|].
    exfalso. destruct (Hin r) as [Hm Hid]; [by left|]. by eapply Hno.
Qed.
End theorems.
