(* ===== verification/GroupServer.v ===== *)
(** * Small groups (src/internal/logic/groupserver.go)

    The group methods of [AuthServer]: joining and creating a group inside a
    MySQL transaction, the double deletion of the cached member set, and the
    rebuild of that set from MySQL. *)

From Stdlib Require Import ZArith Lia String.
From stdpp Require Import base tactics list gmap strings.
From S2P Require Import Prelude GoStd Effects Redis Database Proto World Store.

Local Open Scope string_scope.
Local Open Scope Z_scope.

(** ** Statements *)

(** [SELECT * FROM groups WHERE id = ? AND group_status = 0 LIMIT 1 FOR UPDATE] *)
Definition take_group_for_update (groupID : Z) : sqlE (res Group) :=
  Scan (fun t => Take (fun g => (g_ID g =? groupID) && (g_Status g =? 0)) (t_groups t)).

(** [INSERT INTO group_members (...) VALUES (...)], with the id MySQL assigns. *)
Definition member_row (id : Z) (gm : GroupMember) : GroupMember :=
  {| gmb_ID := id; gmb_GroupID := gmb_GroupID gm; gmb_UserID := gmb_UserID gm;
     gmb_UserRole := gmb_UserRole gm; gmb_UserStatus := gmb_UserStatus gm;
     gmb_JoinAt := datetime (gmb_JoinAt gm); gmb_UpdateAt := datetime (gmb_UpdateAt gm) |}.

Definition insert_member (gm : GroupMember) (ai : autoinc) (t : tables) : res Z * tables :=
  match columns [unsigned (gmb_GroupID gm); unsigned (gmb_UserID gm)] with
  | Err e => (Err e, t)
  | Ok _ =>
      if uk_group_user (gmb_GroupID gm) (gmb_UserID gm) t then (Err dup_entry, t)
      else match insert_id (ai_members ai) with
           | Err e => (Err e, t)
           | Ok id => (Ok id, set_members (fun l => l ++ [member_row id gm])%list t)
           end
  end.

(** [... ON DUPLICATE KEY UPDATE id=id] (clause.OnConflict{DoNothing}): the
    answer is RowsAffected. *)
Definition insert_member_do_nothing (gm : GroupMember) (ai : autoinc) (t : tables) : res Z * tables :=
  match columns [unsigned (gmb_GroupID gm); unsigned (gmb_UserID gm)] with
  | Err e => (Err e, t)
  | Ok _ =>
      if uk_group_user (gmb_GroupID gm) (gmb_UserID gm) t then (Ok 0, t)
      else match insert_id (ai_members ai) with
           | Err e => (Err e, t)
           | Ok id => (Ok 1, set_members (fun l => l ++ [member_row id gm])%list t)
           end
  end.

(** [UPDATE groups SET member_count = member_count + 1 WHERE id = ?];
    [updated_at] follows the server's clock (ON UPDATE CURRENT_TIMESTAMP). *)
Definition incr_member_count (groupID now : Z) (g : Group) : Group :=
  if g_ID g =? groupID then
    {| g_ID := g_ID g; g_Name := g_Name g; g_Status := g_Status g;
       g_OwnerUserID := g_OwnerUserID g; g_MemberCount := g_MemberCount g + 1;
       g_CreatedAt := g_CreatedAt g; g_UpdatedAt := datetime now |}
  else g.

(** The column is INT UNSIGNED: an update that leaves it is an error. *)
Definition update_member_count (groupID : Z) (ai : autoinc) (t : tables) : res unit * tables :=
  if existsb (fun g => (g_ID g =? groupID) && (2 ^ 32 - 1 <=? g_MemberCount g)) (t_groups t)
  then (Err (ErrExt "Error 1264 (22003): Out of range value for column 'member_count'"), t)
  else (Ok tt, set_groups (fmap (incr_member_count groupID (ai_now ai))) t).

(** [INSERT INTO groups (...) VALUES (...)] *)
Definition group_row (id : Z) (g : Group) : Group :=
  {| g_ID := id; g_Name := g_Name g; g_Status := g_Status g; g_OwnerUserID := g_OwnerUserID g;
     g_MemberCount := g_MemberCount g; g_CreatedAt := datetime (g_CreatedAt g); g_UpdatedAt := datetime (g_UpdatedAt g) |}.

Definition insert_group `{Collation} (g : Group) (ai : autoinc) (t : tables) : res Z * tables :=
  if uk_group_name (g_Name g) t then (Err dup_entry, t)
  else match insert_id (ai_groups ai) with
       | Err e => (Err e, t)
       | Ok id => (Ok id, set_groups (fun l => l ++ [group_row id g])%list t)
       end.

(** ** AddGroup *)

Definition internal (what : string) (e : error) : error :=
  ErrStatus Internal (what ++ Error e).

(** The function AddGroup hands to DB.Transaction; the answer is [inserted]. *)
Definition add_group_tx (groupID userID now : Z) : prog sqlE (res bool) :=
  g <- call (take_group_for_update groupID) ;;
  match g with
  | Err ErrRecordNotFound => Ret (Err (ErrStatus NotFound "group not found or inactive"))
  | Err e => Ret (Err (internal "query group failed: " e))
  | Ok _ =>
      let gm := {| gmb_ID := 0; gmb_GroupID := groupID; gmb_UserID := userID;
                   gmb_UserRole := 0; gmb_UserStatus := 0;
                   gmb_JoinAt := now; gmb_UpdateAt := now |} in
      res <- call (Stmt (insert_member_do_nothing gm)) ;;
      match res with
      | Err e => Ret (Err (internal "insert group member failed: " e))
      | Ok rowsAffected =>
          if rowsAffected =? 0 then Ret (Ok false)
          else
            u <- call (Stmt (update_member_count groupID)) ;;
            match u with
            | Err e => Ret (Err (internal "increase member_count failed: " e))
            | Ok _ => Ret (Ok true)
            end
      end
  end.

(** ** CreateGroup *)

(** The function CreateGroup hands to DB.Transaction; the answer is the id. *)
Definition create_group_tx `{Collation} (group : Group) (groupMember : GroupMember) : prog sqlE (res Z) :=
  try id <- call (Stmt (insert_group group)) ;;
  try mid <- call (Stmt (insert_member
              {| gmb_ID := gmb_ID groupMember; gmb_GroupID := id;
                 gmb_UserID := gmb_UserID groupMember; gmb_UserRole := gmb_UserRole groupMember;
                 gmb_UserStatus := gmb_UserStatus groupMember;
                 gmb_JoinAt := gmb_JoinAt groupMember; gmb_UpdateAt := gmb_UpdateAt groupMember |})) ;;
  Ret (Ok id).

Section group.
Context `{Collation} {M : Type}.

(** The goroutine of the second deletion sleeps 200 ms. *)
Definition second_delete_delay : Z := 200.

Definition doubleDeleteGroupMembersCache (groupID : Z) : prog (ev M) unit :=
  let key := groupMembersKey groupID in
  err <- call (Rds (DEL key)) ;;
  call (Spawn second_delete_delay (DEL key)).

Definition AddGroup (req : AddGroupRequest) : prog (ev M) (res AddGroupReply) :=
  let groupID := agr_GroupId req in
  let userID := agr_UserId req in
  now <- call TimeNow ;;
  try inserted <- call (SqlTx (add_group_tx groupID userID now)) ;;
  (if inserted : bool then doubleDeleteGroupMembersCache groupID else Ret tt) ;;
  Ret (Ok {| agp_Ok := true |}).

(** The SELECT of RefreshGroupMembersCache and of the fallback of
    IsGroupMember is the same query, [active_members]. *)
Definition RefreshGroupMembersCache (req : GroupMembersRequest) : prog (ev M) (res GroupMembersReply) :=
  if gmr_GroupId req =? 0 then Ret (Err (ErrMsg "invalid groupID"))
  else
    try groupMembers <- call (Sql (Scan (fun t => Ok (active_members (gmr_GroupId req) t)))) ;;
    let key := groupMembersKey (gmr_GroupId req) in
    match groupMembers with
    | [] =>
        err <- call (RdsTx (rebuild_cache key [])) ;;
        Ret (Ok {| gmp_GroupMembers := [] |})
    | _ =>
        try u <- call (RdsTx (rebuild_cache key groupMembers)) ;;
        Ret (Ok {| gmp_GroupMembers := groupMembers |})
    end.

Definition CreateGroup (req : CreateGroupRequest) : prog (ev M) (res CreateGroupReply) :=
  let len := Z.of_nat (String.length (cgr_GroupName req)) in
  if (len =? 0) || (30 <? len) then Ret (Err (ErrMsg "invalid groupName"))
  else if cgr_UserId req <=? 0 then Ret (Err (ErrMsg "invalid userid"))
  else
    now <- call TimeNow ;;
    let group := {| g_ID := 0; g_Name := cgr_GroupName req; g_Status := 0;
                    g_OwnerUserID := cgr_UserId req; g_MemberCount := 1;
                    g_CreatedAt := now; g_UpdatedAt := now |} in
    let groupMember := {| gmb_ID := 0; gmb_GroupID := 0; gmb_UserID := cgr_UserId req;
                          gmb_UserRole := 2; gmb_UserStatus := 0;
                          gmb_JoinAt := now; gmb_UpdateAt := now |} in
    try id <- call (SqlTx (create_group_tx group groupMember)) ;;
    Ret (Ok {| cgp_GroupId := id |}).
End group.
