(* ===== verification/GroupSpec.v ===== *)
(** * What the group service guarantees

    The consistency of the group tables ([groups_inv]), the coherence of the
    cached member sets with MySQL ([coherent]), and what each method does to
    them. *)

From Stdlib Require Import ZArith Lia String.
From stdpp Require Import base tactics list gmap strings.
From S2P Require Import Prelude GoStd Effects Redis Database Proto World Rules Frames RefWorld Store GroupServer.

Local Open Scope string_scope.
Local Open Scope Z_scope.

(** ** The invariant of the two group tables *)

(** The number of membership rows of a group, whatever their status. *)
Definition member_rows (gid : Z) (t : tables) : Z :=
  Z.of_nat (length (filter (fun m => gmb_GroupID m = gid) (t_members t))).

Definition member_key (m : GroupMember) : Z * Z := (gmb_GroupID m, gmb_UserID m).

Record groups_inv (t : tables) : Prop := {
  gi_ids : NoDup (g_ID <$> t_groups t);
  gi_keys : NoDup (member_key <$> t_members t);
  gi_ref m : m ∈ t_members t -> gmb_GroupID m ∈ (g_ID <$> t_groups t);
  gi_count g : g ∈ t_groups t -> g_MemberCount g = member_rows (g_ID g) t }.

(** [uid] has a membership row in group [gid]. *)
Definition is_member (gid uid : Z) (t : tables) : Prop := (gid, uid) ∈ (member_key <$> t_members t).

Lemma uk_group_user_spec gid uid t : uk_group_user gid uid t = true <-> is_member gid uid t.
Proof.
  rewrite uk_group_user_true. unfold is_member. rewrite list_elem_of_fmap. unfold member_key.
  split.
  - intros (m & Hm & <- & <-). exists m. split; [done|]. by apply list_elem_of_In.
  - intros (m & Heq & Hm). simplify_eq. exists m. split; [|done]. by apply list_elem_of_In.
Qed.

Lemma is_member_false gid uid t : uk_group_user gid uid t = false <-> ~ is_member gid uid t.
Proof. rewrite <- uk_group_user_spec. destruct (uk_group_user gid uid t); naive_solver. Qed.

Lemma member_rows_app gid t rows :
  member_rows gid (set_members (fun l => l ++ rows)%list t)
  = member_rows gid t + Z.of_nat (length (filter (fun m => gmb_GroupID m = gid) rows)).
Proof. unfold member_rows. cbn. rewrite filter_app, length_app. lia. Qed.

Lemma g_ID_incr gid at_ g : g_ID (incr_member_count gid at_ g) = g_ID g.
Proof. unfold incr_member_count. by destruct (_ =? _). Qed.

Lemma ids_incr gid at_ (l : list Group) : g_ID <$> (incr_member_count gid at_ <$> l) = g_ID <$> l.
Proof. rewrite <- list_fmap_compose. apply list_fmap_ext. intros i g _. apply g_ID_incr. Qed.

(** Adding a row and counting it keeps the invariant. *)
Lemma groups_inv_join gid uid row at_ t :
  groups_inv t -> gid ∈ (g_ID <$> t_groups t) -> ~ is_member gid uid t -> member_key row = (gid, uid) ->
  groups_inv (set_groups (fmap (incr_member_count gid at_)) (set_members (fun l => l ++ [row])%list t)).
Proof.
  intros [I1 I2 I3 I4] Hg Hn Hrow. unfold member_key in Hrow. split; cbn.
  - by rewrite ids_incr.
  - rewrite fmap_app. apply NoDup_app. split_and!; [done| |apply NoDup_singleton].
    intros x Hx Hin. apply list_elem_of_singleton in Hin. subst x. apply Hn.
    unfold is_member. by rewrite <- Hrow.
  - intros m Hm. rewrite ids_incr. apply elem_of_app in Hm as [Hm|Hm]; [by apply I3|].
    apply list_elem_of_singleton in Hm. subst m. by simplify_eq.
  - intros g Hin. apply list_elem_of_fmap in Hin as (g0 & -> & Hin). rewrite g_ID_incr.
    change (member_rows (g_ID g0) (set_groups (fmap (incr_member_count gid at_)) (set_members (fun l => l ++ [row])%list t)))
      with (member_rows (g_ID g0) (set_members (fun l => l ++ [row])%list t)).
    rewrite member_rows_app, filter_cons, filter_nil. apply I4 in Hin.
    assert (gmb_GroupID row = gid) as -> by congruence. unfold incr_member_count.
    destruct (Z.eqb_spec (g_ID g0) gid); case_decide; cbn; lia || congruence.
Qed.

(** A new group with its owner as the only row. *)
Lemma groups_inv_create g row t :
  groups_inv t -> g_ID g ∉ (g_ID <$> t_groups t) -> gmb_GroupID row = g_ID g -> g_MemberCount g = 1 ->
  groups_inv (set_members (fun l => l ++ [row])%list (set_groups (fun l => l ++ [g])%list t)).
Proof.
  intros [I1 I2 I3 I4] Hg Hrow Hc.
  assert (forall m, m ∈ t_members t -> gmb_GroupID m <> g_ID g) as Hno by (intros m Hm Heq; apply Hg; rewrite <- Heq; auto).
  assert (filter (fun m => gmb_GroupID m = g_ID g) (t_members t) = []) as Hnil.
  { by apply filter_none. }
  split; cbn.
  - rewrite fmap_app. apply NoDup_app. split_and!; [done| |apply NoDup_singleton].
    intros x Hx Hin. apply list_elem_of_singleton in Hin. by subst.
  - rewrite fmap_app. apply NoDup_app. split_and!; [done| |apply NoDup_singleton].
    intros x Hx Hin. apply list_elem_of_singleton in Hin. subst x.
    apply list_elem_of_fmap in Hx as (m & Heq & Hm). unfold member_key in Heq.
    apply (Hno m Hm). congruence.
  - intros m Hm. rewrite fmap_app, elem_of_app. apply elem_of_app in Hm as [Hm|Hm]; [left; by apply I3|].
    right. apply list_elem_of_singleton in Hm. subst m. rewrite Hrow. by apply list_elem_of_singleton.
  - intros g0 Hin.
    change (member_rows (g_ID g0) (set_members (fun l => l ++ [row])%list (set_groups (fun l => l ++ [g])%list t)))
      with (member_rows (g_ID g0) (set_members (fun l => l ++ [row])%list t)).
    rewrite member_rows_app, filter_cons, filter_nil, Hrow.
    apply elem_of_app in Hin as [Hin|Hin].
    + rewrite (I4 _ Hin). rewrite decide_False; [cbn; lia|]. intros Heq. apply Hg. rewrite Heq.
      by apply list_elem_of_fmap_2.
    + apply list_elem_of_singleton in Hin. subst g0. rewrite decide_True by done.
      unfold member_rows. rewrite Hnil. cbn. lia.
Qed.

(** ** The transactions *)

(** The row AddGroup inserts. *)
Definition joined_row (id gid uid now : Z) : GroupMember :=
  {| gmb_ID := id; gmb_GroupID := gid; gmb_UserID := uid; gmb_UserRole := 0;
     gmb_UserStatus := 0; gmb_JoinAt := datetime now; gmb_UpdateAt := datetime now |}.

(** The tables after a join. *)
Definition joined (id gid uid now at_ : Z) (t : tables) : tables :=
  set_groups (fmap (incr_member_count gid at_)) (set_members (fun l => l ++ [joined_row id gid uid now])%list t).

Definition open_group (gid : Z) (t : tables) : Prop :=
  exists g, g ∈ t_groups t /\ g_ID g = gid /\ g_Status g = 0.

Lemma take_group_Ok gid t g :
  Take (fun g => (g_ID g =? gid) && (g_Status g =? 0)) (t_groups t) = Ok g ->
  g ∈ t_groups t /\ g_ID g = gid /\ g_Status g = 0.
Proof. intros [Hin Hp]%Take_Ok. rewrite <- list_elem_of_In in Hin. split_and!; [done|lia|lia]. Qed.

Lemma take_group_Err gid t e :
  Take (fun g => (g_ID g =? gid) && (g_Status g =? 0)) (t_groups t) = Err e ->
  e = ErrRecordNotFound /\ ~ open_group gid t.
Proof.
  intros [-> Hn]%Take_Err. split; [done|]. intros (g & Hg & Hid & Hs).
  rewrite list_elem_of_In in Hg. apply Hn in Hg. lia.
Qed.

(** What the transaction of AddGroup may answer, and the tables it leaves. *)
Definition add_group_post (fl : bool) (gid uid now : Z) (t : tables) (r : res bool) (t' : tables) : Prop :=
  match r with
  | Ok true => (0 <= gid /\ 0 <= uid) /\ open_group gid t /\ ~ is_member gid uid t /\ exists id at_, t' = joined id gid uid now at_ t
  | Ok false => (0 <= gid /\ 0 <= uid) /\ open_group gid t /\ is_member gid uid t /\ t' = t
  | Err e => t' = t /\ (fl = false -> ~ (0 <= gid /\ 0 <= uid /\ open_group gid t /\ is_member gid uid t)
      /\ (~ open_group gid t -> e = ErrStatus NotFound "group not found or inactive"))
  end.

Lemma add_group_tx_wp fl gid uid now t :
  tx_wp fl (add_group_tx gid uid now) t t (add_group_post fl gid uid now t).
Proof.
  unfold add_group_tx. cbn [bind call tx_wp]. intros x cur [(ai & _ & Hx) | (-> & [msg ->] & ->)]; [|cbn; split_lia].
  injection Hx as -> ->.
  destruct (Take _ _) as [g|e] eqn:Hg; [|apply take_group_Err in Hg as [-> Hno]; cbn; naive_solver].
  apply take_group_Ok in Hg as (Hg & Hid & Hst).
  assert (open_group gid t) as Hopen by (by exists g).
  cbn [bind call tx_wp]. intros x cur [(ai1 & _ & Hx) | (-> & [msg ->] & ->)]; [|cbn; split_lia].
  unfold insert_member_do_nothing in Hx. cbn [gmb_GroupID gmb_UserID] in Hx.
  destruct (columns [unsigned gid; unsigned uid]) as [[]|e] eqn:Hcols; [|injection Hx as -> ->; cbn; split; [done|]].
  2:{ intros _. split; [|by intros []]. intros (H1%unsigned_Ok & H2%unsigned_Ok & _). cbn in Hcols. by rewrite H1, H2 in Hcols. }
  apply columns_Ok in Hcols. rewrite !Forall_cons in Hcols. destruct Hcols as (Hgid%unsigned_Ok & Huid%unsigned_Ok & _).
  destruct (uk_group_user gid uid t) eqn:Huk.
  { injection Hx as -> ->. cbn. split_and!; [done|done|done| |done]. by apply uk_group_user_spec. }
  apply is_member_false in Huk.
  destruct (insert_id (ai_members ai1)) as [id|e]; injection Hx as -> ->; [|cbn; naive_solver].
  cbn [Z.eqb bind call tx_wp]. intros x cur [(ai2 & _ & Hx) | (-> & [msg ->] & ->)]; [|cbn; split_lia].
  unfold update_member_count in Hx. destruct (existsb _ _); injection Hx as -> ->; cbn.
  - naive_solver.
  - split_and!; [done..|]. by eexists id, _.
Qed.

(** What the transaction of CreateGroup may answer, and the tables it leaves. *)
Definition create_group_post `{Collation} (g : Group) (m : GroupMember) (t : tables) (r : res Z) (t' : tables) : Prop :=
  match r with
  | Ok id => uk_group_name (g_Name g) t = false /\ (id ∉ (g_ID <$> t_groups t)) /\
      exists row, t' = set_members (fun l => l ++ [row])%list (set_groups (fun l => l ++ [group_row id g])%list t)
        /\ gmb_GroupID row = id /\ gmb_UserID row = gmb_UserID m
        /\ gmb_UserRole row = gmb_UserRole m /\ gmb_UserStatus row = gmb_UserStatus m
  | Err _ => t' = t
  end.

Lemma above_not_in i l : above i l -> i ∉ l.
Proof. intros [_ Hl] Hin. rewrite Forall_forall in Hl. apply Hl in Hin. lia. Qed.

Lemma create_group_tx_wp `{Collation} fl g m t :
  tx_wp fl (create_group_tx g m) t t (create_group_post g m t).
Proof.
  unfold create_group_tx. cbn [bind call tx_wp].
  intros x cur [(ai & Hai & Hx) | (-> & [msg ->] & ->)]; [|done].
  unfold insert_group in Hx. destruct (uk_group_name _ _) eqn:Huk; [by injection Hx as -> ->|].
  destruct (insert_id (ai_groups ai)) as [id|e] eqn:Hid; [|by injection Hx as -> ->].
  injection Hx as -> ->. apply insert_id_Ok in Hid as [-> _].
  destruct Hai as (_ & Hai%above_not_in & _). cbn [bind call tx_wp].
  intros x cur [(ai1 & _ & Hx) | (-> & [msg ->] & ->)]; [|done].
  unfold insert_member in Hx. destruct (columns _) as [[]|e]; [|by injection Hx as -> ->]. destruct (uk_group_user _ _ _); [by injection Hx as -> ->|].
  destruct (insert_id (ai_members ai1)) as [mid|e]; [|by injection Hx as -> ->].
  injection Hx as -> ->. cbn. split_and!; [done|done|]. by eexists.
Qed.

(** ** The cached member sets *)

(** What a coherent cache of group [gid] holds. *)
Definition cached (members : list Z) : gset string :=
  match members with
  | [] => {[ FormatInt (-1) ]}
  | _ => list_to_set (FormatInt <$> members)
  end.

Definition cache_life (members : list Z) : Z :=
  match members with [] => 5 * minute_ms | _ => 24 * hour_ms end.

(** The keys of the cached member sets. *)
Definition group_key (key : string) : Prop := exists gid, key = groupMembersKey gid.

(** Every cached set is the one MySQL would give. *)
Definition caches_ok (ks : keyspace) (t : tables) : Prop :=
  forall gid e, in_int64 gid -> ks !! groupMembersKey gid = Some e ->
    r_val e = VSet (cached (active_members gid t)).

(** User ids fit their column; -1, the placeholder, is not a user. *)
Definition members_ok (t : tables) : Prop :=
  Forall (fun m => in_int64 (gmb_UserID m)) (t_members t).

Lemma groupMembersKey_inj g1 g2 : in_int64 g1 -> in_int64 g2 -> groupMembersKey g1 = groupMembersKey g2 -> g1 = g2.
Proof. intros H1 H2 Heq. apply (inj (String.append _)) in Heq. by apply FormatInt_inj. Qed.

Lemma cached_not_empty members : cached members <> ∅.
Proof. destruct members; cbn; set_solver. Qed.

Lemma caches_ok_purge now ks t : caches_ok ks t -> caches_ok (purge now ks) t.
Proof. intros Hc gid e Hg He. apply lookup_purge in He as [He _]. by eapply Hc. Qed.

Lemma active_members_in gid t uid :
  uid ∈ active_members gid t <->
  exists m, m ∈ t_members t /\ gmb_GroupID m = gid /\ gmb_UserStatus m = 0 /\ gmb_UserID m = uid.
Proof.
  unfold active_members. rewrite list_elem_of_fmap. setoid_rewrite list_elem_of_filter. naive_solver.
Qed.

Lemma active_members_range gid t uid : members_ok t -> uid ∈ active_members gid t -> in_int64 uid.
Proof.
  intros Hm (m & Hin & _ & _ & <-)%active_members_in.
  unfold members_ok in Hm. rewrite Forall_forall in Hm. auto.
Qed.

(** The cached strings decide membership. *)
Lemma cached_spec gid uid t :
  members_ok t -> in_int64 uid -> uid <> -1 ->
  FormatInt uid ∈ cached (active_members gid t) <-> uid ∈ active_members gid t.
Proof.
  intros Hm Hu Hne. assert (FormatInt uid <> FormatInt (-1)) as Hf.
  { intros Heq. apply Hne. apply FormatInt_inj; [done| |done]. unfold in_int64, min_int64, max_int64. lia. }
  pose proof (fun u => active_members_range gid t u Hm) as Hr.
  destruct (active_members gid t) as [|u l]; unfold cached; [set_solver|].
  rewrite elem_of_list_to_set, list_elem_of_fmap. split.
  - intros (y & Heq & Hy). apply FormatInt_inj in Heq; [by subst|done|by apply Hr].
  - intros Hy. by exists uid.
Qed.

(** The pipeline that rebuilds a set always succeeds, whatever was there. *)
Lemma rebuild_run now key members ks :
  tx_run now (rebuild_cache key members) ks
  = (Ok tt, <[key := REntry (VSet (cached members)) (Some (now + cache_life members))]> ks).
Proof.
  assert (forall ms ttl, 0 < ttl -> ms <> [] ->
    tx_run now [WCmd (DEL key); WCmd (SADD key ms); WCmd (EXPIRE key ttl)] ks
    = (Ok tt, <[key := REntry (VSet (list_to_set ms)) (Some (now + ttl))]> ks)) as Hrun.
  { intros ms ttl Httl Hms. cbn [tx_run doc_cmd]. rewrite lookup_delete_eq. cbn [get_set exp_of].
    destruct ms as [|m ms]; [done|]. unfold put_set, sadd.
    rewrite decide_False by (cbn; set_solver). rewrite lookup_insert_eq, decide_False by lia. cbn [r_val].
    rewrite insert_insert_eq, insert_delete_eq, union_empty_r_L. done. }
  destruct members as [|u l]; unfold rebuild_cache; rewrite Hrun; [|done..].
  cbn. by rewrite union_empty_r_L.
Qed.

Lemma caches_ok_rebuild now gid ks t :
  in_int64 gid -> caches_ok ks t ->
  caches_ok (<[groupMembersKey gid := REntry (VSet (cached (active_members gid t)))
               (Some (now + cache_life (active_members gid t)))]> ks) t.
Proof.
  intros Hg Hc gid' e Hg' He. destruct (decide (gid = gid')) as [->|Hne].
  - rewrite lookup_insert_eq in He. by injection He as <-.
  - rewrite lookup_insert_ne in He; [by eapply Hc|].
    intros Heq. apply Hne. by apply groupMembersKey_inj.
Qed.

Section methods.
Context `{Crypto} `{Collation} {M : Type} (fl : bool).
Implicit Types v : sysview M.

(** Redis and MySQL agree on the groups, and ids are in range. *)
Definition coherent v : Prop := caches_ok (v_rds v) (v_db v) /\ members_ok (v_db v).

Lemma coherent_tick t v : coherent v -> coherent (tick t v).
Proof. intros [Hc Hm]. split; [by apply caches_ok_purge|done]. Qed.

(** Nothing but time has touched the member caches and the tables. *)
Lemma kept_coherent (v v' : sysview M) : kept group_key v v' -> v_db v' = v_db v -> coherent v -> coherent v'.
Proof.
  intros Hk Hd [Hc Hm]. unfold coherent. rewrite Hd. split; [|done]. destruct Hk as [[_ ->] | [_ Hk]]; [done|].
  intros gid e Hg. rewrite Hk by by exists gid. by apply caches_ok_purge.
Qed.

Lemma quiet_coherent (v v' : sysview M) : quiet v v' -> coherent v -> coherent v'.
Proof.
  intros [Hk Hd]. apply kept_coherent; [|done]. destruct Hk as [?|[Hn Hk]]; [by left|right]. split; [done|]. intros key _. by apply Hk.
Qed.

(** The pipeline of a rebuild: done or not done, the caches stay coherent. *)
Lemma wp_rebuild {B} gid (k : res unit -> prog (ev M) B) v Q :
  in_int64 gid -> coherent v ->
  (forall t r ks, v_now v <= t ->
    (r = Ok tt /\ ks !! groupMembersKey gid
       = Some (REntry (VSet (cached (active_members gid (v_db v)))) (Some (t + cache_life (active_members gid (v_db v))))))
    \/ ext_err fl r ->
    coherent (set_rds ks (tick t v)) -> wp (ext fl) (k r) (set_rds ks (tick t v)) Q) ->
  wp (ext fl) (Vis (RdsTx (rebuild_cache (groupMembersKey gid) (active_members gid (v_db v)))) k) v Q.
Proof.
  intros Hg [Hc Hm] Hk. apply wp_tx. intros t r ks Ht. rewrite rebuild_run. cbn [snd].
  assert (coherent (set_rds (<[groupMembersKey gid := REntry (VSet (cached (active_members gid (v_db v))))
    (Some (t + cache_life (active_members gid (v_db v))))]> (purge t (v_rds v))) (tick t v))) as Hnew.
  { split; [|done]. apply (caches_ok_rebuild t gid); [done|]. by apply caches_ok_purge. }
  assert (coherent (set_rds (purge t (v_rds v)) (tick t v))) as Hold by by apply (coherent_tick t v).
  intros [Hr | [Herr [-> | ->]]]; [injection Hr as <- <-|..]; apply Hk; auto.
  left. split; [done|]. apply lookup_insert_eq.
Qed.

Lemma wp_member_fallback gid v :
  in_int64 gid -> coherent v ->
  wp (ext fl) (member_fallback gid) v (fun r v' =>
    rds_only v v' /\ coherent v' /\
    (r = Ok (list_to_set (active_members gid (v_db v))) \/ ext_err fl r)).
Proof.
  intros Hg Hc. unfold member_fallback. cbn [bind call]. apply wp_scan. intros t x Ht Hx.
  destruct Hx as [-> | [-> [msg ->]]]; [|cbn; split_and!; auto using coherent_tick with chat; eauto].
  apply (wp_rebuild gid _ (tick t v)); [done|by apply coherent_tick|].
  intros t1 r ks Ht1 Hr Hc1. destruct r as [[]|e]; cbn [wp bind];
    (split_and!; [apply rds_only_trans with (tick t v); auto with chat|done|auto]).
Qed.

(** The second half of IsGroupMember: EXISTS, then MySQL. *)
Lemma wp_member_tail flight gid uid v :
  in_int64 gid -> coherent v ->
  (flight = None \/ flight = Some (Ok (list_to_set (active_members gid (v_db v))))) ->
  (forall e, v_rds v !! groupMembersKey gid = Some e -> uid ∉ active_members gid (v_db v)) ->
  wp (ext fl)
    (try exists_ <- call (Rds (EXISTS (groupMembersKey gid))) ;;
     if 0 <? exists_ then Ret (Ok false)
     else try memberMap <- sg_do flight (member_fallback gid) ;;
          Ret (Ok (bool_decide (uid ∈ memberMap)))) v
    (fun r v' => rds_only v v' /\ coherent v' /\
      (r = Ok (bool_decide (uid ∈ active_members gid (v_db v))) \/ ext_err fl r)).
Proof.
  intros Hg Hc Hfl Hno. cbn [bind call]. apply wp_read; [done|]. intros t r Ht Hr.
  pose proof (coherent_tick t v Hc) as Hct.
  destruct Hr as [Hr | [-> [msg ->]]]; [|cbn; split_and!; auto with chat; eauto].
  cbn [reply_ok doc_cmd fst] in Hr. subst r.
  destruct (purge t (v_rds v) !! groupMembersKey gid) as [e|] eqn:He; cbn [Z.ltb Z.compare].
  { apply lookup_purge in He as [He _]. rewrite bool_decide_false by eauto.
    cbn. split_and!; auto with chat. }
  assert (forall x : gset Z, x = list_to_set (active_members gid (v_db v)) ->
    bool_decide (uid ∈ x) = bool_decide (uid ∈ active_members gid (v_db v))) as Hdec.
  { intros x ->. apply bool_decide_ext, elem_of_list_to_set. }
  destruct Hfl as [-> | ->]; unfold sg_do.
  - apply wp_bind. eapply wp_mono; [by apply wp_member_fallback|].
    intros r v' (Hro & Hc' & Hr).
    destruct Hr as [-> | [-> [msg ->]]]; cbn; (split_and!; [by apply rds_only_trans with (tick t v); auto with chat|done|]).
    + left. by rewrite Hdec.
    + eauto.
  - cbn. split_and!; auto with chat. left. by rewrite Hdec.
Qed.

Lemma wp_IsGroupMember flight gid uid v :
  in_int64 gid -> in_int64 uid -> uid <> -1 -> coherent v ->
  (flight = None \/ flight = Some (Ok (list_to_set (active_members gid (v_db v))))) ->
  wp (ext fl) (IsGroupMember flight gid uid) v (fun r v' =>
    rds_only v v' /\ coherent v' /\
    (r = Ok (bool_decide (uid ∈ active_members gid (v_db v))) \/ ext_err fl r)).
Proof.
  intros Hg Hu Hne Hc Hfl. pose proof Hc as [Hca Hm].
  pose proof (cached_spec gid uid (v_db v) Hm Hu Hne) as Hcs.
  unfold IsGroupMember. cbn [bind call]. apply wp_read; [done|]. intros t r Ht Hr.
  destruct Hr as [Hr | [-> [msg ->]]]; [|cbn; split_and!; auto using coherent_tick with chat; eauto].
  cbn [reply_ok doc_cmd] in Hr.
  (* the cached set, if there is one, at the time of SISMEMBER *)
  assert (forall t' e, purge t' (v_rds v) !! groupMembersKey gid = Some e ->
    r_val e = VSet (cached (active_members gid (v_db v)))) as Hkey.
  { intros t' e He. eapply caches_ok_purge; [exact Hca|exact Hg|exact He]. }
  assert (r = Ok (bool_decide (uid ∈ active_members gid (v_db v)))
          \/ purge t (v_rds v) !! groupMembersKey gid = None /\ r = Ok false) as Hr'.
  { destruct (purge t (v_rds v) !! groupMembersKey gid) as [e|] eqn:He.
    - left. apply Hkey in He. destruct e as [d ex]; cbn in He; subst d. cbn in Hr. subst r.
      f_equal. by apply bool_decide_ext.
    - right. split; [done|]. cbn in Hr. subst r. f_equal; apply bool_decide_false; set_solver. }
  assert (forall b, r = Ok b -> b = false -> forall e,
    purge t (v_rds v) !! groupMembersKey gid = Some e -> uid ∉ active_members gid (v_db v)) as Hno.
  { intros b -> -> e He. destruct Hr' as [[= Hb] | [Hn _]]; [|congruence].
    symmetry in Hb. by apply bool_decide_eq_false in Hb. }
  assert (exists b, r = Ok b /\ (b = true -> uid ∈ active_members gid (v_db v))) as (b & -> & Hb).
  { destruct Hr' as [-> | [_ ->]]; eexists; (split; [done|]); [apply bool_decide_eq_true|done]. }
  destruct b.
  - cbn. split_and!; auto using coherent_tick with chat. left. by rewrite bool_decide_true by auto.
  - eapply wp_mono; [apply (wp_member_tail flight gid uid (tick t v)); eauto using coherent_tick|].
    intros r' v' (Hro & Hc' & Hr''). split_and!; [|done|done].
    apply rds_only_trans with (tick t v); auto with chat.
Qed.

(** Where the answer [b] of the check comes from: the cached set, if the key
    is there; without it the active members in MySQL, or the set of the call
    whose result the goroutine shares. *)
Definition member_answer (flight : option (res (gset Z))) (gid uid : Z) v (b : bool) : Prop :=
  (exists t S ex, v_now v <= t /\ purge t (v_rds v) !! groupMembersKey gid = Some (REntry (VSet S) ex)
     /\ b = bool_decide (FormatInt uid ∈ S))
  \/ (exists t, v_now v <= t /\ purge t (v_rds v) !! groupMembersKey gid = None
     /\ match flight with
        | None => b = bool_decide (uid ∈ active_members gid (v_db v))
        | Some x => exists ms, x = Ok ms /\ b = bool_decide (uid ∈ ms)
        end).

(** Why the check answers an error: a call failed, the key holds no set, or
    the shared call has failed. *)
Definition member_error (flight : option (res (gset Z))) (gid : Z) v (e : error) : Prop :=
  fl = true
  \/ (exists t s ex, v_now v <= t /\ purge t (v_rds v) !! groupMembersKey gid = Some (REntry (VStr s) ex))
  \/ flight = Some (Err e).

Lemma wp_member_fallback_any gid v :
  wp (ext fl) (member_fallback gid) v (fun r v' => rds_only v v' /\
    (r = Ok (list_to_set (active_members gid (v_db v))) \/ ext_err fl r)).
Proof.
  unfold member_fallback. cbn [bind call]. apply wp_scan. intros t x Ht Hx.
  destruct Hx as [-> | [-> [msg ->]]]; [|cbn; split; auto with chat; eauto].
  apply wp_tx. intros t1 r ks Ht1. intros _. cbn [wp bind].
  split; [apply rds_only_trans with (tick t v); auto with chat|by left].
Qed.

(** The cache has missed. *)
Lemma wp_member_miss flight gid uid v v1 t :
  v_now v <= t -> rds_only v v1 -> purge t (v_rds v) !! groupMembersKey gid = None ->
  wp (ext fl) (try memberMap <- sg_do flight (member_fallback gid) ;; Ret (Ok (bool_decide (uid ∈ memberMap)))) v1
    (fun r v' => rds_only v v' /\
      match r with Ok b => member_answer flight gid uid v b | Err e => member_error flight gid v e end).
Proof.
  intros Ht Hro Hk. assert (v_db v1 = v_db v) as Hdb by (destruct Hro as [_ ->]; done).
  destruct flight as [x|]; unfold sg_do.
  - cbn [bind]. destruct x as [ms|e]; cbn; (split; [done|]); [|by right; right]. right. eauto 6.
  - apply wp_bind. eapply wp_mono; [apply wp_member_fallback_any|]. rewrite Hdb.
    intros r v' [Hro' [-> | [Hfl [msg ->]]]]; cbn; (split; [by apply rds_only_trans with v1|]); [|by left].
    right. exists t. split_and!; [done|done|]. apply bool_decide_ext, elem_of_list_to_set.
Qed.

(** The check whatever the caches hold. *)
Lemma wp_IsGroupMember_any flight gid uid v :
  wp (ext fl) (IsGroupMember flight gid uid) v (fun r v' => rds_only v v' /\
    match r with Ok b => member_answer flight gid uid v b | Err e => member_error flight gid v e end).
Proof.
  unfold IsGroupMember. cbn [bind call]. apply wp_read; [done|]. intros t r Ht Hr.
  destruct Hr as [Hr | [Hfl [msg ->]]]; [|cbn; split; [auto with chat|by left]].
  cbn [reply_ok doc_cmd fst] in Hr. destruct (purge t (v_rds v) !! groupMembersKey gid) as [[[s|S] ex]|] eqn:He.
  { cbn in Hr. subst r. cbn. split; [auto with chat|]. right. left. eauto 6. }
  - (* the set is there *)
    cbn in Hr. subst r. assert (member_answer flight gid uid v (bool_decide (FormatInt uid ∈ S))) as Ha by (left; eauto 8).
    case_bool_decide as Hin; [cbn; split; [auto with chat|done]|].
    apply wp_read; [done|]. intros t1 r1 Ht1 Hr1. cbn [tick v_now v_rds] in *. rewrite purge_purge in Hr1 by done.
    assert (rds_only v (tick t1 (tick t v))) as Hro by (apply rds_only_trans with (tick t v); auto with chat).
    destruct Hr1 as [Hr1 | [Hfl [msg ->]]]; [|cbn; split; [done|by left]].
    cbn [reply_ok doc_cmd fst] in Hr1. subst r1.
    destruct (purge t1 (v_rds v) !! groupMembersKey gid) as [e1|] eqn:He1; cbn [Z.ltb Z.compare].
    { cbn. by split. }
    (* it has expired since *)
    apply (wp_member_miss flight gid uid v (tick t1 (tick t v)) t1); [lia|done..].
  - cbn in Hr. subst r. rewrite bool_decide_false by set_solver.
    apply wp_read; [done|]. intros t1 r1 Ht1 Hr1. cbn [tick v_now v_rds] in *. rewrite purge_purge in Hr1 by done.
    assert (rds_only v (tick t1 (tick t v))) as Hro by (apply rds_only_trans with (tick t v); auto with chat).
    destruct Hr1 as [Hr1 | [Hfl [msg ->]]]; [|cbn; split; [done|by left]].
    assert (purge t1 (v_rds v) !! groupMembersKey gid = None) as He1.
    { apply eq_None_not_Some. intros [e1 He1]. rewrite <- (purge_purge t t1) in He1 by done.
      apply lookup_purge in He1 as [He1 _]. congruence. }
    cbn [reply_ok doc_cmd fst] in Hr1. rewrite He1 in Hr1. subst r1. cbn [Z.ltb Z.compare].
    apply (wp_member_miss flight gid uid v (tick t1 (tick t v)) t1); [lia|done..].
Qed.

(** What AddGroup leaves, in every environment. *)
Definition add_group_result (gid uid : Z) v (r : res AddGroupReply) v' : Prop :=
  match r with
  | Ok rp =>
      rp = {| agp_Ok := true |} /\ (0 <= gid /\ 0 <= uid) /\ open_group gid (v_db v) /\
      ((is_member gid uid (v_db v) /\ v_db v' = v_db v /\ (coherent v -> coherent v'))
       \/ (~ is_member gid uid (v_db v)
           /\ (exists id now at_, v_db v' = joined id gid uid now at_ (v_db v))
           /\ (exists due, v_spawned v' = (v_spawned v ++ [(due, DEL (groupMembersKey gid))])%list)
           /\ (fl = false -> in_int64 gid -> in_int64 uid -> coherent v -> coherent v')))
  | Err e =>
      (v_db v' = v_db v
       \/ (fl = true /\ open_group gid (v_db v) /\ ~ is_member gid uid (v_db v)
           /\ exists id now at_, v_db v' = joined id gid uid now at_ (v_db v)))
      /\ (fl = false -> v_spawned v' = v_spawned v /\ (coherent v -> coherent v')
           /\ ~ (0 <= gid /\ 0 <= uid /\ open_group gid (v_db v) /\ is_member gid uid (v_db v))
           /\ (~ open_group gid (v_db v) -> e = ErrStatus NotFound "group not found or inactive"))
  end.

Lemma active_members_joined id gid uid now at_ t gid' :
  active_members gid' (joined id gid uid now at_ t)
  = (active_members gid' t ++ if decide (gid = gid') then [uid] else [])%list.
Proof.
  unfold active_members, joined. cbn. rewrite filter_app, fmap_app. f_equal.
  rewrite filter_cons, filter_nil. cbn. by repeat case_decide; naive_solver.
Qed.

Lemma open_group_joined id gid uid now at_ t g : open_group g t -> open_group g (joined id gid uid now at_ t).
Proof.
  intros (g0 & Hg & <- & Hs). exists (incr_member_count gid at_ g0). rewrite g_ID_incr.
  split_and!; [by apply list_elem_of_fmap_2|done|]. unfold incr_member_count. by destruct (_ =? _).
Qed.

Lemma groups_inv_joined id gid uid now at_ t :
  groups_inv t -> open_group gid t -> ~ is_member gid uid t -> groups_inv (joined id gid uid now at_ t).
Proof.
  intros Hinv (g & Hg & Hid & _) Hn. unfold joined. eapply groups_inv_join; [done| |done|done].
  rewrite <- Hid. by apply list_elem_of_fmap_2.
Qed.

Lemma is_member_joined id gid uid now at_ t : is_member gid uid (joined id gid uid now at_ t).
Proof.
  unfold is_member, joined. cbn. rewrite fmap_app. apply elem_of_app. right. by apply list_elem_of_singleton.
Qed.

(** The first deletion makes the caches coherent again after a join. *)
Lemma caches_ok_join id gid uid now at_ ks t :
  in_int64 gid -> caches_ok ks t ->
  caches_ok (delete (groupMembersKey gid) ks) (joined id gid uid now at_ t).
Proof.
  intros Hg Hc gid' e Hg' He. apply lookup_delete_Some in He as [Hne He].
  rewrite active_members_joined, decide_False, app_nil_r by congruence. by apply Hc.
Qed.

Lemma members_ok_join id gid uid now at_ t : in_int64 uid -> members_ok t -> members_ok (joined id gid uid now at_ t).
Proof. intros Hu Hm. unfold members_ok. cbn. apply Forall_app. split; [done|]. by constructor. Qed.

Lemma wp_AddGroup req v :
  wp (ext fl) (AddGroup req) v (add_group_result (agr_GroupId req) (agr_UserId req) v).
Proof.
  set (gid := agr_GroupId req). set (uid := agr_UserId req).
  unfold AddGroup. fold gid uid. cbn [bind call]. apply wp_now. intros t now Ht.
  eapply wp_sqltx; [apply add_group_tx_wp|]. intros t1 x db Ht1 Hx. cbn [v_db v_now tick] in *.
  destruct Hx as [Hx | [[Hfl [msg ->]] Hdb]].
  2:{ cbn. split; [|congruence]. destruct Hdb as [-> | [[[]|e] Hdb]]; [by left| | |].
      - right. destruct Hdb as (_ & Ho & Hm & id & at_ & ->). eauto 9.
      - left. by destruct Hdb as (_ & _ & _ & ->).
      - left. by destruct Hdb as [-> _]. }
  destruct x as [[]|e]; cbn in Hx.
  - destruct Hx as (Hr0 & Ho & Hm & id & at_ & ->). unfold doubleDeleteGroupMembersCache. cbn [bind call].
    apply wp_rds. intros t2 r ks Ht2 Hr. cbn [bind]. apply wp_spawn. intros t3 Ht3. cbn [wp bind add_group_result].
    split; [done|]. split; [done|]. split; [done|]. right. split_and!; [done|by eexists id, now, _|by eexists|].
    intros Hfl Hg Hu [Hc Hmok]. split; [|by apply members_ok_join].
    destruct Hr as [[_ ->] | [[? _] _]]; [|congruence]. cbn. apply caches_ok_purge, caches_ok_join; [done|].
    by repeat apply caches_ok_purge.
  - destruct Hx as (Hr0 & Ho & Hm & ->). cbn. split; [done|]. split; [done|]. split; [done|]. left. split_and!; [done|done|].
    intros [Hc Hmok]. split; [|done]. by repeat apply caches_ok_purge.
  - destruct Hx as [-> He]. cbn. split; [by left|]. intros Hfl. destruct (He Hfl) as [He1 He2]. split_and!; [done| |done|done].
    intros [Hc Hmok]. split; [|done]. by repeat apply caches_ok_purge.
Qed.

Lemma wp_RefreshGroupMembersCache req v :
  in_int64 (gmr_GroupId req) -> coherent v ->
  wp (ext fl) (RefreshGroupMembersCache req) v (fun r v' =>
    v_db v' = v_db v /\ coherent v' /\
    match r with
    | Ok rp => gmp_GroupMembers rp = active_members (gmr_GroupId req) (v_db v) /\ gmr_GroupId req <> 0
        /\ (fl = false -> exists t, v_rds v' !! groupMembersKey (gmr_GroupId req)
             = Some (REntry (VSet (cached (active_members (gmr_GroupId req) (v_db v)))) (Some t)))
    | Err e => fl = false -> gmr_GroupId req = 0
    end).
Proof.
  intros Hg Hc. unfold RefreshGroupMembersCache.
  destruct (Z.eqb_spec (gmr_GroupId req) 0) as [Hz|Hz]; [by cbn|].
  cbn [bind call]. apply wp_scan. intros t x Ht Hx.
  destruct Hx as [-> | [-> [msg ->]]]; [|cbn; split_and!; [done|by apply coherent_tick|done]].
  set (gid := gmr_GroupId req) in *. set (ms := active_members gid (v_db v)).
  pose proof (fun k Q => wp_rebuild (B := res GroupMembersReply) gid k (tick t v) Q Hg (coherent_tick t v Hc)) as Htx.
  change (v_db (tick t v)) with (v_db v) in Htx. fold ms in Htx.
  destruct ms as [|u l] eqn:Hms; cbn [bind call]; apply Htx; intros t1 r ks Ht1 Hr Hc1.
  - cbn. split_and!; [done|done|done|done|]. intros ->. destruct Hr as [[_ Hk] | [? _]]; [|done]. eauto.
  - destruct Hr as [[-> Hk] | [-> [msg ->]]]; cbn; split_and!; try done. eauto.
Qed.

Lemma wp_CreateGroup req v :
  wp (ext fl) (CreateGroup req) v (fun r v' =>
    match r with
    | Ok rp =>
        (0 < String.length (cgr_GroupName req) <= 30)%nat /\ 0 < cgr_UserId req /\
        exists g row, g_ID g = cgp_GroupId rp /\ g_Name g = cgr_GroupName req /\ g_Status g = 0
          /\ g_MemberCount g = 1 /\ gmb_GroupID row = cgp_GroupId rp /\ gmb_UserID row = cgr_UserId req
          /\ gmb_UserRole row = 2 /\ gmb_UserStatus row = 0
          /\ uk_group_name (cgr_GroupName req) (v_db v) = false
          /\ (cgp_GroupId rp ∉ (g_ID <$> t_groups (v_db v)))
          /\ v_db v' = set_members (fun l => l ++ [row])%list (set_groups (fun l => l ++ [g])%list (v_db v))
    | Err _ =>
        v_db v' = v_db v \/ (fl = true /\ exists g row, g_MemberCount g = 1 /\ gmb_GroupID row = g_ID g
          /\ (g_ID g ∉ (g_ID <$> t_groups (v_db v)))
          /\ v_db v' = set_members (fun l => l ++ [row])%list (set_groups (fun l => l ++ [g])%list (v_db v)))
    end).
Proof.
  unfold CreateGroup.
  destruct (_ || _) eqn:Hlen; [by left|]. apply orb_false_elim in Hlen as [Hl1 Hl2].
  destruct (_ <=? 0) eqn:Hu; [by left|].
  cbn [bind call]. apply wp_now. intros t now Ht.
  eapply wp_sqltx; [apply create_group_tx_wp|]. intros t1 x db Ht1 Hx. cbn [v_db v_now tick] in *.
  destruct Hx as [Hx | [[Hfl [msg ->]] [-> | [[id|e] Hx]]]]; [destruct x as [id|e]|..]; cbn; try cbn in Hx.
  - destruct Hx as (Huk & Hid & row & -> & Hr1 & Hr2 & Hr3 & Hr4). split; [lia|]. split; [lia|].
    eexists _, row. split_and!; [..|reflexivity]; try done.
  - by left.
  - by left.
  - right. split; [done|]. destruct Hx as (Huk & Hid & row & -> & Hr1 & _).
    eexists _, row. split_and!; [..|reflexivity]; try done.
  - by left.
Qed.
End methods.

(** ** Theorems about the service in any environment *)
Section theorems.
Context `{HC : Crypto} `{HCo : Collation} {fl : bool} {M W : Type} `{HW : !World fl M W}.

(** C12. Joining a group keeps the group tables consistent (member_count is
    the number of membership rows, no membership twice), even when calls
    fail; when it answers Ok the group is open and the user has a membership
    row, and when it answers an error in an environment without failures no
    row changed. *)
Theorem AddGroup_consistent w req r w' :
  groups_inv (v_db (view w)) -> exec (AddGroup req) w = (r, w') ->
  groups_inv (v_db (view w'))
  /\ (is_ok r = true -> open_group (agr_GroupId req) (v_db (view w))
        /\ is_member (agr_GroupId req) (agr_UserId req) (v_db (view w')))
  /\ (is_ok r = false -> fl = false -> v_db (view w') = v_db (view w)).
Proof.
  intros Hinv Hrun. by_wp Hrun. eapply wp_mono; [apply wp_AddGroup|].
  intros r v' Hr. unfold add_group_result in Hr.
  pose proof (fun id now at_ => groups_inv_joined id (agr_GroupId req) (agr_UserId req) now at_ _ Hinv) as Hj.
  destruct r as [rp|e]; cbn.
  - destruct Hr as (_ & _ & Ho & [(Hm & -> & _) | (Hn & (id & now & at_ & ->) & _)]); (split; [auto|split; [|done]]); intros _; (split; [done|]).
    + done.
    + apply is_member_joined.
  - destruct Hr as [[-> | (-> & Ho & Hn & id & now & at_ & ->)] _]; split_and!; auto; done.
Qed.

(** Joining twice is joining once: a second AddGroup of the same user to
    the same group answers Ok and leaves every row as the first left it. *)
Theorem AddGroup_idempotent w req rp w1 r2 w2 :
  fl = false -> exec (AddGroup req) w = (Ok rp, w1) -> exec (AddGroup req) w1 = (r2, w2) ->
  r2 = Ok {| agp_Ok := true |} /\ v_db (view w2) = v_db (view w1).
Proof.
  intros Hfl H1 H2.
  pose proof (exec_wp _ _ _ (wp_AddGroup fl req (view w)) _ _ H1) as (_ & [Hgid Huid] & Ho & Hr1).
  assert (open_group (agr_GroupId req) (v_db (view w1))
    /\ is_member (agr_GroupId req) (agr_UserId req) (v_db (view w1))) as [Ho1 Hm1].
  { destruct Hr1 as [(Hm & -> & _) | (_ & (id & now & at_ & ->) & _)]; [done|].
    split; [by apply open_group_joined|apply is_member_joined]. }
  pose proof (exec_wp _ _ _ (wp_AddGroup fl req (view w1)) _ _ H2) as Hr2. destruct r2 as [rp2|e].
  - destruct Hr2 as (-> & _ & _ & [(_ & Hdb & _) | (? & _)]); [by rewrite Hdb|done].
  - destruct Hr2 as [_ Hr2]. destruct (Hr2 Hfl) as (_ & _ & [] & _). done.
Qed.


(** Read your own join: once AddGroup has added a user to a group, the
    membership check lets the user post in it. *)
Theorem join_then_member w req rp w1 r w2 :
  fl = false -> coherent (view w) ->
  in_int64 (agr_GroupId req) -> in_int64 (agr_UserId req) -> agr_UserId req <> -1 ->
  ~ is_member (agr_GroupId req) (agr_UserId req) (v_db (view w)) ->
  exec (AddGroup req) w = (Ok rp, w1) ->
  exec (IsGroupMember None (agr_GroupId req) (agr_UserId req)) w1 = (r, w2) ->
  r = Ok true.
Proof.
  intros Hfl Hc Hg Hu Hne Hn H1 H2.
  pose proof (exec_wp _ _ _ (wp_AddGroup fl req (view w)) _ _ H1) as (_ & _ & _ & [(? & _) | (_ & (id & now & at_ & Hdb) & _ & Hc1)]); [done|].
  specialize (Hc1 Hfl Hg Hu Hc).
  pose proof (exec_wp _ _ _ (wp_IsGroupMember fl None _ _ _ Hg Hu Hne Hc1 (or_introl eq_refl)) _ _ H2) as (_ & _ & Hr).
  destruct Hr as [-> | [? _]]; [|congruence]. rewrite Hdb, active_members_joined, decide_True by done.
  f_equal. apply bool_decide_true, elem_of_app. right. by apply list_elem_of_singleton.
Qed.

(** Creating a group keeps the group tables consistent, even when calls
    fail; a group is created only with a name of 1 to 30 bytes that no other
    group has, open, with its creator as owner and only member. *)
Theorem CreateGroup_consistent w req r w' :
  groups_inv (v_db (view w)) -> exec (CreateGroup req) w = (r, w') ->
  groups_inv (v_db (view w')) /\
  match r with
  | Ok rp => (0 < String.length (cgr_GroupName req) <= 30)%nat
      /\ uk_group_name (cgr_GroupName req) (v_db (view w)) = false
      /\ open_group (cgp_GroupId rp) (v_db (view w'))
      /\ active_members (cgp_GroupId rp) (v_db (view w')) = [cgr_UserId req]
  | Err _ => fl = false -> v_db (view w') = v_db (view w)
  end.
Proof.
  intros Hinv Hrun. by_wp Hrun. eapply wp_mono; [apply wp_CreateGroup|].
  intros r v' Hr. destruct r as [rp|e]; cbn.
  - destruct Hr as (Hl & Hu & g & row & Hg1 & Hg2 & Hg3 & Hg4 & Hr1 & Hr2 & Hr3 & Hr4 & Huk & Hid & ->).
    split_and!; [apply groups_inv_create; congruence|lia|lia|done|exists g; cbn; split_and!; [set_solver|done|done]|].
    unfold active_members. cbn. rewrite filter_app, fmap_app, filter_cons, filter_nil, decide_True by done.
    rewrite filter_none; [cbn; by rewrite Hr2|]. intros m Hm [Hm' _]. apply Hid. rewrite <- Hm'. by apply gi_ref.
  - destruct Hr as [-> | (Hfl & g & row & Hg & Hr & Hid & ->)]; [auto|].
    split; [by apply groups_inv_create|congruence].
Qed.
End theorems.
