(* ===== verification/GroupPool.v ===== *)
(** * Groups under concurrency

    Any number of AddGroup, CreateGroup, IsGroupMember and
    RefreshGroupMembersCache requests run at the same time, call by call, with
    failures and with the delayed second deletions of the member sets.  The
    tables stay consistent and the cache never lets a stranger in, but it can
    keep a member out. *)

From Stdlib Require Import ZArith Lia String.
From stdpp Require Import base tactics list gmap strings.
From S2P Require Import Prelude GoStd Effects Redis Database Proto World Rules RefWorld Store GroupServer GroupSpec.

Local Open Scope string_scope.
Local Open Scope Z_scope.

Inductive group_op :=
| OpAddGroup (req : AddGroupRequest)
| OpCreateGroup (req : CreateGroupRequest)
| OpIsGroupMember (groupID userID : Z)
| OpRefresh (req : GroupMembersRequest).

(** What an answer says about memberships. *)
Inductive group_answer :=
| LetIn (groupID userID : Z)   (* IsGroupMember said yes *)
| Joined (groupID userID : Z)     (* AddGroup said Ok *)
| Listed (groupID : Z) (userIDs : list Z)
| OtherAnswer.

Definition group_prog `{Collation} {M} (op : group_op) : prog (ev M) group_answer :=
  match op with
  | OpAddGroup req =>
      r <- AddGroup req ;;
      Ret (match r with Ok _ => Joined (agr_GroupId req) (agr_UserId req) | Err _ => OtherAnswer end)
  | OpCreateGroup req => r <- CreateGroup req ;; Ret OtherAnswer
  | OpIsGroupMember groupID userID =>
      r <- IsGroupMember None groupID userID ;;
      Ret (match r with Ok true => LetIn groupID userID | _ => OtherAnswer end)
  | OpRefresh req =>
      r <- RefreshGroupMembersCache req ;;
      Ret (match r with Ok rp => Listed (gmr_GroupId req) (gmp_GroupMembers rp) | Err _ => OtherAnswer end)
  end.

(** The ids are int64 values, and -1, the placeholder of the cache, is not a user. *)
Definition group_op_ok (op : group_op) : Prop :=
  match op with
  | OpAddGroup req => in_int64 (agr_GroupId req) /\ in_int64 (agr_UserId req)
  | OpCreateGroup req => in_int64 (cgr_UserId req)
  | OpIsGroupMember groupID userID => in_int64 groupID /\ in_int64 userID /\ userID <> -1
  | OpRefresh req => in_int64 (gmr_GroupId req)
  end.

(** ** The cache names members only *)

(** The memberships a state of the ghost knows: facts about MySQL that never
    cease to hold.  [inl]: an active member; [inr]: a membership row. *)
Definition facts : Type := gset (Z * Z) * gset (Z * Z).
Definition facts_le (g1 g2 : facts) : Prop := g1.1 ⊆ g2.1 /\ g1.2 ⊆ g2.2.

#[export] Instance facts_le_preorder : PreOrder facts_le.
Proof. split; [by intros g|]. intros g1 g2 g3 [H1 H2] [H3 H4]. split; by etransitivity. Qed.

Definition knows (g : facts) (t : tables) : Prop :=
  (forall gid uid, (gid, uid) ∈ g.1 -> uid ∈ active_members gid t)
  /\ (forall gid uid, (gid, uid) ∈ g.2 -> is_member gid uid t).

Definition cache_sound (g : facts) (ks : keyspace) : Prop :=
  forall gid e, in_int64 gid -> ks !! groupMembersKey gid = Some e ->
    exists s, r_val e = VSet s /\ (s = {[FormatInt (-1)]} \/ forall x, x ∈ s ->
      exists uid, in_int64 uid /\ x = FormatInt uid /\ (gid, uid) ∈ g.1).

(** A sleeping goroutine deletes the member set of a group. *)
Definition deletes_members (p : Z * rcmd Z) : Prop := exists gid, p.2 = DEL (groupMembersKey gid).

Definition group_I {M} (g : facts) (v : sysview M) : Prop :=
  groups_inv (v_db v) /\ members_ok (v_db v) /\ knows g (v_db v) /\ cache_sound g (v_rds v)
  /\ Forall deletes_members (v_spawned v).

Lemma cache_sound_mono g g' ks : facts_le g g' -> cache_sound g ks -> cache_sound g' ks.
Proof.
  intros [Hle _] Hc gid e Hg He. destruct (Hc gid e Hg He) as (s & Hs & Hx). exists s. split; [done|].
  destruct Hx as [?|Hx]; [by left|right]. intros x (uid & ? & ? & Hin)%Hx. exists uid; auto.
Qed.

Lemma cache_sound_purge g t ks : cache_sound g ks -> cache_sound g (purge t ks).
Proof. intros Hc gid e Hg [He _]%lookup_purge. by eapply Hc. Qed.

Lemma cache_sound_delete g k ks : cache_sound g ks -> cache_sound g (delete k ks).
Proof. intros Hc gid e Hg [_ He]%lookup_delete_Some. by eapply Hc. Qed.

(** Writing a list of members read from MySQL before. *)
Lemma cache_sound_rebuild g gid ms ex ks :
  in_int64 gid -> (forall uid, uid ∈ ms -> in_int64 uid /\ (gid, uid) ∈ g.1) -> cache_sound g ks ->
  cache_sound g (<[groupMembersKey gid := REntry (VSet (cached ms)) ex]> ks).
Proof.
  intros Hg Hms Hc gid' e Hg' [[Heq <-]|[_ He]]%lookup_insert_Some; [|by eapply Hc].
  apply groupMembersKey_inj in Heq as <-; [|done|done]. exists (cached ms). split; [done|].
  destruct ms as [|u l].
  - left. cbn. set_solver.
  - right. intros x Hx. change (x ∈ (list_to_set (FormatInt <$> u :: l) : gset string)) in Hx.
    apply elem_of_list_to_set, list_elem_of_fmap in Hx as (uid & -> & Hin). exists uid. destruct (Hms uid Hin). by split_and!.
Qed.

(** What the lists read from MySQL say is known. *)
Definition learn (gid : Z) (ms : list Z) (g : facts) : facts := (g.1 ∪ list_to_set ((fun uid => (gid, uid)) <$> ms), g.2).

Lemma learn_le gid ms g : facts_le g (learn gid ms g).
Proof. split; cbn; set_solver. Qed.

Lemma elem_learn gid ms g gid' uid : (gid', uid) ∈ (learn gid ms g).1 <-> (gid', uid) ∈ g.1 \/ gid' = gid /\ uid ∈ ms.
Proof. unfold learn. cbn. rewrite elem_of_union, elem_of_list_to_set, list_elem_of_fmap. naive_solver. Qed.

Lemma knows_learn gid g t : knows g t -> knows (learn gid (active_members gid t) g) t.
Proof. intros [H1 H2]. split; [|done]. intros gid' uid [?|[-> ?]]%elem_learn; auto. Qed.

(** ** The tables only grow *)

Definition tables_grow (t t' : tables) : Prop :=
  (forall gid uid, uid ∈ active_members gid t -> uid ∈ active_members gid t')
  /\ (forall gid uid, is_member gid uid t -> is_member gid uid t').

Lemma knows_grow g t t' : tables_grow t t' -> knows g t -> knows g t'.
Proof. intros [H1 H2] [H3 H4]. split; eauto. Qed.

Lemma grow_append t t' rows : t_members t' = (t_members t ++ rows)%list -> tables_grow t t'.
Proof.
  intros Ht. split; intros gid uid.
  - rewrite !active_members_in, Ht. intros (m & Hm & Hrest). exists m. split; [|done]. apply elem_of_app. by left.
  - unfold is_member. rewrite Ht, fmap_app, elem_of_app. by left.
Qed.

Section pool.
Context `{HC : Crypto} `{HCo : Collation} {M : Type} (fl : bool).
Implicit Types v : sysview M.

Abbreviation rgg := (rg (ext (M := M) fl) facts_le group_I).

Lemma group_I_tick g t v : group_I g v -> group_I g (tick t v).
Proof. intros (H1 & H2 & H3 & H4 & H5). split_and!; try done. by apply cache_sound_purge. Qed.

Lemma group_I_rds g t ks v : group_I g v -> cache_sound g ks -> group_I g (set_rds ks (tick t v)).
Proof. intros (H1 & H2 & H3 & H4 & H5) Hc. by split_and!. Qed.

Lemma group_I_db g t db v :
  group_I g v -> groups_inv db -> members_ok db -> tables_grow (v_db v) db -> group_I g (set_db db (tick t v)).
Proof.
  intros (H1 & H2 & H3 & H4 & H5) Hi Hm Hg. split_and!; try done; [by eapply knows_grow|by apply cache_sound_purge].
Qed.

(** An event after which only time has passed. *)
Lemma rgg_quiet {A X} g (e : ev M X) (k : X -> prog (ev M) A) Q :
  (forall g' v, facts_le g g' -> group_I g' v ->
    wp (ext fl) (call e) v (fun x v' => (exists t, v' = tick t v) /\ rgg g' (k x) Q)) ->
  rgg g (Vis e k) Q.
Proof.
  intros Hk. apply rg_vis. intros g' v Hle HI. eapply wp_mono; [by apply Hk|].
  intros x v' [[t ->] Hrg]. exists g'. split; [done|]. split; [by apply group_I_tick|done].
Qed.

(** The query of the active members. *)
Lemma rgg_members {A} g gid (k : res (list Z) -> prog (ev M) A) Q :
  (forall g' ms, facts_le g g' -> (forall uid, uid ∈ ms -> in_int64 uid /\ (gid, uid) ∈ g'.1) -> rgg g' (k (Ok ms)) Q) ->
  (forall g' msg, facts_le g g' -> rgg g' (k (Err (ErrExt msg))) Q) ->
  rgg g (Vis (Sql (Scan (fun t => Ok (active_members gid t)))) k) Q.
Proof.
  intros Hk He. apply rg_vis. intros g' v Hle (H1 & H2 & H3 & H4 & H5). apply wp_scan. intros t x Ht Hx. cbn [wp].
  destruct Hx as [-> | [_ [msg ->]]].
  - set (ms := active_members gid (v_db v)). exists (learn gid ms g').
    assert (facts_le g (learn gid ms g')) as Hle' by (etransitivity; [exact Hle|apply learn_le]).
    split; [apply learn_le|]. split.
    + split_and!; [done|done|by apply knows_learn|eapply cache_sound_mono; [apply learn_le|by apply cache_sound_purge]|done].
    + apply Hk; [done|]. intros uid Hin. split; [by eapply active_members_range|]. apply elem_learn. by right.
  - exists g'. split; [reflexivity|]. split; [|by apply He]. split_and!; try done. by apply cache_sound_purge.
Qed.

(** The pipeline that writes what was read. *)
Lemma rgg_rebuild {A} g gid ms (k : res unit -> prog (ev M) A) Q :
  in_int64 gid -> (forall uid, uid ∈ ms -> in_int64 uid /\ (gid, uid) ∈ g.1) ->
  (forall g' r, facts_le g g' -> rgg g' (k r) Q) ->
  rgg g (Vis (RdsTx (rebuild_cache (groupMembersKey gid) ms)) k) Q.
Proof.
  intros Hg Hms Hk. apply rg_vis. intros g' v Hle HI. apply wp_tx. intros t r ks Ht. rewrite rebuild_run. cbn [snd wp].
  intros Hr. exists g'. split; [reflexivity|]. split; [|by apply Hk].
  assert (cache_sound g' (purge t (v_rds v))) as Hold by (apply cache_sound_purge, HI).
  assert (cache_sound g' (<[groupMembersKey gid := REntry (VSet (cached ms)) (Some (t + cache_life ms))]> (purge t (v_rds v)))) as Hnew.
  { apply cache_sound_rebuild; [done| |done]. intros uid [? Hin]%Hms. split; [done|]. by apply Hle. }
  destruct Hr as [[= _ <-] | [_ [-> | ->]]]; by apply group_I_rds.
Qed.

Definition answer_known (g : facts) (a : group_answer) : Prop :=
  match a with
  | LetIn gid uid => (gid, uid) ∈ g.1
  | Joined gid uid => (gid, uid) ∈ g.2
  | Listed gid uids => forall uid, uid ∈ uids -> (gid, uid) ∈ g.1
  | OtherAnswer => True
  end.

Lemma answer_known_mono g1 g2 a : facts_le g1 g2 -> answer_known g1 a -> answer_known g2 a.
Proof. intros [H1 H2]. destruct a; cbn; auto. Qed.

Lemma rgg_IsGroupMember g gid uid :
  in_int64 gid -> in_int64 uid -> uid <> -1 ->
  rgg g (IsGroupMember None gid uid) (fun g' r => r = Ok true -> (gid, uid) ∈ g'.1).
Proof.
  intros Hg Hu Hne. unfold IsGroupMember. cbn [bind call]. apply rgg_quiet. intros g1 v Hle HI.
  apply wp_read; [done|]. intros t r Ht Hr. cbn [wp]. split; [by exists t|].
  destruct Hr as [Hr | [_ [msg ->]]]; [|done]. cbn [reply_ok doc_cmd] in Hr.
  assert (r = Ok true -> (gid, uid) ∈ g1.1) as Hyes.
  { intros ->. destruct (purge t (v_rds v) !! groupMembersKey gid) as [[d ex]|] eqn:He.
    - destruct HI as (_ & _ & _ & Hc & _). apply (cache_sound_purge _ t) in Hc.
      destruct (Hc gid _ Hg He) as (s & Hs & Hx). cbn in Hs, Hr. subst d. cbn in Hr. injection Hr as Hr.
      apply bool_decide_eq_true in Hr. destruct Hx as [->|Hx].
      + apply elem_of_singleton, FormatInt_inj in Hr; [done|done|]. unfold in_int64, min_int64, max_int64. lia.
      + apply Hx in Hr as (u & Hui & Heq & Hin). by apply FormatInt_inj in Heq as <-.
    - cbn in Hr. injection Hr as Hr. apply bool_decide_eq_true in Hr. set_solver. }
  destruct r as [[]|e]; [cbn; auto| |done]. cbn [bind call]. apply rgg_quiet. intros g2 v2 Hle2 _.
  apply wp_read; [done|]. intros t2 r2 Ht2 Hr2. cbn [wp]. split; [by exists t2|].
  destruct r2 as [n|e]; [|done]. destruct (0 <? n); [done|]. cbn [sg_do]. unfold member_fallback. cbn [bind call].
  apply rgg_members; [|done]. intros g3 ms _ Hms. cbn [bind call]. apply rgg_rebuild; [done|done|].
  intros g4 r4 [Hle4 _]. cbn. intros [= Hin%bool_decide_eq_true]. apply elem_of_list_to_set in Hin.
  by apply Hle4, Hms.
Qed.

Lemma rgg_Refresh g req :
  in_int64 (gmr_GroupId req) ->
  rgg g (RefreshGroupMembersCache req) (fun g' r => forall rp uid, r = Ok rp -> uid ∈ gmp_GroupMembers rp -> (gmr_GroupId req, uid) ∈ g'.1).
Proof.
  intros Hg. unfold RefreshGroupMembersCache. destruct (_ =? 0); [done|]. cbn [bind call].
  apply rgg_members; [|done]. intros g1 ms _ Hms. destruct ms as [|u l]; cbn [bind call].
  - apply rgg_rebuild; [done|done|]. intros g2 r2 _. cbn. intros rp uid [= <-] Hin. cbn in Hin. set_solver.
  - apply rgg_rebuild; [done|done|]. intros g2 [[]|e] [Hle _]; [|done]. cbn. intros rp uid [= <-] Hin. by apply Hle, Hms.
Qed.

(** A transaction that leaves consistent tables, with what its answer says. *)
Lemma rgg_sqltx {A B} g (body : prog sqlE (res A)) (k : res A -> prog (ev M) B) Q (P : tables -> res A -> tables -> Prop) (new : res A -> facts -> facts) :
  (forall t, tx_wp fl body t t (P t)) ->
  (forall g' t x db, groups_inv t -> members_ok t -> knows g' t -> P t x db ->
     groups_inv db /\ members_ok db /\ tables_grow t db /\ knows (new x g') db) ->
  (forall x g', facts_le g' (new x g')) ->
  (forall g' x, facts_le g g' -> rgg (new x g') (k x) Q) ->
  (forall g' msg, facts_le g g' -> rgg g' (k (Err (ErrExt msg))) Q) ->
  rgg g (Vis (SqlTx body) k) Q.
Proof.
  intros Hwp HP Hnew Hk He. apply rg_vis. intros g' v Hle HI. pose proof HI as (H1 & H2 & H3 & H4 & H5).
  eapply wp_sqltx; [apply Hwp|]. intros t x db Ht Hx. cbn [wp].
  assert (forall db' g2, facts_le g' g2 -> groups_inv db' /\ members_ok db' /\ tables_grow (v_db v) db' /\ knows g2 db' ->
    group_I g2 (set_db db' (tick t v))) as Hst.
  { intros db' g2 Hle2 (? & ? & ? & ?). split_and!; try done. eapply cache_sound_mono; [done|]. by apply cache_sound_purge. }
  destruct Hx as [Hx | [[_ [msg ->]] Hdb]].
  - exists (new x g'). split; [apply Hnew|]. split; [apply Hst; [apply Hnew|by apply HP]|by apply Hk].
  - exists g'. split; [reflexivity|]. split; [|by apply He]. apply Hst; [reflexivity|].
    destruct Hdb as [-> | [x0 Hx]]; [split_and!; try done; by split|].
    destruct (HP g' _ _ _ H1 H2 H3 Hx) as (? & ? & Hgr & _). split_and!; try done. by eapply knows_grow.
Qed.

Lemma rgg_AddGroup g req :
  in_int64 (agr_GroupId req) -> in_int64 (agr_UserId req) ->
  rgg g (AddGroup req) (fun g' r => is_ok r = true -> (agr_GroupId req, agr_UserId req) ∈ g'.2).
Proof.
  intros Hg Hu. set (gid := agr_GroupId req) in *. set (uid := agr_UserId req) in *. unfold AddGroup. fold gid uid. cbn [bind call].
  apply rgg_quiet. intros g1 v _ _. apply wp_now. intros t now Ht. cbn [wp]. split; [by exists t|].
  apply (rgg_sqltx _ _ _ _ (add_group_post fl gid uid now)
    (fun x g => match x with Ok _ => (g.1, {[(gid, uid)]} ∪ g.2) | Err _ => g end)).
  - apply add_group_tx_wp.
  - intros g' t0 x db H1 H2 H3 Hx. destruct x as [[]|e]; cbn in Hx.
    + destruct Hx as (_ & Ho & Hn & id & at_ & ->).
      assert (tables_grow t0 (joined id gid uid now at_ t0)) as Hgr by by eapply grow_append.
      split_and!; [by apply groups_inv_joined|by apply members_ok_join|done|].
      destruct (knows_grow _ _ _ Hgr H3) as [K1 K2]. split; [done|].
      intros gid' uid' Hin. cbn in Hin. apply elem_of_union in Hin as [[= -> ->]%elem_of_singleton|?]; [apply is_member_joined|by apply K2].
    + destruct Hx as (_ & Ho & Hm & ->). split_and!; [done|done|by split|]. destruct H3 as [K1 K2]. split; [done|].
      intros gid' uid' Hin. cbn in Hin. apply elem_of_union in Hin as [[= -> ->]%elem_of_singleton|?]; [done|by apply K2].
    + destruct Hx as [-> _]. split_and!; try done; by split.
  - intros [b|e] g'; [|reflexivity]. split; cbn; set_solver.
  - intros g' x Hle. destruct x as [[]|e]; [| |done]; cbn [bind].
    2:{ cbn. intros _. set_solver. }
    unfold doubleDeleteGroupMembersCache. cbn [bind call]. apply rg_vis. intros g2 v2 Hle2 HI2.
    apply wp_rds. intros t2 r ks Ht2 Hr. cbn [wp]. exists g2. split; [reflexivity|]. split.
    { pose proof HI2 as (_ & _ & _ & Hc & _). apply (cache_sound_purge _ t2) in Hc.
      destruct Hr as [[_ ->] | [_ [-> | ->]]]; apply group_I_rds; try done; by apply cache_sound_delete. }
    cbn [bind]. apply rg_vis. intros g3 v3 Hle3 HI3. apply wp_spawn. intros t3 Ht3. cbn [wp]. exists g3.
    split; [reflexivity|]. split; [|intros _; apply Hle3, Hle2; cbn; set_solver].
    destruct (group_I_tick _ t3 _ HI3) as (? & ? & ? & ? & ?). split_and!; try done. apply Forall_app. split; [done|].
    constructor; [by exists gid|constructor].
  - done.
Qed.

Lemma rgg_CreateGroup g req :
  in_int64 (cgr_UserId req) -> rgg g (CreateGroup req) (fun _ _ => True).
Proof.
  intros Hu. unfold CreateGroup. destruct (_ || _); [done|]. destruct (_ <=? 0); [done|]. cbn [bind call].
  apply rgg_quiet. intros g1 v _ _. apply wp_now. intros t now Ht. cbn [wp]. split; [by exists t|].
  set (gr := {| g_ID := 0; g_Name := _ |}). set (gm := {| gmb_ID := 0; gmb_GroupID := 0 |}).
  apply (rgg_sqltx _ _ _ _ (create_group_post gr gm) (fun _ g => g)).
  - apply create_group_tx_wp.
  - intros g' t0 x db H1 H2 H3 Hx. destruct x as [id|e]; cbn in Hx; [|subst; split_and!; try done; by split].
    destruct Hx as (_ & Hid & row & -> & Hr1 & Hr2 & Hr3 & Hr4).
    assert (tables_grow t0 (set_members (fun l => l ++ [row])%list (set_groups (fun l => l ++ [group_row id gr])%list t0))) as Hgr by by eapply grow_append.
    split_and!; [by apply groups_inv_create| |done|by eapply knows_grow].
    unfold members_ok. cbn. apply Forall_app. split; [done|]. constructor; [by rewrite Hr2|constructor].
  - intros x g'. reflexivity.
  - intros g' x _. by destruct x.
  - done.
Qed.

Lemma rgg_group_prog g op : group_op_ok op -> rgg g (group_prog op) answer_known.
Proof.
  intros Hop. destruct op as [req|req|gid uid|req]; cbn [group_prog]; apply rg_bind.
  - destruct Hop. eapply rg_conseq; [apply _|by apply rgg_AddGroup|]. intros g' [rp|e] _ Hq; cbn in *; auto.
  - eapply rg_conseq; [apply _|by apply rgg_CreateGroup|]. done.
  - destruct Hop as (? & ? & ?). eapply rg_conseq; [apply _|by apply rgg_IsGroupMember|]. intros g' [[]|e] _ Hq; cbn in *; auto.
  - eapply rg_conseq; [apply _|by apply rgg_Refresh|]. intros g' [rp|e] _ Hq; cbn in *; eauto.
Qed.

(** A delayed deletion. *)
Lemma group_I_env g v v' : group_I g v -> env v v' -> exists g', facts_le g g' /\ group_I g' v'.
Proof.
  intros HI (t & l1 & due & c & l2 & Ht & Hsp & Hdue & Hv). exists g. split; [reflexivity|].
  destruct HI as (H1 & H2 & H3 & H4 & H5). rewrite Hsp in H5. apply Forall_app in H5 as [H5 [[gid Hc] H6]%Forall_cons].
  assert (Forall deletes_members (l1 ++ l2)%list) as Hl by by apply Forall_app. cbn in Hc. subst c.
  apply (cache_sound_purge _ t) in H4. destruct Hv as [-> | ->]; split_and!; try done. by apply cache_sound_delete.
Qed.
End pool.

(** ** A member kept out *)

(** Group 3 has one member, user 7; nothing is cached. *)
Definition race_group : Group :=
  {| g_ID := 3; g_Name := "go"; g_Status := 0; g_OwnerUserID := 7; g_MemberCount := 1; g_CreatedAt := 0; g_UpdatedAt := 0 |}.
Definition race_owner : GroupMember :=
  {| gmb_ID := 1; gmb_GroupID := 3; gmb_UserID := 7; gmb_UserRole := 2; gmb_UserStatus := 0; gmb_JoinAt := 0; gmb_UpdateAt := 0 |}.
Definition race_start : sysview unit := View 1000 ∅ (Tables [] [race_group] [race_owner] [] []) [] ∅ [] [] tt.

(** Goroutine 0 checks user 7, goroutine 1 adds user 8.  Goroutine 0 reads
    MySQL before the join and writes the cache after the second deletion. *)
Definition race_ops : list (prog (ev unit) group_answer) :=
  [group_prog (OpIsGroupMember 3 7); group_prog (OpAddGroup {| agr_GroupId := 3; agr_UserId := 8 |})].
Definition race_schedule : list turn :=
  [Turn 0 0 false; Turn 0 0 false; Turn 0 0 false; Turn 1 0 false; Turn 1 0 false; Turn 1 0 false; Turn 1 0 false;
   Wake 200; Turn 0 100 false].
Definition race_end := sched false race_schedule (race_ops, race_start).

(** While a cached set lives, the check answers from it. *)
Lemma wp_cached_no `{Crypto} {M} gid uid s ex (v : sysview M) :
  v_rds v !! groupMembersKey gid = Some (REntry (VSet s) (Some ex)) -> FormatInt uid ∉ s ->
  wp (ext false) (IsGroupMember None gid uid) v (fun r v' => v_now v' < ex -> r = Ok false).
Proof.
  intros Hk Hs.
  assert (forall t, t < ex -> purge t (v_rds v) !! groupMembersKey gid = Some (REntry (VSet s) (Some ex))) as Hlive.
  { intros t Ht. apply lookup_purge. by split. }
  assert (forall A (p : prog (ev M) A) v1 (Q : A -> Prop), ex <= v_now v1 -> wp (ext false) p v1 (fun a v' => v_now v' < ex -> Q a)) as Hlate.
  { intros A p v1 Q Hv. eapply wp_mono; [by apply (wp_time false p v1 ex)|]. cbn. lia. }
  unfold IsGroupMember. cbn [bind call]. apply wp_read; [done|]. intros t r Ht Hr.
  destruct (decide (ex <= t)) as [|Hlt]; [by apply Hlate|]. destruct Hr as [Hr | [? _]]; [|done].
  cbn [reply_ok doc_cmd] in Hr. rewrite Hlive in Hr by lia. cbn in Hr. rewrite bool_decide_false in Hr by done. subst r.
  apply wp_read; [done|]. intros t2 r2 Ht2 Hr2. cbn [v_rds tick v_now] in *.
  destruct (decide (ex <= t2)) as [|Hlt2]; [by apply Hlate|]. destruct Hr2 as [Hr2 | [? _]]; [|done].
  rewrite purge_purge in Hr2 by lia. cbn [reply_ok doc_cmd] in Hr2. rewrite Hlive in Hr2 by lia. by subst r2.
Qed.

(** ** Theorems *)

(** The answer agrees with the tables. *)
Definition answer_true (t : tables) (a : group_answer) : Prop :=
  match a with
  | LetIn gid uid => uid ∈ active_members gid t
  | Joined gid uid => is_member gid uid t
  | Listed gid uids => forall uid, uid ∈ uids -> uid ∈ active_members gid t
  | OtherAnswer => True
  end.

Section theorems.
Context `{HC : Crypto} `{HCo : Collation} {M : Type} {fl : bool}.

(** C10. However requests about groups interleave, fail and race with the
    delayed deletions of cached member sets, member_count stays the number of
    membership rows; a cached set never names somebody who is not an active
    member; and whoever was admitted, reported as joined, or listed as a
    member by a request that has finished is a member. *)
Theorem strangers_never_admitted g (v : sysview M) ps' v' :
  group_I g v ->
  pool_reachable (ext fl) env (fun p => exists op, group_op_ok op /\ p = group_prog op) ([], v) (ps', v') ->
  groups_inv (v_db v')
  /\ (forall gid uid e s, in_int64 gid -> in_int64 uid -> uid <> -1 ->
        v_rds v' !! groupMembersKey gid = Some e -> r_val e = VSet s -> FormatInt uid ∈ s -> uid ∈ active_members gid (v_db v'))
  /\ (forall a, Ret a ∈ ps' -> answer_true (v_db v') a).
Proof.
  intros HI Hrun.
  destruct (pool_invariant_post (ext fl) env facts_le group_I (fun p => exists op, group_op_ok op /\ p = group_prog op)
    answer_known answer_known_mono group_I_env (fun g p H => match H with ex_intro _ op (conj Hop Heq) => eq_ind_r (fun p => rg _ _ _ g p _) (rgg_group_prog fl g op Hop) Heq end)
    [] v ps' v' g Hrun HI (List.Forall_nil _)) as (g' & _ & (H1 & H2 & [K1 K2] & Hc & _) & Hps).
  split_and!; [done| |].
  - intros gid uid e s Hg Hu Hne He Hs Hin. destruct (Hc gid e Hg He) as (s' & Hs' & Hx). rewrite Hs in Hs'. injection Hs' as <-.
    destruct Hx as [->|Hx].
    + apply elem_of_singleton, FormatInt_inj in Hin; [done|done|]. unfold in_int64, min_int64, max_int64. lia.
    + apply Hx in Hin as (u & Hui & Heq & Hin). apply FormatInt_inj in Heq as <-; auto.
  - intros a Ha. rewrite Forall_forall in Hps. specialize (Hps _ Ha). cbn in Hps. destruct a; cbn in *; auto.
Qed.
End theorems.

(** C37. The double deletion does not close the race it is there for: a check
    that read the members before a join and writes them back after the second
    deletion leaves a cached set without the new member.  The join has
    answered Ok, no deletion is pending, the user is an active member in
    MySQL, and every check answers no until the set expires a day later. *)
Theorem double_delete_leaves_stale_cache : exists (ps : list (prog (ev unit) group_answer)) v ex,
  pool_reachable (ext false) env (fun p => exists op, group_op_ok op /\ p = group_prog op) ([], race_start) (ps, v)
  /\ ps = [Ret (LetIn 3 7); Ret (Joined 3 8)] /\ v_spawned v = [] /\ 8 ∈ active_members 3 (v_db v)
  /\ ex = v_now v + 24 * hour_ms
  /\ forall W `{!World false unit W} (w : W) r w',
       view w = v -> exec (IsGroupMember None 3 8) w = (r, w') -> v_now (view w') < ex -> r = Ok false.
Proof.
  exists race_end.1, race_end.2, (v_now race_end.2 + 24 * hour_ms). split_and!.
  - rewrite <- surjective_pairing. apply sched_reachable. unfold race_ops. repeat constructor.
    + exists (OpIsGroupMember 3 7). split; [|done]. by vm_compute.
    + exists (OpAddGroup {| agr_GroupId := 3; agr_UserId := 8 |}). split; [|done]. by vm_compute.
  - by vm_compute.
  - by vm_compute.
  - vm_compute. constructor. constructor.
  - done.
  - intros W HW w r w' Hw Hrun. revert r w' Hrun.
    apply (exec_wp (IsGroupMember None 3 8) w (fun r v' => v_now v' < v_now race_end.2 + 24 * hour_ms -> r = Ok false)).
    apply (wp_cached_no 3 8 (cached [7])); rewrite ?Hw; [by vm_compute|].
    apply (bool_decide_unpack _). by vm_compute.
Qed.
