(* ===== verification/ChatServer.v ===== *)
(** * The chat service (src/internal/logic/chatserver.go)

    Message ids, and the three handlers that validate a message, number it and
    append it to the Kafka topic of its kind. *)

From Stdlib Require Import ZArith Lia String.
From stdpp Require Import base tactics list gmap strings.
From S2P Require Import Prelude GoStd Effects Redis Database Proto World Store.

Local Open Scope string_scope.
Local Open Scope Z_scope.

(** ** Message ids *)

(** The memory of a logic process: the counter [localMsgSeq]. *)
Record LogicMem := { localMsgSeq : Z }.

(** [(1 << 20) - 1] *)
Definition seqMask : Z := Z.shiftl 1 20 - 1.

(** [localMsgSeq.Add(1)] *)
Definition seq_add (m : LogicMem) : Z * LogicMem :=
  let s := wrap_u64 (localMsgSeq m + 1) in (s, {| localMsgSeq := s |}).

(** [(nowMilli << 20) | int64(seq)] *)
Definition message_id (nowMilli seq : Z) : Z :=
  Z.lor (wrap_i64 (Z.shiftl nowMilli 20)) (Z.land seq seqMask).

Definition nextMessageID (nowMilli : Z) : prog (ev LogicMem) Z :=
  seq <- call (Mem seq_add) ;;
  Ret (message_id nowMilli seq).

(** ** The service *)

Record ChatServer := {
  ChatTopic : string;
  GroupChatTopic : string;
  RommChatTopic : string;
  cs_Store : option Store }.

Section chat.
Context `{Codec} (s : ChatServer).

Definition SendMessage (req : SendMessageRequest) : prog (ev LogicMem) (res SendMessageReply) :=
  if smr_FromUserId req =? smr_ToUserId req then
    Ret (Err (ErrStatus InvalidArgument "不能给自己发送消息"))
  else
    now <- call TimeNow ;;
    msgID <- nextMessageID now ;;
    let chatMsg := {| m_MsgId := msgID; m_FromUserId := smr_FromUserId req;
                      m_ToUserId := smr_ToUserId req; m_Content := smr_Content req;
                      m_MsgType := smr_MsgType req; m_CreateTime := now;
                      m_ClientMsgId := smr_ClietMsgId req |} in
    match Marshal_Message chatMsg with
    | Err e => Ret (Err (ErrStatus Internal ("消息序列化失败: " ++ Error e)))
    | Ok payload =>
        r <- call (KafkaSend (KMsg (ChatTopic s) (FormatInt (smr_ToUserId req)) payload)) ;;
        match r with
        | Err e => Ret (Err (ErrStatus Internal ("写入消息队列失败: " ++ Error e)))
        | Ok _ => Ret (Ok {| smp_MsgId := msgID; smp_Timestamp := now |})
        end
    end.

(** The membership check of SendGroupMessage. *)
Definition check_sender (flight : option (res (gset Z))) (req : SendSmallGroupMessageRequest)
    : prog (ev LogicMem) (res unit) :=
  match cs_Store s with
  | None => Ret (Ok tt)
  | Some _ =>
      r <- IsGroupMember flight (sgr_GroupId req) (sgr_FromUserId req) ;;
      match r with
      | Err e => Ret (Err (ErrStatus Internal ("群成员校验失败: " ++ Error e)))
      | Ok false => Ret (Err (ErrStatus PermissionDenied "发送者不在该群"))
      | Ok true => Ret (Ok tt)
      end
  end.

Definition SendGroupMessage (flight : option (res (gset Z))) (req : SendSmallGroupMessageRequest)
    : prog (ev LogicMem) (res SendMessageReply) :=
  if sgr_GroupId req <=? 0 then Ret (Err (ErrStatus InvalidArgument "group_id 无效"))
  else if String.eqb (sgr_Content req) "" then Ret (Err (ErrStatus InvalidArgument "content 不能为空"))
  else if String.eqb (GroupChatTopic s) "" then
    Ret (Err (ErrStatus FailedPrecondition "group chat topic 未配置"))
  else
    try u <- check_sender flight req ;;
    now <- call TimeNow ;;
    msgID <- nextMessageID now ;;
    let groupMsg := {| gm_MsgId := msgID; gm_FromUserId := sgr_FromUserId req;
                       gm_GroupId := sgr_GroupId req; gm_Content := sgr_Content req;
                       gm_MsgType := sgr_MsgType req; gm_CreateTime := now;
                       gm_ClientMsgId := sgr_ClientMsgId req |} in
    match Marshal_GroupMessage groupMsg with
    | Err e => Ret (Err (ErrStatus Internal ("群消息序列化失败: " ++ Error e)))
    | Ok payload =>
        r <- call (KafkaSend (KMsg (GroupChatTopic s) (FormatInt (sgr_GroupId req)) payload)) ;;
        match r with
        | Err e => Ret (Err (ErrStatus Internal ("写入群消息队列失败: " ++ Error e)))
        | Ok _ => Ret (Ok {| smp_MsgId := msgID; smp_Timestamp := now |})
        end
    end.

Definition SendRoomMessage (req : SendRoomMessageRequest) : prog (ev LogicMem) (res SendMessageReply) :=
  if srr_RoomId req <=? 0 then Ret (Err (ErrStatus InvalidArgument "group_id 无效"))
  else if String.eqb (srr_Content req) "" then Ret (Err (ErrStatus InvalidArgument "content 不能为空"))
  else if String.eqb (RommChatTopic s) "" then
    Ret (Err (ErrStatus FailedPrecondition "group chat topic 未配置"))
  else match cs_Store s with
  | None => Ret (Err (ErrStatus Internal "logic进程存储配置出错"))
  | Some _ =>
    now <- call TimeNow ;;
    msgID <- nextMessageID now ;;
    let roomMsg := {| rm_MsgId := msgID; rm_FromUserId := srr_FromUserId req;
                      rm_RoomId := srr_RoomId req; rm_Content := srr_Content req;
                      rm_MsgType := srr_MsgType req; rm_CreateTime := now |} in
    match Marshal_RoomMessage roomMsg with
    | Err e => Ret (Err (ErrStatus Internal ("群消息序列化失败: " ++ Error e)))
    | Ok payload =>
        r <- call (KafkaSend (KMsg (RommChatTopic s) (FormatInt (srr_RoomId req)) payload)) ;;
        match r with
        | Err e => Ret (Err (ErrStatus Internal ("写入群消息队列失败: " ++ Error e)))
        | Ok _ => Ret (Ok {| smp_MsgId := msgID; smp_Timestamp := now |})
        end
    end
  end.
End chat.
