(* ===== verification/ChatSpec.v ===== *)
(** * What the chat service guarantees

    Message ids (range, order, uniqueness within a process, collisions between
    processes) and what each send handler appends to Kafka. *)

From Stdlib Require Import ZArith Lia String.
From stdpp Require Import base tactics list gmap strings.
From S2P Require Import Prelude GoStd Effects Redis Database Proto World Rules Frames RefWorld Store GroupServer.
From S2P Require Import GroupSpec ChatServer.

Local Open Scope string_scope.
Local Open Scope Z_scope.

(** ** Message ids *)

(** The clock fits in the 43 bits that remain (until the year 2248). *)
Definition clock_ok (now : Z) : Prop := 0 <= now < 2 ^ 43.

Lemma seq_low seq : Z.land seq seqMask = seq mod 2 ^ 20.
Proof. unfold seqMask. rewrite <- Z.land_ones by lia. reflexivity. Qed.

Lemma lor_disjoint n a b : 0 <= n -> 0 <= b < 2 ^ n -> Z.lor (a * 2 ^ n) b = a * 2 ^ n + b.
Proof.
  intros Hn Hb.
  assert (Z.land (a * 2 ^ n) b = 0) as H0.
  { apply Z.bits_inj'. intros i Hi. rewrite Z.land_spec, Z.bits_0.
    destruct (Z.lt_ge_cases i n).
    - by rewrite Z.mul_pow2_bits_low.
    - rewrite <- (Z.mod_small b (2 ^ n)), Z.mod_pow2_bits_high by lia. apply andb_false_r. }
  by rewrite <- Z.lxor_lor, <- Z.add_nocarry_lxor.
Qed.

Lemma message_id_eq now seq : clock_ok now -> message_id now seq = now * 2 ^ 20 + seq mod 2 ^ 20.
Proof.
  intros Hn. unfold message_id, clock_ok in *. rewrite seq_low, Z.shiftl_mul_pow2 by lia.
  rewrite wrap_i64_id by (unfold in_int64, min_int64, max_int64; lia).
  apply lor_disjoint; [lia|]. apply Z.mod_pos_bound. lia.
Qed.

Lemma message_id_inj n1 n2 s1 s2 :
  clock_ok n1 -> clock_ok n2 -> message_id n1 s1 = message_id n2 s2 ->
  n1 = n2 /\ s1 mod 2 ^ 20 = s2 mod 2 ^ 20.
Proof.
  intros H1 H2. rewrite !message_id_eq by done.
  pose proof (Z.mod_pos_bound s1 (2 ^ 20) ltac:(lia)). pose proof (Z.mod_pos_bound s2 (2 ^ 20) ltac:(lia)). lia.
Qed.

(** The [i]-th value the counter takes after [c]. *)
Definition nth_seq (c : Z) (i : nat) : Z := wrap_u64 (c + 1 + Z.of_nat i).

Lemma nth_seq_S c i : nth_seq (wrap_u64 (c + 1)) i = nth_seq c (S i).
Proof.
  unfold nth_seq, wrap_u64. rewrite <- Z.add_assoc, Zplus_mod_idemp_l. f_equal. lia.
Qed.

Lemma nth_seq_low c i j : (i <= j)%nat -> Z.of_nat (j - i) < 2 ^ 20 ->
  nth_seq c i mod 2 ^ 20 = nth_seq c j mod 2 ^ 20 -> i = j.
Proof.
  intros Hij Hlt. unfold nth_seq, wrap_u64.
  assert (forall z, (z mod 2 ^ 64) mod 2 ^ 20 = z mod 2 ^ 20) as Hmm.
  { intros z. apply Z.mod_mod_divide. by exists (2 ^ 44). }
  rewrite !Hmm. intros Heq.
  assert ((Z.of_nat j - Z.of_nat i) mod 2 ^ 20 = 0) as H0.
  { replace (Z.of_nat j - Z.of_nat i) with ((c + 1 + Z.of_nat j) - (c + 1 + Z.of_nat i)) by lia.
    rewrite Zminus_mod, Heq, Z.sub_diag. reflexivity. }
  rewrite Z.mod_small in H0 by lia. lia.
Qed.

(** A burst of sends of one process: each reads a clock value and mints an id. *)
Fixpoint mint (nows : list Z) : prog (ev LogicMem) (list Z) :=
  match nows with
  | [] => Ret []
  | now :: rest => id <- nextMessageID now ;; ids <- mint rest ;; Ret (id :: ids)
  end.

(** The ids a burst mints. *)
Fixpoint minted (c : Z) (nows : list Z) : list Z :=
  match nows with
  | [] => []
  | now :: rest => message_id now (wrap_u64 (c + 1)) :: minted (wrap_u64 (c + 1)) rest
  end.

Lemma minted_lookup c nows i :
  minted c nows !! i = (fun now => message_id now (nth_seq c i)) <$> nows !! i.
Proof.
  revert c i. induction nows as [|now rest IH]; intros c i; [done|].
  destruct i as [|i]; cbn.
  - unfold nth_seq. by rewrite Z.add_0_r.
  - rewrite IH. destruct (rest !! i); [|done]. cbn. by rewrite nth_seq_S.
Qed.

Section ids.
Context `{Crypto} (fl : bool).

Lemma wp_mint nows (v : sysview LogicMem) :
  wp (ext fl) (mint nows) v (fun ids _ => ids = minted (localMsgSeq (v_mem v)) nows).
Proof.
  revert v. induction nows as [|now rest IH]; intros v; [done|].
  unfold mint; fold mint. unfold nextMessageID. cbn [bind call]. apply wp_mem. intros t Ht.
  cbn [bind]. apply wp_bind. eapply wp_mono; [apply IH|]. intros ids v1 Hids. cbn. by rewrite Hids.
Qed.
End ids.

(** ** The send handlers *)

(** Between two views: the tables, the calls and the goroutines are the same,
    and the records appended to Kafka are [ms]. *)
Definition appended {M} (ms : list kmsg) (v v' : sysview M) : Prop :=
  v_db v' = v_db v /\ v_calls v' = v_calls v /\ v_log v' = (v_log v ++ ms)%list.

Lemma appended_nil {M} (v v' : sysview M) :
  v_db v' = v_db v -> v_calls v' = v_calls v -> v_log v' = v_log v -> appended [] v v'.
Proof. intros H1 H2 H3. split_and!; [done|done|]. by rewrite app_nil_r. Qed.

(** The message a send request becomes. *)
Definition message_of (req : SendMessageRequest) (rp : SendMessageReply) : Message :=
  {| m_MsgId := smp_MsgId rp; m_FromUserId := smr_FromUserId req; m_ToUserId := smr_ToUserId req;
     m_Content := smr_Content req; m_MsgType := smr_MsgType req; m_CreateTime := smp_Timestamp rp;
     m_ClientMsgId := smr_ClietMsgId req |}.

Definition group_message_of (req : SendSmallGroupMessageRequest) (rp : SendMessageReply) : GroupMessage :=
  {| gm_MsgId := smp_MsgId rp; gm_FromUserId := sgr_FromUserId req; gm_GroupId := sgr_GroupId req;
     gm_Content := sgr_Content req; gm_MsgType := sgr_MsgType req; gm_CreateTime := smp_Timestamp rp;
     gm_ClientMsgId := sgr_ClientMsgId req |}.

Definition room_message_of (req : SendRoomMessageRequest) (rp : SendMessageReply) : RoomMessage :=
  {| rm_MsgId := smp_MsgId rp; rm_FromUserId := srr_FromUserId req; rm_RoomId := srr_RoomId req;
     rm_Content := srr_Content req; rm_MsgType := srr_MsgType req; rm_CreateTime := smp_Timestamp rp |}.

(** The outcome of a send: an accepted message is one record of [topic] under
    the key of its recipient, which decodes to the message with the id and the
    time of the reply; the id is the next of the process.  A refused message
    leaves no record, except when Kafka itself failed. *)
Definition send_outcome {A} (fl : bool) (decode : string -> res A) (topic key : string)
    (built : SendMessageReply -> A) (v : sysview LogicMem) (r : res SendMessageReply) (v' : sysview LogicMem) : Prop :=
  match r with
  | Ok rp =>
      smp_MsgId rp = message_id (smp_Timestamp rp) (nth_seq (localMsgSeq (v_mem v)) 0)
      /\ exists payload, decode payload = Ok (built rp) /\ appended [KMsg topic key payload] v v'
  | Err _ => appended [] v v' \/ (fl = true /\ exists payload, appended [KMsg topic key payload] v v')
  end.

Section send.
Context `{HC : Crypto} `{HCd : Codec} `{HCo : Collation} (fl : bool) (s : ChatServer).
Implicit Types v : sysview LogicMem.

(** Numbering, encoding and sending, the part the three handlers share. *)
Lemma wp_number_and_send {A} (enc : A -> res string) (dec : string -> res A) (mk : Z -> Z -> A)
    topic key e1 e2 (built : SendMessageReply -> A) v :
  (forall a b, enc a = Ok b -> dec b = Ok a) ->
  (forall id now, built {| smp_MsgId := id; smp_Timestamp := now |} = mk id now) ->
  wp (ext fl)
    (now <- call TimeNow ;;
     msgID <- nextMessageID now ;;
     match enc (mk msgID now) with
     | Err e => Ret (Err (ErrStatus Internal (e1 ++ Error e)))
     | Ok payload =>
         r <- call (KafkaSend (KMsg topic key payload)) ;;
         match r with
         | Err e => Ret (Err (ErrStatus Internal (e2 ++ Error e)))
         | Ok _ => Ret (Ok {| smp_MsgId := msgID; smp_Timestamp := now |})
         end
     end) v (send_outcome fl dec topic key built v).
Proof.
  intros Hrt Hof. unfold nextMessageID. cbn [bind call]. apply wp_now. intros t now Ht. apply wp_mem. intros t1 Ht1.
  destruct (enc _) as [payload|e] eqn:He; [|left; by apply appended_nil].
  cbn [bind]. apply wp_kafka.
  - intros t2 Ht2. cbn. split; [unfold nth_seq; by rewrite Z.add_0_r|].
    exists payload. split; [|done]. rewrite Hof. by apply Hrt.
  - intros t2 msg Ht2 Hfl. split; [left; by apply appended_nil|right; split; [done|]]. by exists payload.
Qed.

Lemma wp_SendMessage req v :
  wp (ext fl) (SendMessage s req) v (fun r v' =>
    (is_ok r = true -> smr_FromUserId req <> smr_ToUserId req)
    /\ send_outcome fl Unmarshal_Message (ChatTopic s) (FormatInt (smr_ToUserId req)) (message_of req) v r v').
Proof.
  unfold SendMessage. destruct (Z.eqb_spec (smr_FromUserId req) (smr_ToUserId req)) as [?|Hne];
    [split; [done|left; by apply appended_nil]|].
  eapply wp_mono; [apply (wp_number_and_send Marshal_Message Unmarshal_Message
    (fun id now => message_of req {| smp_MsgId := id; smp_Timestamp := now |}) _ _ _ _ (message_of req));
    [exact Message_roundtrip|done]|]. by intros.
Qed.

Lemma wp_SendRoomMessage req v :
  wp (ext fl) (SendRoomMessage s req) v (fun r v' =>
    (is_ok r = true -> 0 < srr_RoomId req /\ srr_Content req <> "" /\ RommChatTopic s <> "" /\ cs_Store s <> None)
    /\ send_outcome fl Unmarshal_RoomMessage (RommChatTopic s) (FormatInt (srr_RoomId req)) (room_message_of req) v r v').
Proof.
  unfold SendRoomMessage.
  destruct (Z.leb_spec (srr_RoomId req) 0) as [?|Hg]; [split; [done|left; by apply appended_nil]|].
  destruct (String.eqb_spec (srr_Content req) "") as [?|Hc]; [split; [done|left; by apply appended_nil]|].
  destruct (String.eqb_spec (RommChatTopic s) "") as [?|Htop]; [split; [done|left; by apply appended_nil]|].
  destruct (cs_Store s) as [st|]; [|split; [done|left; by apply appended_nil]].
  eapply wp_mono; [apply (wp_number_and_send Marshal_RoomMessage Unmarshal_RoomMessage
    (fun id now => room_message_of req {| smp_MsgId := id; smp_Timestamp := now |}) _ _ _ _ (room_message_of req));
    [exact RoomMessage_roundtrip|done]|]. by intros.
Qed.

(** The cache and the singleflight result a membership check may rely on. *)
Definition check_ready (flight : option (res (gset Z))) (gid uid : Z) v : Prop :=
  coherent v /\ in_int64 gid /\ in_int64 uid /\ uid <> -1
  /\ (flight = None \/ flight = Some (Ok (list_to_set (active_members gid (v_db v))))).

Lemma wp_check_sender flight req v :
  check_ready flight (sgr_GroupId req) (sgr_FromUserId req) v ->
  wp (ext fl) (check_sender s flight req) v (fun r v' =>
    rds_only v v' /\ coherent v'
    /\ (is_ok r = true -> cs_Store s <> None -> sgr_FromUserId req ∈ active_members (sgr_GroupId req) (v_db v))
    /\ (fl = false -> sgr_FromUserId req ∈ active_members (sgr_GroupId req) (v_db v) -> r = Ok tt)).
Proof.
  intros (Hco & Hg & Hu & Hne & Hflight). unfold check_sender.
  destruct (cs_Store s) as [st|].
  2:{ cbn. split; [apply rds_only_refl|done]. }
  apply wp_bind. eapply wp_mono; [by apply wp_IsGroupMember|].
  intros r v1 (Hrd & Hc1 & [-> | [-> [msg ->]]]); [|by cbn].
  case_bool_decide as Hm; by cbn.
Qed.

Lemma wp_SendGroupMessage flight req v :
  check_ready flight (sgr_GroupId req) (sgr_FromUserId req) v ->
  wp (ext fl) (SendGroupMessage s flight req) v (fun r v' =>
    (is_ok r = true -> 0 < sgr_GroupId req /\ sgr_Content req <> "" /\ GroupChatTopic s <> ""
       /\ (cs_Store s <> None -> sgr_FromUserId req ∈ active_members (sgr_GroupId req) (v_db v)))
    /\ send_outcome fl Unmarshal_GroupMessage (GroupChatTopic s) (FormatInt (sgr_GroupId req)) (group_message_of req) v r v').
Proof.
  intros Hready. unfold SendGroupMessage.
  destruct (Z.leb_spec (sgr_GroupId req) 0) as [?|Hpos]; [split; [done|left; by apply appended_nil]|].
  destruct (String.eqb_spec (sgr_Content req) "") as [?|Hc]; [split; [done|left; by apply appended_nil]|].
  destruct (String.eqb_spec (GroupChatTopic s) "") as [?|Htop]; [split; [done|left; by apply appended_nil]|].
  apply wp_bind. eapply wp_mono; [by apply wp_check_sender|].
  intros r v1 ([_ Hv1] & _ & Hm & _). destruct r as [[]|e].
  2:{ split; [done|]. left. rewrite Hv1. by apply appended_nil. }
  eapply wp_mono; [apply (wp_number_and_send Marshal_GroupMessage Unmarshal_GroupMessage
      (fun id now => group_message_of req {| smp_MsgId := id; smp_Timestamp := now |}) _ _ _ _ (group_message_of req));
      [exact GroupMessage_roundtrip|done]|].
  intros r v' Hr. split; [auto|]. rewrite Hv1 in Hr. exact Hr.
Qed.

(** The membership check may rebuild the cache of the group, coherently. *)
Lemma wp_SendGroupMessage_coherent flight req v :
  check_ready flight (sgr_GroupId req) (sgr_FromUserId req) v ->
  wp (ext fl) (SendGroupMessage s flight req) v (fun _ v' => v_db v' = v_db v /\ coherent v').
Proof.
  intros Hready. pose proof Hready as (Hco & _). unfold SendGroupMessage.
  destruct (_ <=? 0); [done|]. destruct (String.eqb _ _); [done|]. destruct (String.eqb _ _); [done|].
  apply wp_bind. eapply wp_mono; [by apply wp_check_sender|]. intros r v1 ([_ Hv1] & Hco1 & _).
  assert (v_db v1 = v_db v) as Hdb by by rewrite Hv1. destruct r as [[]|e]; [|done].
  eapply wp_mono; [apply wp_quiet; unfold nextMessageID; solve_events|]. intros r v' Hq.
  split; [destruct Hq as [_ Hq]; congruence|exact (quiet_coherent _ _ Hq Hco1)].
Qed.
End send.

(** ** Theorems about the service in any environment *)
Section theorems.
Context `{HC : Crypto} `{HCd : Codec} `{HCo : Collation} {fl : bool} {W : Type}
  `{HW : !World fl LogicMem W}.

(** C28. The message ids one logic process mints are distinct positive int64
    values, whatever the clock reads (it may stand still or step back), as
    long as two messages numbered in the same millisecond are less than 2^20
    messages apart. *)
Theorem message_ids_unique w nows ids w' :
  Forall clock_ok nows ->
  (forall i j now, (i < j)%nat -> nows !! i = Some now -> nows !! j = Some now -> Z.of_nat (j - i) < 2 ^ 20) ->
  exec (mint nows) w = (ids, w') ->
  length ids = length nows /\ NoDup ids /\ Forall (fun id => 0 <= id <= max_int64) ids.
Proof.
  intros Hnows Hsame Hrun. by_wp Hrun. eapply wp_mono; [apply wp_mint|].
  intros ids v' Hids. cbn in Hids. subst ids. generalize (localMsgSeq (v_mem (view w))). intros c. split_and!.
  - clear Hnows Hsame. revert c. induction nows as [|now rest IH]; intros c; cbn; [done|]. by rewrite IH.
  - apply NoDup_alt. intros i j id Hi Hj. rewrite minted_lookup in Hi, Hj.
    apply fmap_Some in Hi as (n1 & Hi & ->). apply fmap_Some in Hj as (n2 & Hj & Heq).
    apply message_id_inj in Heq as [<- Hlow]; [|eapply Forall_lookup_1; eassumption..].
    destruct (Nat.lt_trichotomy i j) as [Hlt | [? | Hlt]]; [|done|].
    + eapply nth_seq_low; [lia|by eapply Hsame|done].
    + symmetry. eapply nth_seq_low; [lia|by eapply Hsame|done].
  - apply Forall_lookup. intros i id Hi. rewrite minted_lookup in Hi.
    apply fmap_Some in Hi as (now & Hi & ->). assert (clock_ok now) as Hc by by eapply Forall_lookup_1.
    rewrite message_id_eq by done. unfold clock_ok, max_int64 in *.
    pose proof (Z.mod_pos_bound (nth_seq c i) (2 ^ 20) ltac:(lia)). lia.
Qed.

(** Ids sort by the clock first: between messages of different
    milliseconds, of the same process or not, the later one has the larger
    id, and the millisecond can be read back from the id. *)
Theorem message_id_order n1 n2 s1 s2 :
  clock_ok n1 -> clock_ok n2 ->
  (message_id n1 s1 < message_id n2 s2 <-> n1 < n2 \/ (n1 = n2 /\ s1 mod 2 ^ 20 < s2 mod 2 ^ 20))
  /\ Z.shiftr (message_id n1 s1) 20 = n1.
Proof.
  intros H1 H2. rewrite !message_id_eq by done.
  pose proof (Z.mod_pos_bound s1 (2 ^ 20) ltac:(lia)). pose proof (Z.mod_pos_bound s2 (2 ^ 20) ltac:(lia)).
  split; [lia|]. rewrite Z.shiftr_div_pow2 by lia. symmetry. apply (Z.div_unique _ _ _ (s1 mod 2 ^ 20)); lia.
Qed.

(** Ids are not unique between processes: two logic processes that have
    numbered the same number of messages and send in the same millisecond give
    their messages the same id. *)
Theorem message_ids_collide now w1 w2 id1 id2 w1' w2' :
  localMsgSeq (v_mem (view w1)) = localMsgSeq (v_mem (view w2)) ->
  exec (nextMessageID now) w1 = (id1, w1') -> exec (nextMessageID now) w2 = (id2, w2') -> id1 = id2.
Proof.
  intros Heq H1 H2.
  assert (forall w id w', exec (nextMessageID now) w = (id, w') ->
    id = message_id now (wrap_u64 (localMsgSeq (v_mem (view w)) + 1))) as Hid.
  { intros w id w' Hrun. by_wp Hrun. apply wp_mem. by intros. }
  apply Hid in H1, H2. by rewrite H1, H2, Heq.
Qed.

(** A private message that is accepted is in the chat topic, once, under
    the key of its recipient, with the id and the time of the reply; nobody
    writes to himself; a refusal leaves no record unless Kafka failed. *)
Theorem SendMessage_delivers s req w r w' :
  exec (SendMessage s req) w = (r, w') ->
  (is_ok r = true -> smr_FromUserId req <> smr_ToUserId req)
  /\ send_outcome fl Unmarshal_Message (ChatTopic s) (FormatInt (smr_ToUserId req)) (message_of req)
       (view w) r (view w').
Proof. intros Hrun. by_wp Hrun. apply wp_SendMessage. Qed.


(** A room message that is accepted names a room, has a content, and is
    in the room topic, once, under the key of the room. *)
Theorem SendRoomMessage_delivers s req w r w' :
  exec (SendRoomMessage s req) w = (r, w') ->
  (is_ok r = true -> 0 < srr_RoomId req /\ srr_Content req <> "" /\ RommChatTopic s <> "" /\ cs_Store s <> None)
  /\ send_outcome fl Unmarshal_RoomMessage (RommChatTopic s) (FormatInt (srr_RoomId req)) (room_message_of req)
       (view w) r (view w').
Proof. intros Hrun. by_wp Hrun. apply wp_SendRoomMessage. Qed.
End theorems.
