(* ===== verification/Room.v ===== *)
(** * A chat room (src/internal/connect/room.go)

    A room is a [container/list] of nodes and an index from user to list
    element.  Elements are pointers (a node's channel is replaced in place), so
    the room carries the heap of its elements; the list is the order of the
    pointers.  [room_wf] says index and list agree, and [room_abs] forgets the
    pointers: the room is an ordered map from user to channel. *)

From Stdlib Require Import ZArith Lia.
From stdpp Require Import base tactics list gmap.
From S2P Require Import Prelude.

(** The identity of a Go channel ([chan []byte]). *)
Definition chan := nat.
Bind Scope nat_scope with chan.

Record roomNode := RoomNode { userID : Z; send : chan }.

(** [members] is the list of elements, [elems] their values, [next] the next
    element [PushBack] allocates. *)
Record Room := MkRoom {
  members : list nat;
  index : gmap Z nat;
  elems : gmap nat roomNode;
  next : nat }.

Definition NewRoom : Room := MkRoom [] ∅ ∅ 0.

Definition Join (uid : Z) (ch : chan) (r : Room) : Room :=
  match index r !! uid with
  | Some elem =>
      MkRoom (members r) (index r) (alter (fun node => RoomNode (userID node) ch) elem (elems r)) (next r)
  | None =>
      MkRoom (members r ++ [next r]) (<[uid := next r]> (index r))
        (<[next r := RoomNode uid ch]> (elems r)) (S (next r))
  end.

(** [r.members.Len() == 0] *)
Definition isEmpty (r : Room) : bool := Nat.eqb (length (members r)) 0.

(** [elem.Value] is never missing in a well-formed room. *)
Definition Leave (uid : Z) (expectSend : option chan) (r : Room) : bool * Room :=
  match index r !! uid with
  | None => (isEmpty r, r)
  | Some elem =>
      match elems r !! elem with
      | None => (isEmpty r, r)
      | Some node =>
          if match expectSend with Some c => negb (Nat.eqb (send node) c) | None => false end
          then (isEmpty r, r)
          else
            let r' := MkRoom (filter (fun e => e <> elem) (members r)) (delete uid (index r)) (elems r) (next r) in
            (isEmpty r', r')
      end
  end.

(** The channels Broadcast collects under the read lock. *)
Definition broadcast_targets (fromUserID : Z) (r : Room) : list chan :=
  send <$> filter (fun node => userID node <> fromUserID) (omap (fun e => elems r !! e) (members r)).

(** ** Well-formed rooms *)

Record room_wf (r : Room) : Prop := {
  wf_nodup : NoDup (members r);
  wf_next : forall e, e ∈ members r -> (e < next r)%nat;
  wf_index : forall u e, index r !! u = Some e <->
     e ∈ members r /\ exists node, elems r !! e = Some node /\ userID node = u;
  wf_elems : forall e, e ∈ members r -> is_Some (elems r !! e) }.

(** The room as an ordered map. *)
Definition room_abs (r : Room) : list (Z * chan) :=
  omap (fun e => (fun node => (userID node, send node)) <$> elems r !! e) (members r).

(** Replace the channel of a present user, or add the user at the end. *)
Definition abs_join (uid : Z) (ch : chan) (l : list (Z * chan)) : list (Z * chan) :=
  if decide (uid ∈ l.*1) then (fun p => if decide (p.1 = uid) then (uid, ch) else p) <$> l
  else l ++ [(uid, ch)].

(** Remove the user, if the channel is the expected one. *)
Definition abs_leave (uid : Z) (expect : option chan) (l : list (Z * chan)) : list (Z * chan) :=
  filter (fun p => ~ (p.1 = uid /\ (expect = None \/ expect = Some p.2))) l.

Lemma new_room_wf : room_wf NewRoom.
Proof. split; cbn; [constructor|set_solver|..]; intros; rewrite ?lookup_empty; set_solver. Qed.

Section room.
Context (r : Room) (Hwf : room_wf r).

Lemma abs_elem u ch :
  (u, ch) ∈ room_abs r <-> exists e, e ∈ members r /\ elems r !! e = Some (RoomNode u ch).
Proof.
  unfold room_abs. rewrite list_elem_of_omap. split.
  - intros (e & He & Hn). exists e. split; [done|]. apply fmap_Some in Hn as ([u' ch'] & Hn & Heq). by simplify_eq/=.
  - intros (e & He & Hn). exists e. by rewrite Hn.
Qed.

Lemma index_abs u e : index r !! u = Some e ->
  e ∈ members r /\ exists ch, elems r !! e = Some (RoomNode u ch) /\ (u, ch) ∈ room_abs r.
Proof.
  intros (He & [u' ch] & Hn & <-)%(wf_index _ Hwf). split; [done|]. exists ch. split; [done|]. apply abs_elem. eauto.
Qed.

Lemma index_none u : index r !! u = None -> u ∉ (room_abs r).*1.
Proof.
  intros Hi (p & -> & Hp)%list_elem_of_fmap. destruct p as [u' ch]. cbn in *.
  apply abs_elem in Hp as (e & He & Hn).
  assert (index r !! u' = Some e); [|congruence]. apply wf_index; [done|]. eauto.
Qed.

(** One element per user. *)
Lemma elem_unique e1 e2 n1 n2 :
  e1 ∈ members r -> e2 ∈ members r -> elems r !! e1 = Some n1 -> elems r !! e2 = Some n2 ->
  userID n1 = userID n2 -> e1 = e2.
Proof.
  intros H1 H2 Hn1 Hn2 Hu.
  assert (index r !! userID n1 = Some e1) by (apply wf_index; eauto).
  assert (index r !! userID n1 = Some e2) by (apply wf_index; eauto). congruence.
Qed.

Lemma join_wf u ch : room_wf (Join u ch r).
Proof.
  destruct Hwf as [Hnd Hnx Hix Hel]. unfold Join. destruct (index r !! u) as [e|] eqn:Hi; split; cbn.
  - done.
  - done.
  - intros u' e'. rewrite Hix. split; intros (He & node & Hn & <-); (split; [done|]).
    + destruct (decide (e = e')) as [<-|Hne].
      * eexists. rewrite lookup_alter_eq, Hn. done.
      * exists node. by rewrite lookup_alter_ne.
    + destruct (decide (e = e')) as [<-|Hne].
      * rewrite lookup_alter_eq in Hn. apply fmap_Some in Hn as (n0 & Hn0 & ->). eauto.
      * rewrite lookup_alter_ne in Hn by done. eauto.
  - intros e' He'. destruct (Hel e' He') as [n Hn]. destruct (decide (e = e')) as [<-|Hne].
    + rewrite lookup_alter_eq, Hn. by eexists.
    + rewrite lookup_alter_ne by done. by eexists.
  - apply NoDup_app. split_and!; [done| |apply NoDup_singleton].
    intros e He ->%list_elem_of_singleton. specialize (Hnx _ He). lia.
  - intros e [He| ->%list_elem_of_singleton]%elem_of_app; [specialize (Hnx _ He)|]; lia.
  - intros u' e'. rewrite elem_of_app, list_elem_of_singleton. destruct (decide (u = u')) as [<-|Hne].
    + rewrite lookup_insert_eq. split.
      * intros [= <-]. split; [by right|]. eexists. by rewrite lookup_insert_eq.
      * intros ([He| ->] & node & Hn & Hu); [|done]. specialize (Hnx _ He).
        rewrite lookup_insert_ne in Hn by lia. assert (index r !! u = Some e'); [|congruence]. apply Hix. eauto.
    + rewrite lookup_insert_ne by done. rewrite Hix. split.
      * intros (He & node & Hn & Hu). specialize (Hnx _ He). split; [by left|]. exists node.
        by rewrite lookup_insert_ne by lia.
      * intros ([He| ->] & node & Hn & Hu).
        -- specialize (Hnx _ He). rewrite lookup_insert_ne in Hn by lia. eauto.
        -- rewrite lookup_insert_eq in Hn. by simplify_eq/=.
  - intros e [He| ->%list_elem_of_singleton]%elem_of_app.
    + specialize (Hnx _ He). rewrite lookup_insert_ne by lia. auto.
    + rewrite lookup_insert_eq. by eexists.
Qed.

Lemma leave_wf u ex : room_wf (Leave u ex r).2.
Proof.
  unfold Leave. destruct (index r !! u) as [e|] eqn:Hi; [|done].
  apply index_abs in Hi as Hi'. destruct Hi' as (He & ch & Hn & _). rewrite Hn.
  destruct (match ex with Some c => _ | None => _ end); [done|].
  destruct Hwf as [Hnd Hnx Hix Hel]. split; cbn.
  - by apply NoDup_filter.
  - intros e' [_ He']%list_elem_of_filter. auto.
  - intros u' e'. rewrite list_elem_of_filter. destruct (decide (u = u')) as [<-|Hne].
    + rewrite lookup_delete_eq. split; [done|]. intros ([Hne He'] & node & Hn' & Hu).
      assert (index r !! u = Some e') by (apply Hix; eauto). congruence.
    + rewrite lookup_delete_ne, Hix by done. split; [|naive_solver].
      intros (He' & node & Hn' & Hu). split; [|eauto]. split; [|done]. intros ->. by simplify_eq/=.
  - intros e' [_ He']%list_elem_of_filter. auto.
Qed.

Lemma abs_nodup : NoDup (room_abs r).*1.
Proof.
  unfold room_abs. destruct Hwf as [Hnd Hnx Hix Hel].
  enough (forall l, NoDup l -> (forall e, e ∈ l -> e ∈ members r) ->
    NoDup (omap (fun e => (fun node => (userID node, send node)) <$> elems r !! e) l).*1) by auto.
  induction l as [|e l IH]; intros Hl Hin; [constructor|].
  apply NoDup_cons in Hl as [He Hl]. cbn.
  destruct (elems r !! e) as [n|] eqn:Hn; cbn; [|apply IH; set_solver].
  apply NoDup_cons. split; [|apply IH; set_solver].
  intros (p & Hp & Hq)%list_elem_of_fmap. apply list_elem_of_omap in Hq as (e' & He' & Hq).
  apply fmap_Some in Hq as (n' & Hn' & ->). cbn in Hp.
  assert (e = e') as -> by (eapply elem_unique; [set_solver|set_solver|exact Hn|exact Hn'|done]). done.
Qed.

Lemma isEmpty_abs : isEmpty r = bool_decide (room_abs r = []).
Proof.
  unfold isEmpty, room_abs. destruct (members r) as [|e l] eqn:Hm; [done|]. cbn.
  destruct (wf_elems _ Hwf e) as [n Hn]; [rewrite Hm; constructor|]. by rewrite Hn.
Qed.

Lemma join_abs u ch : room_abs (Join u ch r) = abs_join u ch (room_abs r).
Proof.
  unfold abs_join, Join. destruct (index r !! u) as [e|] eqn:Hi.
  - apply index_abs in Hi as (He & ch0 & Hn & Hin).
    rewrite decide_True by (apply list_elem_of_fmap; by exists (u, ch0)).
    unfold room_abs. cbn. rewrite fmap_omap. apply omap_ext_in. intros e2 H2.
    destruct (decide (e = e2)) as [<-|Hne].
    + rewrite lookup_alter_eq, Hn. cbn. by rewrite decide_True.
    + rewrite lookup_alter_ne by done. destruct (elems r !! e2) as [n|] eqn:Hn2; [|done]. cbn.
      rewrite decide_False; [done|]. intros Hu. apply Hne.
      by eapply elem_unique; [done|exact H2|exact Hn|exact Hn2|].
  - rewrite decide_False by (by apply index_none). unfold room_abs. cbn. rewrite omap_app. f_equal.
    + apply omap_ext_in. intros e H1%(wf_next _ Hwf). by rewrite lookup_insert_ne by lia.
    + cbn. by rewrite lookup_insert_eq.
Qed.

Lemma leave_abs u ex : room_abs (Leave u ex r).2 = abs_leave u ex (room_abs r).
Proof.
  unfold abs_leave, Leave. destruct (index r !! u) as [e|] eqn:Hi.
  - apply index_abs in Hi as (He & ch & Hn & Hin). rewrite Hn. cbn.
    destruct (match ex with Some c => negb (Nat.eqb ch c) | None => false end) eqn:Hex.
    + symmetry. apply filter_all. intros [u' ch'] Hp [Hu Hc]. cbn in *. subst u'.
      apply abs_elem in Hp as (e' & He' & Hn').
      assert (e' = e) as -> by (by eapply elem_unique; [done|exact He|exact Hn'|exact Hn|]).
      destruct ex as [c|]; [|done]. destruct (Nat.eqb_spec ch c); [done|]. destruct Hc; congruence.
    + unfold room_abs. cbn. rewrite filter_omap.
      rewrite omap_list_filter. apply omap_ext_in. intros e2 H2.
      destruct (wf_elems _ Hwf _ H2) as [[u2 c2] Hn2]. rewrite Hn2. cbn.
      destruct (decide (e2 = e)) as [->|Hne].
      * rewrite decide_False, decide_False; [done| |tauto]. intros Hnot. apply Hnot. simplify_eq/=. split; [done|].
        destruct ex as [c|]; [|by left]. right. destruct (Nat.eqb_spec ch c); [congruence|done].
      * rewrite !decide_True; [done| |done]. intros [-> _]. apply Hne.
        by eapply elem_unique; [exact H2|exact He|exact Hn2|exact Hn|].
  - symmetry. apply filter_all. intros [u' ch'] Hp [Hu _]. cbn in Hu. subst u'.
    apply index_none in Hi. apply Hi, list_elem_of_fmap. by exists (u, ch').
Qed.

(** Leave reports whether the room is empty afterwards. *)
Lemma leave_empty u ex : (Leave u ex r).1 = isEmpty (Leave u ex r).2.
Proof. unfold Leave. repeat case_match; by simplify_eq/=. Qed.

Lemma targets_abs from : broadcast_targets from r = (filter (fun p => p.1 <> from) (room_abs r)).*2.
Proof.
  unfold broadcast_targets, room_abs. rewrite !filter_omap, !fmap_omap. apply omap_ext_in. intros e He.
  destruct (elems r !! e) as [n|]; [|done]. cbn. by repeat case_decide.
Qed.
End room.
