(* ===== verification/ConnectMem.v ===== *)
(** * The memory of a connect node

    The structures the goroutines of a connect node share, with the pointers
    and channels between them: [DefaultManager] (src/internal/connect/
    ws_handler.go), [DefaultRoomManager] (room_manager.go), and the heaps of
    clients, channels and rooms they point to. *)

From Stdlib Require Import ZArith Lia String.
From stdpp Require Import base tactics list gmap strings.
From S2P Require Import Prelude Room.

Local Open Scope Z_scope.

(** A [Client].  [c_once] is [closeOnce]; the channel [done] is closed when
    [c_closes] is positive, and Go panics if it is closed a second time;
    [c_ConnClosed] says that [Conn.Close] was called. *)
Record Client := MkClient {
  c_UserID : Z;
  c_Send : chan;
  c_rooms : gset Z;
  c_once : bool;
  c_closes : nat;
  c_ConnClosed : bool }.

(** [make(chan []byte, 256)] *)
Definition sendCap : nat := 256.

Record ConnectMem := MkConnectMem {
  Clients : gmap Z nat;               (* DefaultManager.Clients *)
  client_heap : gmap nat Client;
  chan_heap : gmap chan (list string);
  buckets : list (gmap Z nat);        (* DefaultRoomManager.buckets *)
  room_heap : gmap nat Room;
  next_ptr : nat }.

Definition set_Clients f m := MkConnectMem (f (Clients m)) (client_heap m) (chan_heap m) (buckets m) (room_heap m) (next_ptr m).
Definition set_client c f m := MkConnectMem (Clients m) (alter f c (client_heap m)) (chan_heap m) (buckets m) (room_heap m) (next_ptr m).
Definition set_chan ch f m := MkConnectMem (Clients m) (client_heap m) (alter f ch (chan_heap m)) (buckets m) (room_heap m) (next_ptr m).
Definition set_bucket i f m := MkConnectMem (Clients m) (client_heap m) (chan_heap m) (alter f i (buckets m)) (room_heap m) (next_ptr m).
Definition set_room r f m := MkConnectMem (Clients m) (client_heap m) (chan_heap m) (buckets m) (alter f r (room_heap m)) (next_ptr m).

(** [NewRoom()]: a pointer nobody has. *)
Definition alloc_room m : nat * ConnectMem :=
  (next_ptr m, MkConnectMem (Clients m) (client_heap m) (chan_heap m) (buckets m)
     (<[next_ptr m := NewRoom]> (room_heap m)) (S (next_ptr m))).

(** [&Client{UserID: userID, ..., Send: make(chan []byte, 256), ...}] *)
Definition alloc_client (userID : Z) m : nat * ConnectMem :=
  let p := next_ptr m in
  (p, MkConnectMem (Clients m) (<[p := MkClient userID p ∅ false 0 false]> (client_heap m))
        (<[p := []]> (chan_heap m)) (buckets m) (room_heap m) (S p)).

(** A non-blocking send, [select { case ch <- payload: ... default: }]: no
    goroutine ever closes a send channel, and a waiting receiver means that the
    buffer is empty, so the send takes place exactly when the buffer has room. *)
Definition chan_ready (ch : chan) m : bool :=
  match chan_heap m !! ch with
  | Some buf => Nat.ltb (length buf) sendCap
  | None => false
  end.

Definition chan_offer (ch : chan) (payload : string) m : bool * ConnectMem :=
  if chan_ready ch m then (true, set_chan ch (fun buf => buf ++ [payload])%list m) else (false, m).

(** A node at start-up with [bucketNum] buckets ([NewRoomManager]). *)
Definition defaultBucketNum : Z := 64.

Definition NewRoomManager (bucketNum : Z) : list (gmap Z nat) :=
  replicate (Z.to_nat (if bucketNum <=? 0 then defaultBucketNum else bucketNum)) ∅.

Definition node_start : ConnectMem :=
  MkConnectMem ∅ ∅ ∅ (NewRoomManager defaultBucketNum) ∅ 0.
