(* ===== verification/RoomManager.v ===== *)
(** * Rooms by bucket (src/internal/connect/room_manager.go)

    Each critical section is one atomic access to the node's memory: JoinRoom is
    one section (it holds the bucket's lock throughout), LeaveRoom is up to
    three, BroadcastRoom reads the bucket, then the room, then offers the
    payload to each channel without a lock. *)

From Stdlib Require Import ZArith Lia String.
From stdpp Require Import base tactics list gmap strings.
From S2P Require Import Prelude Effects Redis Database Proto World Room ConnectMem.

Local Open Scope Z_scope.

(** farm.Hash32 (github.com/dgryski/go-farm): a hash of bytes, 32 bits wide. *)
Class Farm := {
  Hash32 : list Z -> Z;
  Hash32_range b : 0 <= Hash32 b < 2 ^ 32 }.

(** [binary.LittleEndian.PutUint64(b[:], v)] *)
Definition PutUint64 (v : Z) : list Z :=
  (fun i => Z.land (Z.shiftr v (8 * Z.of_nat i)) 255) <$> seq 0 8.

Section room_manager.
Context `{Farm}.

Definition bucketByRoomID (nbuckets : nat) (roomID : Z) : nat :=
  Z.to_nat (Hash32 (PutUint64 (wrap_u64 roomID)) mod (Z.of_nat nbuckets mod 2 ^ 32)).

(** [b.rooms[roomID]] *)
Definition room_ptr (roomID : Z) (m : ConnectMem) : option nat :=
  b ← buckets m !! bucketByRoomID (length (buckets m)) roomID; b !! roomID.

Definition set_room_ptr (f : gmap Z nat -> gmap Z nat) (roomID : Z) (m : ConnectMem) : ConnectMem :=
  set_bucket (bucketByRoomID (length (buckets m)) roomID) f m.

(** The section of JoinRoom. *)
Definition join_section (roomID userID : Z) (ch : chan) (m : ConnectMem) : unit * ConnectMem :=
  match room_ptr roomID m with
  | Some r => (tt, set_room r (Join userID ch) m)
  | None =>
      let '(r, m1) := alloc_room m in
      let m2 := set_room_ptr (fun rooms => <[roomID := r]> rooms) roomID m1 in
      (tt, set_room r (Join userID ch) m2)
  end.

Definition JoinRoom (roomID userID : Z) (ch : chan) : prog (ev ConnectMem) unit :=
  call (Mem (join_section roomID userID ch)).

(** [r.Leave(userID, send)], under the lock of the room. *)
Definition leave_section (r : nat) (userID : Z) (expectSend : option chan) (m : ConnectMem) : bool * ConnectMem :=
  match room_heap m !! r with
  | Some room => let '(empty, room') := Leave userID expectSend room in (empty, set_room r (fun _ => room') m)
  | None => (false, m)
  end.

(** The second check of LeaveRoom, under the lock of the bucket. *)
Definition collect_section (roomID : Z) (r : nat) (m : ConnectMem) : unit * ConnectMem :=
  match room_ptr roomID m with
  | None => (tt, m)
  | Some r2 =>
      if negb (Nat.eqb r2 r) then (tt, m)
      else if match room_heap m !! r2 with Some room => isEmpty room | None => false end
      then (tt, set_room_ptr (delete roomID) roomID m)
      else (tt, m)
  end.

Definition LeaveRoom (roomID userID : Z) (ch : option chan) : prog (ev ConnectMem) unit :=
  o <- call (Mem (fun m => (room_ptr roomID m, m))) ;;
  match o with
  | None => Ret tt
  | Some r =>
      empty <- call (Mem (leave_section r userID ch)) ;;
      if negb empty then Ret tt
      else call (Mem (collect_section roomID r))
  end.

(** The loop of Broadcast over the collected channels; [sent] counts. *)
Fixpoint offer_all (targets : list chan) (payload : string) (sent : Z) : prog (ev ConnectMem) Z :=
  match targets with
  | [] => Ret sent
  | ch :: rest =>
      ok <- call (Mem (chan_offer ch payload)) ;;
      offer_all rest payload (if ok : bool then sent + 1 else sent)
  end.

Definition Broadcast (r : nat) (fromUserID : Z) (payload : string) : prog (ev ConnectMem) Z :=
  targets <- call (Mem (fun m =>
    (match room_heap m !! r with Some room => broadcast_targets fromUserID room | None => [] end, m))) ;;
  offer_all targets payload 0.

Definition BroadcastRoom (roomID fromUserID : Z) (payload : string) : prog (ev ConnectMem) Z :=
  o <- call (Mem (fun m => (room_ptr roomID m, m))) ;;
  match o with
  | None => Ret 0
  | Some r => Broadcast r fromUserID payload
  end.
End room_manager.
