(* ===== verification/RoomSpec.v ===== *)
(** * What rooms guarantee

    A room is an ordered map; a room manager is a map from room to such maps,
    whatever the bucket count and the hash, and whatever the interleaving of
    joins, leaves, collections of empty rooms and broadcasts. *)

From Stdlib Require Import ZArith Lia String.
From stdpp Require Import base tactics list gmap strings.
From S2P Require Import Prelude Effects Redis Database Proto World Rules RefWorld Room ConnectMem RoomManager.

Local Open Scope Z_scope.

(** ** The invariant of the room heap *)
Section heap.
Context `{HF : Farm}.

Record rooms_ok (m : ConnectMem) : Prop := {
  ro_buckets : 0 < Z.of_nat (length (buckets m)) < 2 ^ 32;
  ro_ptr : forall a r, room_ptr a m = Some r -> is_Some (room_heap m !! r);
  ro_inj : forall a b r, room_ptr a m = Some r -> room_ptr b m = Some r -> a = b;
  ro_wf : forall r room, room_heap m !! r = Some room -> room_wf room;
  ro_orphan : forall r room, room_heap m !! r = Some room ->
    (forall a, room_ptr a m <> Some r) -> room_abs room = [];
  ro_fresh : forall r, is_Some (room_heap m !! r) -> (r < next_ptr m)%nat }.

(** The members of a room and their channels, in order of arrival. *)
Definition room_view (a : Z) (m : ConnectMem) : list (Z * chan) :=
  match r ← room_ptr a m; room_heap m !! r with Some room => room_abs room | None => [] end.

Lemma bucket_range n a : 0 < Z.of_nat n < 2 ^ 32 -> (bucketByRoomID n a < n)%nat.
Proof.
  intros Hn. unfold bucketByRoomID. rewrite (Z.mod_small (Z.of_nat n)) by lia.
  pose proof (Z.mod_pos_bound (Hash32 (PutUint64 (wrap_u64 a))) (Z.of_nat n) ltac:(lia)). lia.
Qed.

Lemma bucket_of a m : rooms_ok m ->
  exists b, buckets m !! bucketByRoomID (length (buckets m)) a = Some b.
Proof. intros Ho. apply lookup_lt_is_Some, bucket_range, (ro_buckets _ Ho). Qed.

(** Writing the entry of room [a] changes the entry of no other room. *)
Lemma room_ptr_set f a m a' o :
  rooms_ok m -> (forall b : gmap Z nat, f b !! a = o) -> (forall (b : gmap Z nat) a', a' <> a -> f b !! a' = b !! a') ->
  room_ptr a' (set_room_ptr f a m) = if decide (a' = a) then o else room_ptr a' m.
Proof.
  intros Ho Ha Hne. unfold room_ptr, set_room_ptr. cbn. rewrite length_alter.
  set (n := length (buckets m)). destruct (bucket_of a m Ho) as [b Hb]. fold n in Hb.
  destruct (decide (bucketByRoomID n a = bucketByRoomID n a')) as [Heq|Hneq].
  - rewrite <- Heq, list_lookup_alter_eq, Hb. cbn. case_decide as Hd; [subst; apply Ha|by apply Hne].
  - rewrite list_lookup_alter_ne by done. rewrite decide_False by congruence. done.
Qed.

Lemma room_ptr_insert a r m a' : rooms_ok m ->
  room_ptr a' (set_room_ptr (fun rooms => <[a := r]> rooms) a m) = if decide (a' = a) then Some r else room_ptr a' m.
Proof. intros Ho. apply room_ptr_set; [done|intros; apply lookup_insert_eq|intros; by apply lookup_insert_ne]. Qed.

Lemma room_ptr_delete a m a' : rooms_ok m ->
  room_ptr a' (set_room_ptr (delete a) a m) = if decide (a' = a) then None else room_ptr a' m.
Proof. intros Ho. apply room_ptr_set; [done|intros; apply lookup_delete_eq|intros; by apply lookup_delete_ne]. Qed.

(** Updating a room in place. *)
Lemma set_room_ok r f m :
  rooms_ok m -> (forall room, room_wf room -> room_wf (f room)) ->
  ((forall a, room_ptr a m <> Some r) -> forall room, room_abs room = [] -> room_wf room -> room_abs (f room) = []) ->
  rooms_ok (set_room r f m).
Proof.
  intros [H1 H2 H3 H4 H5 H6] Hf Hab. split; cbn; [done| |exact H3|..].
  - intros a r' Hr. destruct (H2 _ _ Hr) as [room Hroom]. destruct (decide (r = r')) as [<-|].
    + rewrite lookup_alter_eq, Hroom. by eexists.
    + rewrite lookup_alter_ne by done. by eexists.
  - intros r' room [(-> & x & Hx & ->)|(? & Hx)]%lookup_alter_Some; eauto.
  - intros r' room [(-> & x & Hx & ->)|(? & Hx)]%lookup_alter_Some Hno; eauto.
  - intros r' [room [(-> & x & Hx & ->)|(? & Hx)]%lookup_alter_Some]; eauto.
Qed.

Lemma set_room_view r f m a :
  rooms_ok m ->
  room_view a (set_room r f m)
  = if decide (room_ptr a m = Some r)
    then match room_heap m !! r with Some room => room_abs (f room) | None => [] end
    else room_view a m.
Proof.
  intros Ho. unfold room_view. change (room_ptr a (set_room r f m)) with (room_ptr a m).
  destruct (room_ptr a m) as [r'|] eqn:Hr; [|by rewrite decide_False]. cbn.
  case_decide as Hd; simplify_eq.
  - rewrite lookup_alter_eq. by destruct (room_heap m !! r).
  - by rewrite lookup_alter_ne by congruence.
Qed.

Lemma view_ptr a r room m : room_ptr a m = Some r -> room_heap m !! r = Some room -> room_view a m = room_abs room.
Proof. intros Hr Hroom. unfold room_view. by rewrite Hr; cbn; rewrite Hroom. Qed.

(** ** The sections against the abstract map *)

Lemma alloc_room_ok m : rooms_ok m -> rooms_ok (alloc_room m).2.
Proof.
  intros [H1 H2 H3 H4 H5 H6]. split; cbn; [done|intros b r Hr|exact H3|intros r room Hr|intros r room Hr Hno|intros r [x Hr]].
  - destruct (H2 _ _ Hr). destruct (decide (next_ptr m = r)) as [<-|]; [rewrite lookup_insert_eq|rewrite lookup_insert_ne by done]; by eexists.
  - apply lookup_insert_Some in Hr as [[<- <-]|[_ Hr]]; [apply new_room_wf|eauto].
  - apply lookup_insert_Some in Hr as [[<- <-]|[_ Hr]]; [done|eauto].
  - apply lookup_insert_Some in Hr as [[<- <-]|[_ Hr]]; [lia|]. assert (r < next_ptr m)%nat by eauto. lia.
Qed.

Lemma alloc_insert_ok a m : rooms_ok m -> room_ptr a m = None ->
  let m2 := set_room_ptr (fun rooms => <[a := next_ptr m]> rooms) a (alloc_room m).2 in
  rooms_ok m2 /\ room_ptr a m2 = Some (next_ptr m) /\ forall a', room_view a' m2 = room_view a' m.
Proof.
  intros Ho Ha m2. pose proof (alloc_room_ok m Ho) as Ho1.
  assert (forall a', room_ptr a' m2 = if decide (a' = a) then Some (next_ptr m) else room_ptr a' m) as Hptr
    by (intros a'; exact (room_ptr_insert a (next_ptr m) _ a' Ho1)).
  assert (forall b, room_ptr b m <> Some (next_ptr m)) as Hfresh.
  { intros b Hb. pose proof (ro_fresh _ Ho _ (ro_ptr _ Ho _ _ Hb)). lia. }
  split_and!.
  - pose proof Ho1 as [H1 H2 H3 H4 H5 H6]. split; [cbn; by rewrite length_alter|..].
    + intros b r. rewrite Hptr. case_decide; [|apply H2]. intros [= <-]. cbn. rewrite lookup_insert_eq. by eexists.
    + intros b c r. rewrite !Hptr. repeat case_decide; intros Hb Hc; subst; [done|by injection Hb as <-; apply Hfresh in Hc|by injection Hc as <-; apply Hfresh in Hb|by eapply H3].
    + intros r room Hr. by apply (H4 r room).
    + intros r room Hr Hno. apply (H5 r room Hr). intros b Hb. apply (Hno b). rewrite Hptr.
      case_decide; [subst|done]. change (room_ptr a (alloc_room m).2) with (room_ptr a m) in Hb. congruence.
    + exact H6.
  - rewrite Hptr. by rewrite decide_True.
  - intros a'. unfold room_view. rewrite Hptr. case_decide as Hd.
    + subst. rewrite Ha. cbn. by rewrite lookup_insert_eq.
    + destruct (room_ptr a' m) as [r|] eqn:Hr; [|done]. cbn.
      rewrite lookup_insert_ne; [done|]. intros <-. by eapply Hfresh.
Qed.

Lemma join_section_ok a u ch m : rooms_ok m ->
  rooms_ok (join_section a u ch m).2
  /\ forall a', room_view a' (join_section a u ch m).2
      = if decide (a' = a) then abs_join u ch (room_view a m) else room_view a' m.
Proof.
  intros Ho. unfold join_section.
  assert (forall r m1, rooms_ok m1 -> room_ptr a m1 = Some r -> rooms_ok (set_room r (Join u ch) m1)
    /\ forall a', room_view a' (set_room r (Join u ch) m1)
        = if decide (a' = a) then abs_join u ch (room_view a m1) else room_view a' m1) as Hjoin.
  { intros r m1 Ho1 Hr. split.
    - apply set_room_ok; [done|intros; by apply join_wf|]. intros Hno. by apply Hno in Hr.
    - intros a'. rewrite set_room_view by done. destruct (ro_ptr _ Ho1 _ _ Hr) as [room Hroom].
      destruct (decide (a' = a)) as [->|Hne].
      + rewrite decide_True, Hroom by done. rewrite (view_ptr a r room) by done. apply join_abs. by eapply ro_wf.
      + rewrite decide_False; [done|]. intros Hr'. apply Hne. by eapply ro_inj. }
  destruct (room_ptr a m) as [r|] eqn:Hr; [by apply Hjoin|].
  destruct (alloc_insert_ok a m Ho Hr) as (Ho2 & Hp2 & Hv2).
  destruct (Hjoin _ _ Ho2 Hp2) as [Ho3 Hv3]. cbn [alloc_room] in *.
  split; [done|]. intros a'. rewrite Hv3, !Hv2. done.
Qed.

Lemma abs_leave_nil u ex : abs_leave u ex [] = [].
Proof. done. Qed.

(** Leave on the pointer [r]: the room it belongs to, if it still belongs to
    one, loses the user. *)
Lemma leave_section_ok r u ex m : rooms_ok m ->
  rooms_ok (leave_section r u ex m).2
  /\ forall a, room_view a (leave_section r u ex m).2
      = if decide (room_ptr a m = Some r) then abs_leave u ex (room_view a m) else room_view a m.
Proof.
  intros Ho. unfold leave_section. destruct (room_heap m !! r) as [room|] eqn:Hroom.
  2:{ split; [done|]. intros a. rewrite decide_False; [done|]. intros Hr.
      destruct (ro_ptr _ Ho _ _ Hr) as [? ?]. congruence. }
  pose proof (ro_wf _ Ho _ _ Hroom) as Hwf. pose proof (leave_wf room Hwf u ex) as Hwf'.
  pose proof (leave_abs room Hwf u ex) as Habs. destruct (Leave u ex room) as [b room']. cbn in *. split.
  - apply set_room_ok; [done|done|]. intros Hno _ _ _. rewrite Habs, (ro_orphan _ Ho r room Hroom Hno). done.
  - intros a. rewrite set_room_view, Hroom by done. case_decide as Hr; [|done].
    by rewrite (view_ptr a r room).
Qed.

(** Collecting an empty room loses nobody. *)
Lemma collect_section_ok a r m : rooms_ok m ->
  rooms_ok (collect_section a r m).2
  /\ forall a', room_view a' (collect_section a r m).2 = room_view a' m.
Proof.
  intros Ho. unfold collect_section. destruct (room_ptr a m) as [r2|] eqn:Hr; [|done].
  destruct (Nat.eqb_spec r2 r) as [->|]; [|done]. cbn. destruct (room_heap m !! r) as [room|] eqn:Hroom; [|done].
  destruct (isEmpty room) eqn:He; [|done]. rewrite isEmpty_abs in He by (by eapply ro_wf).
  apply bool_decide_eq_true in He. cbn.
  pose proof (room_ptr_delete a m) as Hptr. split.
  - pose proof Ho as [H1 H2 H3 H4 H5 H6]. split; [cbn; by rewrite length_alter|..].
    + intros b r'. rewrite Hptr by done. case_decide; [done|]. apply H2.
    + intros b c r'. rewrite !Hptr by done. repeat case_decide; try done. apply H3.
    + exact H4.
    + intros r' room' Hr' Hno. destruct (decide (r' = r)) as [->|Hne]; [cbn in Hr'; congruence|].
      apply (H5 r' room' Hr'). intros b Hb. apply (Hno b). rewrite Hptr by done. case_decide; congruence.
    + exact H6.
  - intros a'. unfold room_view. rewrite Hptr by done. case_decide as Hd; [|done].
    subst. rewrite Hr. cbn. by rewrite Hroom.
Qed.

Lemma node_rooms_ok : rooms_ok node_start.
Proof.
  assert (forall a, room_ptr a node_start = None) as Hn.
  { intros a. unfold room_ptr. destruct (buckets node_start !! _) as [b|] eqn:Hb; [|done]. cbn.
    apply lookup_replicate in Hb as [-> _]. apply lookup_empty. }
  split.
  - by vm_compute.
  - intros a r. by rewrite Hn.
  - intros a b r. by rewrite Hn.
  - cbn. intros r room Hr. by rewrite lookup_empty in Hr.
  - cbn. intros r room Hr. by rewrite lookup_empty in Hr.
  - cbn. intros r [? Hr]. by rewrite lookup_empty in Hr.
Qed.
End heap.

(** ** Interleavings

    The ghost state remembers the room each room pointer was allocated for: a
    goroutine that read a pointer may use it after the room was collected. *)
Section concurrent.
Context `{HF : Farm}.

(** The rooms are well-formed, and every room satisfies [P]. *)
Definition rooms_J (P : Z -> list (Z * chan) -> Prop) (g : gmap nat Z) (m : ConnectMem) : Prop :=
  rooms_ok m /\ (forall a r, room_ptr a m = Some r -> g !! r = Some a)
  /\ (forall r, is_Some (g !! r) -> (r < next_ptr m)%nat) /\ (forall a, P a (room_view a m)).

Lemma join_ghost P g a u ch m :
  (forall l, P a l -> P a (abs_join u ch l)) -> rooms_J P g m ->
  exists g', g ⊆ g' /\ rooms_J P g' (join_section a u ch m).2.
Proof.
  intros HP (Ho & Hg & Hn & Hall). destruct (join_section_ok a u ch m Ho) as [Ho' Hv].
  assert (forall a', P a' (room_view a' (join_section a u ch m).2)) as Hall'.
  { intros a'. rewrite Hv. case_decide; [subst; auto|done]. }
  unfold rooms_J. unfold join_section in *. destruct (room_ptr a m) as [r|] eqn:Hr; [by exists g|].
  cbn [alloc_room] in *. assert (g !! next_ptr m = None) as Hnone.
  { destruct (g !! next_ptr m) as [x|] eqn:Hx; [|done]. assert (next_ptr m < next_ptr m)%nat by (apply Hn; by eexists). lia. }
  exists (<[next_ptr m := a]> g). split; [by apply insert_subseteq|]. split; [done|]. split_and!; [| |done].
  - intros a' r Hr'. assert (room_ptr a' (set_room_ptr (fun rooms => <[a := next_ptr m]> rooms) a (alloc_room m).2) = Some r) as Hr2 by exact Hr'.
    rewrite room_ptr_insert in Hr2 by (by apply alloc_room_ok). case_decide as Hd.
    + subst. injection Hr2 as <-. apply lookup_insert_eq.
    + specialize (Hg _ _ Hr2). rewrite lookup_insert_ne; [done|]. congruence.
  - cbn. intros r [x [[<- _]|[_ Hx]]%lookup_insert_Some]; [lia|].
    assert (r < next_ptr m)%nat by (apply Hn; by eexists). lia.
Qed.

Lemma leave_ghost P g a u ex r m :
  (forall l, P a l -> P a (abs_leave u ex l)) -> g !! r = Some a -> rooms_J P g m ->
  rooms_J P g (leave_section r u ex m).2.
Proof.
  intros HP Hra (Ho & Hg & Hn & Hall). destruct (leave_section_ok r u ex m Ho) as [Ho' Hv]. split_and!.
  - done.
  - intros a' r'. unfold leave_section. destruct (room_heap m !! r) as [room|]; [|apply Hg].
    destruct (Leave u ex room). apply Hg.
  - intros r'. unfold leave_section. destruct (room_heap m !! r) as [room|]; [|apply Hn].
    destruct (Leave u ex room). apply Hn.
  - intros a'. rewrite Hv. case_decide as Hd; [|done]. apply Hg in Hd. assert (a' = a) as -> by congruence. auto.
Qed.

Lemma collect_ghost P g a r m : rooms_J P g m -> rooms_J P g (collect_section a r m).2.
Proof.
  intros (Ho & Hg & Hn & Hall). destruct (collect_section_ok a r m Ho) as [Ho' Hv]. split_and!.
  - done.
  - intros a' r'. unfold collect_section. destruct (room_ptr a m) as [r2|] eqn:Hr; [|apply Hg].
    destruct (negb _); [apply Hg|]. destruct (match room_heap m !! r2 with Some room => _ | None => _ end); [|apply Hg].
    cbn. rewrite room_ptr_delete by done. case_decide; [done|apply Hg].
  - intros r'. unfold collect_section. repeat case_match; apply Hn.
  - intros a'. rewrite Hv. done.
Qed.

(** Offering a payload to a channel does not touch the rooms. *)
Lemma offer_ghost P g ch payload m : rooms_J P g m -> rooms_J P g (chan_offer ch payload m).2.
Proof. intros (Ho & HJ). unfold chan_offer. destruct (chan_ready ch m); [|by split]. by split; [destruct Ho|]. Qed.

End concurrent.

(** The channels a broadcast in room [a] offers its payload to are those of
    members of the room. *)
Lemma targets_view `{Farm} a r room from m :
  rooms_ok m -> room_heap m !! r = Some room -> (forall b, room_ptr b m = Some r -> b = a) ->
  forall ch, ch ∈ broadcast_targets from room -> exists u, (u, ch) ∈ room_view a m.
Proof.
  intros Ho Hroom Hown ch Hch. rewrite targets_abs in Hch by (by eapply ro_wf).
  apply list_elem_of_fmap in Hch as ([u ch'] & -> & [_ Hin]%list_elem_of_filter). exists u. cbn.
  destruct (decide (room_ptr a m = Some r)) as [Hr|Hr]; [by rewrite (view_ptr a r room m)|].
  rewrite (ro_orphan _ Ho r room Hroom) in Hin; [by apply not_elem_of_nil in Hin|].
  intros b Hb. apply Hr. by rewrite <- (Hown b Hb).
Qed.

(** What an invariant [J] of the node's memory, indexed by a growing ghost
    state, has to offer for the room operations to run under it: the room every
    pointer belongs to is known for good, and collecting rooms and offering
    payloads to channels that may get them keep [J]. *)
Class RoomInv `{Farm} {G} (le : relation G) (J : G -> ConnectMem -> Prop) := {
  room_le :: PreOrder le;
  owner : G -> nat -> Z -> Prop;
  owner_mono g g' r a : le g g' -> owner g r a -> owner g' r a;
  may_get : G -> chan -> string -> Prop;
  may_get_mono g g' ch payload : le g g' -> may_get g ch payload -> may_get g' ch payload;
  inv_owner g m a r : J g m -> room_ptr a m = Some r -> owner g r a;
  inv_collect g m a r : J g m -> J g (collect_section a r m).2;
  inv_offer g m ch payload : may_get g ch payload -> J g m -> J g (chan_offer ch payload m).2 }.

#[export] Instance rooms_J_inv `{Farm} P : RoomInv (⊆) (rooms_J P).
Proof.
  refine {| owner := fun (g : gmap nat Z) r a => g !! r = Some a; may_get := fun _ _ _ => True |}.
  - intros g g' r a Hle Hr. by eapply lookup_weaken.
  - done.
  - intros g m a r (_ & Hg & _). apply Hg.
  - intros g m a r. apply collect_ghost.
  - intros g m ch payload _. apply offer_ghost.
Defined.

Section interleaved.
Context `{HC : Crypto} `{HF : Farm} (fl : bool) {G : Type} {le : relation G}
  {J : G -> ConnectMem -> Prop} `{HI : !RoomInv le J} (K : G -> sysview ConnectMem -> Prop).
Hypothesis K_still : forall g v m t, v_now v <= t -> K g v -> K g (set_mem m (tick t v)).
Abbreviation rgr := (rg (ext fl) le (amb_I J K)).

Lemma rg_JoinRoom g a u ch :
  (forall g1 m, le g g1 -> J g1 m -> exists g2, le g1 g2 /\ (forall v, K g1 v -> K g2 v) /\ J g2 (join_section a u ch m).2) ->
  rgr g (JoinRoom a u ch) (fun _ _ => True).
Proof using K_still.
  intros HJ. apply (rga_mem _ _ J K K_still). intros g1 m Hle HJm.
  destruct (HJ g1 m Hle HJm) as (g2 & Hg & HK & HJ2). by exists g2.
Qed.

Lemma rg_LeaveRoom g a u ex :
  (forall g1 r m, le g g1 -> owner g1 r a -> J g1 m -> J g1 (leave_section r u ex m).2) ->
  rgr g (LeaveRoom a u ex) (fun _ _ => True).
Proof using K_still.
  intros Hleave. unfold LeaveRoom. cbn [bind call]. apply (rga_read _ _ J K K_still). intros g1 m Hle HJ.
  destruct (room_ptr a m) as [r|] eqn:Hr; [|done]. pose proof (inv_owner _ _ _ _ HJ Hr) as Hra.
  cbn [bind]. apply (rga_access _ _ J K K_still). intros g2 m2 Hle2 HJ2.
  split; [apply Hleave; [by transitivity g1|by eapply owner_mono|done]|].
  destruct (leave_section r u ex m2).1; [|done]. cbn [negb].
  apply (rga_access _ _ J K K_still). intros g3 m3 Hle3 HJ3. split; [by apply inv_collect|done].
Qed.

Lemma rg_offer_all g targets payload n :
  Forall (fun ch => may_get g ch payload) targets -> rgr g (offer_all targets payload n) (fun _ _ => True).
Proof using K_still.
  revert g n. induction targets as [|ch rest IH]; intros g n Hall; [done|]. apply Forall_cons in Hall as [Hch Hall].
  cbn [offer_all bind call]. apply (rga_access _ _ J K K_still). intros g1 m Hle HJ.
  split; [by apply inv_offer; [eapply may_get_mono|]|]. apply IH. eapply Forall_impl; [exact Hall|].
  intros c. by apply may_get_mono.
Qed.

Lemma rg_BroadcastRoom g a from payload :
  (forall g1 r room m ch, le g g1 -> owner g1 r a -> J g1 m -> room_heap m !! r = Some room ->
     ch ∈ broadcast_targets from room -> may_get g1 ch payload) ->
  rgr g (BroadcastRoom a from payload) (fun _ _ => True).
Proof using K_still.
  intros Hget. unfold BroadcastRoom. cbn [bind call]. apply (rga_read _ _ J K K_still). intros g1 m Hle HJ.
  destruct (room_ptr a m) as [r|] eqn:Hr; [|done]. pose proof (inv_owner _ _ _ _ HJ Hr) as Hra.
  unfold Broadcast. cbn [bind call]. apply (rga_read _ _ J K K_still). intros g2 m2 Hle2 HJ2. apply rg_offer_all.
  destruct (room_heap m2 !! r) as [room|] eqn:Hroom; [|constructor]. apply Forall_forall. intros ch Hch.
  eapply (Hget g2 r room m2); [by transitivity g1|by eapply owner_mono|done..].
Qed.
End interleaved.

(** ** What a broadcast does, without interference *)
Section broadcast.
Context `{HC : Crypto} `{HF : Farm} (fl : bool).

(** Only channel contents differ. *)
Definition chans_only (m m' : ConnectMem) : Prop :=
  Clients m' = Clients m /\ client_heap m' = client_heap m /\ buckets m' = buckets m
  /\ room_heap m' = room_heap m /\ next_ptr m' = next_ptr m.

(** Every channel of [targets] with room got [payload], the others nothing. *)
Definition delivered (targets : list chan) (payload : string) (m m' : ConnectMem) : Prop :=
  chans_only m m' /\ forall ch, chan_heap m' !! ch
    = if decide (ch ∈ targets /\ chan_ready ch m = true)
      then (fun buf => buf ++ [payload])%list <$> chan_heap m !! ch else chan_heap m !! ch.

Lemma wp_offer_all targets payload n v :
  NoDup targets ->
  wp (ext fl) (offer_all targets payload n) v (fun n' v' =>
    n' = n + Z.of_nat (length (filter (fun ch => chan_ready ch (v_mem v) = true) targets))
    /\ delivered targets payload (v_mem v) (v_mem v')).
Proof.
  revert n v. induction targets as [|ch rest IH]; intros n v Hnd.
  { cbn. split; [lia|]. split; [done|]. intros ch. rewrite decide_False; [done|]. set_solver. }
  apply NoDup_cons in Hnd as [Hch Hnd]. cbn [offer_all bind call]. apply wp_mem. intros t Ht.
  eapply wp_mono; [by apply IH|]. intros n' v' [Hn [Hc Hd]]. cbn [v_mem set_mem tick] in *.
  assert (forall c, c <> ch -> chan_heap (chan_offer ch payload (v_mem v)).2 !! c = chan_heap (v_mem v) !! c) as Hother.
  { intros c Hc'. unfold chan_offer. destruct (chan_ready ch (v_mem v)); [|done]. cbn. by rewrite lookup_alter_ne. }
  assert (forall c, c <> ch -> chan_ready c (chan_offer ch payload (v_mem v)).2 = chan_ready c (v_mem v)) as Hready.
  { intros c Hc'. unfold chan_ready. by rewrite Hother. }
  rewrite filter_cons. split; [|split].
  - rewrite Hn. rewrite (filter_ext_in _ (fun c => chan_ready c (v_mem v) = true) rest).
    + unfold chan_offer. destruct (chan_ready ch (v_mem v)) eqn:Hr; cbn [fst];
        [rewrite decide_True by done; cbn [length]; lia|by rewrite decide_False].
    + intros c Hc'. rewrite Hready; [done|]. by intros ->.
  - unfold chan_offer in Hc. by destruct (chan_ready ch (v_mem v)).
  - intros c. rewrite Hd. destruct (decide (c = ch)) as [->|Hne].
    + rewrite decide_False by tauto. unfold chan_offer. destruct (chan_ready ch (v_mem v)) eqn:Hr.
      * rewrite decide_True by (split; [constructor|done]). cbn. by rewrite lookup_alter_eq.
      * rewrite decide_False by naive_solver. done.
    + rewrite Hother, Hready by done. apply decide_ext. rewrite elem_of_cons. naive_solver.
Qed.
End broadcast.

(** ** Requests *)

Inductive room_op :=
| OpJoin (roomID userID : Z) (ch : chan)
| OpLeave (roomID userID : Z) (ch : option chan)
| OpBroadcast (roomID fromUserID : Z) (payload : string).

Definition room_prog `{Farm} (op : room_op) : prog (ev ConnectMem) unit :=
  match op with
  | OpJoin a u ch => JoinRoom a u ch
  | OpLeave a u ex => LeaveRoom a u ex
  | OpBroadcast a from payload => n <- BroadcastRoom a from payload ;; Ret tt
  end.

(** The operations that may take channel [ch] of user [u] out of room [a]. *)
Definition displaces (a u : Z) (ch : chan) (op : room_op) : bool :=
  match op with
  | OpJoin a' u' ch' => bool_decide (a' = a /\ u' = u /\ ch' <> ch)
  | OpLeave a' u' ex => bool_decide (a' = a /\ u' = u /\ (ex = None \/ ex = Some ch))
  | OpBroadcast _ _ _ => false
  end.

(** Any number of operations of a set [allowed], interleaved event by event. *)
Definition rooms_run `{Crypto} `{Farm} (fl : bool) (allowed : room_op -> Prop) :=
  pool_reachable (ext fl) (@env ConnectMem) (fun p => exists op, allowed op /\ p = room_prog op).

Section requests.
Context `{HC : Crypto} `{HF : Farm} (fl : bool).

(** The operation keeps [P] true of the room it is about. *)
Definition op_keeps (P : Z -> list (Z * chan) -> Prop) (op : room_op) : Prop :=
  match op with
  | OpJoin a u ch => forall l, P a l -> P a (abs_join u ch l)
  | OpLeave a u ex => forall l, P a l -> P a (abs_leave u ex l)
  | OpBroadcast _ _ _ => True
  end.

Lemma op_keeps_True op : op_keeps (fun _ _ => True) op.
Proof. by destruct op. Qed.

Lemma rg_room_prog P g op :
  op_keeps P op ->
  rg (ext fl) (⊆) (amb_I (rooms_J P) (fun _ _ => True)) g (room_prog op) (fun _ _ => True).
Proof.
  intros HP. destruct op as [a u ch|a u ex|a from payload]; cbn [room_prog].
  - apply (rg_JoinRoom fl (J := rooms_J P)); [done|]. intros g1 m _ HJ.
    destruct (join_ghost P g1 a u ch m) as (g2 & Hg & HJ2); [by apply HP|done|by exists g2].
  - apply (rg_LeaveRoom fl (J := rooms_J P)); [done|]. intros g1 r m _. by apply leave_ghost.
  - apply rg_bind. eapply rg_conseq; [apply _|by apply (rg_BroadcastRoom fl (J := rooms_J P))|done].
Qed.

(** An invariant of every room is kept by operations that keep it. *)
Lemma rooms_run_inv P (allowed : room_op -> Prop) g ps v ps' v' :
  (forall op, allowed op -> op_keeps P op) ->
  rooms_run fl allowed (ps, v) (ps', v') ->
  rooms_J P g (v_mem v) -> Forall finished ps ->
  exists g', rooms_J P g' (v_mem v').
Proof.
  intros HP Hrun HJ Hps.
  destruct (amb_pool fl (⊆) (rooms_J P) (fun _ _ => True) (fun p => exists op, allowed op /\ p = room_prog op) g ps v ps' v')
    as (g' & _ & HJ' & _); [| |done..|by exists g'].
  - intros g0 s s' _ _. by exists g0.
  - intros g0 p (op & Hop & ->). apply rg_room_prog. by apply HP.
Qed.

Lemma node_start_J : rooms_J (fun _ _ => True) ∅ node_start.
Proof.
  split; [apply node_rooms_ok|]. split_and!; [|intros r [x Hx]; by rewrite lookup_empty in Hx|done].
  intros a r Hr. destruct (ro_ptr _ node_rooms_ok _ _ Hr) as [x Hx]. cbn in Hx. by rewrite lookup_empty in Hx.
Qed.

Lemma abs_join_other u ch u' ch' l : (u, ch) ∈ l -> u' <> u \/ ch' = ch -> (u, ch) ∈ abs_join u' ch' l.
Proof.
  intros Hl Hne. unfold abs_join. case_decide as Hd.
  - apply list_elem_of_fmap. exists (u, ch). split; [|done]. cbn. case_decide; [|done]. subst.
    by destruct Hne as [|<-].
  - set_solver.
Qed.

Lemma abs_leave_other u ch u' ex l : (u, ch) ∈ l -> ~ (u' = u /\ (ex = None \/ ex = Some ch)) -> (u, ch) ∈ abs_leave u' ex l.
Proof. intros Hl Hne. apply list_elem_of_filter. split; [|done]. cbn. intros [<- ?]. auto. Qed.
(** ** A user who is in a room

    The second component of the ghost state tells whether the user is there
    already; once it is set, no operation that does not displace the user may
    take the user out. *)
Definition joined_P (a u : Z) (ch : chan) (b : bool) (a' : Z) (l : list (Z * chan)) : Prop := b = true -> a' = a -> (u, ch) ∈ l.
Definition joined_J (a u : Z) (ch : chan) (g : gmap nat Z * bool) : ConnectMem -> Prop := rooms_J (joined_P a u ch g.2) g.1.
Definition joined_le : relation (gmap nat Z * bool) := prod_relation (⊆) (fun b b' : bool => b = true -> b' = true).

#[export] Instance joined_le_pre : PreOrder joined_le.
Proof. split; [by intros [g b]|]. intros g1 g2 g3 [H1 H2] [H3 H4]. split; [by etransitivity|auto]. Qed.

#[export] Instance joined_J_inv a u ch : RoomInv joined_le (joined_J a u ch).
Proof.
  refine {| owner := fun g r a => g.1 !! r = Some a; may_get := fun _ _ _ => True |}.
  - intros g g' r a' [Hle _] Hr. by eapply lookup_weaken.
  - done.
  - intros g m a' r (_ & Hg & _). apply Hg.
  - intros g m a' r. apply collect_ghost.
  - intros g m ch' payload _. apply offer_ghost.
Defined.

Lemma joined_keeps a u ch b op : displaces a u ch op = false -> op_keeps (joined_P a u ch b) op.
Proof.
  intros Hop. destruct op as [a0 u0 ch0|a0 u0 ex|]; [| |done]; cbn in *;
    apply bool_decide_eq_false in Hop; intros l Hl Hb ->; specialize (Hl Hb eq_refl).
  - apply abs_join_other; [done|]. destruct (decide (u0 = u)), (decide (ch0 = ch)); tauto.
  - apply abs_leave_other; [done|]. tauto.
Qed.

Lemma rg_joined a u ch g op : displaces a u ch op = false ->
  rg (ext fl) joined_le (amb_I (joined_J a u ch) (fun _ _ => True)) g (room_prog op) (fun _ _ => True).
Proof.
  intros Hop. pose proof (fun b => joined_keeps a u ch b op Hop) as HP. destruct op as [a0 u0 ch0|a0 u0 ex|a0 from payload]; cbn [room_prog].
  - apply (rg_JoinRoom fl (J := joined_J a u ch)); [done|]. intros [g1 b1] m _ HJ.
    destruct (join_ghost (joined_P a u ch b1) g1 a0 u0 ch0 m) as (g2 & Hg & HJ2); [apply HP|done|by exists (g2, b1)].
  - apply (rg_LeaveRoom fl (J := joined_J a u ch)); [done|]. intros [g1 b1] r m _. apply leave_ghost, HP.
  - apply rg_bind. eapply rg_conseq; [apply _|by apply (rg_BroadcastRoom fl (J := joined_J a u ch))|done].
Qed.

Lemma kept_run a u ch g ps v ps' v' :
  rooms_run fl (fun op => displaces a u ch op = false) (ps, v) (ps', v') -> joined_J a u ch g (v_mem v) ->
  Forall (fun p => rg (ext fl) joined_le (amb_I (joined_J a u ch) (fun _ _ => True)) g p (fun _ _ => True)) ps ->
  exists g', joined_le g g' /\ joined_J a u ch g' (v_mem v')
    /\ Forall (fun p => rg (ext fl) joined_le (amb_I (joined_J a u ch) (fun _ _ => True)) g' p (fun _ _ => True)) ps'.
Proof.
  intros Hrun HJ Hps.
  set (I := amb_I (joined_J a u ch) (fun _ _ => True)) in *.
  assert (forall g0 s s', I g0 s -> env s s' -> exists g', joined_le g0 g' /\ I g' s') as Henv.
  { intros g0 s s' [HJ0 _] He. exists g0. split; [done|]. split; [|done]. apply env_mem in He. by rewrite He. }
  assert (forall g0 p, (exists op, displaces a u ch op = false /\ p = room_prog op) -> rg (ext fl) joined_le I g0 p (fun _ _ => True)) as Hreq.
  { intros g0 p (op & Hop & ->). by apply rg_joined. }
  destruct (pool_invariant (ext fl) env joined_le I _ Henv Hreq _ _ _ _ g Hrun) as (g' & Hle & [HJ' _] & Hps'); [by split|done|by exists g'].
Qed.

Lemma joined_before a u ch g m : rooms_J (fun _ _ => True) g m -> joined_J a u ch (g, false) m.
Proof. intros (H1 & H2 & H3 & _). by split_and!. Qed.

Lemma joined_now a u ch g b m : joined_J a u ch (g, b) m -> (u, ch) ∈ room_view a m -> joined_J a u ch (g, true) m.
Proof. intros (H1 & H2 & H3 & _) Hin. split_and!; [done..|]. by intros a' _ ->. Qed.

End requests.

(** ** Theorems *)
Section theorems.
Context `{HC : Crypto} `{HF : Farm} {fl : bool}.

(** C32. A room implements an ordered map from user to channel: joining adds
    the user at the end or replaces the channel in place, leaving removes the
    user unless another channel was expected, Leave reports emptiness, and a
    broadcast addresses every member but the sender, each once. *)
Theorem room_refines_map r :
  room_wf r ->
  NoDup (room_abs r).*1
  /\ (forall u ch, room_wf (Join u ch r) /\ room_abs (Join u ch r) = abs_join u ch (room_abs r))
  /\ (forall u ex, room_wf (Leave u ex r).2 /\ room_abs (Leave u ex r).2 = abs_leave u ex (room_abs r)
       /\ (Leave u ex r).1 = bool_decide (abs_leave u ex (room_abs r) = []))
  /\ (forall from, broadcast_targets from r = (filter (fun p => p.1 <> from) (room_abs r)).*2).
Proof.
  intros Hwf. split_and!; [by apply abs_nodup| | |intros; by apply targets_abs].
  - intros u ch. split; [by apply join_wf|by apply join_abs].
  - intros u ex. split_and!; [by apply leave_wf|by apply leave_abs|].
    rewrite leave_empty, isEmpty_abs by (by apply leave_wf). by rewrite leave_abs.
Qed.

(** Under every interleaving of joins, leaves and broadcasts on a node,
    the rooms stay well-formed: every bucket entry points to a room, no room
    has two entries, no user is twice in a room, and a room without entry
    (collected) has no member, so that nobody can be lost in it. *)
Theorem rooms_invariant v ps' v' :
  v_mem v = node_start -> rooms_run fl (fun _ => True) ([], v) (ps', v') ->
  rooms_ok (v_mem v') /\ forall a, NoDup (room_view a (v_mem v')).*1.
Proof.
  intros Hv Hrun.
  destruct (rooms_run_inv fl (fun _ _ => True) _ ∅ _ _ _ _ (fun op _ => op_keeps_True op) Hrun) as (g' & Ho & _);
    [rewrite Hv; apply node_start_J|constructor|].
  split; [done|]. intros a. unfold room_view. destruct (r ← room_ptr a (v_mem v'); room_heap (v_mem v') !! r) as [room|] eqn:Hr;
    [|constructor]. apply bind_Some in Hr as (r & _ & Hr). apply abs_nodup. by eapply ro_wf.
Qed.

(** C15. A member stays: once a user is in a room with a channel, no
    interleaving of operations that do not move it out takes it out, whatever
    goroutines are under way: in particular not the collection of the room by a
    goroutine that had seen it empty before the user joined, nor the leave of an
    older connection of the same user. *)
Theorem member_kept a u ch v ps0 v0 ps1 v1 ps2 v2 :
  v_mem v = node_start -> rooms_run fl (fun _ => True) ([], v) (ps0, v0) -> Forall finished ps0 ->
  rooms_run fl (fun op => displaces a u ch op = false) (ps0, v0) (ps1, v1) -> (u, ch) ∈ room_view a (v_mem v1) ->
  rooms_run fl (fun op => displaces a u ch op = false) (ps1, v1) (ps2, v2) ->
  (u, ch) ∈ room_view a (v_mem v2).
Proof.
  intros Hv Hrun0 Hps Hrun1 Hin Hrun2.
  destruct (rooms_run_inv fl (fun _ _ => True) _ ∅ _ _ _ _ (fun op _ => op_keeps_True op) Hrun0) as (g & HR);
    [rewrite Hv; apply node_start_J|constructor|].
  destruct (kept_run fl a u ch (g, false) _ _ _ _ Hrun1) as ([g1 b1] & _ & HR1 & Hps1); [by apply joined_before| |].
  { eapply Forall_impl; [exact Hps|]. by intros p [x ->]. }
  destruct (kept_run fl a u ch (g1, true) _ _ _ _ Hrun2) as ([g2 b2] & [_ Hb] & (_ & _ & _ & Hall) & _).
  - by eapply joined_now.
  - eapply Forall_impl; [exact Hps1|]. intros p Hp. eapply rg_later; [apply _| |done|exact Hp]. by split.
  - apply (Hall a); [by apply Hb|done].
Qed.

Lemma wp_BroadcastRoom a from payload v :
  let m := v_mem v in
  let targets := (filter (fun p => p.1 <> from) (room_view a m)).*2 in
  rooms_ok m -> NoDup (room_view a m).*2 ->
  wp (ext fl) (BroadcastRoom a from payload) v (fun n v' => delivered targets payload m (v_mem v')
    /\ n = Z.of_nat (length (filter (fun ch => chan_ready ch m = true) targets))).
Proof.
  intros m targets Ho Hnd. unfold BroadcastRoom. cbn [bind call]. apply wp_mem. intros t Ht.
  assert (NoDup targets) as Hnd'.
  { by apply NoDup_fmap_filter. }
  cbn [fst snd]. destruct (room_ptr a (v_mem v)) as [r|] eqn:Hr.
  - destruct (ro_ptr _ Ho _ _ Hr) as [room Hroom].
    unfold Broadcast. cbn [bind call]. apply wp_mem. intros t1 Ht1. cbn [fst snd v_mem set_mem tick]. fold m. rewrite Hroom.
    rewrite targets_abs by (by eapply ro_wf). rewrite <- (view_ptr a r room m) by done.
    eapply wp_mono; [by apply wp_offer_all|]. intros n' v' [Hn Hd]. split; [done|]. cbn in Hn. rewrite Hn. done.
  - assert (targets = []) as -> by (unfold targets, room_view, m; by rewrite Hr).
    cbn. split; [|done]. split; [done|]. intros c. rewrite decide_False; [done|]. set_solver.
Qed.

(** C31. A broadcast reaches every member of the room but the sender whose
    channel has room, each once, and no other channel; its result is the
    number of channels reached.  (The members' channels are distinct.) *)
Theorem BroadcastRoom_delivers {W : Type} `{HW : !World fl ConnectMem W} a from payload w n w' :
  let m := v_mem (view w) in
  let targets := (filter (fun p => p.1 <> from) (room_view a m)).*2 in
  rooms_ok m -> NoDup (room_view a m).*2 ->
  exec (BroadcastRoom a from payload) w = (n, w') ->
  delivered targets payload m (v_mem (view w'))
  /\ n = Z.of_nat (length (filter (fun ch => chan_ready ch m = true) targets)).
Proof.
  intros m targets Ho Hnd Hrun. by_wp Hrun. by apply wp_BroadcastRoom.
Qed.
End theorems.
