(* ===== verification/Registry.v ===== *)
(** * Who is connected where (src/internal/connect/registry.go)

    The routing table the connect nodes keep in Redis for the task layer:
    [user_server:<user> -> ServerID] and the set [connect_nodes:] of nodes. *)

From Stdlib Require Import ZArith Lia String.
From stdpp Require Import base tactics list gmap strings.
From S2P Require Import Prelude GoStd Effects Redis Database Proto World Store.

Local Open Scope string_scope.
Local Open Scope Z_scope.

Definition UserServerKeyPrefix : string := "user_server:".
Definition ConnectNodesKeyPrefix : string := "connect_nodes:".

(** The Redis client is the environment. *)
Record Registry := { ServerID : string }.

Definition userServerKey (userID : Z) : string := UserServerKeyPrefix ++ FormatInt userID.

Section registry.
Context {M : Type} (r : Registry).

Definition RegisterUser (userID : Z) : prog (ev M) (res unit) :=
  call (Rds (SET (userServerKey userID) (ServerID r) (Some (24 * hour_ms)))).

Definition UnregisterUser (userID : Z) : prog (ev M) (res unit) :=
  try n <- call (Rds (DEL (userServerKey userID))) ;;
  Ret (Ok tt).

Definition RegisterConnectNode : prog (ev M) (res unit) :=
  if String.eqb (ServerID r) "" then Ret (Err (ErrMsg "empty server id"))
  else
    try n <- call (Rds (SADD ConnectNodesKeyPrefix [ServerID r])) ;;
    Ret (Ok tt).

Definition UnregisterConnectNode : prog (ev M) (res unit) :=
  if String.eqb (ServerID r) "" then Ret (Ok tt)
  else
    try n <- call (Rds (SREM ConnectNodesKeyPrefix [ServerID r])) ;;
    Ret (Ok tt).
End registry.

Lemma userServerKey_inj u1 u2 : in_int64 u1 -> in_int64 u2 -> userServerKey u1 = userServerKey u2 -> u1 = u2.
Proof. intros H1 H2 Heq. apply (inj (String.append _)) in Heq. by apply FormatInt_inj. Qed.
