(* ===== verification/Connection.v ===== *)
(** * Connections (src/internal/connect/ws_handler.go, grpcserver.go)

    The clients of a node and their life: ServeWS authenticates, registers and
    starts the two pumps; readPump executes the room commands of the peer and
    cleans up; the gRPC handlers push payloads of the task layer to clients.
    Critical sections and [select] statements are atomic accesses to the memory
    of the node; fields no code writes after the construction of a client
    ([UserID], [Send]) are passed by value.  A goroutine that finds [closeOnce]
    taken goes on at once; in Go it waits for the first to return, which is one
    of the interleavings. *)

From Stdlib Require Import ZArith Lia String.
From stdpp Require Import base tactics list gmap strings.
From S2P Require Import Prelude GoStd Effects Redis Database Proto World Store Room ConnectMem RoomManager.
From S2P Require Import Registry.

Local Open Scope string_scope.
Local Open Scope Z_scope.

(** [maxMessageSize] *)
Definition maxMessageSize : nat := 4096.

Record RoomCmd := { Op : string; RoomID : Z }.

(** encoding/json decoding into a [**RoomCmd]: a command, an error, or a nil
    pointer, which is what the JSON value null decodes to. *)
Class JsonRoomCmd := {
  Unmarshal_RoomCmd : string -> res (option RoomCmd);
  Unmarshal_null : Unmarshal_RoomCmd "null" = Ok None }.

(** ** Closing and sending *)

(** [closeOnce.Do] up to [close(c.done)]: true for the first caller. *)
Definition once_section (c : nat) (m : ConnectMem) : bool * ConnectMem :=
  match client_heap m !! c with
  | Some cl =>
      if c_once cl then (false, m)
      else (true, set_client c (fun cl => MkClient (c_UserID cl) (c_Send cl) (c_rooms cl) true (S (c_closes cl)) (c_ConnClosed cl)) m)
  | None => (false, m)
  end.

(** [c.Conn.Close()] *)
Definition conn_close (c : nat) (m : ConnectMem) : unit * ConnectMem :=
  (tt, set_client c (fun cl => MkClient (c_UserID cl) (c_Send cl) (c_rooms cl) (c_once cl) (c_closes cl) true) m).

Definition closeConn (c : nat) : prog (ev ConnectMem) unit :=
  first <- call (Mem (once_section c)) ;;
  if first : bool then call (Mem (conn_close c)) else Ret tt.

(** Has [c.done] been closed? *)
Definition is_done (c : nat) (m : ConnectMem) : bool :=
  match client_heap m !! c with Some cl => Nat.ltb 0 (c_closes cl) | None => false end.

(** The cases of a [select]; Go takes any that is ready. *)
Inductive select_case := CaseDone | CaseSend | CaseTick.

Definition try_ready (c : nat) (ch : chan) (m : ConnectMem) (k : select_case) : bool :=
  match k with CaseDone => is_done c m | CaseSend => chan_ready ch m | CaseTick => false end.

Definition try_section (c : nat) (ch : chan) (payload : string) (order : list select_case) (m : ConnectMem) : bool * ConnectMem :=
  match List.find (try_ready c ch m) order with
  | Some CaseSend => chan_offer ch payload m
  | _ => (false, m)
  end.

(** [c.trySend(payload)]: done is closed, or there is room, or neither. *)
Definition trySend (c : nat) (ch : chan) (payload : string) : prog (ev ConnectMem) bool :=
  order <- call (Range [CaseDone; CaseSend]) ;;
  call (Mem (try_section c ch payload order)).

(** ** The connection manager *)

Definition add_section (userID : Z) (client : nat) (m : ConnectMem) : option nat * ConnectMem :=
  (Clients m !! userID, set_Clients (fun cs => <[userID := client]> cs) m).

Definition AddClient (userID : Z) (client : nat) : prog (ev ConnectMem) unit :=
  old <- call (Mem (add_section userID client)) ;;
  match old with
  | Some o => if Nat.eqb o client then Ret tt else closeConn o
  | None => Ret tt
  end.

Definition remove_section (userID : Z) (expect : option nat) (m : ConnectMem) : option nat * ConnectMem :=
  match Clients m !! userID with
  | Some cc =>
      if match expect with Some e => negb (Nat.eqb cc e) | None => false end then (None, m)
      else (Some cc, set_Clients (delete userID) m)
  | None => (None, m)
  end.

Definition RemoveClientIfMatch (userID : Z) (expect : option nat) : prog (ev ConnectMem) bool :=
  o <- call (Mem (remove_section userID expect)) ;;
  match o with
  | Some c => closeConn c ;; Ret true
  | None => Ret false
  end.

Definition RemoveClient (userID : Z) : prog (ev ConnectMem) unit :=
  b <- RemoveClientIfMatch userID None ;; Ret tt.

(** ** The gRPC service of the node *)

(** A client pointer and its send channel. *)
Definition find_client (userID : Z) (m : ConnectMem) : option (nat * chan) :=
  c ← Clients m !! userID; cl ← client_heap m !! c; Some (c, c_Send cl).

Definition PushMsg_handler (req : PushMsgRequest) : prog (ev ConnectMem) (res PushMsgReply) :=
  o <- call (Mem (fun m => (find_client (pmr_ToUserId req) m, m))) ;;
  match o with
  | None => Ret (Ok {| pmp_Success := false |})
  | Some (c, ch) =>
      ok <- trySend c ch (pmr_Payload req) ;;
      if negb ok then Ret (Ok {| pmp_Success := false |})
      else Ret (Ok {| pmp_Success := true |})
  end.

(** The loop over the clients found; [fail] counts the refusals. *)
Fixpoint push_all (clients : list (nat * chan)) (payload : string) (fail : nat) : prog (ev ConnectMem) nat :=
  match clients with
  | [] => Ret fail
  | (c, ch) :: rest =>
      ok <- trySend c ch payload ;;
      push_all rest payload (if ok : bool then fail else S fail)
  end.

Definition PushMsgToUsers_handler (req : PushAllRequest) : prog (ev ConnectMem) (res PushMsgReply) :=
  clients <- call (Mem (fun m => (omap (M:=list) (fun u => find_client u m) (par_UserIds req), m))) ;;
  fail <- push_all clients (par_Payload req) 0 ;;
  Ret (Ok {| pmp_Success := Nat.eqb fail 0 |}).

Definition wrap_i32 (z : Z) : Z := (z + 2 ^ 31) mod 2 ^ 32 - 2 ^ 31.

Definition BroadcastRoom_handler `{Farm} (req : BroadcastRoomRequest) : prog (ev ConnectMem) (res BroadcastRoomReply) :=
  fanout <- BroadcastRoom (brr_RoomId req) (brr_FromUserId req) (brr_Payload req) ;;
  Ret (Ok {| brp_Success := true; brp_Fanout := wrap_i32 fanout |}).

(** ** The life of a connection *)

Inductive ws_result :=
| HttpUnauthorized (msg : string)   (* http.Error(w, msg, 401) *)
| UpgradeFailed
| RegisterFailed
| Serving (c : nat) (userID : Z).   (* the pumps of client c are started *)

(** [authVerify] is [AuthClient.Verify]; [upgraded] says whether the WebSocket
    handshake succeeds. *)
Definition ServeWS (rg : Registry) (authVerify : VerifyRequest -> prog (ev ConnectMem) (res VerifyReply))
    (upgraded : bool) (sessionID : string) : prog (ev ConnectMem) ws_result :=
  if String.eqb sessionID "" then Ret (HttpUnauthorized "empty session_id ")
  else
    v <- authVerify {| vr_SessionId := sessionID |} ;;
    match v with
    | Err e => Ret (HttpUnauthorized "invalid session")
    | Ok verifyReply =>
        let userID := vp_UserId verifyReply in
        if negb upgraded then Ret UpgradeFailed
        else
          client <- call (Mem (alloc_client userID)) ;;
          AddClient userID client ;;
          err <- RegisterUser rg userID ;;
          match err with
          | Err e => b <- RemoveClientIfMatch userID (Some client) ;; Ret RegisterFailed
          | Ok _ => Ret (Serving client userID)
          end
    end.

Definition add_room (c : nat) (roomID : Z) (m : ConnectMem) : unit * ConnectMem :=
  (tt, set_client c (fun cl => MkClient (c_UserID cl) (c_Send cl) ({[roomID]} ∪ c_rooms cl) (c_once cl) (c_closes cl) (c_ConnClosed cl)) m).

Definition remove_room (c : nat) (roomID : Z) (m : ConnectMem) : unit * ConnectMem :=
  (tt, set_client c (fun cl => MkClient (c_UserID cl) (c_Send cl) (c_rooms cl ∖ {[roomID]}) (c_once cl) (c_closes cl) (c_ConnClosed cl)) m).

(** The section of leaveAllRooms: take the set and leave an empty one. *)
Definition take_rooms (c : nat) (m : ConnectMem) : list Z * ConnectMem :=
  (match client_heap m !! c with Some cl => elements (c_rooms cl) | None => [] end,
   set_client c (fun cl => MkClient (c_UserID cl) (c_Send cl) ∅ (c_once cl) (c_closes cl) (c_ConnClosed cl)) m).

Inductive pump_end := PumpDone | PumpPanic.

Section pumps.
Context `{HF : Farm} `{HJ : JsonRoomCmd} (c : nat) (userID : Z) (ch : chan).

Definition addRoom (roomID : Z) : prog (ev ConnectMem) unit := call (Mem (add_room c roomID)).
Definition removeRoom (roomID : Z) : prog (ev ConnectMem) unit := call (Mem (remove_room c roomID)).

Definition leaveAllRooms : prog (ev ConnectMem) unit :=
  set_ <- call (Mem (take_rooms c)) ;;
  roomIDs <- call (Range set_) ;;
  for_each roomIDs (fun roomID => LeaveRoom roomID userID (Some ch)).

(** The [switch in.Op]. *)
Definition room_command (cmd : RoomCmd) : prog (ev ConnectMem) unit :=
  if String.eqb (Op cmd) "joinRoom" then
    if RoomID cmd <=? 0 then Ret tt
    else JoinRoom (RoomID cmd) userID ch ;; addRoom (RoomID cmd)
  else if String.eqb (Op cmd) "leaveRoom" then
    if RoomID cmd <=? 0 then Ret tt
    else LeaveRoom (RoomID cmd) userID (Some ch) ;; removeRoom (RoomID cmd)
  else Ret tt.

(** The read loop over the messages the peer sends before the connection
    fails; a message over the read limit is such a failure.  [in.Op] of a nil
    pointer panics. *)
Fixpoint read_loop (messages : list string) : prog (ev ConnectMem) pump_end :=
  match messages with
  | [] => leaveAllRooms ;; Ret PumpDone
  | message :: rest =>
      if Nat.ltb maxMessageSize (String.length message) then leaveAllRooms ;; Ret PumpDone
      else
        match Unmarshal_RoomCmd message with
        | Err e => read_loop rest
        | Ok None => Ret PumpPanic
        | Ok (Some cmd) => room_command cmd ;; read_loop rest
        end
  end.

(** The deferred function of readPump, which a panic runs too. *)
Definition offline : prog (ev ConnectMem) unit :=
  removed <- RemoveClientIfMatch userID (Some c) ;;
  if removed : bool then r <- UnregisterUser userID ;; Ret tt else Ret tt.

Definition readPump (messages : list string) : prog (ev ConnectMem) pump_end :=
  e <- read_loop messages ;;
  offline ;;
  Ret e.

(** One turn of the loop of writePump: whether the ticker has fired, and
    whether the write to the connection succeeds. *)
Record write_turn := { wt_tick : bool; wt_write_ok : bool }.

Definition write_ready (t : write_turn) (m : ConnectMem) (k : select_case) : bool :=
  match k with
  | CaseDone => is_done c m
  | CaseSend => match chan_heap m !! ch with Some (_ :: _) => true | _ => false end
  | CaseTick => wt_tick t
  end.

(** The case taken and, for a receive, the message; None: the select blocks. *)
Definition write_section (t : write_turn) (order : list select_case) (m : ConnectMem) :
    option (select_case * string) * ConnectMem :=
  match List.find (write_ready t m) order with
  | Some CaseSend =>
      match chan_heap m !! ch with
      | Some (msg :: _) => (Some (CaseSend, msg), set_chan ch (List.tl) m)
      | _ => (None, m)
      end
  | Some k => (Some (k, ""), m)
  | None => (None, m)
  end.

(** The messages written to the peer, in order, over the given turns. *)
Fixpoint writePump (turns : list write_turn) : prog (ev ConnectMem) (list string) :=
  match turns with
  | [] => Ret []
  | t :: rest =>
      order <- call (Range [CaseDone; CaseSend; CaseTick]) ;;
      o <- call (Mem (write_section t order)) ;;
      match o with
      | Some (CaseDone, _) => call (Mem (conn_close c)) ;; Ret []
      | Some (CaseSend, message) =>
          if wt_write_ok t then ms <- writePump rest ;; Ret (message :: ms)
          else call (Mem (conn_close c)) ;; Ret []
      | Some (CaseTick, _) =>
          if wt_write_ok t then writePump rest
          else call (Mem (conn_close c)) ;; Ret []
      | None => writePump rest
      end
  end.
End pumps.
