(* ===== verification/ConnectSpec.v ===== *)
(** * What a connect node guarantees

    The invariant of a node ([node_J]: rooms and connections) under every
    interleaving of its goroutines, and what single runs of the handlers and
    pumps do. *)

From Stdlib Require Import ZArith Lia String.
From stdpp Require Import base tactics list gmap strings.
From S2P Require Import Prelude GoStd Effects Redis Database Proto World Rules RefWorld Store Sessions Auth.
From S2P Require Import AuthSpec Room ConnectMem RoomManager RoomSpec Registry Connection.

Local Open Scope string_scope.
Local Open Scope Z_scope.

(** ** The invariant of a node

    The ghost state has the room of every room pointer and the user of every
    client; a client and its channel carry the same number. *)

Record conn_ok (gc : gmap nat Z) (m : ConnectMem) : Prop := {
  co_alloc : forall c u, gc !! c = Some u <-> exists cl, client_heap m !! c = Some cl /\ c_UserID cl = u;
  co_client : forall c cl, client_heap m !! c = Some cl ->
    c_Send cl = c /\ is_Some (chan_heap m !! c) /\ (c < next_ptr m)%nat
    /\ c_closes cl = (if c_once cl then 1 else 0)%nat;
  co_current : forall u c, Clients m !! u = Some c -> gc !! c = Some u;
  co_chan : forall ch buf, chan_heap m !! ch = Some buf -> (length buf <= sendCap)%nat }.

Definition ghost : Type := gmap nat Z * gmap nat Z.
Definition ghost_le : relation ghost := prod_relation (⊆) (⊆).

#[export] Instance prod_relation_pre {A B} (R : relation A) (R' : relation B) :
  PreOrder R -> PreOrder R' -> PreOrder (prod_relation R R').
Proof. split; apply _. Qed.

#[export] Instance ghost_le_pre : PreOrder ghost_le.
Proof. apply _. Qed.

(** ** The surroundings of a node

    What the theorems about a node need of the world around it: a growing state
    [amb] and an invariant [amb_K] of it that the routing calls of the node, its
    accesses to memory and sleeping goroutines keep; which user may ask to join
    which room and which payloads a user may be sent, as far as is known in a
    state ([may_join], [may_see]). *)
Class Ambient `{Crypto} (fl : bool) := {
  amb : Type;
  amb_le : relation amb;
  amb_pre :: PreOrder amb_le;
  amb_K : amb -> sysview ConnectMem -> Prop;
  amb_still x v m t : v_now v <= t -> amb_K x v -> amb_K x (set_mem m (tick t v));
  amb_register x v u server ttl r v' :
    amb_K x v -> ext fl _ (Rds (SET (userServerKey u) server ttl)) v r v' -> amb_K x v';
  amb_unregister x v u r v' : amb_K x v -> ext fl _ (Rds (DEL (userServerKey u))) v r v' -> amb_K x v';
  amb_env x v v' : amb_K x v -> env v v' -> exists x', amb_le x x' /\ amb_K x' v';
  may_join : amb -> Z -> Z -> Prop;
  may_join_mono x x' u a : amb_le x x' -> may_join x u a -> may_join x' u a;
  may_see : amb -> Z -> string -> Prop;
  may_see_mono x x' u payload : amb_le x x' -> may_see x u payload -> may_see x' u payload }.

(** Nothing is known and everything allowed. *)
Definition ambient_any `{Crypto} (fl : bool) : Ambient fl.
Proof.
  refine {| amb := unit; amb_le := fun _ _ => True; amb_K := fun _ _ => True;
    may_join := fun _ _ _ => True; may_see := fun _ _ _ => True |}; try done.
Defined.

(** The members of a room are there with a channel of their own, and were
    allowed to join it. *)
Definition members_ok (joined : Z -> Z -> Prop) (gc : gmap nat Z) (a : Z) (l : list (Z * chan)) : Prop :=
  forall p, p ∈ l -> gc !! p.2 = Some p.1 /\ joined p.1 a.

(** A send buffer holds only what its user may see. *)
Definition buffers_ok (sees : Z -> string -> Prop) (gc : gmap nat Z) (m : ConnectMem) : Prop :=
  forall ch buf u, chan_heap m !! ch = Some buf -> gc !! ch = Some u -> Forall (sees u) buf.

Definition node_J `{Farm} `{Ambient fl} (g : ghost * amb) (m : ConnectMem) : Prop :=
  rooms_J (members_ok (may_join g.2) g.1.2) g.1.1 m /\ conn_ok g.1.2 m /\ buffers_ok (may_see g.2) g.1.2 m.

(** So the members of a room have distinct channels. *)
Lemma rooms_distinct `{Farm} joined gc a m :
  rooms_ok m -> members_ok joined gc a (room_view a m) -> NoDup (room_view a m).*1 /\ NoDup (room_view a m).*2.
Proof.
  intros Ho Hown. assert (NoDup (room_view a m).*1) as Hnd.
  { unfold room_view. destruct (r ← room_ptr a m; room_heap m !! r) as [room|] eqn:Hr; [|constructor].
    apply bind_Some in Hr as (r & _ & Hr). apply abs_nodup. by eapply ro_wf. }
  split; [done|]. induction (room_view a m) as [|[u ch] l IH]; [constructor|].
  apply NoDup_cons in Hnd as [Hu Hnd]. apply NoDup_cons. split.
  - intros ([u' ch'] & Heq & Hin)%list_elem_of_fmap. cbn in Heq. subst ch'.
    destruct (Hown (u, ch) ltac:(constructor)) as [H1 _]. destruct (Hown (u', ch) ltac:(by constructor)) as [H2 _].
    cbn in H1, H2. assert (u = u') as <- by congruence. apply Hu, list_elem_of_fmap. by exists (u, ch).
  - apply IH; [|done]. intros p Hp. apply Hown. by constructor.
Qed.

Lemma rooms_J_ext `{Farm} P g m m' :
  buckets m' = buckets m -> room_heap m' = room_heap m -> (next_ptr m <= next_ptr m')%nat ->
  rooms_J P g m -> rooms_J P g m'.
Proof.
  intros Hb Hr Hn ([H1 H2 H3 H4 H5 H6] & Hg & Hd & HP).
  assert (forall a, room_ptr a m' = room_ptr a m) as Hptr by (intros a; unfold room_ptr; by rewrite Hb).
  split; [split|].
  - by rewrite Hb.
  - intros a r. rewrite Hptr, Hr. apply H2.
  - intros a b r. rewrite !Hptr. apply H3.
  - rewrite Hr. apply H4.
  - intros r room. rewrite Hr. setoid_rewrite Hptr. apply H5.
  - intros r. rewrite Hr. intros Hx. apply H6 in Hx. lia.
  - split_and!.
    + intros a r. rewrite Hptr. apply Hg.
    + intros r Hx. apply Hd in Hx. lia.
    + intros a. unfold room_view. rewrite Hptr, Hr. apply HP.
Qed.

Lemma rooms_J_weaken `{Farm} (P P' : Z -> list (Z * chan) -> Prop) g m :
  (forall a l, P a l -> P' a l) -> rooms_J P g m -> rooms_J P' g m.
Proof. intros HP (Ho & Hg & Hd & Hall). split_and!; auto. Qed.

Lemma conn_ok_ext gc m m' :
  Clients m' = Clients m -> client_heap m' = client_heap m -> chan_heap m' = chan_heap m -> (next_ptr m <= next_ptr m')%nat ->
  conn_ok gc m -> conn_ok gc m'.
Proof.
  intros H1 H2 H3 Hn [A B C D]. split.
  - by rewrite H2.
  - intros c cl. rewrite H2, H3. intros (? & ? & ? & ?)%B. split_and!; [done|done|lia|done].
  - by rewrite H1.
  - by rewrite H3.
Qed.

(** The room sections do not touch the connections. *)
Lemma join_conn `{Farm} gc a u ch m : conn_ok gc m -> conn_ok gc (join_section a u ch m).2.
Proof.
  unfold join_section. destruct (room_ptr a m); cbn; apply conn_ok_ext; cbn; try done. lia.
Qed.

Lemma leave_conn gc r u ex m : conn_ok gc m -> conn_ok gc (leave_section r u ex m).2.
Proof. unfold leave_section. destruct (room_heap m !! r) as [room|]; [|done]. destruct (Leave u ex room). by apply conn_ok_ext. Qed.

Lemma collect_conn `{Farm} gc a r m : conn_ok gc m -> conn_ok gc (collect_section a r m).2.
Proof. unfold collect_section. repeat case_match; try done. by apply conn_ok_ext. Qed.

Lemma offer_conn gc ch payload m : conn_ok gc m -> conn_ok gc (chan_offer ch payload m).2.
Proof.
  intros [A B C D]. unfold chan_offer, chan_ready. destruct (chan_heap m !! ch) as [buf|] eqn:Hb; [|done].
  destruct (Nat.ltb_spec (length buf) sendCap) as [Hlt|]; [|done]. split; cbn; [done| |done|].
  - intros c cl (? & Hx & ? & ?)%B. split_and!; [done| |done|done].
    destruct (decide (ch = c)) as [<-|]; [by rewrite lookup_alter_eq, Hb|by rewrite lookup_alter_ne].
  - intros c b [(-> & x & Hx & ->)|(_ & Hx)]%lookup_alter_Some; [|eauto]. rewrite length_app. cbn. simplify_eq. lia.
Qed.

Lemma receive_conn gc ch m : conn_ok gc m -> conn_ok gc (set_chan ch (List.tl) m).
Proof.
  intros [A B C D]. split; cbn; [done| |done|].
  - intros c cl (? & [b Hx] & ? & ?)%B. split_and!; [done| |done|done].
    destruct (decide (ch = c)) as [<-|]; [rewrite lookup_alter_eq, Hx|rewrite lookup_alter_ne, Hx by done]; by eexists.
  - intros c b [(-> & x & Hx & ->)|(_ & Hx)]%lookup_alter_Some; [|eauto]. specialize (D _ _ Hx). destruct x; cbn in *; lia.
Qed.

(** Writing fields of a client other than its user and its channel. *)
Lemma set_client_conn gc c f m :
  (forall cl, c_UserID (f cl) = c_UserID cl /\ c_Send (f cl) = c_Send cl) ->
  (forall cl, client_heap m !! c = Some cl -> c_closes cl = (if c_once cl then 1 else 0)%nat ->
     c_closes (f cl) = (if c_once (f cl) then 1 else 0)%nat) ->
  conn_ok gc m -> conn_ok gc (set_client c f m).
Proof.
  intros Hf Hc [A B C D]. split; cbn; [| |done|done].
  - intros c' u. rewrite A. split.
    + intros (cl & Hcl & <-). destruct (decide (c = c')) as [<-|].
      * exists (f cl). rewrite lookup_alter_eq, Hcl. split; [done|apply Hf].
      * exists cl. by rewrite lookup_alter_ne.
    + intros (cl & [(-> & x & Hx & ->)|(_ & Hx)]%lookup_alter_Some & <-); [|eauto].
      exists x. split; [done|]. symmetry. apply Hf.
  - intros c' cl [(-> & x & Hx & ->)|(_ & Hx)]%lookup_alter_Some; [|eauto].
    destruct (B _ _ Hx) as (Hs & ? & ? & ?). split_and!; [|done|done|by apply Hc].
    by rewrite (proj2 (Hf x)).
Qed.

Lemma once_conn gc c m : conn_ok gc m -> conn_ok gc (once_section c m).2.
Proof.
  intros Hok. unfold once_section. destruct (client_heap m !! c) as [cl|] eqn:Hcl; [|done].
  destruct (c_once cl) eqn:Ho; [done|]. apply set_client_conn; [done| |done]. cbn. intros cl' Hcl' Hx.
  assert (cl' = cl) as -> by congruence. by rewrite Hx, Ho.
Qed.

Lemma remove_conn gc u ex m : conn_ok gc m -> conn_ok gc (remove_section u ex m).2.
Proof.
  intros [A B C D]. unfold remove_section. destruct (Clients m !! u) as [cc|]; [|done].
  destruct (match ex with Some e => _ | None => _ end); [done|]. split; cbn; [done|done| |done].
  intros u' c [_ Hc]%lookup_delete_Some. auto.
Qed.

Lemma add_conn gc u c m : gc !! c = Some u -> conn_ok gc m -> conn_ok gc (add_section u c m).2.
Proof.
  intros Hg [A B C D]. split; cbn; [done|done| |done].
  intros u' c' [[<- <-]|[_ Hc]]%lookup_insert_Some; auto.
Qed.

(** A new client has a new number. *)
Lemma alloc_conn gc u m : conn_ok gc m ->
  gc !! next_ptr m = None /\ conn_ok (<[next_ptr m := u]> gc) (alloc_client u m).2.
Proof.
  intros [A B C D].
  assert (client_heap m !! next_ptr m = None) as Hh.
  { destruct (client_heap m !! next_ptr m) as [cl|] eqn:Hcl; [|done]. destruct (B _ _ Hcl) as (_ & _ & ? & _). lia. }
  assert (gc !! next_ptr m = None) as Hg.
  { destruct (gc !! next_ptr m) as [u'|] eqn:Hu; [|done]. apply A in Hu as (cl & Hcl & _). congruence. }
  split; [done|]. split; cbn.
  - intros c u'. destruct (decide (next_ptr m = c)) as [<-|Hne].
    + rewrite !lookup_insert_eq. split; [intros [= <-]; by eexists|intros (cl & [= <-] & <-); done].
    + rewrite !lookup_insert_ne by done. apply A.
  - intros c cl [[<- <-]|[Hne Hcl]]%lookup_insert_Some.
    + split_and!; [done|rewrite lookup_insert_eq; by eexists|lia|done].
    + destruct (B _ _ Hcl) as (? & ? & ? & ?). split_and!; [done|by rewrite lookup_insert_ne|lia|done].
  - intros u' c Hc%C. rewrite lookup_insert_ne; [done|]. intros <-. congruence.
  - intros ch b [[<- <-]|[_ Hb]]%lookup_insert_Some; [cbn; lia|eauto].
Qed.

(** What the accesses do to the buffers. *)
Section buffers.
Context (sees : Z -> string -> Prop) (gc : gmap nat Z).

Lemma buffers_ext m m' : chan_heap m' = chan_heap m -> buffers_ok sees gc m -> buffers_ok sees gc m'.
Proof. unfold buffers_ok. by intros ->. Qed.

Lemma offer_buffers ch payload u m :
  gc !! ch = Some u -> sees u payload -> buffers_ok sees gc m -> buffers_ok sees gc (chan_offer ch payload m).2.
Proof.
  intros Hu Hs Hb. unfold chan_offer. destruct (chan_ready ch m); [|done].
  intros ch' buf u'; cbn. intros [(-> & buf0 & Hx & ->)|(_ & Hx)]%lookup_alter_Some Hu'; [|by eapply Hb].
  apply Forall_app. split; [by eapply Hb|]. apply Forall_singleton. congruence.
Qed.

Lemma receive_buffers ch m : buffers_ok sees gc m -> buffers_ok sees gc (set_chan ch (List.tl) m).
Proof.
  intros Hb. intros ch' buf u; cbn. intros [(-> & buf0 & Hx & ->)|(_ & Hx)]%lookup_alter_Some Hu; [|by eapply Hb].
  specialize (Hb _ _ _ Hx Hu). destruct Hb; [constructor|done].
Qed.

Lemma alloc_buffers u m : buffers_ok sees gc m -> buffers_ok sees (<[next_ptr m := u]> gc) (alloc_client u m).2.
Proof.
  intros Hb ch buf u'; cbn. intros [[<- <-]|[Hne Hx]]%lookup_insert_Some Hu; [constructor|].
  rewrite lookup_insert_ne in Hu by done. by eapply Hb.
Qed.
End buffers.

(** ** Every goroutine of a node keeps the invariant *)
#[export] Instance node_J_inv `{Farm} `{Ambient fl} : RoomInv (prod_relation ghost_le amb_le) node_J.
Proof.
  refine {| owner := fun (g : ghost * amb) r a => g.1.1 !! r = Some a;
            may_get := fun g ch payload => exists u, g.1.2 !! ch = Some u /\ may_see g.2 u payload |}.
  - intros g g' r a [[Hle _] _] Hr. by eapply lookup_weaken.
  - intros g g' ch payload [[_ Hle] Hx] (u & Hu & Hs). exists u. split; [by eapply lookup_weaken|by eapply may_see_mono].
  - intros g m a r [(_ & Hg & _) _]. apply Hg.
  - intros g m a r (HR & HC & HB). split_and!; [by apply collect_ghost|by apply collect_conn|].
    eapply buffers_ext; [|done]. unfold collect_section. by repeat case_match.
  - intros g m ch payload (u & Hu & Hs) (HR & HC & HB).
    split_and!; [by apply offer_ghost|by apply offer_conn|by eapply offer_buffers].
Defined.

Section node.
Context `{HC : Crypto} `{HF : Farm} `{HJ : JsonRoomCmd} (fl : bool) `{HA : !Ambient fl}.
Abbreviation node_K := (fun g : ghost * amb => amb_K g.2).
Abbreviation node_le := (prod_relation ghost_le amb_le).
Abbreviation rgn := (rg (ext fl) node_le (amb_I node_J node_K)).

Lemma node_still (g : ghost * amb) v m t : v_now v <= t -> amb_K g.2 v -> amb_K g.2 (set_mem m (tick t v)).
Proof. apply amb_still. Qed.

(** An atomic access that leaves the rooms alone and keeps [conn_ok]. *)
Lemma rg_conn_gen {A B} g (f : ConnectMem -> A * ConnectMem) (k : A -> prog (ev ConnectMem) B) Q :
  (forall g1 m, node_le g g1 -> node_J g1 m -> buckets (f m).2 = buckets m /\ room_heap (f m).2 = room_heap m
     /\ next_ptr (f m).2 = next_ptr m /\ buffers_ok (may_see g1.2) g1.1.2 (f m).2 /\ conn_ok g1.1.2 (f m).2 /\ rgn g1 (k (f m).1) Q) ->
  rgn g (Vis (Mem f) k) Q.
Proof.
  intros Hf. apply (rga_access _ _ node_J node_K node_still). intros g1 m Hle HJm.
  destruct (Hf g1 m Hle HJm) as (Hb & Hr & Hn & HB & Hc & Hk). split; [|done]. destruct HJm as [HR _]. split_and!; [|done..].
  eapply rooms_J_ext; [done|done|lia|done].
Qed.

Lemma rg_conn {A B} g (f : ConnectMem -> A * ConnectMem) (k : A -> prog (ev ConnectMem) B) Q :
  (forall g1 m, node_le g g1 -> node_J g1 m -> buckets (f m).2 = buckets m /\ room_heap (f m).2 = room_heap m
     /\ next_ptr (f m).2 = next_ptr m /\ chan_heap (f m).2 = chan_heap m /\ conn_ok g1.1.2 (f m).2 /\ rgn g1 (k (f m).1) Q) ->
  rgn g (Vis (Mem f) k) Q.
Proof.
  intros Hf. apply rg_conn_gen. intros g1 m Hle HJm. destruct (Hf g1 m Hle HJm) as (? & ? & ? & Hch & ? & ?).
  split_and!; [done..| |done|done]. eapply buffers_ext; [exact Hch|apply HJm].
Qed.

Lemma rg_node_range {A X} g (l : list X) (k : list X -> prog (ev ConnectMem) A) Q :
  (forall g1 l', node_le g g1 -> rgn g1 (k l') Q) -> rgn g (Vis (Range l) k) Q.
Proof. intros Hk. apply (rga_range _ _ node_J node_K node_still). auto. Qed.

Lemma rg_closeConn g c : rgn g (closeConn c) (fun _ _ => True).
Proof.
  unfold closeConn. cbn [bind call]. apply rg_conn. intros g1 m Hle (HR & HC1 & _).
  split_and!; [unfold once_section; repeat case_match; done..|by apply once_conn|].
  destruct (once_section c m).1; [|done]. apply rg_conn. intros g2 m2 Hle2 (HR2 & HC2 & _).
  split_and!; [done..|apply set_client_conn; [done|intros; done|done]|done].
Qed.

Lemma may_get_later g g' ch payload : node_le g g' -> may_get (J := node_J) g ch payload -> may_get (J := node_J) g' ch payload.
Proof. apply may_get_mono. Qed.

Lemma rg_trySend g c ch payload : may_get (J := node_J) g ch payload -> rgn g (trySend c ch payload) (fun _ _ => True).
Proof.
  intros Hget. unfold trySend. cbn [bind call]. apply rg_node_range. intros g1 order Hle.
  apply (rga_access _ _ node_J node_K node_still). intros g2 m Hle2 HJm. split; [|done].
  unfold try_section. destruct (List.find _ _) as [[]|]; [done| |done|done].
  apply inv_offer; [|done]. eapply may_get_later, Hget. by transitivity g1.
Qed.

(** The ghost state after a program is larger than before. *)
Lemma rg_seq {A B} g (p : prog (ev ConnectMem) A) (f : A -> prog (ev ConnectMem) B) Q :
  rgn g p (fun _ _ => True) -> (forall g' a, node_le g g' -> rgn g' (f a) Q) -> rgn g (bind p f) Q.
Proof.
  intros Hp Hf. apply rg_bind. eapply rg_conseq; [apply _|exact Hp|]. intros g' a Hle _. by apply Hf.
Qed.

(** What is known of a client stays known. *)
Lemma client_later (g g' : ghost * amb) (c : nat) u : node_le g g' -> g.1.2 !! c = Some u -> g'.1.2 !! c = Some u.
Proof. intros [[_ Hle] _] Hc. by eapply lookup_weaken. Qed.

Lemma rg_AddClient g u c : g.1.2 !! c = Some u -> rgn g (AddClient u c) (fun _ _ => True).
Proof.
  intros Hg. unfold AddClient. cbn [bind call]. apply rg_conn. intros g1 m Hle (HR & HC1 & _). split_and!; [done..| |].
  - apply add_conn; [by eapply client_later|done].
  - destruct (add_section u c m).1 as [o|]; [|done]. destruct (Nat.eqb o c); [done|apply rg_closeConn].
Qed.

Lemma rg_RemoveClientIfMatch g u ex : rgn g (RemoveClientIfMatch u ex) (fun _ _ => True).
Proof.
  unfold RemoveClientIfMatch. cbn [bind call]. apply rg_conn. intros g1 m Hle (HR & HC1 & _).
  split_and!; [unfold remove_section; repeat case_match; done..|by apply remove_conn|].
  destruct (remove_section u ex m).1 as [c|]; [|done]. apply rg_seq; [apply rg_closeConn|done].
Qed.

Lemma rg_node_join g a u ch :
  g.1.2 !! ch = Some u -> may_join g.2 u a -> rgn g (JoinRoom a u ch) (fun _ _ => True).
Proof.
  intros Hg Hj. apply (rg_JoinRoom fl (J := node_J) _ node_still). intros [[gr gc] x] m [[_ Hle] Hx] (HR & HCn & HB). cbn in *.
  assert (gc !! ch = Some u) as Hch by by eapply lookup_weaken.
  assert (may_join x u a) as Hjx by by eapply may_join_mono.
  destruct (join_ghost (members_ok (may_join x) gc) gr a u ch m) as (gr' & Hgr & HR'); [|done|].
  - intros l Hl p Hp. unfold abs_join in Hp. case_decide.
    + apply list_elem_of_fmap in Hp as (q & -> & Hq). case_decide; [by split|by apply Hl].
    + apply elem_of_app in Hp as [Hp|Hp%list_elem_of_singleton]; [by apply Hl|by subst p].
  - exists (gr', gc, x). split; [by split; [split|]|]. split; [done|]. split_and!; [done|by apply join_conn|].
    eapply buffers_ext; [|exact HB]. unfold join_section. by destruct (room_ptr a m).
Qed.

Lemma rg_node_leave g a u ex : rgn g (LeaveRoom a u ex) (fun _ _ => True).
Proof.
  apply (rg_LeaveRoom fl (J := node_J) _ node_still). intros [[gr gc] x] r m _ Hr (HR & HCn & HB). cbn in *.
  split_and!; [|by apply leave_conn|].
  - eapply leave_ghost; [|exact Hr|exact HR]. intros l Hl p [_ Hp]%list_elem_of_filter. by apply Hl.
  - eapply buffers_ext; [|exact HB]. unfold leave_section. destruct (room_heap m !! r) as [room|]; [|done].
    by destruct (Leave u ex room).
Qed.

Lemma rg_for_each {A} g (l : list A) body :
  (forall g' a, rgn g' (body a) (fun _ _ => True)) -> rgn g (for_each l body) (fun _ _ => True).
Proof.
  intros Hb. revert g. induction l as [|a l IH]; intros g; cbn [for_each]; [done|]. apply rg_seq; [apply Hb|]. intros; apply IH.
Qed.

Lemma rg_leaveAllRooms g c u ch : rgn g (leaveAllRooms c u ch) (fun _ _ => True).
Proof.
  unfold leaveAllRooms. cbn [bind call]. apply rg_conn. intros g1 m Hle (HR & HC1 & _).
  split_and!; [done..|by apply set_client_conn|]. apply rg_node_range. intros g2 ids _.
  apply rg_for_each. intros. apply rg_node_leave.
Qed.

Lemma rg_client_write {B} g c f (k : unit -> prog (ev ConnectMem) B) Q :
  (forall cl, c_UserID (f cl) = c_UserID cl /\ c_Send (f cl) = c_Send cl
     /\ c_once (f cl) = c_once cl /\ c_closes (f cl) = c_closes cl) ->
  (forall g', node_le g g' -> rgn g' (k tt) Q) ->
  rgn g (Vis (Mem (fun m => (tt, set_client c f m))) k) Q.
Proof.
  intros Hf Hk. apply rg_conn. intros g1 m Hle (HR & HC1 & _). split_and!; [done..| |by apply Hk].
  apply set_client_conn; [intros cl; split; apply Hf| |done]. intros cl _ Hx.
  destruct (Hf cl) as (_ & _ & Ho & Hcl). by rewrite Hcl, Ho.
Qed.

(** The rooms the messages of a peer ask to join. *)
Definition asks_room (messages : list string) (a : Z) : Prop :=
  exists message cmd, message ∈ messages /\ Unmarshal_RoomCmd message = Ok (Some cmd) /\ Op cmd = "joinRoom" /\ RoomID cmd = a.

Lemma rg_room_command g c u ch cmd :
  g.1.2 !! ch = Some u -> (Op cmd = "joinRoom" -> may_join g.2 u (RoomID cmd)) ->
  rgn g (room_command c u ch cmd) (fun _ _ => True).
Proof.
  intros Hg Hj. unfold room_command. destruct (String.eqb_spec (Op cmd) "joinRoom") as [Hop|].
  - destruct (_ <=? 0); [done|]. apply rg_seq; [by apply rg_node_join; [|apply Hj]|]. intros g' _ _. by apply rg_client_write.
  - destruct (String.eqb (Op cmd) "leaveRoom"); [|done]. destruct (_ <=? 0); [done|].
    apply rg_seq; [apply rg_node_leave|]. intros g' _ _. by apply rg_client_write.
Qed.

Lemma rg_read_loop g c u ch messages :
  g.1.2 !! ch = Some u -> (forall a, asks_room messages a -> may_join g.2 u a) ->
  rgn g (read_loop c u ch messages) (fun _ _ => True).
Proof.
  revert g. induction messages as [|msg rest IH]; intros g Hg Hj; cbn [read_loop].
  { apply rg_seq; [apply rg_leaveAllRooms|done]. }
  destruct (Nat.ltb _ _). { apply rg_seq; [apply rg_leaveAllRooms|done]. }
  assert (forall a, asks_room rest a -> may_join g.2 u a) as Hrest.
  { intros a (m0 & cmd & Hin & Hm). apply Hj. exists m0, cmd. split; [by right|done]. }
  destruct (Unmarshal_RoomCmd msg) as [[cmd|]|e] eqn:Hmsg; [|done|by apply IH].
  apply rg_seq.
  - apply rg_room_command; [done|]. intros Hop. apply Hj. exists msg, cmd. by split; [left|].
  - intros g' _ Hle. apply IH; [by eapply client_later|]. intros a Ha. destruct Hle as [_ Hx]. eapply may_join_mono; [exact Hx|auto].
Qed.

Lemma rg_readPump g c u ch messages :
  g.1.2 !! ch = Some u -> (forall a, asks_room messages a -> may_join g.2 u a) ->
  rgn g (readPump c u ch messages) (fun _ _ => True).
Proof.
  intros Hg Hj. unfold readPump. apply rg_seq; [by apply rg_read_loop|]. intros g1 e _.
  apply rg_seq; [|done]. unfold offline. apply rg_seq; [apply rg_RemoveClientIfMatch|]. intros g2 [] _; [|done].
  unfold UnregisterUser. cbn [bind call]. apply (rga_other _ _ node_J node_K); [done| |].
  - intros g3 v r v' _. apply amb_unregister.
  - intros g3 r _. by destruct r.
Qed.

Lemma rg_writePump g c ch turns : rgn g (writePump c ch turns) (fun _ _ => True).
Proof.
  revert g. induction turns as [|t rest IH]; intros g; cbn [writePump bind call]; [done|].
  apply rg_node_range. intros g1 order _. cbn [bind]. apply rg_conn_gen. intros g2 m Hle (HR & HC1 & HB).
  assert (forall g', rgn g' (call (Mem (conn_close c)) ;; Ret (@nil string)) (fun _ _ => True)) as Hclose
    by (intros g'; by apply rg_client_write).
  split_and!; [unfold write_section; repeat case_match; done..| | |].
  - unfold write_section. repeat case_match; try done. by apply receive_buffers.
  - unfold write_section. repeat case_match; try done. by apply receive_conn.
  - destruct (write_section c ch t order m).1 as [[[] msg]|]; [apply Hclose| | |apply IH]; destruct (wt_write_ok t); try apply Hclose.
    + apply rg_seq; [apply IH|done].
    + apply IH.
Qed.

Lemma rg_push_all g clients payload n :
  Forall (fun p => may_get (J := node_J) g p.2 payload) clients -> rgn g (push_all clients payload n) (fun _ _ => True).
Proof.
  revert g n. induction clients as [|[c ch] rest IH]; intros g n Hall; cbn [push_all]; [done|].
  apply Forall_cons in Hall as [Hch Hall]. apply rg_seq; [by apply rg_trySend|]. intros g' ok Hle. apply IH.
  eapply Forall_impl; [exact Hall|]. intros p. by apply may_get_later.
Qed.

(** The answer of the authentication service, as far as the node is concerned. *)
Definition auth_ok (auth : VerifyRequest -> prog (ev ConnectMem) (res VerifyReply)) (sid : string) (asked : Z -> Prop) : Prop :=
  nomem (auth {| vr_SessionId := sid |}) /\
  forall x, rg (ext fl) amb_le amb_K x (auth {| vr_SessionId := sid |}) (fun x' r =>
    match r with Ok rp => forall a, asked a -> may_join x' (vp_UserId rp) a | Err _ => True end).

Lemma node_J_amb (g : ghost) x x' m : amb_le x x' -> node_J (g, x) m -> node_J (g, x') m.
Proof.
  intros Hle (HR & HC1 & HB). split_and!; [|done|].
  - eapply rooms_J_weaken; [|exact HR]. intros a l Hl p Hp. destruct (Hl p Hp) as [H1 H2]. split; [done|by eapply may_join_mono].
  - intros ch buf u Hb Hu. eapply Forall_impl; [by eapply HB|]. intros payload. by apply may_see_mono.
Qed.

Lemma rg_ServeWS rg_ auth upgraded sid g (asked : Z -> Prop) :
  auth_ok auth sid asked ->
  rgn g (ServeWS rg_ auth upgraded sid) (fun g' r => match r with
    | Serving c u => g'.1.2 !! c = Some u /\ forall a, asked a -> may_join g'.2 u a
    | _ => True end).
Proof.
  intros [Hno Hauth]. unfold ServeWS. destruct (String.eqb sid ""); [done|]. apply rg_bind. destruct g as [g0 x0].
  eapply rg_conseq; [apply _|exact (rga_foreign fl ghost_le amb_le node_J amb_K g0 x0 _ _ node_J_amb Hno (Hauth x0))|].
  intros g1 [rp|e] _ Hrp; [|done]. destruct upgraded; [|done]. cbn [negb bind call].
  apply (rga_mem _ _ node_J node_K node_still). intros [[gr gc] x] m [_ Hle] (HR & HC1 & HB). cbn in HR, HC1, HB, Hle.
  destruct (alloc_conn gc (vp_UserId rp) m HC1) as [Hnew HC2]. set (c := next_ptr m) in *. set (u := vp_UserId rp) in *.
  exists (gr, <[c := u]> gc, x). split; [split; [split; [done|by apply insert_subseteq]|done]|]. split; [done|]. split.
  { split_and!; [|done|by apply alloc_buffers]. cbn. apply rooms_J_ext with m; [done|done|cbn; lia|].
    eapply rooms_J_weaken; [|exact HR]. intros a l Hl p Hp. destruct (Hl p Hp) as [H1 H2].
    split; [eapply lookup_weaken; [done|by apply insert_subseteq]|done]. }
  cbn [fst alloc_client]. fold c.
  assert ((gr, <[c := u]> gc : gmap nat Z, x).1.2 !! c = Some u) as Hcu by apply lookup_insert_eq.
  assert (forall g', node_le (gr, <[c := u]> gc, x) g' -> forall a, asked a -> may_join g'.2 u a) as Hj.
  { intros g' [_ Hx] a Ha. cbn in Hx. eapply may_join_mono; [|by apply Hrp]. by transitivity x. }
  apply rg_seq; [by apply rg_AddClient|]. intros g2 _ Hle2. unfold RegisterUser. cbn [bind call].
  apply (rga_other _ _ node_J node_K); [done|intros g3 v r v' _; apply amb_register|]. intros g3 r Hle3.
  assert (node_le (gr, <[c := u]> gc, x) g3) as Hle' by by transitivity g2.
  destruct r as [[]|e].
  - cbn. split; [by eapply client_later|by apply Hj].
  - apply rg_seq; [apply rg_RemoveClientIfMatch|done].
Qed.
End node.

(** ** The goroutines of a node *)

Inductive node_op :=
| OpConnect (rg : Registry) (auth : VerifyRequest -> prog (ev ConnectMem) (res VerifyReply))
    (upgraded : bool) (sessionID : string) (messages : list string)  (* ServeWS, then readPump *)
| OpWritePump (c : nat) (ch : chan) (turns : list write_turn)
| OpPushMsg (req : PushMsgRequest)
| OpPushMsgToUsers (req : PushAllRequest)
| OpBroadcastRoom (req : BroadcastRoomRequest)
| OpRemoveClient (userID : Z).

Definition node_prog `{Farm} `{JsonRoomCmd} (op : node_op) : prog (ev ConnectMem) unit :=
  match op with
  | OpConnect rg auth up sid messages =>
      r <- ServeWS rg auth up sid ;;
      match r with
      | Serving c u => e <- readPump c u c messages ;; Ret tt
      | _ => Ret tt
      end
  | OpWritePump c ch turns => ms <- writePump c ch turns ;; Ret tt
  | OpPushMsg req => r <- PushMsg_handler req ;; Ret tt
  | OpPushMsgToUsers req => r <- PushMsgToUsers_handler req ;; Ret tt
  | OpBroadcastRoom req => r <- BroadcastRoom_handler req ;; Ret tt
  | OpRemoveClient u => RemoveClient u
  end.

(** What the surroundings, in a state [x] and from then on, allow: the
    authentication calls answer as known, and payloads are addressed to users
    who may see them. *)
Definition op_fits `{Crypto} `{Farm} `{JsonRoomCmd} (fl : bool) `{HA : !Ambient fl} (x : amb) (op : node_op) : Prop :=
  match op with
  | OpConnect _ auth _ sid messages => auth_ok fl auth sid (asks_room messages)
  | OpPushMsg req => may_see x (pmr_ToUserId req) (pmr_Payload req)
  | OpPushMsgToUsers req => forall u, u ∈ par_UserIds req -> may_see x u (par_Payload req)
  | OpBroadcastRoom req => forall x' u, amb_le x x' -> may_join x' u (brr_RoomId req) -> may_see x' u (brr_Payload req)
  | OpWritePump _ _ _ | OpRemoveClient _ => True
  end.

(** The authentication calls of the connections do not touch the node. *)
Definition op_ok (op : node_op) : Prop :=
  match op with OpConnect _ auth _ _ _ => forall r, nomem (auth r) | _ => True end.

Lemma op_ok_fits `{Crypto} `{Farm} `{JsonRoomCmd} fl op : op_ok op -> op_fits fl (HA := ambient_any fl) tt op.
Proof.
  destruct op as [rg_ auth up sid messages|c ch turns|req|req|req|u]; try done. intros Hok. split; [apply Hok|].
  intros x. specialize (Hok {| vr_SessionId := sid |}). revert x. induction (auth _) as [r|X e k IH]; intros x; [by destruct r|].
  destruct Hok as [_ Hok]. intros g1 v y v' _ _ _. exists g1. split; [done|]. split; [done|by apply IH].
Qed.

Section pool.
Context `{HC : Crypto} `{HF : Farm} `{HJ : JsonRoomCmd} (fl : bool) `{HA : !Ambient fl}.

Lemma find_client_get (g : ghost * amb) u payload m c ch :
  node_J g m -> may_see g.2 u payload -> find_client u m = Some (c, ch) -> may_get (J := node_J) g ch payload.
Proof.
  intros (_ & HC1 & _) Hs Hf. unfold find_client in Hf. apply bind_Some in Hf as (c' & Hc & Hf).
  apply bind_Some in Hf as (cl & Hcl & [= -> <-]). destruct (co_client _ _ HC1 _ _ Hcl) as (-> & _).
  exists u. split; [by apply (co_current _ _ HC1)|done].
Qed.

Lemma rg_node_prog (g : ghost * amb) op : op_fits fl g.2 op ->
  rg (ext fl) (prod_relation ghost_le amb_le) (amb_I node_J (fun g : ghost * amb => amb_K g.2)) g (node_prog op) (fun _ _ => True).
Proof.
  destruct op as [rg_ auth up sid messages|c ch turns|req|req|req|u]; intros Hok; cbn [node_prog].
  - apply rg_bind. eapply rg_conseq; [apply _|by apply rg_ServeWS|]. intros g' [| | |c u] _ Hcu; try done.
    destruct Hcu as [Hcu Hj]. apply rg_seq; [by apply rg_readPump|done].
  - apply rg_seq; [apply rg_writePump|done].
  - apply rg_seq; [|done]. unfold PushMsg_handler. cbn [bind call]. apply (rga_read _ _ node_J _ (node_still fl)). intros g1 m [_ Hx] HJ1.
    destruct (find_client _ m) as [[c ch]|] eqn:Hf; [|done].
    apply rg_seq; [eapply rg_trySend, find_client_get; [done| |done]; by eapply may_see_mono|]. by intros g2 [].
  - apply rg_seq; [|done]. unfold PushMsgToUsers_handler. cbn [bind call]. apply (rga_read _ _ node_J _ (node_still fl)). intros g1 m [_ Hx] HJ1.
    apply rg_seq; [|done]. apply rg_push_all, Forall_forall. intros [c ch] (u & Hu & Hf)%list_elem_of_omap.
    eapply find_client_get; [done| |exact Hf]. eapply may_see_mono; [exact Hx|by apply Hok].
  - apply rg_seq; [|done]. unfold BroadcastRoom_handler. apply rg_seq; [|done].
    apply (rg_BroadcastRoom fl (J := node_J) _ (node_still fl)). intros g1 r room m ch [_ Hx] Hr HJ1 Hroom Hch.
    destruct HJ1 as (HR & _ & _). destruct HR as (Ho & Hg & _ & HP).
    destruct (targets_view (brr_RoomId req) r room (brr_FromUserId req) m Ho Hroom) with (ch := ch) as [u Hin]; [|done|].
    { intros b Hb%Hg. cbn in Hr. congruence. }
    destruct (HP _ _ Hin) as [Hu Hj]. exists u. split; [done|by apply Hok].
  - apply rg_seq; [apply rg_RemoveClientIfMatch|done].
Qed.

Lemma node_start_ok x : node_J ((∅, ∅), x) node_start.
Proof.
  split; [|split].
  - split; [apply node_rooms_ok|]. split_and!.
    + intros a r Hr. destruct (ro_ptr _ node_rooms_ok _ _ Hr) as [y Hy]. cbn in Hy. by rewrite lookup_empty in Hy.
    + intros r [y Hy]. cbn in Hy. by rewrite lookup_empty in Hy.
    + intros a p Hp. exfalso. unfold room_view in Hp. destruct (room_ptr a node_start) as [r|] eqn:Hr; [|set_solver].
      cbn in Hp. rewrite lookup_empty in Hp. set_solver.
  - split; cbn.
    + intros c u. rewrite lookup_empty. split; [done|]. intros (cl & Hcl & _). by rewrite lookup_empty in Hcl.
    + intros c cl Hcl. by rewrite lookup_empty in Hcl.
    + intros u c Hc. by rewrite lookup_empty in Hc.
    + intros ch b Hb. by rewrite lookup_empty in Hb.
  - intros ch b u Hb. cbn in Hb. by rewrite lookup_empty in Hb.
Qed.

(** Every reachable state of a node whose goroutines fit the surroundings
    satisfies the invariant. *)
Lemma node_pool_inv (allowed : node_op -> Prop) x v ps' v' :
  (forall op x, allowed op -> op_fits fl x op) ->
  v_mem v = node_start -> amb_K x v ->
  pool_reachable (ext fl) env (fun p => exists op, allowed op /\ p = node_prog op) ([], v) (ps', v') ->
  exists g' x', amb_le x x' /\ node_J (g', x') (v_mem v') /\ amb_K x' v'.
Proof.
  intros Hop Hv HK Hrun.
  destruct (amb_pool fl (prod_relation ghost_le amb_le) node_J (fun g => amb_K g.2)
    (fun p => exists op, allowed op /\ p = node_prog op) ((∅, ∅), x) [] v ps' v') as ([g' x'] & [_ Hle] & HJ' & HK');
    [| |exact Hrun|rewrite Hv; apply node_start_ok|done|constructor|by exists g', x'].
  - intros [g y] s s' HKs Hs. destruct (amb_env y s s' HKs Hs) as (y' & Hy & HKy). exists (g, y').
    split; [by split|]. split; [done|]. intros m. by apply node_J_amb.
  - intros [g y] p (op & Ha & ->). by apply rg_node_prog, Hop.
Qed.
End pool.

(** ** Single runs *)
Section runs.
Context `{HC : Crypto} `{HF : Farm} `{HJ : JsonRoomCmd} (fl : bool).
Implicit Types v : sysview ConnectMem.

(** Only the rooms differ. *)
Definition rooms_only (m m' : ConnectMem) : Prop :=
  Clients m' = Clients m /\ client_heap m' = client_heap m /\ chan_heap m' = chan_heap m.

Lemma rooms_only_trans m1 m2 m3 : rooms_only m1 m2 -> rooms_only m2 m3 -> rooms_only m1 m3.
Proof. unfold rooms_only. intros (-> & -> & ->) (-> & -> & ->). done. Qed.

Lemma wp_JoinRoom a u ch v : rooms_ok (v_mem v) ->
  wp (ext fl) (JoinRoom a u ch) v (fun _ v' => rooms_ok (v_mem v') /\ rooms_only (v_mem v) (v_mem v') /\
    forall a', room_view a' (v_mem v') = if decide (a' = a) then abs_join u ch (room_view a (v_mem v)) else room_view a' (v_mem v)).
Proof.
  intros Ho. apply wp_mem. intros t Ht. destruct (join_section_ok a u ch _ Ho) as [Ho' Hv]. cbn. split; [done|]. split; [|done].
  unfold join_section. by destruct (room_ptr a (v_mem v)).
Qed.

Lemma leave_rooms_only r u ex m : rooms_only m (leave_section r u ex m).2.
Proof. unfold leave_section. destruct (room_heap m !! r) as [room|]; [|done]. by destruct (Leave u ex room). Qed.

Lemma collect_rooms_only a r m : rooms_only m (collect_section a r m).2.
Proof. unfold collect_section. repeat case_match; done. Qed.

Lemma wp_LeaveRoom a u ex v : rooms_ok (v_mem v) ->
  wp (ext fl) (LeaveRoom a u ex) v (fun _ v' => rooms_ok (v_mem v') /\ rooms_only (v_mem v) (v_mem v') /\
    forall a', room_view a' (v_mem v') = if decide (a' = a) then abs_leave u ex (room_view a (v_mem v)) else room_view a' (v_mem v)).
Proof.
  intros Ho. unfold LeaveRoom. cbn [bind call]. apply wp_mem. intros t Ht. cbn [fst snd].
  destruct (room_ptr a (v_mem v)) as [r|] eqn:Hr.
  2:{ cbn. split; [done|]. split; [done|]. intros a'. case_decide; [subst|done]. unfold room_view. by rewrite Hr. }
  cbn [bind]. apply wp_mem. intros t1 Ht1. cbn [v_mem set_mem tick].
  destruct (leave_section_ok r u ex _ Ho) as [Ho1 Hv1]. pose proof (leave_rooms_only r u ex (v_mem v)) as Hro1.
  assert (forall a', room_view a' (leave_section r u ex (v_mem v)).2
    = if decide (a' = a) then abs_leave u ex (room_view a (v_mem v)) else room_view a' (v_mem v)) as Hv2.
  { intros a'. rewrite Hv1. destruct (decide (a' = a)) as [->|Hne]; [by rewrite !decide_True by done|].
    rewrite decide_False; [done|]. intros Hr'. apply Hne. exact (ro_inj _ Ho _ _ _ Hr' Hr). }
  destruct (leave_section r u ex (v_mem v)).1; [|by cbn]. cbn [negb]. apply wp_mem. intros t2 Ht2. cbn [wp v_mem set_mem tick].
  destruct (collect_section_ok a r _ Ho1) as [Ho2 Hv3]. split; [done|]. split.
  - eapply rooms_only_trans; [exact Hro1|apply collect_rooms_only].
  - intros a'. by rewrite Hv3.
Qed.

(** ** Every room a connection is in is tracked *)
Definition tracked (c : nat) (u : Z) (ch : chan) (m : ConnectMem) : Prop :=
  rooms_ok m /\ exists cl, client_heap m !! c = Some cl /\ forall a, (u, ch) ∈ room_view a m -> a ∈ c_rooms cl.

(** The connection is in no room. *)
Definition roomless (u : Z) (ch : chan) (m : ConnectMem) : Prop := forall a, (u, ch) ∉ room_view a m.

Lemma room_view_client c f a m : room_view a (set_client c f m) = room_view a m.
Proof. done. Qed.

Lemma rooms_ok_client c f m : rooms_ok m -> rooms_ok (set_client c f m).
Proof. by intros []. Qed.

Lemma abs_leave_gone u ch l : (u, ch) ∉ abs_leave u (Some ch) l.
Proof. intros [Hn _]%list_elem_of_filter. apply Hn. auto. Qed.

Lemma wp_room_command c u ch cmd v : tracked c u ch (v_mem v) ->
  wp (ext fl) (room_command c u ch cmd) v (fun _ v' => tracked c u ch (v_mem v')).
Proof.
  intros (Ho & cl & Hcl & Htr). unfold room_command. destruct (String.eqb (Op cmd) "joinRoom").
  - destruct (_ <=? 0); [split; [done|by exists cl]|]. apply wp_bind. eapply wp_mono; [by apply wp_JoinRoom|].
    intros _ v1 (Ho1 & (_ & Hh & _) & Hv1). apply wp_mem. intros t Ht. cbn [wp v_mem set_mem tick].
    split; [by apply rooms_ok_client|]. eexists. split; [cbn; by rewrite lookup_alter_eq, Hh, Hcl|].
    intros a. cbn [snd add_room c_rooms]. rewrite room_view_client, Hv1. case_decide as Hd; [set_solver|]. intros Ha%Htr. set_solver.
  - destruct (String.eqb (Op cmd) "leaveRoom"); [|split; [done|by exists cl]]. destruct (_ <=? 0); [split; [done|by exists cl]|].
    apply wp_bind. eapply wp_mono; [by apply wp_LeaveRoom|].
    intros _ v1 (Ho1 & (_ & Hh & _) & Hv1). apply wp_mem. intros t Ht. cbn [wp v_mem set_mem tick].
    split; [by apply rooms_ok_client|]. eexists. split; [cbn; by rewrite lookup_alter_eq, Hh, Hcl|].
    intros a. cbn [snd remove_room c_rooms]. rewrite room_view_client, Hv1. case_decide as Hd.
    + intros Ha. by apply abs_leave_gone in Ha.
    + intros Ha%Htr. set_solver.
Qed.

Lemma wp_leaveAllRooms c u ch v : tracked c u ch (v_mem v) ->
  wp (ext fl) (leaveAllRooms c u ch) v (fun _ v' => roomless u ch (v_mem v')).
Proof.
  intros (Ho & cl & Hcl & Htr). unfold leaveAllRooms. cbn [bind call]. apply wp_mem. intros t Ht. cbn [fst snd take_rooms].
  rewrite Hcl. apply wp_range. intros t1 ids Ht1 Hperm.
  set (m1 := set_client _ _ _). eapply wp_mono; [apply (wp_for_each _ _ _ (fun done v' => rooms_ok (v_mem v')
    /\ forall a, (u, ch) ∈ room_view a (v_mem v') -> a ∈ c_rooms cl /\ a ∉ done))|].
  - split; [by apply rooms_ok_client|]. intros a Ha. split; [by apply Htr|set_solver].
  - intros pre a rest v1 _ [Ho1 Hin]. eapply wp_mono; [by apply wp_LeaveRoom|].
    intros _ v2 (Ho2 & _ & Hv2). split; [done|]. intros a'. rewrite Hv2. case_decide as Hd.
    + intros Ha. by apply abs_leave_gone in Ha.
    + intros [? ?]%Hin. split; [done|]. set_solver.
  - intros _ v1 [_ Hin] a Ha. apply Hin in Ha as [Ha Hn]. apply Hn. rewrite <- Hperm. by apply elem_of_elements.
Qed.

Lemma wp_read_loop c u ch messages v : tracked c u ch (v_mem v) ->
  wp (ext fl) (read_loop c u ch messages) v (fun e v' => e = PumpDone -> roomless u ch (v_mem v')).
Proof.
  revert v. induction messages as [|msg rest IH]; intros v Htr; cbn [read_loop].
  { apply wp_bind. eapply wp_mono; [by apply wp_leaveAllRooms|]. intros u0 v1 Hr _. exact Hr. }
  destruct (Nat.ltb _ _). { apply wp_bind. eapply wp_mono; [by apply wp_leaveAllRooms|]. intros u0 v1 Hr _. exact Hr. }
  destruct (Unmarshal_RoomCmd msg) as [[cmd|]|e]; [|done|by apply IH].
  apply wp_bind. eapply wp_mono; [by apply wp_room_command|]. intros u0 v1 Htr1. by apply IH.
Qed.

(** ** Clients *)

Lemma wp_conn_kept gc c v : conn_ok gc (v_mem v) ->
  wp (ext fl) (closeConn c) v (fun _ v' => conn_ok gc (v_mem v')).
Proof.
  intros Hok. unfold closeConn. cbn [bind call]. apply wp_mem. intros t Ht.
  pose proof (once_conn gc c _ Hok) as H1. destruct (once_section c (v_mem v)).1; [|done].
  apply wp_mem. intros t1 Ht1. apply set_client_conn; [done|done|done].
Qed.

(** Between [m] and [m'] at most client [c] changed, and its [done] channel
    is closed in [m']. *)
Definition closed (c : nat) (m m' : ConnectMem) : Prop :=
  Clients m' = Clients m /\ chan_heap m' = chan_heap m /\ buckets m' = buckets m /\ room_heap m' = room_heap m
  /\ (forall c', c' <> c -> client_heap m' !! c' = client_heap m !! c') /\ is_done c m' = true.

Lemma wp_closeConn gc c u v : conn_ok gc (v_mem v) -> gc !! c = Some u ->
  wp (ext fl) (closeConn c) v (fun _ v' => closed c (v_mem v) (v_mem v')).
Proof.
  intros [A B _ _] Hu. apply A in Hu as (cl & Hcl & _). destruct (B _ _ Hcl) as (_ & _ & _ & Hx).
  unfold closeConn. cbn [bind call]. apply wp_mem. intros t Ht. unfold once_section. rewrite Hcl.
  destruct (c_once cl) eqn:Ho; cbn [fst snd].
  - cbn. split_and!; try done. unfold is_done. by rewrite Hcl, Hx.
  - apply wp_mem. intros t1 Ht1. unfold closed, is_done.
    cbn [wp v_mem set_mem tick snd conn_close set_client client_heap Clients chan_heap buckets room_heap]. split_and!; try done.
    + intros c' Hne. by rewrite !lookup_alter_ne by done.
    + by rewrite !lookup_alter_eq, Hcl.
Qed.

(** The client that was current for the user before. *)
Lemma wp_AddClient gc u c v : conn_ok gc (v_mem v) -> gc !! c = Some u ->
  wp (ext fl) (AddClient u c) v (fun _ v' =>
    conn_ok gc (v_mem v')
    /\ Clients (v_mem v') = <[u := c]> (Clients (v_mem v)) /\ chan_heap (v_mem v') = chan_heap (v_mem v)
    /\ (forall c', (forall o, Clients (v_mem v) !! u = Some o -> c' <> o) \/ c' = c ->
          client_heap (v_mem v') !! c' = client_heap (v_mem v) !! c')
    /\ (forall o, Clients (v_mem v) !! u = Some o -> o <> c -> is_done o (v_mem v') = true)).
Proof.
  intros Hok Hu. unfold AddClient. cbn [bind call]. apply wp_mem. intros t Ht. cbn [fst snd add_section].
  pose proof (add_conn gc u c _ Hu Hok) as Hok1. cbn [snd add_section] in Hok1.
  destruct (Clients (v_mem v) !! u) as [o|] eqn:Ho; [|cbn; split_and!; done].
  destruct (Nat.eqb_spec o c) as [->|Hne]; [cbn; split_and!; [done..|]; intros o [= <-]; done|].
  assert (gc !! o = Some u) as Hgo by by apply (co_current _ _ Hok).
  set (v1 := set_mem _ _). change (v_mem v) with (v_mem v) in *.
  assert (conn_ok gc (v_mem v1)) as Hok1' by exact Hok1.
  pose proof (wp_closeConn gc o u v1 Hok1' Hgo) as H1.
  pose proof (wp_conn_kept gc o v1 Hok1') as H2.
  eapply wp_mono; [exact (wp_and _ _ _ _ _ H1 H2)|]. intros _ v' [(Hc1 & Hch & _ & _ & Hh & Hd) Hok2]. split_and!; [done|done|done| |].
  - intros c' Hc'. rewrite Hh; [done|]. destruct Hc' as [Hc'|Hc']; [by apply Hc'|congruence].
  - intros o' [= <-] _. done.
Qed.

(** Does the entry of [u] match [ex]? *)
Definition matches (u : Z) (ex : option nat) (m : ConnectMem) (c : nat) : Prop :=
  Clients m !! u = Some c /\ (ex = None \/ ex = Some c).

Lemma remove_section_cases u ex m :
  match remove_section u ex m with
  | (Some c, m') => matches u ex m c /\ m' = set_Clients (delete u) m
  | (None, m') => (forall c, ~ matches u ex m c) /\ m' = m
  end.
Proof.
  unfold remove_section, matches. destruct (Clients m !! u) as [cc|]; [|split; [by intros c [? _]|done]].
  destruct ex as [e|]; [|split; [auto|done]]. destruct (Nat.eqb_spec cc e) as [<-|Hne]; cbn; [auto|].
  split; [|done]. intros c [[= <-] [?|[= ?]]]; [done|congruence].
Qed.

Lemma wp_RemoveClientIfMatch gc u ex v : conn_ok gc (v_mem v) ->
  wp (ext fl) (RemoveClientIfMatch u ex) v (fun b v' =>
    match b with
    | true => exists c, matches u ex (v_mem v) c /\ Clients (v_mem v') = delete u (Clients (v_mem v))
                /\ (forall c', c' <> c -> client_heap (v_mem v') !! c' = client_heap (v_mem v) !! c')
                /\ is_done c (v_mem v') = true
    | false => (forall c, ~ matches u ex (v_mem v) c) /\ v_mem v' = v_mem v
                /\ v_rds v' = purge (v_now v') (v_rds v)
    end).
Proof.
  intros Hok. unfold RemoveClientIfMatch. cbn [bind call]. apply wp_mem. intros t Ht.
  pose proof (remove_section_cases u ex (v_mem v)) as Hc. pose proof (remove_conn gc u ex _ Hok) as Hok1.
  destruct (remove_section u ex (v_mem v)) as [[c|] m']; cbn [fst snd] in *; destruct Hc as [Hm ->]; [|by cbn].
  apply wp_bind. assert (gc !! c = Some u) as Hg by (apply (co_current _ _ Hok), Hm).
  eapply wp_mono; [apply (wp_closeConn gc c u); [exact Hok1|done]|].
  intros _ v' (Hcl & _ & _ & _ & Hh & Hd). exists c. by split_and!.
Qed.

(** ** Pushes *)

Lemma wp_trySend c ch payload v :
  wp (ext fl) (trySend c ch payload) v (fun b v' =>
    match b with
    | true => chan_ready ch (v_mem v) = true /\ v_mem v' = set_chan ch (fun buf => buf ++ [payload])%list (v_mem v)
    | false => v_mem v' = v_mem v /\ (is_done c (v_mem v) = true \/ chan_ready ch (v_mem v) = false)
    end).
Proof.
  unfold trySend. cbn [bind call]. apply wp_range. intros t order Ht Hperm. apply wp_mem. intros t1 Ht1.
  cbn [wp v_mem set_mem tick]. unfold try_section.
  destruct (List.find (try_ready c ch (v_mem v)) order) as [k|] eqn:Hf.
  - apply List.find_some in Hf as [Hin Hr]. destruct k; cbn in *; [auto| |done].
    unfold chan_offer. rewrite Hr. done.
  - cbn. split; [done|]. right. apply (List.find_none _ _ Hf CaseSend). apply list_elem_of_In. rewrite <- Hperm. set_solver.
Qed.

Lemma wp_PushMsg req v :
  wp (ext fl) (PushMsg_handler req) v (fun r v' => exists b, r = Ok {| pmp_Success := b |} /\
    match b with
    | true => exists c ch, find_client (pmr_ToUserId req) (v_mem v) = Some (c, ch) /\ chan_ready ch (v_mem v) = true
               /\ v_mem v' = set_chan ch (fun buf => buf ++ [pmr_Payload req])%list (v_mem v)
    | false => v_mem v' = v_mem v /\ forall c ch, find_client (pmr_ToUserId req) (v_mem v) = Some (c, ch) ->
                 is_done c (v_mem v) = true \/ chan_ready ch (v_mem v) = false
    end).
Proof.
  unfold PushMsg_handler. cbn [bind call]. apply wp_mem. intros t Ht. cbn [fst snd].
  destruct (find_client (pmr_ToUserId req) (v_mem v)) as [[c ch]|] eqn:Hc.
  - apply wp_bind. eapply wp_mono; [apply wp_trySend|]. intros [] v' Hr; cbn in *.
    + destruct Hr as [Hr Hm]. exists true. split; [done|]. by exists c, ch.
    + destruct Hr as [Hm Hr]. exists false. split; [done|]. split; [done|]. by intros c' ch' [= <- <-].
  - cbn. exists false. split; [done|]. by split.
Qed.

(** Pushing to several clients: the outcomes, and the memory they leave. *)
Inductive pushed (payload : string) : list (nat * chan) -> ConnectMem -> nat -> ConnectMem -> Prop :=
| pushed_nil m : pushed payload [] m 0 m
| pushed_ok c ch rest m n m' :
    chan_ready ch m = true ->
    pushed payload rest (set_chan ch (fun buf => buf ++ [payload])%list m) n m' ->
    pushed payload ((c, ch) :: rest) m n m'
| pushed_fail c ch rest m n m' :
    is_done c m = true \/ chan_ready ch m = false ->
    pushed payload rest m n m' -> pushed payload ((c, ch) :: rest) m (S n) m'.

Lemma wp_push_all clients payload k v :
  wp (ext fl) (push_all clients payload k) v (fun n v' => exists f, n = (k + f)%nat /\ pushed payload clients (v_mem v) f (v_mem v')).
Proof.
  revert k v. induction clients as [|[c ch] rest IH]; intros k v; cbn [push_all].
  { exists 0%nat. split; [lia|constructor]. }
  apply wp_bind. eapply wp_mono; [apply wp_trySend|]. intros [] v1 H1.
  - destruct H1 as [Hr Hm]. eapply wp_mono; [apply IH|]. intros n v' (f & -> & Hp). exists f. split; [done|].
    rewrite Hm in Hp. by constructor.
  - destruct H1 as [Hm Hr]. eapply wp_mono; [apply IH|]. intros n v' (f & -> & Hp). exists (S f). split; [lia|].
    rewrite Hm in Hp. by constructor.
Qed.

(** ** The write pump *)
Lemma wp_writePump c ch turns v buf : chan_heap (v_mem v) !! ch = Some buf ->
  wp (ext fl) (writePump c ch turns) v (fun ms v' => exists lost rest,
    chan_heap (v_mem v') !! ch = Some rest /\ buf = (ms ++ lost ++ rest)%list /\ (length lost <= 1)%nat).
Proof.
  revert v buf. induction turns as [|t rest IH]; intros v buf Hb; cbn [writePump bind call].
  { exists [], buf. by split_and!; [..|cbn; lia]. }
  apply wp_range. intros t1 order Ht1 _. cbn [bind]. apply wp_mem. intros t2 Ht2. cbn [v_mem tick].
  assert (forall v1 buf1 (lost : list string), chan_heap (v_mem v1) !! ch = Some buf1 -> buf = (lost ++ buf1)%list -> (length lost <= 1)%nat ->
    wp (ext fl) (call (Mem (conn_close c)) ;; Ret (@nil string)) v1 (fun ms v' => exists lost rest,
      chan_heap (v_mem v') !! ch = Some rest /\ buf = (ms ++ lost ++ rest)%list /\ (length lost <= 1)%nat)) as Hstop.
  { intros v1 buf1 lost Hb1 Heq Hl. cbn [bind call]. apply wp_mem. intros t3 Ht3. by exists lost, buf1. }
  unfold write_section. destruct (List.find (write_ready c ch t (v_mem v)) order) as [[]|] eqn:Hf; cbn [fst snd].
  - apply (Hstop _ buf []); [done|done|cbn; lia].
  - apply List.find_some in Hf as [_ Hr]. cbn in Hr. rewrite Hb in *. destruct buf as [|msg buf]; [done|]. cbn [fst snd].
    assert (chan_heap (v_mem (set_mem (set_chan ch (List.tl (A:=string)) (v_mem v)) (tick t2 (tick t1 v)))) !! ch = Some buf) as Hb1
      by (cbn; by rewrite lookup_alter_eq, Hb).
    destruct (wt_write_ok t); [|apply (Hstop _ buf [msg]); [done|done|cbn; lia]]. apply wp_bind. eapply wp_mono; [by apply IH|].
    intros ms v' (lost & left_ & Hleft & -> & Hl). by exists lost, left_.
  - destruct (wt_write_ok t); [by apply IH|]. apply (Hstop _ buf []); [done|done|cbn; lia].
  - by apply IH.
Qed.

(** ** Opening and ending a connection *)
Lemma wp_offline gc c u v : conn_ok gc (v_mem v) ->
  wp (ext fl) (offline c u) v (fun _ v' =>
    (Clients (v_mem v) !! u <> Some c -> v_mem v' = v_mem v /\ v_rds v' = purge (v_now v') (v_rds v))
    /\ (Clients (v_mem v) !! u = Some c -> Clients (v_mem v') = delete u (Clients (v_mem v))
         /\ (fl = false -> v_rds v' !! userServerKey u = None))).
Proof.
  intros Hok. unfold offline. apply wp_bind. eapply wp_mono; [by apply (wp_RemoveClientIfMatch gc)|].
  intros [] v1 H1.
  - destruct H1 as (c' & [Hc [?|[= ->]]] & Hcl & _); [done|].
    unfold UnregisterUser. cbn [bind call]. apply wp_rds. intros t r ks Ht Hr.
    assert (wp (ext fl) (bind (match r with Ok _ => Ret (Ok ()) | Err e => Ret (Err e) end) (fun _ => Ret tt)) (set_rds ks (tick t v1))
      (fun _ v' => (Clients (v_mem v) !! u <> Some c' -> v_mem v' = v_mem v /\ v_rds v' = purge (v_now v') (v_rds v))
        /\ (Clients (v_mem v) !! u = Some c' -> Clients (v_mem v') = delete u (Clients (v_mem v))
             /\ (fl = false -> v_rds v' !! userServerKey u = None)))) as Hend.
    { destruct r; cbn; (split; [done|]; intros _; split; [done|]; intros Hfl);
        (destruct Hr as [[_ ->] | [[? _] _]]; [cbn; apply lookup_delete_eq|congruence]). }
    destruct r; exact Hend.
  - destruct H1 as (Hno & Hm & Hr). cbn. split; [done|]. intros Hc. exfalso. apply (Hno c). split; [done|by right].
Qed.

Lemma wp_RegisterUser rg u (k : res unit -> prog (ev ConnectMem) ws_result) v Q :
  (forall t, v_now v <= t -> wp (ext fl) (k (Ok tt))
    (set_rds (<[userServerKey u := REntry (VStr (ServerID rg)) (Some (t + 24 * hour_ms))]> (purge t (v_rds v))) (tick t v)) Q) ->
  (forall t ks e, v_now v <= t -> fl = true -> wp (ext fl) (k (Err e)) (set_rds ks (tick t v)) Q) ->
  wp (ext fl) (bind (RegisterUser rg u) k) v Q.
Proof.
  intros Hok Herr. unfold RegisterUser. cbn [bind call]. apply wp_rds. intros t r ks Ht Hr.
  destruct Hr as [[Hr ->] | [[Hfl [msg ->]] _]]; [|by apply Herr]. cbn in Hr. subst r. by apply Hok.
Qed.

Context `{HCo : Collation}.

Lemma wp_ServeWS rg gc own act up sid v :
  sess_rep own act (v_rds v) -> conn_ok gc (v_mem v) ->
  wp (ext fl) (ServeWS rg (fun r => rpc (Verify r)) up sid) v (fun r v' =>
    match r with
    | Serving c u =>
        up = true /\ (exists ex, act !! u = Some (sid, ex)) /\ Clients (v_mem v') = <[u := c]> (Clients (v_mem v))
        /\ (forall o, Clients (v_mem v) !! u = Some o -> is_done o (v_mem v') = true)
        /\ is_done c (v_mem v') = false /\ find_client u (v_mem v') = Some (c, c) /\ chan_heap (v_mem v') !! c = Some []
        /\ v_rds v' !! userServerKey u = Some (REntry (VStr (ServerID rg)) (Some (v_now v' + 24 * hour_ms)))
    | RegisterFailed => fl = true
    | UpgradeFailed => up = false /\ v_mem v' = v_mem v
    | HttpUnauthorized _ => v_mem v' = v_mem v
        /\ (sid <> "" -> fl = false -> forall u ex, act !! u = Some (sid, ex) -> ex <= v_now v')
    end).
Proof.
  intros R Hok. unfold ServeWS. destruct (String.eqb_spec sid "") as [Hs|Hs]; [by cbn|].
  apply wp_bind. apply wp_rpc; [intros t msg Ht Hfl; cbn; split; [done|congruence]|].
  intros t Ht. eapply wp_mono; [apply (wp_Verify _ own); by apply rep_purge|].
  intros r v1 (Hn1 & Hv1 & Hr) t1 Ht1. cbn in Hn1. assert (v_mem v1 = v_mem v) as Hm1 by (destruct Hv1 as [-> | ->]; done).
  split; [|intros Hfl msg; cbn; split; [done|congruence]].
  destruct r as [rp|e]; cbn [vp_UserId].
  2:{ cbn. split; [done|]. intros Hne Hfl u ex Hu. destruct (decide (ex <= t)); [lia|].
      specialize (Hr Hne Hfl u ex). etransitivity; [apply Hr|done]. apply act_expire_lookup. split; [done|]. cbn. lia. }
  destruct up; cbn [negb]; [|by cbn]. destruct Hr as (ex & Ha & Hex). apply act_expire_lookup in Ha as [Ha _].
  set (u := vp_UserId rp) in *. cbn [bind call]. apply wp_mem. intros t2 Ht2.
  destruct (alloc_conn gc u (v_mem v1)) as [Hnew Hok2]; [by rewrite Hm1|].
  set (v2 := set_mem _ _). set (c := next_ptr (v_mem v1)) in *.
  assert ((<[c := u]> gc : gmap nat Z) !! c = Some u) as Hcu by apply lookup_insert_eq.
  assert (forall o, Clients (v_mem v) !! u = Some o -> o <> c) as Hold.
  { intros o Ho ->. apply (co_current _ _ Hok) in Ho. congruence. }
  apply wp_bind. cbn [fst alloc_client]. change (next_ptr (v_mem (tick t1 v1))) with c.
  eapply wp_mono; [exact (wp_AddClient _ u c v2 Hok2 Hcu)|]. intros _ v3 (Hok3 & Hcl3 & Hch3 & Hh3 & Hd3).
  apply wp_RegisterUser.
  - intros t4 Ht4. cbn [wp v_mem set_rds tick].
    assert (client_heap (v_mem v3) !! c = Some (MkClient u c ∅ false 0 false)) as Hc3.
    { rewrite Hh3 by (by right). cbn. apply lookup_insert_eq. }
    assert (Clients (v_mem v2) = Clients (v_mem v)) as Hcl2 by (cbn; by rewrite Hm1).
    split_and!; [done|by exists ex|by rewrite Hcl3, Hcl2| | | | |].
    + intros o Ho. apply Hd3; [by rewrite Hcl2|by apply Hold].
    + unfold is_done. by rewrite Hc3.
    + unfold find_client. rewrite Hcl3, lookup_insert_eq. cbn. by rewrite Hc3.
    + rewrite Hch3. cbn. apply lookup_insert_eq.
    + cbn. apply lookup_insert_eq.
  - intros t4 ks e Ht4 Hfl. apply wp_bind.
    eapply wp_mono; [by apply (wp_RemoveClientIfMatch (<[c := u]> gc))|]. done.
Qed.
End runs.

(** ** Theorems *)
Section theorems.
Context `{HC : Crypto} `{HCo : Collation} `{HF : Farm} `{HJ : JsonRoomCmd} {fl : bool} {W : Type}
  `{HW : !World fl ConnectMem W}.

(** C16. Whatever goroutines run on a node and however they interleave, from
    its start: the rooms stay well-formed and the members of a room have
    distinct channels; no [done] channel is closed twice (which would panic)
    and it is closed exactly when [closeOnce] has run; the current connection
    of a user is a connection of that user; no send buffer exceeds its
    capacity. *)
Theorem node_invariant v ps' v' :
  v_mem v = node_start ->
  pool_reachable (ext fl) env (fun p => exists op, op_ok op /\ p = node_prog op) ([], v) (ps', v') ->
  let m := v_mem v' in
  rooms_ok m
  /\ (forall a, NoDup (room_view a m).*1 /\ NoDup (room_view a m).*2)
  /\ (forall c cl, client_heap m !! c = Some cl -> c_closes cl = (if c_once cl then 1 else 0)%nat)
  /\ (forall u c, Clients m !! u = Some c -> exists cl, client_heap m !! c = Some cl /\ c_UserID cl = u)
  /\ (forall ch buf, chan_heap m !! ch = Some buf -> (length buf <= sendCap)%nat).
Proof.
  intros Hv Hrun m.
  destruct (node_pool_inv fl (HA := ambient_any fl) op_ok tt v ps' v')
    as ([gr gc] & x & _ & ((Ho & _ & _ & Hown) & Hok & _) & _); [intros op []; apply op_ok_fits|done|done|done|].
  cbn in Hown, Hok. fold m in Ho, Hown, Hok. split_and!.
  - done.
  - intros a. by eapply rooms_distinct.
  - intros c cl Hcl. by destruct (co_client _ _ Hok _ _ Hcl) as (_ & _ & _ & ?).
  - intros u c Hc%(co_current _ _ Hok). by apply (co_alloc _ _ Hok).
  - apply (co_chan _ _ Hok).
Qed.

(** C21. A connection is served only to the user whose active session it
    presents: its user id is the one the session index holds, the connection
    becomes the user's current one (an older one is closed) with an empty send
    buffer, it can be found for pushes, and Redis routes the user to this node.  Other outcomes
    register nothing, and without failures a valid session is not refused. *)
Theorem ServeWS_authenticates rg gc own act up sid w r w' :
  sess_rep own act (v_rds (view w)) -> conn_ok gc (v_mem (view w)) ->
  exec (ServeWS rg (fun r => rpc (Verify r)) up sid) w = (r, w') ->
  let m := v_mem (view w) in
  let m' := v_mem (view w') in
  match r with
  | Serving c u =>
      up = true /\ (exists ex, act !! u = Some (sid, ex)) /\ Clients m' = <[u := c]> (Clients m)
      /\ (forall o, Clients m !! u = Some o -> is_done o m' = true)
      /\ is_done c m' = false /\ find_client u m' = Some (c, c) /\ chan_heap m' !! c = Some []
      /\ v_rds (view w') !! userServerKey u
           = Some (REntry (VStr (ServerID rg)) (Some (v_now (view w') + 24 * hour_ms)))
  | RegisterFailed => fl = true
  | UpgradeFailed => up = false /\ m' = m
  | HttpUnauthorized _ => m' = m
      /\ (sid <> "" -> fl = false -> forall u ex, act !! u = Some (sid, ex) -> ex <= v_now (view w'))
  end.
Proof. intros R Hok Hrun. by_wp Hrun. by apply (wp_ServeWS fl rg gc own). Qed.

(** When the read pump of a connection ends after a newer connection of
    the same user took over on this node, it changes nothing: the newer
    connection stays registered and routed. *)
Theorem stale_pump_harmless gc c u w x w' :
  conn_ok gc (v_mem (view w)) -> Clients (v_mem (view w)) !! u <> Some c ->
  exec (offline c u) w = (x, w') ->
  v_mem (view w') = v_mem (view w) /\ v_rds (view w') = purge (v_now (view w')) (v_rds (view w)).
Proof.
  intros Hok Hne Hrun. by_wp Hrun. eapply wp_mono; [by apply (wp_offline fl gc)|]. intros _ v' [H _]. by apply H.
Qed.

(** C40. The routing entry of a user is removed by the node that sees its
    connection end, whatever node the entry names: a user who has reconnected
    to another node meanwhile is connected there but no longer routed. *)
Theorem reconnect_elsewhere_unrouted gc c u other ex w x w' :
  fl = false -> conn_ok gc (v_mem (view w)) -> Clients (v_mem (view w)) !! u = Some c ->
  v_rds (view w) !! userServerKey u = Some (REntry (VStr other) ex) ->
  exec (offline c u) w = (x, w') ->
  v_rds (view w') !! userServerKey u = None.
Proof.
  intros Hfl Hok Hc _ Hrun. by_wp Hrun. eapply wp_mono; [by apply (wp_offline fl gc)|].
  intros _ v' [_ H]. by apply H.
Qed.

(** PushMsg answers Success exactly when the payload went into the send
    buffer of the user's current connection; otherwise the user has no
    connection here, or it is closed, or its buffer is full, and nothing
    changed. *)
Theorem PushMsg_delivers req w r w' :
  exec (PushMsg_handler req) w = (r, w') ->
  exists b, r = Ok {| pmp_Success := b |} /\
  let m := v_mem (view w) in
  match b with
  | true => exists c ch, find_client (pmr_ToUserId req) m = Some (c, ch) /\ chan_ready ch m = true
             /\ v_mem (view w') = set_chan ch (fun buf => buf ++ [pmr_Payload req])%list m
  | false => v_mem (view w') = m /\ forall c ch, find_client (pmr_ToUserId req) m = Some (c, ch) ->
               is_done c m = true \/ chan_ready ch m = false
  end.
Proof. intros Hrun. by_wp Hrun. apply wp_PushMsg. Qed.

(** PushMsgToUsers offers the payload to the connections of the listed
    users that are connected here, once per mention and in order, and answers
    Success exactly when none of them refused it. *)
Theorem PushMsgToUsers_delivers req w r w' :
  exec (PushMsgToUsers_handler req) w = (r, w') ->
  exists fail, r = Ok {| pmp_Success := Nat.eqb fail 0 |}
    /\ pushed (par_Payload req) (omap (M := list) (fun u => find_client u (v_mem (view w))) (par_UserIds req))
         (v_mem (view w)) fail (v_mem (view w')).
Proof.
  intros Hrun. by_wp Hrun. unfold PushMsgToUsers_handler. cbn [bind call]. apply wp_mem. intros t Ht. cbn [fst snd].
  apply wp_bind. eapply wp_mono; [apply wp_push_all|]. intros n v' (f & -> & Hp). by exists f.
Qed.

(** C33. The write pump writes what was put in the send buffer, in order and
    without duplicates; at most one message is lost, the one whose write
    failed. *)
Theorem writePump_fifo c ch turns buf w ms w' :
  chan_heap (v_mem (view w)) !! ch = Some buf ->
  exec (writePump c ch turns) w = (ms, w') ->
  exists lost rest, chan_heap (v_mem (view w')) !! ch = Some rest
    /\ buf = (ms ++ lost ++ rest)%list /\ (length lost <= 1)%nat.
Proof. intros Hb Hrun. by_wp Hrun. by apply wp_writePump. Qed.

(** C30. A connection that has ended is in no room: whatever commands the
    peer sent, when the read loop stops the connection's channel is a member
    of no room of the node. *)
Theorem ended_connection_roomless c u ch messages w w' :
  tracked c u ch (v_mem (view w)) ->
  exec (read_loop c u ch messages) w = (PumpDone, w') ->
  roomless u ch (v_mem (view w')).
Proof. intros Htr Hrun. by apply (exec_wp _ _ _ (wp_read_loop fl c u ch messages _ Htr) _ _ Hrun). Qed.

(** A peer that sends the JSON value null makes the read pump panic on a
    nil pointer, which ends the whole process. *)
Theorem null_message_panics c u ch rest w e w' :
  exec (readPump c u ch ("null" :: rest)) w = (e, w') -> e = PumpPanic.
Proof.
  intros Hrun. by_wp Hrun. unfold readPump. cbn [read_loop]. rewrite Unmarshal_null. cbn [String.length Nat.ltb Nat.leb maxMessageSize bind].
  apply wp_bind. generalize (offline c u : prog (ev ConnectMem) unit). intros p.
  generalize (view w). induction p as [a|X ev_ k IH]; intros v; cbn; [done|]. intros. apply IH.
Qed.
End theorems.
