(* ===== verification/ClientPool.v ===== *)
(** * Connections to connect nodes (src/internal/task/rpc_client.go,
    src/internal/common/connect_client.go)

    The task process keeps one gRPC connection per connect node.  A connection
    is a number; [opened] counts those created so far and [closed_conns] lists
    those that were closed. *)

From Stdlib Require Import ZArith Lia String.
From stdpp Require Import base tactics list gmap strings.
From S2P Require Import Prelude Effects Redis Database Proto World Rules.

Local Open Scope Z_scope.

(** grpc.NewClient (google.golang.org/grpc), as NewConnectClinet uses it: an
    error for a target it cannot parse. *)
Class Dialer := { NewClient : string -> res unit }.

(** The string of one line feed. *)
Definition newline : string := String.String (Ascii.ascii_of_nat 10) "".

Record TaskMem := {
  clients : gmap string nat;
  opened : nat;
  closed_conns : list nat }.

(** A client stub: calls on it go to the node [pc_server]. *)
Record pooledConnectClient := { pc_server : string; pc_conn : nat }.

Definition task_start : TaskMem := {| clients := ∅; opened := 0; closed_conns := [] |}.

Section pool.
Context `{Dialer}.

(** common.NewConnectClinet: a stub over a connection without TLS. *)
Definition NewConnectClinet (addr : string) : res unit :=
  match NewClient addr with
  | Err err => Err err
  | Ok conn => Ok conn
  end.

Lemma NewConnectClinet_dials addr : NewConnectClinet addr = NewClient addr.
Proof. unfold NewConnectClinet. by destruct (NewClient addr). Qed.

(** The section of GetClient under the write lock. *)
Definition dial_section (serverID : string) (m : TaskMem) : res pooledConnectClient * TaskMem :=
  match clients m !! serverID with
  | Some c => (Ok {| pc_server := serverID; pc_conn := c |}, m)
  | None =>
      match NewConnectClinet serverID with
      | Err e => (Err e, m)
      | Ok _ =>
          (Ok {| pc_server := serverID; pc_conn := opened m |},
           {| clients := <[serverID := opened m]> (clients m); opened := S (opened m); closed_conns := closed_conns m |})
      end
  end.

Definition GetClient (serverID : string) : prog (ev TaskMem) (res pooledConnectClient) :=
  entry <- call (Mem (fun m => (clients m !! serverID, m))) ;;
  match entry with
  | Some c => Ret (Ok {| pc_server := serverID; pc_conn := c |})
  | None => call (Mem (dial_section serverID))
  end.

(** [entry.conn.Close()]: a connection that is closed already is an error. *)
Definition close_conn (c : nat) (m : TaskMem) : res unit * TaskMem :=
  if decide (c ∈ closed_conns m) then (Err (ErrExt "grpc: the client connection is closing"), m)
  else (Ok tt, {| clients := clients m; opened := opened m; closed_conns := c :: closed_conns m |}).

Definition take_client (serverID : string) (m : TaskMem) : option nat * TaskMem :=
  (clients m !! serverID,
   {| clients := delete serverID (clients m); opened := opened m; closed_conns := closed_conns m |}).

Definition CloseClient (serverID : string) : prog (ev TaskMem) (res unit) :=
  entry <- call (Mem (take_client serverID)) ;;
  match entry with
  | None => Ret (Ok tt)
  | Some c => call (Mem (close_conn c))
  end.

Definition take_all (m : TaskMem) : list (string * nat) * TaskMem :=
  (map_to_list (clients m), {| clients := ∅; opened := opened m; closed_conns := closed_conns m |}).

(** The loop of CloseAll; [errs] collects the failures. *)
Fixpoint close_entries (entries : list (string * nat)) (errs : list string) : prog (ev TaskMem) (list string) :=
  match entries with
  | [] => Ret errs
  | (serverID, c) :: rest =>
      err <- call (Mem (close_conn c)) ;;
      close_entries rest
        (match err with
         | Ok _ => errs
         | Err e => errs ++ ["close grpc conn for server " ++ serverID ++ ": " ++ Error e]%string
         end)%list
  end.

(** [errors.Join(errs...)]: nil without errors, else one message a line. *)
Definition errors_Join (errs : list string) : res unit :=
  match errs with [] => Ok tt | _ => Err (ErrMsg (String.concat newline errs)) end.

Definition CloseAll : prog (ev TaskMem) (res unit) :=
  taken <- call (Mem take_all) ;;
  entries <- call (Range taken) ;;
  errs <- close_entries entries [] ;;
  Ret (errors_Join errs).
End pool.

(** The operations a goroutine may ask of the pool. *)
Inductive client_op := OpGetClient (serverID : string) | OpCloseClient (serverID : string) | OpCloseAll.

Definition client_prog `{Dialer} (op : client_op) : prog (ev TaskMem) (res unit) :=
  match op with
  | OpGetClient serverID => c <- GetClient serverID ;; Ret (res_map (fun _ => tt) c)
  | OpCloseClient serverID => CloseClient serverID
  | OpCloseAll => CloseAll
  end.

(** ** The invariant of the pool *)

(** The pooled connections and the closed ones are distinct and were opened. *)
Record pool_ok (m : TaskMem) : Prop := {
  po_opened : forall s c, clients m !! s = Some c -> (c < opened m)%nat;
  po_inj : forall s1 s2 c, clients m !! s1 = Some c -> clients m !! s2 = Some c -> s1 = s2 }.

(** Every connection opened is in the pool, which never forgets an entry of [g]. *)
Definition pool_J (g : gmap string nat) (m : TaskMem) : Prop :=
  pool_ok m /\ size (clients m) = opened m /\ g ⊆ clients m.

Section proofs.
Context `{HC : Crypto} `{HD : Dialer} (fl : bool).

Lemma dial_section_ok g s m : pool_J g m ->
  exists g', g ⊆ g' /\ pool_J g' (dial_section s m).2
    /\ match (dial_section s m).1 with Ok p => pc_server p = s /\ g' !! s = Some (pc_conn p) | Err e => NewClient s = Err e end.
Proof.
  intros ([H1 H2] & Hsize & Hsub). unfold dial_section. destruct (clients m !! s) as [c|] eqn:Hc.
  - exists (clients m). split; [done|]. split; [by split_and!|done].
  - rewrite NewConnectClinet_dials. destruct (NewClient s) as [u|e] eqn:Hn; [|exists g; split; [done|by split_and!]].
    exists (<[s := opened m]> (clients m)). split; [etransitivity; [exact Hsub|by apply insert_subseteq]|].
    cbn [fst snd]. split; [|split; [done|apply lookup_insert_eq]].
    assert (forall x c, (<[s := opened m]> (clients m) : gmap string nat) !! x = Some c -> x = s /\ c = opened m \/ clients m !! x = Some c) as Hins.
    { intros x c [[<- <-]|[_ ?]]%lookup_insert_Some; auto. }
    split_and!; [split; cbn| |done].
    + intros x c [[_ ->]|Hx]%Hins; [lia|]. specialize (H1 _ _ Hx). lia.
    + intros x y c Hx Hy. apply Hins in Hx as [[-> ->]|Hx], Hy as [[-> ?]|Hy]; try done; [|subst|by eapply H2].
      * specialize (H1 _ _ Hy). lia.
      * specialize (H1 _ _ Hx). lia.
    + cbn. rewrite map_size_insert_None by done. lia.
Qed.

Lemma rg_GetClient g s :
  rg (ext fl) (⊆) (fun g (v : sysview TaskMem) => pool_J g (v_mem v)) g (GetClient s)
    (fun g' r => match r with Ok p => pc_server p = s /\ g' !! s = Some (pc_conn p) | Err e => NewClient s = Err e end).
Proof.
  unfold GetClient. cbn [bind call]. apply (rg_mem _ _ pool_J). intros g1 m Hle (Hok & Hsize & Hsub). cbn [fst snd].
  destruct (clients m !! s) as [c|] eqn:Hc.
  - exists (clients m). split; [done|]. split; [by split_and!|]. by split.
  - exists g1. split; [done|]. split; [done|]. apply (rg_mem _ _ pool_J). intros g2 m2 Hle2 HJ2.
    destruct (dial_section_ok g2 s m2 HJ2) as (g3 & Hle3 & HJ3 & Hr). by exists g3.
Qed.

(** ** A pooled connection is open

    The ghost state has the connections that were taken out of the pool; only
    those are ever closed, and a taken connection never comes back. *)
Definition open_J (taken : gset nat) (m : TaskMem) : Prop :=
  pool_ok m /\ (forall s c, clients m !! s = Some c -> c ∉ taken)
  /\ (forall c, c ∈ closed_conns m -> c ∈ taken) /\ (forall c, c ∈ taken -> (c < opened m)%nat).

Abbreviation rgo := (rg (ext fl) (⊆) (fun taken (v : sysview TaskMem) => open_J taken (v_mem v))).

Lemma open_dial taken s m : open_J taken m -> open_J taken (dial_section s m).2.
Proof.
  intros ([H1 H2] & H3 & H4 & H5). unfold dial_section. destruct (clients m !! s) as [c|] eqn:Hc; [by split_and!|].
  rewrite NewConnectClinet_dials. destruct (NewClient s) as [u|e]; [|by split_and!]. cbn [snd]. split_and!; cbn; [split; cbn| |done|].
  - intros x c [[_ <-]|[_ Hx]]%lookup_insert_Some; [lia|]. specialize (H1 _ _ Hx). lia.
  - intros x y c [[<- <-]|[_ Hx]]%lookup_insert_Some [[<- Hy]|[_ Hy]]%lookup_insert_Some; try done.
    + specialize (H1 _ _ Hy). lia.
    + subst. specialize (H1 _ _ Hx). lia.
    + by eapply H2.
  - intros x c [[_ <-]|[_ Hx]]%lookup_insert_Some; [|by eapply H3]. intros Hin%H5. lia.
  - intros c Hc'%H5. lia.
Qed.

(** Entries leave the pool and become taken. *)
Lemma open_take taken (cs : gset nat) (left : gmap string nat) m :
  left ⊆ clients m -> (forall s c, left !! s = Some c -> c ∉ cs) ->
  (forall c, c ∈ cs -> exists s, clients m !! s = Some c) ->
  open_J taken m ->
  open_J (taken ∪ cs) {| clients := left; opened := opened m; closed_conns := closed_conns m |}.
Proof.
  intros Hsub Hleft Hcs ([H1 H2] & H3 & H4 & H5).
  assert (forall s c, left !! s = Some c -> clients m !! s = Some c) as Hl by (intros s c Hs; by eapply lookup_weaken).
  split_and!; cbn; [split; cbn; eauto| | |].
  - intros s c Hc. rewrite not_elem_of_union. eauto.
  - intros c Hc%H4. set_solver.
  - intros c [Hc|[s Hc]%Hcs]%elem_of_union; eauto.
Qed.

Lemma open_close taken c m : c ∈ taken -> open_J taken m -> open_J taken (close_conn c m).2.
Proof.
  intros Hc ([H1 H2] & H3 & H4 & H5). unfold close_conn. case_decide; [by split_and!|].
  split_and!; cbn; [by split|done| |done]. intros c' [-> |Hc']%elem_of_cons; [done|auto].
Qed.

Lemma rg_close_entries taken entries errs :
  (forall s c, (s, c) ∈ entries -> c ∈ taken) -> rgo taken (close_entries entries errs) (fun _ _ => True).
Proof.
  revert taken errs. induction entries as [|[s c] rest IH]; intros taken errs Hin; cbn [close_entries]; [done|].
  cbn [bind call]. apply (rg_mem _ _ open_J). intros taken1 m Hle HJ. exists taken1. split; [done|].
  assert (c ∈ taken1) as Hc by (apply Hle, (Hin s); constructor).
  split; [by apply open_close|]. apply IH. intros s' c' Hsc. apply Hle, (Hin s'). by constructor.
Qed.

Lemma rg_client_prog taken op : rgo taken (client_prog op) (fun _ _ => True).
Proof.
  destruct op as [s|s|]; cbn [client_prog].
  - unfold GetClient. cbn [bind call]. apply (rg_read _ _ open_J). intros taken1 m Hle HJ.
    destruct (clients m !! s) as [c|]; [done|]. apply (rg_mem _ _ open_J). intros taken2 m2 Hle2 HJ2.
    exists taken2. split; [done|]. split; [by apply open_dial|done].
  - unfold CloseClient. cbn [bind call]. apply (rg_mem _ _ open_J). intros taken1 m Hle HJ.
    unfold take_client. cbn [fst snd]. destruct (clients m !! s) as [c|] eqn:Hc.
    + exists (taken1 ∪ {[c]}). split; [set_solver|]. split.
      * apply open_take; [apply delete_subseteq| | |done].
        -- intros s' c' [Hne Hs']%lookup_delete_Some Heq%elem_of_singleton. subst c'.
           apply Hne. by eapply (po_inj _ (proj1 HJ)).
        -- intros c' ->%elem_of_singleton. by exists s.
      * apply (rg_mem _ _ open_J). intros taken2 m2 Hle2 HJ2. exists taken2. split; [done|]. split; [|done].
        apply open_close; [set_solver|done].
    + exists taken1. split; [done|]. split; [|done]. rewrite delete_id by done. by destruct m.
  - unfold CloseAll. cbn [bind call]. apply (rg_mem _ _ open_J). intros taken1 m Hle HJ.
    exists (taken1 ∪ list_to_set (map_to_list (clients m)).*2). split; [set_solver|]. cbn [fst snd take_all]. split.
    + apply open_take; [apply map_empty_subseteq| | |done].
      * intros s c Hs. by rewrite lookup_empty in Hs.
      * intros c [[s c'] [-> Hsc]]%elem_of_list_to_set%list_elem_of_fmap. exists s. by apply elem_of_map_to_list.
    + apply (rg_range _ _ open_J). intros taken2 entries Hle2 Hp. apply rg_bind.
      eapply rg_conseq; [apply _|apply rg_close_entries|done].
      intros s c Hsc. apply Hle2, elem_of_union. right. apply elem_of_list_to_set, list_elem_of_fmap.
      exists (s, c). split; [done|]. by rewrite Hp.
Qed.

(** GetClient without interference. *)
Lemma wp_GetClient s v :
  wp (ext fl) (GetClient s) v (fun r v' =>
    v_calls v' = v_calls v /\ v_db v' = v_db v /\ v_now v <= v_now v' /\ v_rds v' = purge (v_now v') (v_rds v)
    /\ match r with Ok p => pc_server p = s | Err e => NewClient s = Err e end).
Proof.
  unfold GetClient. cbn [bind call]. apply wp_mem. intros t Ht. cbn [fst snd].
  destruct (clients (v_mem v) !! s) as [c|] eqn:Hc; [by cbn|].
  apply wp_mem. intros t1 Ht1. cbn in *. unfold dial_section. cbn. split_and!; try done; [lia|by rewrite purge_purge|].
  destruct (clients (v_mem v) !! s); [done|]. rewrite NewConnectClinet_dials. by destruct (NewClient s).
Qed.
End proofs.

(** ** Theorems *)
Section theorems.
Context `{HC : Crypto} `{HD : Dialer} {fl : bool}.

(** C34. However many goroutines ask for clients at the same time, at most
    one connection is opened per node: every connection opened is the pooled
    connection of exactly one node. *)
Theorem one_connection_per_node v ps' v' :
  v_mem v = task_start ->
  pool_reachable (ext fl) env (fun p => exists s, p = GetClient s) ([], v) (ps', v') ->
  size (clients (v_mem v')) = opened (v_mem v')
  /\ forall s1 s2 c, clients (v_mem v') !! s1 = Some c -> clients (v_mem v') !! s2 = Some c -> s1 = s2.
Proof.
  intros Hv Hrun.
  destruct (mem_pool fl (⊆) pool_J (fun p => exists s, p = GetClient s) ∅ [] v ps' v') as (g & _ & [_ Hinj] & Hsize & _).
  - intros g p [s ->]. eapply rg_conseq; [apply _|apply rg_GetClient|done].
  - done.
  - rewrite Hv. split_and!; [split; cbn|done|done].
    + intros s c Hs. by rewrite lookup_empty in Hs.
    + intros s1 s2 c Hs. by rewrite lookup_empty in Hs.
  - constructor.
  - done.
Qed.

(** A client of the pool is never one whose connection was closed,
    however GetClient, CloseClient and CloseAll interleave. *)
Theorem pooled_clients_open v ps' v' :
  v_mem v = task_start ->
  pool_reachable (ext fl) env (fun p => exists op, p = client_prog op) ([], v) (ps', v') ->
  forall s c, clients (v_mem v') !! s = Some c -> (c < opened (v_mem v'))%nat /\ c ∉ closed_conns (v_mem v').
Proof.
  intros Hv Hrun.
  destruct (mem_pool fl (⊆) open_J (fun p => exists op, p = client_prog op) ∅ [] v ps' v') as (taken & _ & [H1 _] & H3 & H4 & _).
  - intros g p [op ->]. apply rg_client_prog.
  - done.
  - rewrite Hv. split_and!; [split; cbn|done|cbn; intros c Hc; by apply not_elem_of_nil in Hc|done].
    + intros s c Hs. by rewrite lookup_empty in Hs.
    + intros s1 s2 c Hs. by rewrite lookup_empty in Hs.
  - constructor.
  - intros s c Hs. split; [by eapply H1|]. intros Hc%H4. by eapply H3.
Qed.
End theorems.
