(* ===== verification/Consumer.v ===== *)
(** * The consumers of the task layer (src/internal/task/consumer.go)

    Private, group and room messages are taken from Kafka and pushed to the
    connect nodes of their recipients; the persistence consumer writes them to
    MySQL.  A claim is the list of records a partition delivers before its
    channel closes; marking a record commits its offset, so a consume loop is a
    program that returns the records it marked.  For the loops that retry, each
    record comes with the number of retries that fit before the session's
    context is cancelled. *)

From Stdlib Require Import ZArith Lia String.
From stdpp Require Import base tactics list gmap strings.
From S2P Require Import Prelude GoStd Effects Redis Database Proto World Goroutines ClientPool.

Local Open Scope string_scope.
Local Open Scope Z_scope.

Definition userServerKeyPrefix : string := "user_server:".
Definition connectNodesKeyPrefix : string := "connect_nodes:".
Definition groupMembersKeyPrefix : string := "group_members:".

Definition memberKey (groupID : Z) : string := groupMembersKeyPrefix ++ FormatInt groupID.
Definition routeKey (uid : Z) : string := userServerKeyPrefix ++ FormatInt uid.

(** ** Routing *)

(** [nodeTargetMap[serverID] = append(nodeTargetMap[serverID], uid)] *)
Definition add_target (serverID : string) (uid : Z) (nodeTargetMap : gmap string (list Z)) : gmap string (list Z) :=
  <[serverID := (default [] (nodeTargetMap !! serverID) ++ [uid])%list]> nodeTargetMap.

(** The loop over the answer of MGET. *)
Fixpoint routing_loop (userIDs : list Z) (vals : list (option string)) (nodeTargetMap : gmap string (list Z)) : gmap string (list Z) :=
  match userIDs, vals with
  | uid :: us, v :: vs =>
      routing_loop us vs
        (match v with
         | None => nodeTargetMap
         | Some sv => if String.eqb sv "" then nodeTargetMap else add_target sv uid nodeTargetMap
         end)
  | _, _ => nodeTargetMap
  end.

Section consumer.
Context `{HCd : Codec} `{HD : Dialer}.

(** RefreshGroupMembersCache of the logic service, as its gRPC client. *)
Context (RefreshGroupMembersCache : GroupMembersRequest -> prog (ev TaskMem) (res GroupMembersReply)).

Definition getOnlineRoutingMap (userIDs : list Z) : prog (ev TaskMem) (res (gmap string (list Z))) :=
  match userIDs with
  | [] => Ret (Ok ∅)
  | _ =>
      try vals <- call (Rds (MGET (routeKey <$> userIDs))) ;;
      Ret (Ok (routing_loop userIDs vals ∅))
  end.

(** The members that parse; others are skipped. *)
Definition parse_members (rawMembers : list string) : list Z :=
  omap (fun s => match ParseInt s with Ok uid => Some uid | Err _ => None end) rawMembers.

Definition loadGroupOnlineMemberIDs (groupID : Z) : prog (ev TaskMem) (res (gmap string (list Z))) :=
  try rawMembers <- call (Rds (SMEMBERS (memberKey groupID))) ;;
  if Nat.eqb (length rawMembers) 0 then Ret (Err (ErrMsg "group has no members OR redis cache missed"))
  else if bool_decide (rawMembers = ["-1"]) then Ret (Err (ErrMsg "group has no members"))
  else
    let userIDs := parse_members rawMembers in
    if Nat.eqb (length userIDs) 0 then Ret (Err (ErrMsg "group has no online users"))
    else getOnlineRoutingMap userIDs.

Definition loadGroupNodeIDs : prog (ev TaskMem) (res (list string)) :=
  call (Rds (SMEMBERS connectNodesKeyPrefix)).

Definition getUserServerID (userID : Z) : prog (ev TaskMem) (res string) :=
  try o <- call (Rds (GET (routeKey userID))) ;;
  Ret (Ok (default "" o)).

(** ** Pushing *)

Definition pushToUser (serverID : string) (userID : Z) (payload : string) (msgType : Z) : prog (ev TaskMem) (res unit) :=
  try grpcClient <- GetClient serverID ;;
  call (ConnCall (pc_server grpcClient) (PushMsg {| pmr_ToUserId := userID; pmr_Payload := payload; pmr_MsgType := msgType |})).

Definition pushToConnect (serverID : string) (groupID : Z) (toUserIDs : list Z) (payload : string) (msgType : Z) : prog (ev TaskMem) (res unit) :=
  try grpcClient <- GetClient serverID ;;
  call (ConnCall (pc_server grpcClient)
    (PushMsgToUsers {| par_GroupId := groupID; par_Payload := payload; par_UserIds := toUserIDs; par_MsgType := msgType |})).

(** The targets without the sender. *)
Definition finalUIDs (gm : GroupMessage) (targetUIDs : list Z) : list Z :=
  filter (fun uid => uid <> gm_FromUserId gm) targetUIDs.

(** The goroutine of a node: an error is logged only. *)
Definition push_node (gm : GroupMessage) (payload : string) (node : string * list Z) : prog (ev TaskMem) unit :=
  err <- pushToConnect node.1 (gm_GroupId gm) node.2 payload (gm_MsgType gm) ;; Ret tt.

(** The nodes that have a target left. *)
Definition push_targets (gm : GroupMessage) (nodes : list (string * list Z)) : list (string * list Z) :=
  omap (M := list) (fun n => match finalUIDs gm n.2 with [] => None | uids => Some (n.1, uids) end) nodes.

(** The loop over the nodes: at most 10 goroutines at a time, each with at
    most 3 calls (two looks at the pool and the push). *)
Definition push_nodes (gm : GroupMessage) (payload : string) (nodes : list (string * list Z)) : prog (ev TaskMem) (res unit) :=
  Go_all 3 10 (push_node gm payload <$> push_targets gm nodes).

Definition deliver (gm : GroupMessage) (payload : string) (nodeTargetMap : gmap string (list Z)) : prog (ev TaskMem) (res unit) :=
  if decide (nodeTargetMap = ∅) then Ret (Ok tt)
  else
    nodes <- call (Range (map_to_list nodeTargetMap)) ;;
    push_nodes gm payload nodes.

Definition handleSmallGroupMessage (flight : option (res GroupMembersReply)) (gm : GroupMessage) (payload : string) : prog (ev TaskMem) (res unit) :=
  r <- loadGroupOnlineMemberIDs (gm_GroupId gm) ;;
  match r with
  | Ok nodeTargetMap => deliver gm payload nodeTargetMap
  | Err err =>
      let errMsg := Error err in
      if String.eqb errMsg "group has no members" || String.eqb errMsg "group has no online users" then Ret (Ok tt)
      else if String.eqb errMsg "group has no members OR redis cache missed" then
        try reply <- (match flight with
                      | Some r => Ret r
                      | None => RefreshGroupMembersCache {| gmr_GroupId := gm_GroupId gm |}
                      end) ;;
        if Nat.eqb (length (gmp_GroupMembers reply)) 0 then Ret (Ok tt)
        else
          try nodeTargetMap <- getOnlineRoutingMap (gmp_GroupMembers reply) ;;
          deliver gm payload nodeTargetMap
      else Ret (Err err)
  end.

Definition handleGroupMessage (flight : option (res GroupMembersReply)) (kMsg : kmsg) : prog (ev TaskMem) (res unit) :=
  match Unmarshal_GroupMessage (k_Value kMsg) with
  | Err e => Ret (Err (ErrMsg ("proto Unmarshal failed:" ++ Error e)))
  | Ok gm => handleSmallGroupMessage flight gm (k_Value kMsg)
  end.

(** The goroutine of a node: errors are logged only. *)
Definition broadcast_node (gm : RoomMessage) (payload : string) (targetSid : string) : prog (ev TaskMem) unit :=
  client <- GetClient targetSid ;;
  match client with
  | Err e => Ret tt
  | Ok c =>
      err <- call (ConnCall (pc_server c) (BroadcastRoom {| brr_RoomId := rm_RoomId gm; brr_FromUserId := rm_FromUserId gm;
                                                           brr_Payload := payload; brr_MsgType := rm_MsgType gm |})) ;;
      Ret tt
  end.

Definition broadcast_nodes (gm : RoomMessage) (payload : string) (nodeIDs : list string) : prog (ev TaskMem) (res unit) :=
  Go_all 3 100 (broadcast_node gm payload <$> nodeIDs).

Definition handleRoomBroadcast (gm : RoomMessage) (payload : string) : prog (ev TaskMem) (res unit) :=
  try nodeIDs <- loadGroupNodeIDs ;;
  if Nat.eqb (length nodeIDs) 0 then Ret (Ok tt)
  else broadcast_nodes gm payload nodeIDs.

Definition handleRoomMessage (kMsg : kmsg) : prog (ev TaskMem) (res unit) :=
  match Unmarshal_RoomMessage (k_Value kMsg) with
  | Err e => Ret (Err e)
  | Ok gm => handleRoomBroadcast gm (k_Value kMsg)
  end.

(** ** Consume loops *)

(** One private message. *)
Definition single_message (kMsg : kmsg) : prog (ev TaskMem) unit :=
  match Unmarshal_Message (k_Value kMsg) with
  | Err e => Ret tt
  | Ok chatMsg =>
      r <- call (Rds (GET (userServerKeyPrefix ++ FormatInt (m_ToUserId chatMsg)))) ;;
      match r with
      | Ok (Some serverID) =>
          if String.eqb serverID "" then Ret tt
          else
            c <- GetClient serverID ;;
            match c with
            | Ok grpcClient =>
                e <- call (ConnCall (pc_server grpcClient)
                  (PushMsg {| pmr_ToUserId := m_ToUserId chatMsg; pmr_Payload := k_Value kMsg; pmr_MsgType := m_MsgType chatMsg |})) ;;
                Ret tt
            | Err e => Ret tt
            end
      | _ => Ret tt
      end
  end.

Fixpoint Single_ConsumeClaim (claim : list kmsg) : prog (ev TaskMem) (list kmsg) :=
  match claim with
  | [] => Ret []
  | kMsg :: rest =>
      single_message kMsg ;;
      marked <- Single_ConsumeClaim rest ;;
      Ret (kMsg :: marked)
  end.

(** The attempts at one record: true when it is to be marked, false when the
    session ended first.  [flight] is the rebuild another goroutine has in
    flight during the first attempt, [later] during each retry that fits. *)
Fixpoint group_retry (kMsg : kmsg) (flight : option (res GroupMembersReply))
    (later : list (option (res GroupMembersReply))) : prog (ev TaskMem) bool :=
  r <- handleGroupMessage flight kMsg ;;
  match r with
  | Ok _ => Ret true
  | Err err =>
      if Contains (Error err) "proto Unmarshal failed" then Ret true
      else match later with [] => Ret false | next :: later' => group_retry kMsg next later' end
  end.

Fixpoint Group_ConsumeClaim
    (claim : list (kmsg * (option (res GroupMembersReply) * list (option (res GroupMembersReply))))) : prog (ev TaskMem) (list kmsg) :=
  match claim with
  | [] => Ret []
  | (msg, (flight, later)) :: rest =>
      ok <- group_retry msg flight later ;;
      if ok : bool then
        marked <- Group_ConsumeClaim rest ;;
        Ret (msg :: marked)
      else Ret []
  end.

Fixpoint Room_ConsumeClaim (claim : list kmsg) : prog (ev TaskMem) (list kmsg) :=
  match claim with
  | [] => Ret []
  | kMsg :: rest =>
      err <- handleRoomMessage kMsg ;;
      marked <- Room_ConsumeClaim rest ;;
      Ret (kMsg :: marked)
  end.
End consumer.

(** ** Persistence *)

(** [PersistConsumer.DB]: is it set? *)
Record PersistConsumer := { DB : bool }.

(** [INSERT ... ON DUPLICATE KEY UPDATE id=id] (clause.OnConflict{DoNothing: true}). *)
Definition insert_message (r : MessageRow) (ai : autoinc) (t : tables) : res unit * tables :=
  match columns [text (mr_Content r); tinyint (mr_MsgType r)] with
  | Err e => (Err e, t)
  | Ok _ =>
      if uk_message r t then (Ok tt, t)
      else match insert_id (ai_messages ai) with
           | Err e => (Err e, t)
           | Ok id =>
               (Ok tt, set_messages (fun l => l ++ [{| mr_ID := id; mr_MsgID := mr_MsgID r; mr_ClientMSGID := mr_ClientMSGID r;
                  mr_FromUserID := mr_FromUserID r; mr_ToUserID := mr_ToUserID r; mr_Content := text_value (mr_Content r);
                  mr_MsgType := mr_MsgType r; mr_Status := mr_Status r; mr_CreateTime := datetime (mr_CreateTime r) |}])%list t)
           end
  end.

Definition insert_group_message (r : GroupMessageRow) (ai : autoinc) (t : tables) : res unit * tables :=
  match columns [unsigned (gmw_GroupID r); text (gmw_Content r); tinyint (gmw_MsgType r)] with
  | Err e => (Err e, t)
  | Ok _ =>
      if uk_group_message r t then (Ok tt, t)
      else match insert_id (ai_group_messages ai) with
           | Err e => (Err e, t)
           | Ok id =>
               (Ok tt, set_group_messages (fun l => l ++ [{| gmw_ID := id; gmw_MsgID := gmw_MsgID r; gmw_ClientMSGID := gmw_ClientMSGID r;
                  gmw_FromUserID := gmw_FromUserID r; gmw_GroupID := gmw_GroupID r; gmw_Content := text_value (gmw_Content r);
                  gmw_MsgType := gmw_MsgType r; gmw_Status := gmw_Status r; gmw_CreateTime := datetime (gmw_CreateTime r) |}])%list t)
           end
  end.

(** The rows built from the messages (the id is left to MySQL); the tag of
    [MsgType] says [default:1]. *)
Definition message_row (chatMsg : Message) : MessageRow :=
  {| mr_ID := 0; mr_MsgID := m_MsgId chatMsg; mr_ClientMSGID := m_ClientMsgId chatMsg;
     mr_FromUserID := m_FromUserId chatMsg; mr_ToUserID := m_ToUserId chatMsg; mr_Content := m_Content chatMsg;
     mr_MsgType := gorm_default 1 (m_MsgType chatMsg); mr_Status := 0; mr_CreateTime := m_CreateTime chatMsg |}.

Definition group_message_row (chatMsg : GroupMessage) : GroupMessageRow :=
  {| gmw_ID := 0; gmw_MsgID := gm_MsgId chatMsg; gmw_ClientMSGID := gm_ClientMsgId chatMsg;
     gmw_FromUserID := gm_FromUserId chatMsg; gmw_GroupID := gm_GroupId chatMsg; gmw_Content := gm_Content chatMsg;
     gmw_MsgType := gorm_default 1 (gm_MsgType chatMsg); gmw_Status := 0; gmw_CreateTime := gm_CreateTime chatMsg |}.

Section persist.
Context `{HCd : Codec} {M : Type} (c : PersistConsumer).

Definition persistMessage (chatMsg : Message) : prog (ev M) (res unit) :=
  if negb (DB c) then Ret (Err (ErrMsg "db is nil"))
  else call (Sql (Stmt (insert_message (message_row chatMsg)))).

Definition persistGroupMessage (chatMsg : GroupMessage) : prog (ev M) (res unit) :=
  if negb (DB c) then Ret (Err (ErrMsg "db is nil"))
  else call (Sql (Stmt (insert_group_message (group_message_row chatMsg)))).

(** The [switch msg.Topic] of the consume loop: the outcome of the write, or
    None for a message that does not decode. *)
Definition persist_one (msg : kmsg) : prog (ev M) (option (res unit)) :=
  if String.eqb (k_Topic msg) "chat_messages" then
    match Unmarshal_Message (k_Value msg) with
    | Err e => Ret None
    | Ok chatMsg => r <- persistMessage chatMsg ;; Ret (Some r)
    end
  else if String.eqb (k_Topic msg) "group_chat_messages" then
    match Unmarshal_GroupMessage (k_Value msg) with
    | Err e => Ret None
    | Ok chatMsg => r <- persistGroupMessage chatMsg ;; Ret (Some r)
    end
  else Ret (Some (Ok tt)).

Fixpoint persist_retry (msg : kmsg) (budget : nat) : prog (ev M) bool :=
  o <- persist_one msg ;;
  match o with
  | None => Ret true
  | Some (Ok _) => Ret true
  | Some (Err _) => match budget with O => Ret false | S b => persist_retry msg b end
  end.

Fixpoint Persist_ConsumeClaim (claim : list (kmsg * nat)) : prog (ev M) (list kmsg) :=
  match claim with
  | [] => Ret []
  | (msg, budget) :: rest =>
      ok <- persist_retry msg budget ;;
      if ok : bool then
        marked <- Persist_ConsumeClaim rest ;;
        Ret (msg :: marked)
      else Ret []
  end.
End persist.

(** ** The handlers of the consumer groups

    sarama calls [Setup] before a session and [Cleanup] after it; both only log. *)
Section hooks.
Context {M : Type}.

Definition SingleChatHander_Setup : prog (ev M) (res unit) := Ret (Ok tt).
Definition SingleChatHander_Cleanup : prog (ev M) (res unit) := Ret (Ok tt).
Definition GroupChatHandler_Setup : prog (ev M) (res unit) := Ret (Ok tt).
Definition GroupChatHandler_Cleanup : prog (ev M) (res unit) := Ret (Ok tt).
Definition RoomChatHandler_Setup : prog (ev M) (res unit) := Ret (Ok tt).
Definition RoomChatHandler_Cleanup : prog (ev M) (res unit) := Ret (Ok tt).
Definition PersistConsumer_Setup : prog (ev M) (res unit) := Ret (Ok tt).
Definition PersistConsumer_Cleanup : prog (ev M) (res unit) := Ret (Ok tt).

(** What sarama may call besides the claims. *)
Definition handler_hooks : list (prog (ev M) (res unit)) :=
  [SingleChatHander_Setup; SingleChatHander_Cleanup; GroupChatHandler_Setup; GroupChatHandler_Cleanup;
   RoomChatHandler_Setup; RoomChatHandler_Cleanup; PersistConsumer_Setup; PersistConsumer_Cleanup].

Lemma handler_hooks_return p : p ∈ handler_hooks -> p = Ret (Ok tt).
Proof. unfold handler_hooks. rewrite !elem_of_cons, elem_of_nil. by intros H; repeat (destruct H as [H|H]; [by subst|]). Qed.
End hooks.

(** [NewPersistGroupHandler(db)], with a database handle or nil. *)
Definition NewPersistGroupHandler (db : bool) : PersistConsumer := {| DB := db |}.
