(* ===== verification/ConsumerSpec.v ===== *)
(** * What the task layer guarantees

    Which calls the push consumers make to connect nodes: [route_of] reads the
    routing table, [fanout] says what a group message has to become. *)

From Stdlib Require Import ZArith Lia String.
From stdpp Require Import base tactics list gmap strings.
From S2P Require Import Prelude GoStd Effects Redis Database Proto World Rules RefWorld Goroutines Store GroupServer.
From S2P Require Import GroupSpec ClientPool Consumer.

Local Open Scope string_scope.
Local Open Scope Z_scope.

(** ** Routing *)

(** The node a user is routed to. *)
Definition route_of (ks : keyspace) (uid : Z) : option string :=
  match get_string (ks !! routeKey uid) with
  | Ok (Some s) => if String.eqb s "" then None else Some s
  | _ => None
  end.

Definition raw_route (ks : keyspace) (uid : Z) : option string :=
  match get_string (ks !! routeKey uid) with Ok o => o | Err _ => None end.

Lemma route_raw ks u : route_of ks u = match raw_route ks u with
  | Some s => if String.eqb s "" then None else Some s | None => None end.
Proof. unfold route_of, raw_route. by destruct (get_string (ks !! routeKey u)) as [[]|]. Qed.

(** The routing loop appends, for each node, the users routed to it, in order. *)
Lemma routing_loop_lookup ks us m s :
  default [] (routing_loop us (raw_route ks <$> us) m !! s)
  = (default [] (m !! s) ++ filter (fun u => route_of ks u = Some s) us)%list.
Proof.
  revert m. induction us as [|u us IH]; intros m; cbn [fmap list_fmap routing_loop]; [by rewrite app_nil_r|].
  rewrite IH, filter_cons. rewrite (route_raw ks u). destruct (raw_route ks u) as [sv|]; [|by rewrite decide_False].
  destruct (String.eqb_spec sv "") as [->|Hne]; [by rewrite decide_False|].
  unfold add_target. destruct (decide (sv = s)) as [->|Hs].
  - rewrite lookup_insert_eq, decide_True by done. cbn. by rewrite <- app_assoc.
  - rewrite lookup_insert_ne by done. rewrite decide_False by congruence. done.
Qed.

Lemma routing_loop_nonempty us vals m :
  (forall s l, m !! s = Some l -> l <> []) -> forall s l, routing_loop us vals m !! s = Some l -> l <> [].
Proof.
  revert vals m. induction us as [|u us IH]; intros vals m Hm; [done|]. destruct vals as [|v vals]; [done|].
  cbn. apply IH. destruct v as [sv|]; [|done]. destruct (String.eqb sv ""); [done|].
  unfold add_target. intros s l [[<- <-]|[_ Hs]]%lookup_insert_Some; [|eauto]. by destruct (default [] (m !! sv)).
Qed.

(** The routing map of a list of users. *)
Definition routing (ks : keyspace) (us : list Z) : gmap string (list Z) := routing_loop us (raw_route ks <$> us) ∅.

Lemma routing_elem ks us s l u : routing ks us !! s = Some l -> u ∈ l <-> u ∈ us /\ route_of ks u = Some s.
Proof.
  intros Hl. pose proof (routing_loop_lookup ks us ∅ s) as H. unfold routing in Hl. rewrite Hl in H. cbn in H.
  rewrite lookup_empty in H. cbn in H. rewrite H, list_elem_of_filter. tauto.
Qed.

Lemma routing_some ks us s u : u ∈ us -> route_of ks u = Some s -> exists l, routing ks us !! s = Some l /\ u ∈ l.
Proof.
  intros Hu Hr. pose proof (routing_loop_lookup ks us ∅ s) as H. rewrite lookup_empty in H. cbn in H.
  assert (u ∈ filter (fun u => route_of ks u = Some s) us) as Hin by by apply list_elem_of_filter.
  rewrite <- H in Hin. unfold routing. destruct (routing_loop us (raw_route ks <$> us) ∅ !! s) as [l|]; [|set_solver]. by exists l.
Qed.

(** ** Fan-out *)

(** The call that pushes [gm] to the users [uids] of a node. *)
Definition group_push (gm : GroupMessage) (payload : string) (uids : list Z) : ConnectCall :=
  PushMsgToUsers {| par_GroupId := gm_GroupId gm; par_Payload := payload; par_UserIds := uids; par_MsgType := gm_MsgType gm |}.

(** The call of a node and the calls of the fan-out. *)
Definition node_call (gm : GroupMessage) (payload : string) (n : string * list Z) : string * ConnectCall :=
  (n.1, group_push gm payload n.2).
Definition node_calls (gm : GroupMessage) (payload : string) (nodes : list (string * list Z)) : list (string * ConnectCall) :=
  node_call gm payload <$> push_targets gm nodes.

(** User [u] of the group is to get the message through node [s]. *)
Definition intended (ks : keyspace) (members : list Z) (gm : GroupMessage) (u : Z) (s : string) : Prop :=
  u ∈ members /\ u <> gm_FromUserId gm /\ route_of ks u = Some s.

(** What a fan-out over [members] with the routes of [ks] adds to the calls:
    nothing but intended pushes of the payload, one call per node; when it is
    [complete], every intended push. *)
Record fanout (complete : Prop) (ks : keyspace) (members : list Z) (gm : GroupMessage) (payload : string)
    (cs : list (string * ConnectCall)) : Prop := {
  fo_nodes : NoDup cs.*1;
  fo_sound : forall s c, (s, c) ∈ cs -> exists uids, c = group_push gm payload uids
     /\ forall u, u ∈ uids -> intended ks members gm u s;
  fo_complete : complete -> forall u s, intended ks members gm u s ->
     exists uids, (s, group_push gm payload uids) ∈ cs /\ u ∈ uids }.

Lemma elem_push_targets gm nodes s uids :
  (s, uids) ∈ push_targets gm nodes <-> exists l, (s, l) ∈ nodes /\ uids = finalUIDs gm l /\ uids <> [].
Proof.
  unfold push_targets. rewrite list_elem_of_omap. split.
  - intros ([s' l] & Hn & Heq). cbn [fst snd] in Heq. destruct (finalUIDs gm l) as [|u0 l0] eqn:Hf; [done|]. injection Heq as <- <-. exists l. by rewrite Hf.
  - intros (l & Hn & -> & Hne). exists (s, l). split; [done|]. cbn [fst snd]. by destruct (finalUIDs gm l).
Qed.

Lemma push_targets_NoDup gm nodes : NoDup nodes.*1 -> NoDup (push_targets gm nodes).*1.
Proof.
  intros Hn. unfold push_targets. induction nodes as [|[s l] nodes IH]; [constructor|]. apply NoDup_cons in Hn as [Hs Hn].
  cbn [omap list_omap fst snd]. destruct (finalUIDs gm l) as [|u0 l0]; cbn; [by apply IH|]. apply NoDup_cons. split; [|by apply IH].
  intros ([s' uids] & -> & Hx)%list_elem_of_fmap. apply elem_push_targets in Hx as (l2 & Hl2 & _). apply Hs, list_elem_of_fmap. by exists (s', l2).
Qed.

Lemma submseteq_NoDup_fst {A B} (l k : list (A * B)) : l ⊆+ k -> NoDup k.*1 -> NoDup l.*1.
Proof. intros (k' & ->)%submseteq_Permutation. rewrite fmap_app. by intros [? _]%NoDup_app. Qed.

Lemma node_calls_fanout gm payload ks us nodes cs (complete : Prop) :
  nodes ≡ₚ map_to_list (routing ks us) ->
  sent complete (node_calls gm payload nodes) cs -> fanout complete ks us gm payload cs.
Proof.
  intros Hp [Hsub Hall].
  assert (forall s c, (s, c) ∈ node_calls gm payload nodes <-> exists l, routing ks us !! s = Some l
    /\ finalUIDs gm l <> [] /\ c = group_push gm payload (finalUIDs gm l)) as Hin.
  { intros s c. unfold node_calls. rewrite list_elem_of_fmap. split.
    - intros ([s' uids] & [= -> ->] & (l & Hl & -> & Hne)%elem_push_targets). rewrite Hp, elem_of_map_to_list in Hl. by exists l.
    - intros (l & Hl & Hf & ->). exists (s, finalUIDs gm l). split; [done|]. apply elem_push_targets. exists l.
      by rewrite Hp, elem_of_map_to_list. }
  split.
  - apply (submseteq_NoDup_fst _ _ Hsub). unfold node_calls. rewrite <- list_fmap_compose. apply push_targets_NoDup.
    rewrite Hp. apply NoDup_fst_map_to_list.
  - intros s c Hc. apply (elem_of_submseteq _ _ _ Hc), Hin in Hsub as (l & Hl & _ & ->).
    eexists. split; [done|]. intros u [Hne Hu]%list_elem_of_filter. apply (routing_elem _ _ _ _ _ Hl) in Hu as [Hu Hr]. by split_and!.
  - intros Hc u s (Hu & Hne & Hr). destruct (routing_some _ _ _ _ Hu Hr) as (l & Hl & Hul).
    assert (u ∈ finalUIDs gm l) as Huf by by apply list_elem_of_filter.
    eexists. split; [|exact Huf]. rewrite (Hall Hc). apply Hin. exists l. split_and!; [done| |done]. intros Hf. rewrite Hf in Huf. set_solver.
Qed.

Section fan.
Context `{HC : Crypto} `{HCd : Codec} `{HD : Dialer} `{HCo : Collation} (fl : bool).
Implicit Types v : sysview TaskMem.

(** Every target can be dialled. *)
Definition dialable : Prop := forall s, NewClient s = Ok tt.

Lemma wp_push srv (mk : string -> ConnectCall) v :
  wp (ext fl) (bind (GetClient srv) (fun r => match r with
      | Ok c => call (ConnCall (pc_server c) (mk srv))
      | Err e => Ret (Err e) end)) v (fun r v' => exists cs,
    called cs v v' /\ sublist cs [(srv, mk srv)] /\ (fl = false -> dialable -> cs = [(srv, mk srv)] /\ r = Ok tt)).
Proof.
  apply wp_bind. eapply wp_mono; [apply wp_GetClient|]. intros r v1 (Hc & Hd & Hn & _ & Hr).
  destruct r as [p|e].
  - subst srv. apply wp_conncall.
    + intros t Ht. exists [(pc_server p, mk (pc_server p))]. split; [|done]. unfold called. cbn. split_and!; [by rewrite Hc|done|lia].
    + intros t msg Ht Hfl. split.
      * exists []. split; [apply called_nil; [done|done|cbn; lia]|]. split; [apply sublist_nil_l|congruence].
      * exists [(pc_server p, mk (pc_server p))]. split; [unfold called; cbn; split_and!; [by rewrite Hc|done|lia]|]. split; [done|congruence].
  - exists []. split; [by apply called_nil|]. split; [apply sublist_nil_l|]. intros _ Hdial. rewrite Hdial in Hr. done.
Qed.

(** The goroutine of a node makes one call, or none when the node cannot be
    dialled or the call fails. *)
Lemma sends_push {A} srv (c : ConnectCall) (k : res unit -> prog (ev TaskMem) A) (ke : error -> prog (ev TaskMem) A) :
  (forall r, finished (k r)) -> (forall e, finished (ke e)) ->
  sends fl (fl = false /\ dialable) (bind (GetClient srv) (fun r => match r with
      | Ok p => x <- call (ConnCall (pc_server p) c) ;; k x
      | Err e => ke e end)) 3 [(srv, c)].
Proof.
  intros Hk Hke. unfold GetClient. cbn [bind call sends].
  assert (forall p : pooledConnectClient, pc_server p = srv ->
    sends fl (fl = false /\ dialable) (Vis (ConnCall (pc_server p) c) k) 1 [(srv, c)]) as Hcall.
  { intros p <-. exists 0%nat. split; [done|]. intros v x v' (t & Ht & Hx). destruct (Hk x) as [u ->]. cbn in Hx |- *.
    destruct Hx as [[-> ->]|[Hfl [[msg ->] [-> | ->]]]];
      [right; split; [|done]|left; split; [by apply called_nil|intros [? _]; congruence]|right; split; [|done]]; split_and!; done. }
  exists 2%nat. split; [done|]. intros v x v' (t & Ht & [Hx|[_ []]]). cbn in Hx. injection Hx as -> ->.
  left. split; [by apply called_nil|]. destruct (clients (v_mem v) !! srv) as [c0|]; [by apply (sends_weaken fl _ _ 1 2), Hcall; [lia|]|].
  exists 1%nat. split; [done|]. intros v1 x v1' (t1 & Ht1 & [Hx|[_ []]]). cbn in Hx. left.
  unfold dial_section in Hx. cbn in Hx. destruct (clients (v_mem v1) !! srv) as [c0|].
  - injection Hx as -> ->. split; [by apply called_nil|]. by apply Hcall.
  - rewrite NewConnectClinet_dials in Hx. destruct (NewClient srv) as [u|e] eqn:Hn; injection Hx as -> ->; (split; [by apply called_nil|]); [by apply Hcall|].
    cbn [bind]. destruct (Hke e) as [u ->]. intros [_ Hd]. by rewrite Hd in Hn.
Qed.

Lemma wp_push_nodes gm payload nodes v :
  wp (ext fl) (push_nodes gm payload nodes) v (fun r v' => exists cs,
    called cs v v' /\ sent (fl = false /\ dialable) (node_calls gm payload nodes) cs /\ (r = Ok tt \/ ext_err fl r)).
Proof.
  unfold push_nodes, node_calls. apply wp_Go_all; [by intros []|lia|]. apply Forall2_fmap, Forall_Forall2_diag, Forall_forall.
  intros [s uids] _. unfold push_node, pushToConnect. cbn [fst snd].
  apply sends_map; [by eexists|]. apply sends_push; by eexists.
Qed.

(** ** Where the members and the routes come from *)

Lemma waited_called v v' : waited v v' -> called [] v v'.
Proof. intros [-> | (t & Ht & ->)]; apply called_nil; try done; cbn; lia. Qed.

Lemma waited_coherent v v' : waited v v' -> coherent v -> coherent v'.
Proof. intros [-> | (t & Ht & ->)] Hc; [done|by apply coherent_tick]. Qed.

Lemma wp_getOnlineRoutingMap us v :
  wp (ext fl) (getOnlineRoutingMap us) v (fun r v' => waited v v' /\
    ((exists t, v_now v <= t <= v_now v' /\ r = Ok (routing (purge t (v_rds v)) us)) \/ ext_err fl r)).
Proof.
  unfold getOnlineRoutingMap. destruct us as [|u us].
  { cbn. split; [by left|]. left. exists (v_now v). split; [lia|done]. }
  cbn [bind call]. apply wp_read; [done|]. intros t r Ht Hr. destruct Hr as [Hr | [Hfl [msg ->]]].
  - cbn in Hr. subst r. cbn [wp]. split; [right; eauto|]. left. exists t. split; [cbn; lia|].
    unfold routing. do 2 f_equal. cbn. f_equal. by rewrite <- list_fmap_compose.
  - cbn. split; [right; eauto|]. right. eauto.
Qed.

(** The routes seen from [v0] are those seen from [v]. *)
Definition same_routes v0 v : Prop :=
  v_db v = v_db v0 /\ v_calls v = v_calls v0 /\ v_now v0 <= v_now v
  /\ forall t u, v_now v <= t -> route_of (purge t (v_rds v)) u = route_of (purge t (v_rds v0)) u.

Lemma same_routes_tick t v : v_now v <= t -> same_routes v (tick t v).
Proof. intros Ht. split_and!; [done|done|done|]. intros t' u Ht'. cbn in *. by rewrite purge_purge. Qed.

Lemma same_routes_waited v v' : waited v v' -> same_routes v v'.
Proof. intros [-> | (t & Ht & ->)]; [|by apply same_routes_tick]. split_and!; [done|done|lia|done]. Qed.

Lemma same_routes_trans v1 v2 v3 : same_routes v1 v2 -> same_routes v2 v3 -> same_routes v1 v3.
Proof.
  intros (H1 & H2 & H3 & H4) (H5 & H6 & H7 & H8). split_and!; [congruence|congruence|lia|].
  intros t u Ht. rewrite H8, H4 by lia. done.
Qed.

(** The outcome of delivering a group message to [us]; without failures the
    answer is [ok]. *)
Definition fan_over (us : list Z) (ok : res unit) v gm payload (r : res unit) v' : Prop :=
  exists t cs, v_now v <= t <= v_now v' /\ called cs v v'
    /\ fanout (fl = false /\ dialable) (purge t (v_rds v)) us gm payload cs
    /\ (fl = false -> r = ok).

(** ... to the active members of the group. *)
Definition fan_post v gm payload (r : res unit) v' : Prop :=
  fan_over (active_members (gm_GroupId gm) (v_db v)) (Ok tt) v gm payload r v'.

Lemma fanout_ext C ks ks' us us' gm payload cs :
  (forall u, u ∈ us <-> u ∈ us') -> (forall u, route_of ks u = route_of ks' u) ->
  fanout C ks us gm payload cs -> fanout C ks' us' gm payload cs.
Proof.
  intros Hus Hks [H1 H2 H3].
  assert (forall u s, intended ks us gm u s <-> intended ks' us' gm u s) as Hi by (intros u s; unfold intended; by rewrite Hus, Hks).
  split; [done|..].
  - intros s c (uids & -> & Hu)%H2. exists uids. split; [done|]. intros u Hin. by apply Hi, Hu.
  - intros Hyes u s Hu%Hi. by apply H3.
Qed.

Lemma fan_over_before us ok v0 v gm payload r v' :
  same_routes v0 v -> fan_over us ok v gm payload r v' -> fan_over us ok v0 gm payload r v'.
Proof.
  intros (Hdb & Hca & Hn & Hro) (t & cs & Ht & (Hc1 & Hc2 & Hc3) & Hf & Hr). exists t, cs. split; [lia|].
  split; [split_and!; [congruence|congruence|lia]|]. split; [|done].
  eapply fanout_ext; [done| |exact Hf]. intros u. apply Hro; lia.
Qed.

(** Nothing is pushed, and nothing had to be. *)
Lemma fan_over_none us ok v gm payload r v' :
  called [] v v' -> (fl = false -> r = ok /\ us = []) -> fan_over us ok v gm payload r v'.
Proof.
  intros Hc Hr. exists (v_now v), []. split; [destruct Hc as (_ & _ & ?); lia|]. split; [done|]. split.
  - split; [constructor|set_solver|]. intros [Hfl _] u s [Hu _]. destruct (Hr Hfl) as [_ ->]. set_solver.
  - intros Hfl. by apply Hr.
Qed.

Lemma wp_deliver gm payload ks us v :
  wp (ext fl) (deliver gm payload (routing ks us)) v (fun r v' => exists cs,
    called cs v v' /\ fanout (fl = false /\ dialable) ks us gm payload cs
    /\ (fl = false -> r = Ok tt)).
Proof.
  unfold deliver. case_decide as Hempty.
  - exists []. split; [by apply called_nil; [..|lia]|]. split; [|done].
    by eapply (node_calls_fanout gm payload _ us []); [by rewrite Hempty|].
  - cbn [bind call]. apply wp_range. intros t1 nodes Ht1 Hp.
    eapply wp_mono; [apply wp_push_nodes|]. intros r v' (cs & Hc & Hsent & Hr). exists cs.
    split; [by eapply called_tick|]. split; [by eapply node_calls_fanout|]. intros Hfl. destruct Hr as [?|[? _]]; [done|congruence].
Qed.

(** Route the members and deliver. *)
Lemma wp_route_deliver gm payload us v :
  wp (ext fl) (bind (getOnlineRoutingMap us) (fun r => match r with Ok m => deliver gm payload m | Err e => Ret (Err e) end)) v
    (fan_over us (Ok tt) v gm payload).
Proof.
  apply wp_bind. eapply wp_mono; [apply wp_getOnlineRoutingMap|].
  intros r v1 [Hc1%waited_called [(t & Ht & ->) | [Hfl [msg ->]]]].
  - eapply wp_mono; [apply wp_deliver|]. intros r v' (cs & Hc & Hf & Hr). exists t, cs. split; [destruct Hc as (_ & _ & ?); lia|].
    split; [apply (called_trans [] cs _ v1); [done|done]|]. by split.
  - apply fan_over_none; [done|congruence].
Qed.

(** The pipeline of a rebuild changes no route, whatever follows it. *)
Lemma wp_rebuild_routes {A} gid ms (k : res unit -> prog (ev TaskMem) A) v (P : A -> Prop) :
  (forall r, r = Ok tt \/ ext_err fl r -> exists a, k r = Ret a /\ P a) ->
  wp (ext fl) (Vis (RdsTx (rebuild_cache (groupMembersKey gid) ms)) k) v (fun a v' => same_routes v v' /\ P a).
Proof.
  intros Hk. apply wp_tx. intros t1 r ks Ht1. rewrite rebuild_run. cbn [snd]. intros Hr.
  destruct (Hk r) as (a & -> & Ha); [destruct Hr as [[= <- _] | [? _]]; [by left|by right]|]. cbn [wp]. split; [|done].
  eapply same_routes_trans; [by apply (same_routes_tick t1)|]. split_and!; [done|done|cbn; lia|].
  intros t2 u Ht2. cbn [v_rds set_rds tick v_now] in *. set (ks0 := purge t1 (v_rds v)) in *.
  assert (ks = ks0 \/ exists e, ks = <[groupMembersKey gid := e]> ks0) as [-> | [e ->]]
    by (destruct Hr as [[= _ <-] | [_ [-> | ->]]]; eauto); [done|].
  assert (purge t2 (<[groupMembersKey gid := e]> ks0) !! routeKey u = purge t2 ks0 !! routeKey u) as Hsame.
  { apply option_eq. intros x0. rewrite !lookup_purge. by rewrite lookup_insert_ne by done. }
  unfold route_of. by rewrite Hsame.
Qed.

(** RefreshGroupMembersCache answers the active members; it touches no route
    and calls nobody. *)
Lemma wp_Refresh_members req v :
  wp (ext fl) (RefreshGroupMembersCache req) v (fun r v' => same_routes v v' /\
    match r with
    | Ok rp => gmp_GroupMembers rp = active_members (gmr_GroupId req) (v_db v)
    | Err _ => fl = false -> gmr_GroupId req = 0
    end).
Proof.
  assert (same_routes v v) as Hrefl by (split_and!; [done|done|lia|done]).
  unfold RefreshGroupMembersCache. destruct (Z.eqb_spec (gmr_GroupId req) 0); [done|]. cbn [bind call].
  apply wp_scan. intros t x Ht Hx. pose proof (same_routes_tick t v Ht) as H1.
  destruct Hx as [-> | [Hfl [msg ->]]]; [|split; [done|congruence]].
  destruct (active_members (gmr_GroupId req) (v_db v)) as [|u0 l0] eqn:Hms; cbn [bind call];
    (eapply wp_mono; [apply (wp_rebuild_routes _ _ _ _ (fun r => match r with
        | Ok rp => gmp_GroupMembers rp = active_members (gmr_GroupId req) (v_db v) | Err _ => fl = false -> gmr_GroupId req = 0 end))
      |intros r v' [Hs Hr]; split; [by eapply same_routes_trans|by rewrite ?Hms in Hr]]).
  - intros r _. by eexists.
  - intros r [-> | [Hfl [msg ->]]]; eexists; (split; [done|]); [by rewrite Hms|congruence].
Qed.

(** ** The handler *)

(** What a cached member set parses to. *)
Lemma parse_members_cached ms raw :
  Forall in_int64 ms -> ms <> [] -> raw ≡ₚ elements (cached ms) ->
  forall u, u ∈ parse_members raw <-> u ∈ ms.
Proof.
  intros Hms Hne Hraw u. unfold parse_members. rewrite list_elem_of_omap.
  assert (forall s, s ∈ raw <-> exists x, s = FormatInt x /\ x ∈ ms) as Hin.
  { intros s. rewrite Hraw, elem_of_elements. unfold cached. destruct ms as [|m0 ms0]; [done|].
    by rewrite elem_of_list_to_set, list_elem_of_fmap. }
  rewrite Forall_forall in Hms. split.
  - intros (s & Hs & Hu). apply Hin in Hs as (x & -> & Hx). rewrite ParseInt_FormatInt in Hu; [by simplify_eq|].
    by apply Hms.
  - intros Hu. exists (FormatInt u). split; [apply Hin; eauto|]. rewrite ParseInt_FormatInt; [done|]. by apply Hms.
Qed.

(** The part of the handler that asks the logic service. *)
Definition refill (gm : GroupMessage) (payload : string) : prog (ev TaskMem) (res unit) :=
  try reply <- rpc (RefreshGroupMembersCache {| gmr_GroupId := gm_GroupId gm |}) ;;
  if Nat.eqb (length (gmp_GroupMembers reply)) 0 then Ret (Ok tt)
  else
    try nodeTargetMap <- getOnlineRoutingMap (gmp_GroupMembers reply) ;;
    deliver gm payload nodeTargetMap.

Lemma wp_refill gm payload v :
  gm_GroupId gm <> 0 -> wp (ext fl) (refill gm payload) v (fan_post v gm payload).
Proof.
  intros Hnz. unfold refill. apply wp_bind. apply wp_rpc.
  { intros t msg Ht Hfl. apply fan_over_none; [by apply called_nil|congruence]. }
  intros t Ht. eapply wp_mono; [apply wp_Refresh_members|]. intros r v1 [Hsame Hr] t1 Ht1.
  pose proof (same_routes_trans _ _ _ (same_routes_tick t v Ht) (same_routes_trans _ _ _ Hsame (same_routes_tick t1 v1 Ht1))) as Hs2.
  assert (called [] v (tick t1 v1)) as Hcn by (destruct Hs2 as (? & ? & ? & _); by apply called_nil).
  split; [|intros Hfl msg; apply fan_over_none; [done|congruence]].
  destruct r as [rp|e]; [|apply fan_over_none; [done|]; intros Hfl; exfalso; by apply Hnz, Hr].
  cbn in Hr. destruct (Nat.eqb_spec (length (gmp_GroupMembers rp)) 0) as [Hl|Hl].
  - apply fan_over_none; [done|]. intros _. split; [done|]. rewrite <- Hr. by destruct (gmp_GroupMembers rp).
  - eapply wp_mono; [apply wp_route_deliver|]. rewrite Hr. intros r v'. by apply fan_over_before.
Qed.

(** Whom the handler delivers to, from what the key of the cached member set
    holds: without a set the active members in MySQL, which the logic service
    answers; nobody for the placeholder of an empty group; else the members
    of the set. A key that holds no set is an error. *)
Definition audience (o : option rentry) (gid : Z) (t : tables) : list Z :=
  match get_set o with
  | Ok N => if decide (N = ∅) then active_members gid t
            else if decide (N = {["-1"]}) then [] else parse_members (elements N)
  | Err _ => []
  end.

Definition audience_ok (o : option rentry) : res unit := res_map (fun _ => tt) (get_set o).

(** The outcome of the handler: a fan-out to [us], or, when a call failed with
    the text of a missing cache, to the active members. *)
Definition handled (us : list Z) (ok : res unit) v gm payload (r : res unit) v' : Prop :=
  exists us', (us' = us \/ fl = true /\ us' = active_members (gm_GroupId gm) (v_db v))
    /\ fan_over us' ok v gm payload r v'.

Lemma handled_none us ok v gm payload r v' :
  called [] v v' -> (fl = false -> r = ok /\ us = []) -> handled us ok v gm payload r v'.
Proof. intros Hc Hr. exists us. split; [by left|by apply fan_over_none]. Qed.

(** What the handler does with an error of the member lookup: without failures
    it is the missing cache, which is rebuilt, or a key of another type. *)
Lemma wp_lookup_error us ok gm payload v v1 e :
  gm_GroupId gm <> 0 -> same_routes v v1 ->
  (fl = false -> (e = ErrMsg "group has no members OR redis cache missed"
       /\ us = active_members (gm_GroupId gm) (v_db v) /\ ok = Ok tt)
     \/ (e = wrongtype /\ us = [] /\ ok = Err e)) ->
  wp (ext fl) (if String.eqb (Error e) "group has no members" || String.eqb (Error e) "group has no online users" then Ret (Ok tt)
    else if String.eqb (Error e) "group has no members OR redis cache missed" then refill gm payload else Ret (Err e))
    v1 (handled us ok v gm payload).
Proof.
  intros Hnz Hs1 He. pose proof Hs1 as (Hdb & Hca & Hn & _).
  assert (called [] v v1) as Hcn by by apply called_nil.
  destruct (_ || _) eqn:Hstop.
  { apply handled_none; [done|]. intros Hfl. destruct (He Hfl) as [(-> & _) | (-> & _)]; by vm_compute in Hstop. }
  destruct (String.eqb_spec (Error e) "group has no members OR redis cache missed") as [Hmiss|Hno].
  - eapply wp_mono; [by apply wp_refill|]. intros r v' Hf. unfold fan_post in Hf. rewrite Hdb in Hf.
    apply (fan_over_before _ _ v) in Hf; [|done].
    destruct (decide (fl = true)) as [Hfl|Hfl%not_true_is_false].
    + exists (active_members (gm_GroupId gm) (v_db v)). split; [by right|]. destruct Hf as (t & cs & ? & ? & ? & _).
      exists t, cs. split; [done|]. split_and!; [done|done|congruence].
    + destruct (He Hfl) as [(_ & -> & ->) | (-> & _)]; [|by vm_compute in Hmiss]. eexists. split; [by left|done].
  - apply handled_none; [done|]. intros Hfl. destruct (He Hfl) as [(-> & _) | (-> & -> & ->)]; done.
Qed.

Lemma perm_elements_singleton (raw : list string) (N : gset string) x :
  raw ≡ₚ elements N -> raw = [x] <-> N = {[x]}.
Proof.
  intros Hr. split.
  - intros ->. apply set_eq. intros s. by rewrite <- elem_of_elements, <- Hr, elem_of_singleton, list_elem_of_singleton.
  - intros ->. rewrite elements_singleton in Hr. by apply Permutation_singleton_r.
Qed.

Lemma wp_handleSmallGroupMessage_any gm payload v :
  gm_GroupId gm <> 0 ->
  wp (ext fl) (handleSmallGroupMessage (fun r => rpc (RefreshGroupMembersCache r)) None gm payload) v (fun r v' =>
    exists t, v_now v <= t <= v_now v' /\
      let o := purge t (v_rds v) !! groupMembersKey (gm_GroupId gm) in
      handled (audience o (gm_GroupId gm) (v_db v)) (audience_ok o) v gm payload r v').
Proof.
  intros Hnz. unfold handleSmallGroupMessage, loadGroupOnlineMemberIDs.
  cbn [bind call]. apply wp_read; [done|]. intros t r Ht Hr.
  pose proof (same_routes_tick t v Ht) as Hs1.
  set (o := purge t (v_rds v) !! groupMembersKey (gm_GroupId gm)).
  assert (forall p : prog (ev TaskMem) (res unit),
    wp (ext fl) p (tick t v) (handled (audience o (gm_GroupId gm) (v_db v)) (audience_ok o) v gm payload) ->
    wp (ext fl) p (tick t v) (fun r v' => exists t0, v_now v <= t0 <= v_now v' /\
      let o := purge t0 (v_rds v) !! groupMembersKey (gm_GroupId gm) in
      handled (audience o (gm_GroupId gm) (v_db v)) (audience_ok o) v gm payload r v')) as Hwrap.
  { intros p Hp. eapply wp_mono; [exact (wp_and _ _ _ _ _ Hp (wp_time fl p (tick t v) t (Z.le_refl _)))|].
    intros r0 v' [Hh Hn]. exists t. by split_and!. }
  pose proof (fun us ok v1 e => wp_lookup_error us ok gm payload v v1 e Hnz) as Herr.
  unfold refill in Herr.
  destruct Hr as [Hr | [Hfl [msg ->]]]; [|apply Hwrap, Herr; [done|congruence]].
  cbn [reply_ok doc_cmd fst] in Hr. change (memberKey (gm_GroupId gm)) with (groupMembersKey (gm_GroupId gm)) in Hr. fold o in Hr.
  assert (called [] v (tick t v)) as Hcn by by apply called_nil.
  apply Hwrap, wp_bind. unfold audience, audience_ok in *. destruct (get_set o) as [N|e] eqn:Ho; cbn [res_map] in *.
  2:{ destruct r as [|e']; [done|]. cbn in Hr. subst e'. cbn [wp]. apply Herr; [done|]. intros _. right. split_and!; [|done..].
      unfold get_set in Ho. destruct o as [[[|] ?]|]; by simplify_eq. }
  destruct r as [raw|]; [|done]. cbn in Hr.
  destruct (Nat.eqb_spec (length raw) 0) as [Hl|Hl].
  { destruct raw; [|done]. apply Permutation_nil_r, elements_empty_inv, leibniz_equiv in Hr as ->.
    cbn [wp]. apply Herr; [done|]. intros _. left. by rewrite decide_True. }
  rewrite decide_False by (intros ->; rewrite elements_empty in Hr; apply Permutation_nil_l in Hr as <-; done).
  pose proof (perm_elements_singleton raw N "-1" (symmetry Hr)) as Hone.
  destruct (decide (raw = ["-1"])) as [Hneg|Hneg].
  { rewrite bool_decide_true by done. rewrite decide_True by by apply Hone. cbn [wp].
    cbn. by apply handled_none. }
  rewrite bool_decide_false by done. rewrite decide_False by (by rewrite <- Hone).
  assert (parse_members raw ≡ₚ parse_members (elements N)) as Hpm by (unfold parse_members; by rewrite Hr).
  destruct (Nat.eqb_spec (length (parse_members raw)) 0) as [Hl0|_].
  { cbn. apply handled_none; [done|]. intros _. split; [done|].
    destruct (parse_members raw); [|done]. by apply Permutation_nil_l in Hpm. }
  eapply wp_mono; [apply wp_getOnlineRoutingMap|].
  intros r1 v1 [Hw [(t1 & Ht1 & ->) | [Hfl [msg ->]]]].
  - eapply wp_mono; [apply wp_deliver|]. intros r v' (cs & Hc & Hf & Hok). eexists. split; [by left|].
    apply (fan_over_before _ _ _ (tick t v)); [done|]. exists t1, cs. split; [destruct Hc as (_ & _ & ?); lia|].
    split; [apply (called_trans [] cs _ v1); [by apply waited_called|done]|]. split; [|done].
    eapply fanout_ext; [|done|exact Hf]. intros u. by rewrite Hpm.
  - apply Herr; [|congruence]. eapply same_routes_trans; [exact Hs1|by apply same_routes_waited].
Qed.

(** When the cached sets are those of MySQL, the audience is. *)
Lemma audience_coherent gid v t :
  in_int64 gid -> coherent v -> -1 ∉ active_members gid (v_db v) ->
  let o := purge t (v_rds v) !! groupMembersKey gid in
  audience_ok o = Ok tt /\ forall u, u ∈ audience o gid (v_db v) <-> u ∈ active_members gid (v_db v).
Proof.
  intros Hg [Hca Hm] Hneg. cbn. set (ms := active_members gid (v_db v)) in *.
  destruct (purge t (v_rds v) !! groupMembersKey gid) as [[rv ex]|] eqn:He.
  2:{ unfold audience. cbn. by rewrite decide_True. }
  pose proof (caches_ok_purge t _ _ Hca _ _ Hg He) as Hrv. cbn in Hrv. subst rv. fold ms. split; [done|].
  unfold audience. cbn [get_set]. rewrite decide_False by apply cached_not_empty.
  assert (Forall in_int64 ms) as Hms by (apply Forall_forall; intros u; by apply active_members_range).
  destruct (decide (ms = [])) as [->|Hne]; [intros u; by rewrite decide_True|].
  assert (cached ms <> {["-1"]}) as Hno.
  { intros Heq. destruct ms as [|m0 ms0]; [done|]. apply Hneg.
    assert (FormatInt m0 ∈ cached (m0 :: ms0)) as Hin by (cbn; set_solver).
    rewrite Heq in Hin. apply elem_of_singleton in Hin. change "-1" with (FormatInt (-1)) in Hin.
    apply FormatInt_inj in Hin as <-; [constructor|by apply Forall_inv in Hms|]. unfold in_int64, min_int64, max_int64. lia. }
  rewrite decide_False by done. by apply parse_members_cached.
Qed.

Lemma wp_handleSmallGroupMessage gm payload v :
  in_int64 (gm_GroupId gm) -> gm_GroupId gm <> 0 -> coherent v -> -1 ∉ active_members (gm_GroupId gm) (v_db v) ->
  wp (ext fl) (handleSmallGroupMessage (fun r => rpc (RefreshGroupMembersCache r)) None gm payload) v (fan_post v gm payload).
Proof.
  intros Hg Hnz Hco Hneg. eapply wp_mono; [by apply wp_handleSmallGroupMessage_any|].
  intros r v' (t & Ht & us & Hus & t1 & cs & Ht1 & Hc & Hf & Hr).
  destruct (audience_coherent _ _ t Hg Hco Hneg) as [Hok Hau]. rewrite Hok in Hr. exists t1, cs. split; [done|]. split; [done|].
  split; [|done]. eapply fanout_ext; [|done|exact Hf]. intros u. destruct Hus as [-> | [_ ->]]; [apply Hau|done].
Qed.
End fan.

(** ** Rooms and private messages *)
Section others.
Context `{HC : Crypto} `{HCd : Codec} `{HD : Dialer} (fl : bool).
Implicit Types v : sysview TaskMem.

Definition room_call (gm : RoomMessage) (payload : string) : ConnectCall :=
  BroadcastRoom {| brr_RoomId := rm_RoomId gm; brr_FromUserId := rm_FromUserId gm; brr_Payload := payload; brr_MsgType := rm_MsgType gm |}.

Lemma wp_broadcast_nodes gm payload nodes v :
  wp (ext fl) (broadcast_nodes gm payload nodes) v (fun r v' => exists cs,
    called cs v v' /\ sent (fl = false /\ dialable) ((fun s => (s, room_call gm payload)) <$> nodes) cs
    /\ (r = Ok tt \/ ext_err fl r)).
Proof.
  unfold broadcast_nodes. apply wp_Go_all; [by intros []|lia|]. apply Forall2_fmap, Forall_Forall2_diag, Forall_forall.
  intros s _. unfold broadcast_node. apply sends_push; by eexists.
Qed.

(** A room message goes to nodes of the registry, each once; without failures
    to all of them. *)
Definition room_post v gm payload (r : res unit) v' : Prop :=
  exists t cs, v_now v <= t /\ called cs v v' /\ NoDup cs.*1
    /\ (forall s c, (s, c) ∈ cs -> c = room_call gm payload
          /\ exists N, get_set (purge t (v_rds v) !! connectNodesKeyPrefix) = Ok N /\ s ∈ N)
    /\ (fl = false -> dialable -> forall N, get_set (purge t (v_rds v) !! connectNodesKeyPrefix) = Ok N ->
          r = Ok tt /\ forall s, s ∈ N -> (s, room_call gm payload) ∈ cs).

Lemma wp_handleRoomBroadcast gm payload v :
  wp (ext fl) (handleRoomBroadcast gm payload) v (room_post v gm payload).
Proof.
  unfold handleRoomBroadcast, loadGroupNodeIDs. cbn [bind call]. apply wp_read; [done|]. intros t r Ht Hr.
  assert (forall r0, (fl = false -> forall N, get_set (purge t (v_rds v) !! connectNodesKeyPrefix) = Ok N -> r0 = Ok tt /\ N = ∅) ->
    room_post v gm payload r0 (tick t v)) as Hnone.
  { intros r0 Hr0. exists t, []. split; [done|]. split; [by apply called_nil|]. split; [constructor|]. split; [set_solver|].
    intros Hfl _ N HN. destruct (Hr0 Hfl N HN) as [-> ->]. set_solver. }
  destruct Hr as [Hr | [Hfl [msg ->]]]; [|apply Hnone; congruence]. cbn [reply_ok doc_cmd] in Hr.
  destruct (get_set (purge t (v_rds v) !! connectNodesKeyPrefix)) as [N|e] eqn:HN; cbn [fst] in Hr.
  2:{ destruct r as [|e']; [done|]. apply Hnone. congruence. }
  destruct r as [raw|e']; [|done]. destruct (Nat.eqb_spec (length raw) 0) as [Hl|Hl].
  { apply Hnone. intros _ N' [= <-]. split; [done|]. destruct raw; [|done]. by apply Permutation_nil_r, elements_empty_inv, leibniz_equiv in Hr. }
  eapply wp_mono; [apply wp_broadcast_nodes|]. intros r v' (cs & Hc & [Hsub Hall] & Hok).
  assert (forall s c, (s, c) ∈ ((fun s => (s, room_call gm payload)) <$> raw) <-> c = room_call gm payload /\ s ∈ N) as Hin.
  { intros s c. rewrite list_elem_of_fmap. rewrite <- (elem_of_elements N), Hr. naive_solver. }
  exists t, cs. split; [done|]. split; [by eapply called_tick|]. split_and!.
  - apply (submseteq_NoDup_fst _ _ Hsub). rewrite <- list_fmap_compose, <- Hr. change (fst ∘ _) with (@id string).
    rewrite list_fmap_id. apply NoDup_elements.
  - intros s c Hsc. apply (elem_of_submseteq _ _ _ Hsc), Hin in Hsub as [-> Hs]. split; [done|]. by exists N.
  - intros Hfl Hd N' HN'. split; [destruct Hok as [?|[? _]]; [done|congruence]|]. intros s Hs. rewrite (Hall (conj Hfl Hd)).
    apply Hin. split; [done|]. congruence.
Qed.

(** A private message goes to the node of its recipient. *)
Definition private_call (chatMsg : Message) (payload : string) : ConnectCall :=
  PushMsg {| pmr_ToUserId := m_ToUserId chatMsg; pmr_Payload := payload; pmr_MsgType := m_MsgType chatMsg |}.

Lemma wp_single_message kMsg v :
  wp (ext fl) (single_message kMsg) v (fun _ v' => exists t cs, v_now v <= t <= v_now v' /\ called cs v v' /\
    let calls := match Unmarshal_Message (k_Value kMsg) with
      | Ok m => match route_of (purge t (v_rds v)) (m_ToUserId m) with
                | Some s => [(s, private_call m (k_Value kMsg))] | None => [] end
      | Err _ => [] end in
    sublist cs calls /\ (fl = false -> dialable -> cs = calls)).
Proof.
  unfold single_message. destruct (Unmarshal_Message (k_Value kMsg)) as [m|e].
  2:{ exists (v_now v), []. split; [lia|]. split; [by apply called_nil; [..|lia]|]. done. }
  cbn [bind call]. apply wp_read; [done|]. intros t r Ht Hr.
  assert (forall r0 : unit, route_of (purge t (v_rds v)) (m_ToUserId m) = None \/ fl = true ->
    exists t0 cs, v_now v <= t0 <= t /\ called cs v (tick t v) /\
    let calls := match route_of (purge t0 (v_rds v)) (m_ToUserId m) with
                | Some s => [(s, private_call m (k_Value kMsg))] | None => [] end in
    sublist cs calls /\ (fl = false -> dialable -> cs = calls)) as Hnone.
  { intros _ Hx. exists t, []. split; [lia|]. split; [by apply called_nil|]. cbn. split; [apply sublist_nil_l|].
    intros Hfl _. destruct Hx as [-> | Hx]; [done|congruence]. }
  destruct Hr as [Hr | [Hfl [msg ->]]]; [|apply (Hnone tt); by right]. cbn [reply_ok doc_cmd fst] in Hr.
  change (userServerKeyPrefix ++ FormatInt (m_ToUserId m)) with (routeKey (m_ToUserId m)) in Hr.
  destruct r as [[s|]|e]; [|apply (Hnone tt); left; unfold route_of; by rewrite Hr..].
  destruct (String.eqb s "") eqn:Hs; [apply (Hnone tt); left; unfold route_of; by rewrite Hr, Hs|].
  assert (route_of (purge t (v_rds v)) (m_ToUserId m) = Some s) as Hroute by (unfold route_of; by rewrite Hr, Hs).
  apply wp_bind. pose proof (proj1 (wp_bind _ _ _ _ _) (wp_push fl s (fun _ => private_call m (k_Value kMsg)) (tick t v))) as Hpush.
  eapply wp_mono; [exact Hpush|]. intros r v1 H1.
  assert (forall (r1 : res unit) v2, (exists cs, called cs (tick t v) v2 /\ sublist cs [(s, private_call m (k_Value kMsg))]
    /\ (fl = false -> dialable -> cs = [(s, private_call m (k_Value kMsg))] /\ r1 = Ok ())) ->
    exists t0 cs, v_now v <= t0 <= v_now v2 /\ called cs v v2 /\
    let calls := match route_of (purge t0 (v_rds v)) (m_ToUserId m) with
                | Some s => [(s, private_call m (k_Value kMsg))] | None => [] end in
    sublist cs calls /\ (fl = false -> dialable -> cs = calls)) as Hend.
  { intros r1 v2 (cs & Hc & Hsub & Hall). exists t, cs. split; [split; [done|apply Hc]|]. rewrite Hroute.
    split; [apply (called_trans [] cs _ (tick t v)); [by apply called_nil|done]|]. split; [done|]. intros Hfl Hd. by apply Hall. }
  destruct r as [p|e].
  - cbn [bind call]. intros x v2 Hx. cbn [wp]. by apply (Hend x), H1.
  - by apply (Hend (Err e)).
Qed.
End others.

(** ** Theorems *)
Section theorems.
Context `{HC : Crypto} `{HCd : Codec} `{HD : Dialer} `{HCo : Collation} {fl : bool} {W : Type} `{HW : !World fl TaskMem W}.

(** C11. Whom a group message reaches, whatever the member cache holds: the
    online users of the cached set, if there is one (stale or not), nobody
    for the placeholder of an empty group, and, without a cached set, the
    online active members in MySQL, which the logic service answers while it
    rebuilds the cache. Never the sender: every push is for one of them who is
    not the sender, through the node the routing table gives, one call per
    node; without failing calls every such user gets one, and the answer is Ok
    unless the key holds no set. When the cached sets are those of MySQL these
    users are the active members. (A failed call whose text is that of a
    missing cache is treated as one.) *)
Theorem group_message_fanout gm payload w r w' :
  gm_GroupId gm <> 0 ->
  exec (handleSmallGroupMessage (fun r => rpc (RefreshGroupMembersCache r)) None gm payload) w = (r, w') ->
  exists t0 us t cs, let o := purge t0 (v_rds (view w)) !! groupMembersKey (gm_GroupId gm) in
    let ms := active_members (gm_GroupId gm) (v_db (view w)) in
    v_now (view w) <= t0 <= v_now (view w') /\ v_now (view w) <= t <= v_now (view w')
    /\ (us = audience o (gm_GroupId gm) (v_db (view w)) \/ fl = true /\ us = ms)
    /\ called cs (view w) (view w')
    /\ fanout (fl = false /\ dialable) (purge t (v_rds (view w))) us gm payload cs
    /\ (fl = false -> r = audience_ok o)
    /\ (in_int64 (gm_GroupId gm) -> coherent (view w) -> -1 ∉ ms ->
        (forall u, u ∈ us <-> u ∈ ms) /\ (fl = false -> r = Ok tt)).
Proof.
  intros Hnz Hrun. pose proof (exec_wp _ _ _ (wp_handleSmallGroupMessage_any fl gm payload (view w) Hnz) _ _ Hrun)
    as (t0 & Ht0 & us & Hus & t & cs & Ht & Hc & Hf & Hr).
  exists t0, us, t, cs. cbn. split_and!; try done; try lia. intros Hg Hco Hneg.
  destruct (audience_coherent _ _ t0 Hg Hco Hneg) as [Hok Hau]. split; [|intros Hfl; by rewrite Hr, Hok].
  intros u. destruct Hus as [-> | [_ ->]]; [apply Hau|done].
Qed.

(** C25. A room message is broadcast to the registered connect nodes only,
    each at most once, with its room and its sender; without failures to each
    of them. *)
Theorem room_message_fanout gm payload w r w' :
  exec (handleRoomBroadcast gm payload) w = (r, w') ->
  room_post fl (view w) gm payload r (view w').
Proof. intros Hrun. by_wp Hrun. apply wp_handleRoomBroadcast. Qed.

(** A private message is pushed to its recipient only, through the node
    the recipient is routed to, at most once; an unrouted recipient or a
    record that does not decode gets no push; without failures a routed
    recipient gets one. *)
Theorem private_message_routed kMsg w x w' :
  exec (single_message kMsg) w = (x, w') ->
  exists t cs, v_now (view w) <= t <= v_now (view w') /\ called cs (view w) (view w') /\
    let calls := match Unmarshal_Message (k_Value kMsg) with
      | Ok m => match route_of (purge t (v_rds (view w))) (m_ToUserId m) with
                | Some s => [(s, private_call m (k_Value kMsg))] | None => [] end
      | Err _ => [] end in
    sublist cs calls /\ (fl = false -> dialable -> cs = calls).
Proof. intros Hrun. by_wp Hrun. apply wp_single_message. Qed.
End theorems.
