(* ===== verification/FanOut.v ===== *)
(** * Fan-outs end (src/internal/task/consumer.go, the loops over nodes)

    The interleavings of a fan-out as a step relation, without fuel: the loop
    takes a token and starts a goroutine, or sees the context cancelled and
    returns at once; goroutines make their calls, end and give their token back;
    [g.Wait()] returns when all have ended.  No interleaving runs for ever or
    gets stuck on the semaphore, and [errgroup_run] of Goroutines.v, which the
    consumers use, only ever does what the relation allows. *)

From Stdlib Require Import ZArith Lia String Wellfounded.
From stdpp Require Import base tactics list gmap strings relations.
From S2P Require Import Prelude GoStd Effects Redis Database Proto World Rules Frames Store GroupServer Goroutines ClientPool Consumer ConsumerSpec.

Local Open Scope Z_scope.

(** The loop has returned when there is an answer. *)
Record group M := Group {
  gr_pending : list (prog (ev M) unit);
  gr_alive : list (prog (ev M) unit);
  gr_answer : option (res unit) }.
Arguments Group {M}.
Arguments gr_pending {M}.
Arguments gr_alive {M}.
Arguments gr_answer {M}.

Section steps.
Context `{HC : Crypto} {M : Type} (fl : bool) (limit : nat).
Implicit Types (v : sysview M) (p task : prog (ev M) unit).

Inductive group_step : group M * sysview M -> group M * sysview M -> Prop :=
| go_start task pending alive v v' :
    (length alive < limit)%nat -> waited v v' ->
    group_step (Group (task :: pending) alive None, v) (Group pending (alive ++ [task]) None, v')
| go_cancelled task pending alive v v' r :
    ext_err fl r -> waited v v' ->
    group_step (Group (task :: pending) alive None, v) (Group [] alive (Some r), v')
| go_call pending alive answer i X (e : ev M X) k x v v' :
    alive !! i = Some (Vis e k) -> ext fl X e v x v' ->
    group_step (Group pending alive answer, v) (Group pending (<[i := k x]> alive) answer, v')
| go_end pending alive answer i u v v' :
    alive !! i = Some (Ret u) -> waited v v' ->
    group_step (Group pending alive answer, v) (Group pending (delete i alive) answer, v')
| go_wait v v' : waited v v' -> group_step (Group [] [] None, v) (Group [] [] (Some (Ok tt)), v').

(** Everything is done. *)
Definition group_done (g : group M) : Prop := gr_alive g = [] /\ gr_answer g <> None.

(** ** No infinite run *)

(** [q] is what is left of [p] after its next call. *)
Definition rest_of (q p : prog (ev M) unit) : Prop :=
  match p with Ret _ => False | Vis e k => exists x, q = k x end.

Lemma rest_of_wf : well_founded rest_of.
Proof. intros p. induction p as [u|X e k IH]; constructor; [by intros q|]. intros q [x ->]. apply IH. Qed.

(** A goroutine makes a call or ends. *)
Inductive shrink : list (prog (ev M) unit) -> list (prog (ev M) unit) -> Prop :=
| shrink_call alive i p q : alive !! i = Some p -> rest_of q p -> shrink (<[i := q]> alive) alive
| shrink_end alive i p : alive !! i = Some p -> shrink (delete i alive) alive.

Lemma shrink_cons_inv l p alive :
  shrink l (p :: alive) ->
  (exists q, rest_of q p /\ l = q :: alive) \/ l = alive \/ exists l', l = p :: l' /\ shrink l' alive.
Proof.
  intros H. remember (p :: alive) as a eqn:Ha. destruct H as [a0 i p0 q Hi Hq|a0 i p0 Hi]; subst a0; destruct i as [|i]; simplify_eq/=.
  - left. by exists q.
  - right. right. exists (<[i := q]> alive). split; [done|by econstructor].
  - by right; left.
  - right. right. exists (delete i alive). split; [done|by econstructor].
Qed.

Lemma shrink_wf : well_founded shrink.
Proof.
  intros alive. induction alive as [|p alive IH].
  { constructor. intros l H. remember [] as a eqn:Ha. destruct H; by subst. }
  revert alive IH. induction (rest_of_wf p) as [p _ IHp]. intros alive IH. induction IH as [alive Hacc IH].
  constructor. intros l [(q & Hq & ->)|[->|(l' & -> & Hl)]]%shrink_cons_inv; [apply IHp; [done|by constructor]|by constructor|by apply IH].
Qed.

Lemma group_step_wf : well_founded (fun s' s => group_step s s').
Proof.
  assert (forall n alive, Acc shrink alive -> forall pending answer v, length pending = n ->
    (forall a' todo ans' v', (length todo < n)%nat -> Acc (fun s' s => group_step s s') (Group todo a' ans', v')) ->
    (answer = None -> forall v', Acc (fun s' s => group_step s s') (Group [] [] (Some (Ok tt)), v')) ->
    Acc (fun s' s => group_step s s') (Group pending alive answer, v)) as Hin.
  { intros n alive Ha. induction Ha as [alive _ IH]. intros pending answer v Hn Hless Hwait. constructor. intros s' Hs.
    remember (Group pending alive answer, v) as s eqn:Heq. destruct Hs; simplify_eq/=.
    - apply Hless. lia.
    - apply Hless. cbn. lia.
    - apply IH; [econstructor; [done|by eexists]|done..].
    - apply IH; [by econstructor|done..].
    - by apply Hwait. }
  assert (forall v, Acc (fun s' s => group_step s s') (Group [] [] (Some (Ok tt)), v)) as Hlast.
  { intros v. apply (Hin 0%nat); [apply shrink_wf|done|intros; lia|done]. }
  assert (forall n pending alive answer v, (length pending <= n)%nat -> Acc (fun s' s => group_step s s') (Group pending alive answer, v)) as H.
  { induction n as [|n IH]; intros pending alive answer v Hn; (eapply Hin; [apply shrink_wf|done|intros; try lia|done]).
    apply IH. lia. }
  intros [[pending alive answer] v]. by eapply H.
Qed.

(** ** No deadlock *)

(** The call gets an answer, whatever the state of the world. *)
Definition answers {X} (e : ev M X) : Prop := forall v, exists x v', ext fl X e v x v'.
Abbreviation answered := (all_events (fun _ e => answers e)).

Lemma group_progress pending alive answer v :
  (0 < limit)%nat -> Forall answered alive ->
  group_done (Group pending alive answer) \/ exists s', group_step (Group pending alive answer, v) s'.
Proof.
  intros Hlim Ha. destruct alive as [|p alive].
  - destruct answer as [r|]; [by left|right]. destruct pending as [|task pending]; eexists; [apply (go_wait v v)|apply (go_start _ _ _ v v); [done|]]; by left.
  - right. apply Forall_cons in Ha as [Hp _]. destruct p as [u|X e k].
    + eexists. apply (go_end _ _ _ 0 u _ v); [done|by left].
    + destruct Hp as [He _]. destruct (He v) as (x & v' & Hx). eexists. by apply (go_call _ _ _ 0 X e k x).
Qed.

Definition group_answered (g : group M) : Prop := Forall answered (gr_pending g) /\ Forall answered (gr_alive g).

Lemma group_step_answered s s' : group_step s s' -> group_answered s.1 -> group_answered s'.1.
Proof.
  intros Hs [Hp Ha]. destruct Hs as [task pending alive v v' _ _|task pending alive v v' r _ _
    |pending alive answer i X e k x v v' Hi _|pending alive answer i u v v' Hi _|]; cbn in *; (split; cbn; [|]); try done.
  - by apply Forall_cons in Hp as [_ Hp].
  - apply Forall_cons in Hp as [Ht _]. apply Forall_app. split; [done|by apply Forall_singleton].
  - apply Forall_insert; [done|]. pose proof (Forall_lookup_1 _ _ _ _ Ha Hi) as [_ Hk]. apply Hk.
  - by apply Forall_delete.
Qed.

(** ** What has been sent *)
Section outcome.
Context (sure : Prop) (Hsure : sure -> fl = false) (all : list (string * ConnectCall)) (v0 : sysview M).

(** The calls sent and those the goroutines have still to send are all calls. *)
Definition group_sent (s : group M * sysview M) : Prop :=
  exists pinfo ainfo cs,
    Forall2 (fun p i => sends fl sure p i.1 i.2) (gr_pending s.1) pinfo
    /\ Forall2 (fun p i => sends fl sure p i.1 i.2) (gr_alive s.1) ainfo
    /\ called cs v0 s.2 /\ sent sure all (cs ++ todos (pinfo ++ ainfo))%list
    /\ match gr_answer s.1 with Some r => gr_pending s.1 = [] /\ (r = Ok tt \/ ext_err fl r) | None => True end.

Lemma waited_calls cs v v' : waited v v' -> called cs v0 v -> called cs v0 v'.
Proof.
  intros Hw Hc. rewrite <- (app_nil_r cs). eapply called_trans; [exact Hc|].
  destruct Hw as [-> | (t & Ht & ->)]; apply called_nil; try done; cbn; lia.
Qed.

Lemma sent_some (cs a b : list (string * ConnectCall)) : (sure -> b = []) -> sent sure all (cs ++ (a ++ b))%list -> sent sure all (cs ++ a)%list.
Proof.
  intros Hb [H1 H2]. split; [|by intros Hs; rewrite <- (H2 Hs), (Hb Hs), app_nil_r].
  etransitivity; [|exact H1]. apply submseteq_skips_l, submseteq_inserts_r. done.
Qed.

Lemma sent_reorder cs cs' : cs ≡ₚ cs' -> sent sure all cs -> sent sure all cs'.
Proof. intros Hp [H1 H2]. split; [by rewrite <- Hp|]. intros Hs. by rewrite <- Hp, H2. Qed.

Lemma todos_perm l l' : l ≡ₚ l' -> todos l ≡ₚ todos l'.
Proof. intros Hl. unfold todos. by apply bind_Permutation. Qed.

Lemma group_step_sent s s' : group_step s s' -> group_sent s -> group_sent s'.
Proof using Hsure.
  intros Hs (pinfo & ainfo & cs & Hp & Ha & Hc & Hsent & Hans). destruct Hs as [task pending alive v v' _ Hw|task pending alive v v' r Hr Hw
    |pending alive answer i X e k x v v' Hi Hx|pending alive answer i u v v' Hi Hw|v v' Hw]; cbn in *.
  - destruct pinfo as [|[n todo] pinfo]; [by apply Forall2_cons_nil_inv in Hp|]. apply Forall2_cons in Hp as [Ht Hp].
    exists pinfo, (ainfo ++ [(n, todo)])%list, cs. split_and!; [done|by apply Forall2_app; [|constructor]|by eapply waited_calls| |done].
    eapply sent_reorder; [|exact Hsent]. apply Permutation_app_head, todos_perm. by rewrite app_assoc, (Permutation_app_comm _ [_]).
  - exists [], ainfo, cs. split_and!; [constructor|done|by eapply waited_calls| |by split; [|right]].
    apply (sent_some cs (todos ([] ++ ainfo)) (todos pinfo)); [intros Hy; destruct Hr; apply Hsure in Hy; congruence|].
    eapply sent_reorder; [|exact Hsent]. apply Permutation_app_head. rewrite !todos_app. cbn. apply Permutation_app_comm.
  - destruct (Forall2_focus _ _ _ _ _ Ha Hi) as (b1 & [steps todo] & b2 & -> & Hsend & _ & Hins). cbn in Hsend.
    destruct Hsend as (n & -> & Hsend). destruct (Hsend _ _ _ Hx) as [[Hc1 Hk]|[Hc1 Hk]].
    + exists pinfo, (b1 ++ (n, todo) :: b2)%list, cs. split_and!; [done|by apply Hins| | |done].
      * rewrite <- (app_nil_r cs). by eapply called_trans.
      * by rewrite !todos_app in *.
    + exists pinfo, (b1 ++ (n, []) :: b2)%list, (cs ++ todo)%list. split_and!; [done|by apply Hins|by eapply called_trans| |done].
      eapply sent_reorder; [|exact Hsent]. rewrite <- app_assoc. apply Permutation_app_head. rewrite !todos_app. cbn.
      by rewrite !(Permutation_app_swap_app todo).
  - destruct (Forall2_focus _ _ _ _ _ Ha Hi) as (b1 & [steps todo] & b2 & -> & Hsend & Hdel & _). cbn in Hsend.
    exists pinfo, (b1 ++ b2)%list, cs. split_and!; [done|done|by eapply waited_calls| |done].
    apply (sent_some cs _ todo Hsend). eapply sent_reorder; [|exact Hsent]. apply Permutation_app_head.
    rewrite !todos_app. cbn. rewrite <- !app_assoc. do 2 apply Permutation_app_head. apply Permutation_app_comm.
  - exists pinfo, ainfo, cs. split_and!; [done|done|by eapply waited_calls|done|by split; [|left]].
Qed.
End outcome.

(** ** The executable fan-out follows the relation *)
Lemma ext_tick X (e : ev M X) t v x v' : v_now v <= t -> ext fl X e (tick t v) x v' -> ext fl X e v x v'.
Proof.
  intros Ht (t' & Ht' & H). cbn in Ht'. exists t'. split; [lia|]. by rewrite <- (tick_tick t t').
Qed.

Lemma waited_at t v : v_now v <= t -> waited v (tick t v).
Proof. intros Ht. right. by exists t. Qed.

Definition group_of (pending alive : list (prog (ev M) unit)) (result : res unit) : group M :=
  Group pending alive (match result with Ok _ => None | Err _ => Some result end).

Lemma errgroup_run_steps fuel pending alive result v :
  (0 < limit)%nat -> (is_ok result = false -> pending = []) ->
  wp (ext fl) (errgroup_run fuel limit pending alive result) v (fun r v' =>
    r = Err (ErrMsg "errgroup_run: out of fuel")
    \/ rtc group_step (group_of pending alive result, v) (Group [] [] (Some r), v')).
Proof.
  intros Hlim. revert pending alive result v. induction fuel as [|fuel IH]; intros pending alive result v Hres; cbn [errgroup_run]; [by left|].
  destruct (Nat.eqb_spec (length pending + length alive) 0) as [H0|H0].
  { destruct pending, alive; try (cbn in H0; lia). right. destruct result as [[]|e]; [|apply rtc_refl].
    apply rtc_once, go_wait. by left. }
  apply wp_choose; [unfold runnable; destruct alive; [|cbn; lia]; destruct pending; [done|destruct limit; cbn; lia]|].
  intros t i Ht Hi. assert (forall g r v1 v', (r = Err (ErrMsg "errgroup_run: out of fuel") \/ rtc group_step (g, v1) (Group [] [] (Some r), v')) ->
    group_step (group_of pending alive result, v) (g, v1) ->
    r = Err (ErrMsg "errgroup_run: out of fuel") \/ rtc group_step (group_of pending alive result, v) (Group [] [] (Some r), v')) as Hstep.
  { intros g r v1 v' [Hr|Hr] Hs; [by left|right]. by eapply rtc_l. }
  destruct (alive !! i) as [[u|X e k]|] eqn:Hp.
  - eapply wp_mono; [by apply IH|]. intros r v' Hr. eapply Hstep; [exact Hr|]. eapply go_end; [exact Hp|by apply waited_at].
  - cbn [bind call wp]. intros x v1 Hx. eapply wp_mono; [by apply IH|]. intros r v' Hr. eapply Hstep; [exact Hr|].
    eapply go_call; [exact Hp|by eapply ext_tick].
  - unfold runnable in Hi. apply lookup_ge_None in Hp. destruct (Nat.ltb_spec 0 (length pending)) as [Hl|]; [|cbn in Hi; lia].
    destruct (Nat.ltb_spec (length alive) limit) as [Ha|]; [|cbn in Hi; lia].
    destruct pending as [|task rest]; [cbn in Hl; lia|]. destruct result as [u|e]; [|by specialize (Hres eq_refl)]. cbn [bind call].
    apply wp_ctx; intros t1.
    + intros Ht1. eapply wp_mono; [by apply IH|]. intros r v' Hr. eapply Hstep; [exact Hr|].
      apply go_start; [done|]. by apply waited_tick; [apply waited_at|].
    + intros msg Ht1 Hfl. eapply wp_mono; [by apply (IH [] alive (Err (ErrExt msg)))|]. intros r v' Hr. eapply Hstep; [exact Hr|].
      apply go_cancelled; [by split; [|eexists]|]. by apply waited_tick; [apply waited_at|].
Qed.
End steps.

(** ** The consumers' fan-outs *)
Section consumers.
Context `{HC : Crypto} `{HCd : Codec} `{HD : Dialer} (fl : bool).
Implicit Types v : sysview TaskMem.

Lemma answers_mem {A} (f : TaskMem -> A * TaskMem) : answers fl (Mem f).
Proof. intros v. destruct (f (v_mem v)) as [a m] eqn:Hf. exists a, (set_mem m (tick (v_now v) v)), (v_now v). split; [lia|]. left. cbn. by rewrite Hf. Qed.

Lemma answers_call srv c : answers fl (ConnCall (M := TaskMem) srv c).
Proof. intros v. exists (Ok tt), (add_call (srv, c) (tick (v_now v) v)), (v_now v). split; [lia|]. by left. Qed.

Hint Resolve answers_mem answers_call : core.

Lemma push_node_answered gm payload node : all_events (fun _ e => answers fl e) (push_node gm payload node).
Proof. unfold push_node, pushToConnect, GetClient. solve_events; auto. Qed.

Lemma broadcast_node_answered gm payload srv : all_events (fun _ e => answers fl e) (broadcast_node gm payload srv).
Proof. unfold broadcast_node, GetClient. solve_events; auto. Qed.

(** A fan-out ends, is never stuck, and when it is done the calls it owed were made. *)
Definition fans_out (limit : nat) (tasks : list (prog (ev TaskMem) unit)) (todo : list (string * ConnectCall)) v : Prop :=
  let start := (Group tasks [] None, v) in
  Acc (fun s' s => group_step fl limit s s') start
  /\ forall g v', rtc (group_step fl limit) start (g, v') ->
     (group_done g \/ exists s', group_step fl limit (g, v') s')
     /\ (group_done g -> exists cs r, called cs v v' /\ sent (fl = false /\ dialable) todo cs
           /\ gr_answer g = Some r /\ (r = Ok tt \/ ext_err fl r)).

Lemma fans_out_intro limit steps tasks todo v :
  (0 < limit)%nat -> Forall (all_events (fun _ e => answers fl e)) tasks ->
  Forall2 (fun p c => sends fl (fl = false /\ dialable) p steps [c]) tasks todo -> fans_out limit tasks todo v.
Proof.
  intros Hlim Hans Htasks. split; [apply group_step_wf|]. intros g v' Hrun.
  assert (group_answered fl g /\ group_sent fl (fl = false /\ dialable) todo v (g, v')) as [Ha Hs].
  { change (group_answered fl (g, v').1 /\ group_sent fl (fl = false /\ dialable) todo v (g, v')).
    set (s' := (g, v')) in *. set (s := (Group tasks [] None, v)) in *.
    assert (group_answered fl s.1 /\ group_sent fl (fl = false /\ dialable) todo v s) as H0.
    { split; [by split|]. exists ((fun c => (steps, [c])) <$> todo), [], []. split_and!; [by apply Forall2_fmap_r|constructor| | |done].
      - apply called_nil; [done|done|cbn; lia].
      - cbn [app]. assert (todos (((fun c => (steps, [c])) <$> todo) ++ []) = todo) as ->; [|split; done].
        rewrite app_nil_r. clear. induction todo as [|c todo IH]; [done|]. cbn. by f_equal. }
    clearbody s. revert H0. induction Hrun as [s|s s1 s2 Hstep _ IH]; [done|]. intros [H1 H2]. apply IH.
    split; [by eapply group_step_answered|]. eapply group_step_sent; [by intros []|exact Hstep|exact H2]. }
  split.
  - destruct g as [pending alive answer]. apply group_progress; [done|apply Ha].
  - intros [Hal Hanswer]. destruct Hs as (pinfo & ainfo & cs & Hp & Hai & Hc & Hsent & Hr). cbn in Hp, Hai, Hc, Hr.
    destruct (gr_answer g) as [r|]; [|done]. destruct Hr as [Hpend Hr]. rewrite Hpend in Hp. rewrite Hal in Hai.
    apply Forall2_nil_inv_l in Hp as ->, Hai as ->. exists cs, r. split_and!; [done| |done|done].
    by rewrite app_nil_r in Hsent.
Qed.

Lemma push_nodes_fan_out gm payload nodes v :
  fans_out 10 (push_node gm payload <$> push_targets gm nodes) (node_calls gm payload nodes) v.
Proof.
  apply (fans_out_intro 10 3); [lia|apply Forall_fmap, Forall_forall; intros; apply push_node_answered|].
  unfold node_calls. apply Forall2_fmap, Forall_Forall2_diag, Forall_forall. intros [s uids] _. unfold push_node, pushToConnect.
  cbn [fst snd]. apply sends_map; [by eexists|]. apply sends_push; by eexists.
Qed.

Lemma broadcast_nodes_fan_out gm payload nodes v :
  fans_out 100 (broadcast_node gm payload <$> nodes) ((fun s => (s, room_call gm payload)) <$> nodes) v.
Proof.
  apply (fans_out_intro 100 3); [lia|apply Forall_fmap, Forall_forall; intros; apply broadcast_node_answered|].
  apply Forall2_fmap, Forall_Forall2_diag, Forall_forall. intros s _. unfold broadcast_node. apply sends_push; by eexists.
Qed.

(** The fan-out run by the consumers is one of these interleavings, to its end. *)
Definition runs_out (limit : nat) (tasks : list (prog (ev TaskMem) unit)) v (r : res unit) v' : Prop :=
  rtc (group_step fl limit) (Group tasks [] None, v) (Group [] [] (Some r), v').

Lemma wp_Go_all_steps steps limit tasks v :
  (0 < limit)%nat -> wp (ext fl) (Go_all steps limit tasks) v (fun r _ => r = Ok tt \/ ext_err fl r) ->
  wp (ext fl) (Go_all steps limit tasks) v (runs_out limit tasks v).
Proof.
  intros Hlim Hr. pose proof (errgroup_run_steps fl limit (S (length tasks * S (S steps))) tasks [] (Ok tt) v Hlim ltac:(done)) as Hsteps.
  eapply wp_mono; [exact (wp_and _ _ _ _ _ Hr Hsteps)|]. intros r v' [Hok [->|Hrun]]; [|exact Hrun].
  by destruct Hok as [?|[_ [msg ?]]].
Qed.

Lemma wp_push_nodes_steps gm payload nodes v :
  wp (ext fl) (push_nodes gm payload nodes) v (runs_out 10 (push_node gm payload <$> push_targets gm nodes) v).
Proof. apply wp_Go_all_steps; [lia|]. eapply wp_mono; [apply wp_push_nodes|]. by intros r v' (cs & _ & _ & Hr). Qed.

Lemma wp_broadcast_nodes_steps gm payload nodes v :
  wp (ext fl) (broadcast_nodes gm payload nodes) v (runs_out 100 (broadcast_node gm payload <$> nodes) v).
Proof. apply wp_Go_all_steps; [lia|]. eapply wp_mono; [apply wp_broadcast_nodes|]. by intros r v' (cs & _ & _ & Hr). Qed.
End consumers.

(** ** Theorems *)
Section theorems.
Context `{HC : Crypto} `{HCd : Codec} `{HD : Dialer} {fl : bool} {W : Type} `{HW : !World fl TaskMem W}.

(** C19. The fan-out of a group message terminates: no interleaving of its loop, of
    the goroutines it starts under the semaphore and of a cancelled context is
    infinite, none gets stuck before everything is done, and when everything is
    done the pushes owed were made, each at most once, all of them without
    failures.  The run of the consumer is such an interleaving. *)
Theorem push_fanout_terminates gm payload nodes w r w' :
  exec (push_nodes gm payload nodes) w = (r, w') ->
  runs_out fl 10 (push_node gm payload <$> push_targets gm nodes) (view w) r (view w')
  /\ fans_out fl 10 (push_node gm payload <$> push_targets gm nodes) (node_calls gm payload nodes) (view w).
Proof. intros Hrun. split; [by_wp Hrun; apply wp_push_nodes_steps|apply push_nodes_fan_out]. Qed.

(** So does the fan-out of a room message, over all nodes. *)
Theorem broadcast_fanout_terminates gm payload nodes w r w' :
  exec (broadcast_nodes gm payload nodes) w = (r, w') ->
  runs_out fl 100 (broadcast_node gm payload <$> nodes) (view w) r (view w')
  /\ fans_out fl 100 (broadcast_node gm payload <$> nodes) ((fun s => (s, room_call gm payload)) <$> nodes) (view w).
Proof. intros Hrun. split; [by_wp Hrun; apply wp_broadcast_nodes_steps|apply broadcast_nodes_fan_out]. Qed.
End theorems.
