(* ===== verification/ClaimSpec.v ===== *)
(** * The order of delivery (src/internal/task/consumer.go, the claims)

    A claim hands the records of one partition to a consumer in their order.
    Records with the same key (the recipient of a private message, the room) are
    in the same partition, so what is shown here of a claim is the order in
    which a recipient's messages are pushed. *)

From Stdlib Require Import ZArith Lia String.
From stdpp Require Import base tactics list gmap strings.
From S2P Require Import Prelude GoStd Effects Redis Database Proto World Rules Frames Store GroupServer GroupSpec Goroutines ClientPool Consumer ConsumerSpec.

Local Open Scope Z_scope.

(** The calls of a claim: for each record in turn, what [one] allows. *)
Definition in_turn (one : kmsg -> list (string * ConnectCall) -> Prop) (claim : list kmsg) (cs : list (string * ConnectCall)) : Prop :=
  exists css, cs = concat css /\ Forall2 one claim css.

Lemma in_turn_nil one : in_turn one [] [].
Proof. by exists []. Qed.

Lemma in_turn_cons (one : kmsg -> list (string * ConnectCall) -> Prop) kMsg claim c cs :
  one kMsg c -> in_turn one claim cs -> in_turn one (kMsg :: claim) (c ++ cs)%list.
Proof. intros Hc (css & -> & Hall). exists (c :: css). split; [done|by constructor]. Qed.

Section claims.
Context `{HC : Crypto} `{HCd : Codec} `{HD : Dialer} (fl : bool).
Implicit Types v : sysview TaskMem.

(** The push of one private record, with the routes of some moment from [v] on. *)
Definition private_push v (kMsg : kmsg) (cs : list (string * ConnectCall)) : Prop :=
  exists t, v_now v <= t /\
    let calls := match Unmarshal_Message (k_Value kMsg) with
      | Ok m => match route_of (purge t (v_rds v)) (m_ToUserId m) with
                | Some s => [(s, private_call m (k_Value kMsg))] | None => [] end
      | Err _ => [] end in
    sublist cs calls /\ (fl = false -> dialable -> cs = calls).

(** Routes seen later are the routes seen now. *)
Definition routes_kept v v' : Prop :=
  v_now v <= v_now v' /\ forall t u, v_now v' <= t -> route_of (purge t (v_rds v')) u = route_of (purge t (v_rds v)) u.

Lemma routes_kept_refl v : routes_kept v v.
Proof. split; [lia|done]. Qed.

Lemma routes_kept_trans v1 v2 v3 : routes_kept v1 v2 -> routes_kept v2 v3 -> routes_kept v1 v3.
Proof. intros [H1 H2] [H3 H4]. split; [lia|]. intros t u Ht. rewrite H4, H2 by lia. done. Qed.

(** A program that leaves the routing table alone. *)
Definition is_routing (key : string) : Prop := exists u, key = routeKey u.

Lemma kept_routes v v' : kept is_routing v v' -> routes_kept v v'.
Proof.
  intros [[Hn Hr] | [Hn Hk]]; (split; [lia|]); intros t u Ht; unfold route_of; [by rewrite Hr|].
  assert (purge t (v_rds v') !! routeKey u = purge t (v_rds v) !! routeKey u) as ->; [|done].
  rewrite <- (purge_purge (v_now v') t (v_rds v)) by done. apply option_eq. intros e. rewrite !(lookup_purge t), Hk; [done|by exists u].
Qed.

Lemma wp_single_routes kMsg v : wp (ext fl) (single_message kMsg) v (fun _ v' => routes_kept v v').
Proof.
  eapply wp_mono; [apply (wp_kept fl is_routing)|]; [|intros ? v'; apply kept_routes].
  unfold single_message, GetClient. solve_events; done.
Qed.

Lemma private_push_before v0 v kMsg cs : routes_kept v0 v -> private_push v kMsg cs -> private_push v0 kMsg cs.
Proof.
  intros [Hn Hk] (t & Ht & Hcs). exists t. split; [lia|]. destruct (Unmarshal_Message (k_Value kMsg)) as [m|e]; [|done].
  by rewrite <- Hk.
Qed.

Lemma wp_Single_ConsumeClaim claim v :
  wp (ext fl) (Single_ConsumeClaim claim) v (fun marked v' => marked = claim /\
    exists cs, called cs v v' /\ in_turn (private_push v) claim cs).
Proof.
  revert v. induction claim as [|kMsg claim IH]; intros v; cbn [Single_ConsumeClaim].
  { split; [done|]. exists []. split; [by apply called_nil; [..|lia]|apply in_turn_nil]. }
  apply wp_bind. eapply wp_mono; [exact (wp_and _ _ _ _ _ (wp_single_message fl kMsg v) (wp_single_routes kMsg v))|].
  intros _ v1 [(t & c & Ht & Hc & Hpush) Hk]. apply wp_bind. eapply wp_mono; [apply IH|].
  intros marked v2 (-> & cs & Hcs & (css & -> & Hall)). split; [done|]. exists (c ++ concat css)%list.
  split; [by eapply called_trans|]. apply in_turn_cons; [exists t; split; [lia|done]|]. exists css. split; [done|].
  eapply Forall2_impl; [exact Hall|]. intros k c'. by apply private_push_before.
Qed.

(** ** Group messages *)

#[local] Arguments rebuild_cache : simpl never.

(** From [v] to [v']: the tables and the routes are as they were, the member
    caches agree with the tables. *)
Definition steady v v' : Prop := v_db v' = v_db v /\ coherent v' /\ routes_kept v v'.

Lemma steady_trans v1 v2 v3 : steady v1 v2 -> steady v2 v3 -> steady v1 v3.
Proof. intros (H1 & H2 & H3) (H4 & H5 & H6). split_and!; [congruence|done|by eapply routes_kept_trans]. Qed.

Abbreviation quiet_event := (event_within all_keys eq (fun _ => True)).
Abbreviation off_routes := (event_within is_routing (fun _ _ => True) (fun _ => True)).

Section handler_events.
Context (P : forall X, ev TaskMem X -> Prop)
  (Hread : forall A (c : rcmd A), writes c = None -> P _ (Rds c)) (Hcall : forall srv c, P _ (ConnCall srv c))
  (Hmem : forall A (f : TaskMem -> A * TaskMem), P _ (Mem f)) (Hrange : forall A (l : list A), P _ (Range l)) (Hctx : P _ Ctx).

Lemma routing_events us : all_events P (getOnlineRoutingMap us).
Proof using Hread. unfold getOnlineRoutingMap. solve_events. by apply Hread. Qed.

Lemma load_events gid : all_events P (loadGroupOnlineMemberIDs gid).
Proof using Hread. unfold loadGroupOnlineMemberIDs. cbn. split; [by apply Hread|]. intros [raw|e]; [|done]. solve_events. apply routing_events. Qed.

Lemma deliver_events gm payload m : all_events P (deliver gm payload m).
Proof using Hread Hcall Hmem Hrange Hctx.
  unfold deliver. case_decide; [done|]. cbn [bind call all_events]. split; [apply Hrange|]. intros nodes. unfold push_nodes. apply Go_all_events; [done..|].
  apply Forall_fmap, Forall_forall. intros n _. unfold push_node, pushToConnect, GetClient. cbn. solve_events; auto.
Qed.

Lemma broadcast_events gm payload nodes : all_events P (broadcast_nodes gm payload nodes).
Proof using Hcall Hmem Hrange Hctx.
  unfold broadcast_nodes. apply Go_all_events; [done..|]. apply Forall_fmap, Forall_forall. intros n _. unfold broadcast_node, GetClient. cbn. solve_events; auto.
Qed.
End handler_events.

Lemma quiet_read {A} (c : rcmd A) : writes c = None -> quiet_event (Rds c : ev TaskMem _).
Proof. intros Hc. cbn. unfold spares. by rewrite Hc. Qed.

Lemma off_routes_read {A} (c : rcmd A) : writes c = None -> off_routes (Rds c : ev TaskMem _).
Proof. intros Hc. cbn. unfold spares. by rewrite Hc. Qed.

Lemma load_quiet gid v : wp (ext fl) (loadGroupOnlineMemberIDs gid) v (fun _ v' => quiet v v').
Proof. apply wp_quiet, load_events. intros A c. apply quiet_read. Qed.

Lemma routing_quiet us v : wp (ext fl) (getOnlineRoutingMap us) v (fun _ v' => quiet v v').
Proof. apply wp_quiet, routing_events. intros A c. apply quiet_read. Qed.

Lemma deliver_quiet gm payload m v : wp (ext fl) (deliver gm payload m) v (fun _ v' => quiet v v').
Proof. apply wp_quiet, deliver_events; try done. intros A c. apply quiet_read. Qed.

Context `{HCo : Collation}.
Abbreviation refresh_call := (fun r => rpc (RefreshGroupMembersCache r)).

(** The handler of a group message keeps the caches coherent. *)
Lemma wp_handle_coherent gm payload v :
  in_int64 (gm_GroupId gm) -> coherent v ->
  wp (ext fl) (handleSmallGroupMessage refresh_call None gm payload) v (fun _ v' => v_db v' = v_db v /\ coherent v').
Proof.
  intros Hg Hco. assert (forall A (p : prog (ev TaskMem) A) v1, v_db v1 = v_db v -> coherent v1 ->
    wp (ext fl) p v1 (fun _ v' => quiet v1 v') -> wp (ext fl) p v1 (fun _ v' => v_db v' = v_db v /\ coherent v')) as Hquiet.
  { intros A p v1 Hd Hc Hp. eapply wp_mono; [exact Hp|]. intros a v' Hq. split; [|exact (quiet_coherent v1 v' Hq Hc)]. destruct Hq as [_ ->]. done. }
  unfold handleSmallGroupMessage. apply wp_bind. eapply wp_mono; [apply Hquiet; [done|done|apply load_quiet]|]. intros [m|e] v1 [Hd1 Hc1].
  { apply Hquiet; [done|done|apply deliver_quiet]. }
  destruct (_ || _); [done|]. destruct (String.eqb _ _); [|done]. apply wp_bind.
  apply wp_rpc; [intros t msg Ht Hfl; cbn; split; [done|by apply coherent_tick]|]. intros t Ht.
  eapply wp_mono; [apply wp_RefreshGroupMembersCache; [done|by apply coherent_tick]|]. cbn. intros r v2 (Hd2 & Hc2 & _) t2 Ht2.
  assert (v_db (tick t2 v2) = v_db v /\ coherent (tick t2 v2)) as [Hd3 Hc3] by (split; [cbn; congruence|by apply coherent_tick]).
  split; [|by intros]. destruct r as [rp|e']; [|done]. destruct (Nat.eqb _ 0); [done|]. apply wp_bind.
  eapply wp_mono; [apply Hquiet; [exact Hd3|done|apply routing_quiet]|]. intros [m|e'] v3 [Hd4 Hc4]; [|done].
  apply Hquiet; [done|done|apply deliver_quiet].
Qed.

Lemma handle_routes gm payload v :
  wp (ext fl) (handleSmallGroupMessage refresh_call None gm payload) v (fun _ v' => routes_kept v v').
Proof.
  eapply wp_mono; [apply (wp_kept fl is_routing)|intros ? v'; apply kept_routes].
  assert (forall A (c : rcmd A), writes c = None -> off_routes (Rds c : ev TaskMem _)) as Hread by (intros A c; apply off_routes_read).
  unfold handleSmallGroupMessage. apply all_events_bind; [by apply load_events|]. intros [m|e]; [by apply deliver_events|].
  destruct (_ || _); [done|]. destruct (String.eqb _ _); [|done].
  assert (forall gid ms, Forall (spares_queued is_routing) (rebuild_cache (groupMembersKey gid) ms)) as Hrebuild.
  { intros gid ms. assert (~ is_routing (groupMembersKey gid)) by (intros [u Hu]; done). destruct ms; repeat constructor; done. }
  apply all_events_bind.
  - unfold rpc, RefreshGroupMembersCache. solve_events; done || apply Hrebuild.
  - intros [rp|e']; [|done]. destruct (Nat.eqb _ 0); [done|]. apply all_events_bind; [by apply routing_events|].
    intros [m|e']; [|done]. by apply deliver_events.
Qed.

Lemma wp_handle_steady gm payload v :
  in_int64 (gm_GroupId gm) -> coherent v ->
  wp (ext fl) (handleSmallGroupMessage refresh_call None gm payload) v (fun _ v' => steady v v').
Proof.
  intros Hg Hco. eapply wp_mono; [exact (wp_and _ _ _ _ _ (wp_handle_coherent gm payload v Hg Hco) (handle_routes gm payload v))|].
  intros r v' [[Hd Hc] Hr]. by split_and!.
Qed.

(** One attempt at a group message, with the members and the routes of [v]. *)
Definition group_attempt v (gm : GroupMessage) (payload : string) (cs : list (string * ConnectCall)) : Prop :=
  exists t, v_now v <= t
    /\ fanout (fl = false /\ dialable) (purge t (v_rds v)) (active_members (gm_GroupId gm) (v_db v)) gm payload cs.

(** The pushes of a group record: none if it does not decode, else those of its
    attempts, of which there is one when nothing fails. *)
Definition group_pushes v (kMsg : kmsg) (cs : list (string * ConnectCall)) : Prop :=
  match Unmarshal_GroupMessage (k_Value kMsg) with
  | Err _ => cs = []
  | Ok gm => exists css, cs = concat css /\ css <> [] /\ Forall (group_attempt v gm (k_Value kMsg)) css
      /\ (fl = false -> length css = 1%nat)
  end.

(** A group record the fan-out theorem is about. *)
Definition group_fit (t : tables) (kMsg : kmsg) : Prop :=
  forall gm, Unmarshal_GroupMessage (k_Value kMsg) = Ok gm ->
    in_int64 (gm_GroupId gm) /\ gm_GroupId gm <> 0 /\ -1 ∉ active_members (gm_GroupId gm) t.

Lemma group_attempt_before v0 v gm payload cs : steady v0 v -> group_attempt v gm payload cs -> group_attempt v0 gm payload cs.
Proof.
  intros (Hd & _ & Hn & Hk) (t & Ht & Hf). exists t. split; [lia|]. rewrite <- Hd.
  eapply fanout_ext; [done| |exact Hf]. intros u. by apply Hk.
Qed.

Lemma group_pushes_before v0 v kMsg cs : steady v0 v -> group_pushes v kMsg cs -> group_pushes v0 kMsg cs.
Proof.
  intros Hs. unfold group_pushes. destruct (Unmarshal_GroupMessage (k_Value kMsg)) as [gm|e]; [|done].
  intros (css & H1 & H2 & H3 & H4). exists css. split_and!; try done. eapply Forall_impl; [exact H3|].
  intros c. by apply group_attempt_before.
Qed.

Lemma steady_refl v : coherent v -> steady v v.
Proof. intros Hc. split_and!; [done|done|apply routes_kept_refl]. Qed.

Definition undecodable (r : res unit) : Prop := exists e, r = Err e /\ Contains (Error e) "proto Unmarshal failed" = true.

Lemma wp_attempt kMsg v :
  coherent v -> group_fit (v_db v) kMsg ->
  wp (ext fl) (handleGroupMessage refresh_call None kMsg) v (fun r v' => steady v v' /\ exists cs, called cs v v' /\
    match Unmarshal_GroupMessage (k_Value kMsg) with
    | Ok gm => group_attempt v gm (k_Value kMsg) cs /\ (fl = false -> r = Ok tt)
    | Err _ => cs = [] /\ undecodable r
    end).
Proof.
  intros Hco Hfit. unfold handleGroupMessage. destruct (Unmarshal_GroupMessage (k_Value kMsg)) as [gm|e] eqn:Hd.
  - destruct (Hfit gm Hd) as (Hg & Hnz & Hneg).
    eapply wp_mono; [exact (wp_and _ _ _ _ _ (wp_handleSmallGroupMessage fl gm (k_Value kMsg) v Hg Hnz Hco Hneg) (wp_handle_steady gm (k_Value kMsg) v Hg Hco))|].
    intros r v' [(t & cs & Ht & Hc & Hf & Hr) Hs]. split; [done|]. exists cs. split; [done|]. split; [|done]. exists t. split; [lia|done].
  - cbn [wp]. split; [by apply steady_refl|]. exists []. split; [by apply called_nil; [..|lia]|]. split; [done|]. by eexists.
Qed.

(** What is known after an attempt with answer [r] and calls [cs]. *)
Definition attempted v (kMsg : kmsg) (r : res unit) (cs : list (string * ConnectCall)) : Prop :=
  match Unmarshal_GroupMessage (k_Value kMsg) with
  | Ok gm => group_attempt v gm (k_Value kMsg) cs /\ (fl = false -> r = Ok tt)
  | Err _ => cs = [] /\ undecodable r
  end.

Lemma attempted_last v kMsg r cs : attempted v kMsg r cs -> group_pushes v kMsg cs.
Proof.
  unfold attempted, group_pushes. destruct (Unmarshal_GroupMessage (k_Value kMsg)) as [gm|e]; [|by intros []].
  intros [Ha _]. exists [cs]. split_and!; [by rewrite concat_cons, app_nil_r|done|by constructor|done].
Qed.

(** An attempt that is repeated failed. *)
Lemma attempted_again v kMsg e cs :
  attempted v kMsg (Err e) cs -> Contains (Error e) "proto Unmarshal failed" = false ->
  fl = true /\ forall v1 cs', steady v v1 -> group_pushes v1 kMsg cs' -> group_pushes v kMsg (cs ++ cs')%list.
Proof.
  unfold attempted. intros Ha Hcon. destruct (Unmarshal_GroupMessage (k_Value kMsg)) as [gm|e0] eqn:Hd.
  2:{ destruct Ha as [_ (e1 & [= <-] & ?)]. congruence. }
  destruct Ha as [Ha Hr]. assert (fl = true) as Hfl by (destruct fl; [done|by specialize (Hr eq_refl)]). split; [done|].
  intros v1 cs' Hs Hp. apply (group_pushes_before v v1) in Hp; [|done]. unfold group_pushes in *. rewrite Hd in *.
  destruct Hp as (css & -> & _ & Hall & _). exists (cs :: css). split_and!; [done|done|by constructor|congruence].
Qed.

(** The attempts at one record. *)
Lemma wp_group_retry kMsg later v :
  coherent v -> group_fit (v_db v) kMsg -> Forall (eq None) later ->
  wp (ext fl) (group_retry refresh_call kMsg None later) v (fun ok v' => steady v v' /\ (fl = false -> ok = true) /\
    exists cs, called cs v v' /\ group_pushes v kMsg cs).
Proof.
  revert v. induction later as [|next later IH]; intros v Hco Hfit Hl; cbn [group_retry]; apply wp_bind;
    (eapply wp_mono; [by apply wp_attempt|]); intros r v1 [Hs (c & Hc & Ha)]; fold (attempted v kMsg r c) in Ha;
    pose proof (attempted_last _ _ _ _ Ha) as Hlast;
    (destruct r as [u|e]; [split; [done|]; split; [done|]; by exists c|]);
    (destruct (Contains _ _) eqn:Hcon; [split; [done|]; split; [done|]; by exists c|]);
    destruct (attempted_again _ _ _ _ Ha Hcon) as [Hfl Hmore].
  - split; [done|]. split; [congruence|]. by exists c.
  - apply Forall_cons in Hl as [<- Hl]. pose proof Hs as (Hd1 & Hco1 & _).
    eapply wp_mono; [apply IH; [done|by rewrite Hd1|done]|]. intros ok v' (Hs' & Hok & cs & Hcs & Hp).
    split; [by eapply steady_trans|]. split; [done|]. exists (c ++ cs)%list. split; [by eapply called_trans|by eapply Hmore].
Qed.

(** The claim: the records handled are those marked and at most one more, at
    which the session ended. *)
Definition claim_post v (claim marked : list kmsg) v' : Prop :=
  exists handled cs, called cs v v' /\ in_turn (group_pushes v) handled cs
    /\ handled `prefix_of` claim /\ (handled = marked \/ exists k, handled = (marked ++ [k])%list)
    /\ (fl = false -> marked = claim).

Lemma wp_Group_ConsumeClaim claim v :
  coherent v -> Forall (fun r => group_fit (v_db v) r.1 /\ r.2.1 = None /\ Forall (eq None) r.2.2) claim ->
  wp (ext fl) (Group_ConsumeClaim refresh_call claim) v (claim_post v claim.*1).
Proof.
  revert v. induction claim as [|[k [flight later]] claim IH]; intros v Hco Hall; cbn [Group_ConsumeClaim fmap list_fmap fst].
  { exists [], []. split_and!; [by apply called_nil; [..|lia]|apply in_turn_nil|done|by left|done]. }
  apply Forall_cons in Hall as [(Hfit & Hf & Hl) Hall]. cbn in Hfit, Hf, Hl. subst flight. apply wp_bind.
  eapply wp_mono; [by apply wp_group_retry|]. intros ok v1 (Hs & Hok & c & Hc & Hp). destruct ok.
  - pose proof Hs as (Hd1 & Hco1 & _). apply wp_bind. eapply wp_mono; [apply IH; [done|by rewrite Hd1]|].
    intros marked v2 (handled & cs & Hcs & (css & -> & Hin) & Hpre & Hm & Hfl). exists (k :: handled), (c ++ concat css)%list.
    split_and!; [by eapply called_trans| |by apply prefix_cons| |intros H; by rewrite (Hfl H)].
    + apply in_turn_cons; [done|]. exists css. split; [done|]. eapply Forall2_impl; [exact Hin|]. intros k' c'. by apply group_pushes_before.
    + destruct Hm as [-> | [k' ->]]; [by left|right; by exists k'].
  - exists [k], c. split_and!; [done| |apply prefix_cons, prefix_nil|right; by exists k|intros H; by specialize (Hok H)].
    rewrite <- (app_nil_r c). by apply in_turn_cons; [|apply in_turn_nil].
Qed.
End claims.

(** ** Theorems *)
Section theorems.
Context `{HC : Crypto} `{HCd : Codec} `{HD : Dialer} `{HCo : Collation} {fl : bool} {W : Type} `{HW : !World fl TaskMem W}.

(** C20. Private messages are pushed in the order of their partition: the push
    consumer marks every record it is given, in order, and the calls it makes
    are, record after record, at most one push each, of that record's payload,
    to its recipient, through the node the recipient is routed to; without
    failures exactly one for each routed recipient. *)
Theorem private_partition_order claim w marked w' :
  exec (Single_ConsumeClaim claim) w = (marked, w') ->
  marked = claim /\ exists cs, called cs (view w) (view w') /\ in_turn (private_push fl (view w)) claim cs.
Proof. intros Hrun. by_wp Hrun. apply wp_Single_ConsumeClaim. Qed.

(** One attempt at a record, from the state [w] of the world to [w']. *)
Abbreviation refresh_call := (fun r => rpc (RefreshGroupMembersCache r)).
Definition attempt (kMsg : kmsg) (w : W) (r : res unit) (w' : W) : Prop :=
  exists flight, exec (handleGroupMessage refresh_call flight kMsg) w = (r, w').

(** The answers after which a record is done: success, or that the record does
    not decode. *)
Definition settles (r : res unit) : Prop := r = Ok tt \/ undecodable r.

(** The attempts at one record: all but the last fail; the record is done
    ([true]) only if the last attempt settles it. *)
Inductive attempts (kMsg : kmsg) : W -> bool -> W -> Prop :=
| at_settled w r w' : attempt kMsg w r w' -> settles r -> attempts kMsg w true w'
| at_ended w r w' : attempt kMsg w r w' -> ~ settles r -> attempts kMsg w false w'
| at_again w r w1 ok w' : attempt kMsg w r w1 -> ~ settles r -> attempts kMsg w1 ok w' -> attempts kMsg w ok w'.

(** The records of a claim in turn: a record is marked once an attempt has
    settled it, and the next one is not looked at before. *)
Inductive in_order : list kmsg -> W -> list kmsg -> W -> Prop :=
| io_done w : in_order [] w [] w
| io_marked k rest w w1 marked w' :
    attempts k w true w1 -> in_order rest w1 marked w' -> in_order (k :: rest) w (k :: marked) w'
| io_ended k rest w w' : attempts k w false w' -> in_order (k :: rest) w [] w'.

Lemma exec_bind {A B} (p : prog (ev TaskMem) A) (k : A -> prog (ev TaskMem) B) w :
  exec (bind p k) w = let '(a, w') := exec p w in exec (k a) w'.
Proof. apply run_bind. Qed.

Lemma group_retry_attempts kMsg flight later w ok w' :
  exec (group_retry refresh_call kMsg flight later) w = (ok, w') -> attempts kMsg w ok w'.
Proof.
  revert flight w. induction later as [|next later IH]; intros flight w; cbn [group_retry]; rewrite exec_bind;
    destruct (exec (handleGroupMessage refresh_call flight kMsg) w) as [r w1] eqn:Hr;
    (assert (attempt kMsg w r w1) as Ha by by exists flight); destruct r as [[]|e];
    try (intros [= <- <-]; eapply at_settled; [done|by left]);
    (destruct (Contains (Error e) "proto Unmarshal failed") eqn:Hc;
      [intros [= <- <-]; eapply at_settled; [done|right; by eexists]|]);
    (assert (~ settles (Err e)) as Hn by (intros [?|(e' & [= <-] & ?)]; congruence)).
  - intros [= <- <-]. by eapply at_ended.
  - intros Hrun. eapply at_again; [done..|]. by eapply IH.
Qed.

Lemma Group_ConsumeClaim_in_order claim w marked w' :
  exec (Group_ConsumeClaim refresh_call claim) w = (marked, w') -> in_order claim.*1 w marked w'.
Proof.
  revert w marked. induction claim as [|[k [flight later]] claim IH]; intros w marked; cbn [Group_ConsumeClaim fmap list_fmap fst].
  { intros [= <- <-]. constructor. }
  rewrite exec_bind. destruct (exec (group_retry refresh_call k flight later) w) as [ok w1] eqn:Hr.
  apply group_retry_attempts in Hr. destruct ok; [|intros [= <- <-]; by constructor].
  rewrite exec_bind. destruct (exec (Group_ConsumeClaim refresh_call claim) w1) as [m w2] eqn:Hc.
  intros [= <- <-]. econstructor; [done|by apply IH].
Qed.

(** C18. Group messages are handled in the order of their partition, at least
    once. Whatever fails, a record is attempted until an attempt answers
    without an error (the failure of single pushes is only logged) or says that
    the record does not decode; only then it is marked and the next one looked
    at, and a session that ends before leaves it unmarked. When the cached
    member sets are those of MySQL, what is pushed is, record after record, the
    attempts at it, each a fan-out to active members other than the sender, one
    call per node; besides the records marked only the next one can have been
    pushed; without failures every record is marked after one attempt that
    reaches every online member. *)
Theorem group_partition_order claim w marked w' :
  exec (Group_ConsumeClaim refresh_call claim) w = (marked, w') ->
  in_order claim.*1 w marked w'
  /\ (coherent (view w) ->
      Forall (fun r => group_fit (v_db (view w)) r.1 /\ r.2.1 = None /\ Forall (eq None) r.2.2) claim ->
      claim_post fl (view w) claim.*1 marked (view w')).
Proof.
  intros Hrun. split; [by eapply Group_ConsumeClaim_in_order|]. intros Hco Hall. by_wp Hrun. by apply wp_Group_ConsumeClaim.
Qed.
End theorems.
