(* ===== verification/PersistSpec.v ===== *)
(** * What the persistence consumer guarantees

    A record whose offset is committed is in MySQL (or does not decode), in
    spite of failures, and records delivered again change nothing. *)

From Stdlib Require Import ZArith Lia String.
From stdpp Require Import base tactics list gmap strings.
From S2P Require Import Prelude GoStd Effects Redis Database Proto World Rules RefWorld ClientPool Consumer.

Local Open Scope string_scope.
Local Open Scope Z_scope.

(** Rows were added to the message tables, and nothing else changed. *)
Definition grows (t t' : tables) : Prop :=
  exists l1 l2, t' = set_messages (fun l => l ++ l1)%list (set_group_messages (fun l => l ++ l2)%list t).

Lemma tables_eta t : t = Tables (t_users t) (t_groups t) (t_members t) (t_messages t) (t_group_messages t).
Proof. by destruct t. Qed.

Lemma grows_refl t : grows t t.
Proof. exists [], []. unfold set_messages, set_group_messages. cbn. rewrite !app_nil_r. apply tables_eta. Qed.

Lemma grows_trans t1 t2 t3 : grows t1 t2 -> grows t2 t3 -> grows t1 t3.
Proof.
  intros (l1 & l2 & ->) (l3 & l4 & ->). exists (l1 ++ l3)%list, (l2 ++ l4)%list.
  unfold set_messages, set_group_messages. cbn. by rewrite !app_assoc.
Qed.

Lemma existsb_app_l {A} (f : A -> bool) l l' : existsb f l = true -> existsb f (l ++ l') = true.
Proof. rewrite existsb_app. by intros ->. Qed.

Lemma uk_message_grows r t t' : grows t t' -> uk_message r t = true -> uk_message r t' = true.
Proof. intros (l1 & l2 & ->). apply existsb_app_l. Qed.

Lemma uk_group_message_grows r t t' : grows t t' -> uk_group_message r t = true -> uk_group_message r t' = true.
Proof. intros (l1 & l2 & ->). apply existsb_app_l. Qed.

(** The row with the id MySQL gave it. *)
Definition message_with_id (id : Z) (r : MessageRow) : MessageRow :=
  {| mr_ID := id; mr_MsgID := mr_MsgID r; mr_ClientMSGID := mr_ClientMSGID r; mr_FromUserID := mr_FromUserID r;
     mr_ToUserID := mr_ToUserID r; mr_Content := text_value (mr_Content r); mr_MsgType := mr_MsgType r; mr_Status := mr_Status r;
     mr_CreateTime := datetime (mr_CreateTime r) |}.

Definition group_message_with_id (id : Z) (r : GroupMessageRow) : GroupMessageRow :=
  {| gmw_ID := id; gmw_MsgID := gmw_MsgID r; gmw_ClientMSGID := gmw_ClientMSGID r; gmw_FromUserID := gmw_FromUserID r;
     gmw_GroupID := gmw_GroupID r; gmw_Content := text_value (gmw_Content r); gmw_MsgType := gmw_MsgType r; gmw_Status := gmw_Status r;
     gmw_CreateTime := datetime (gmw_CreateTime r) |}.

(** The tables after the row of a message was inserted, or found to conflict. *)
Definition stored_message (r : MessageRow) (t t' : tables) : Prop :=
  if uk_message r t then t' = t else exists id, t' = set_messages (fun l => l ++ [message_with_id id r])%list t.

Definition stored_group_message (r : GroupMessageRow) (t t' : tables) : Prop :=
  if uk_group_message r t then t' = t else exists id, t' = set_group_messages (fun l => l ++ [group_message_with_id id r])%list t.

Lemma insert_message_cases r ai t x t' : (x, t') = insert_message r ai t ->
  match x with Ok _ => stored_message r t t' | Err _ => t' = t end.
Proof.
  unfold insert_message, stored_message. destruct (columns _); [|by intros [= -> ->]]. destruct (uk_message r t); [intros [= -> ->]; done|].
  destruct (insert_id (ai_messages ai)) as [id|e]; intros [= -> ->]; [by exists id|done].
Qed.

Lemma insert_group_message_cases r ai t x t' : (x, t') = insert_group_message r ai t ->
  match x with Ok _ => stored_group_message r t t' | Err _ => t' = t end.
Proof.
  unfold insert_group_message, stored_group_message. destruct (columns _); [|by intros [= -> ->]]. destruct (uk_group_message r t); [intros [= -> ->]; done|].
  destruct (insert_id (ai_group_messages ai)) as [id|e]; intros [= -> ->]; [by exists id|done].
Qed.

Lemma stored_message_spec r t t' : stored_message r t t' -> grows t t' /\ uk_message r t' = true.
Proof.
  unfold stored_message. destruct (uk_message r t) eqn:Hu; [intros ->; split; [apply grows_refl|done]|].
  intros [id ->]. split.
  - exists [message_with_id id r], []. unfold set_messages, set_group_messages. cbn. by rewrite app_nil_r.
  - unfold uk_message. cbn. rewrite existsb_app. cbn. by rewrite Z.eqb_refl, orb_true_l, orb_true_r.
Qed.

Lemma stored_group_message_spec r t t' : stored_group_message r t t' -> grows t t' /\ uk_group_message r t' = true.
Proof.
  unfold stored_group_message. destruct (uk_group_message r t) eqn:Hu; [intros ->; split; [apply grows_refl|done]|].
  intros [id ->]. split.
  - exists [], [group_message_with_id id r]. unfold set_messages, set_group_messages. cbn. by rewrite app_nil_r.
  - unfold uk_group_message. cbn. rewrite existsb_app. cbn. by rewrite Z.eqb_refl, orb_true_l, orb_true_r.
Qed.

(** Every row added is that of a record of [from]. *)
Definition adds `{Codec} (from : list kmsg) (t t' : tables) : Prop :=
  exists l1 l2, t' = set_messages (fun l => l ++ l1)%list (set_group_messages (fun l => l ++ l2)%list t)
    /\ Forall (fun row => exists k m id, k ∈ from /\ Unmarshal_Message (k_Value k) = Ok m /\ row = message_with_id id (message_row m)) l1
    /\ Forall (fun row => exists k m id, k ∈ from /\ Unmarshal_GroupMessage (k_Value k) = Ok m /\ row = group_message_with_id id (group_message_row m)) l2.

Section adds.
Context `{HCd : Codec}.

Lemma adds_grows from t t' : adds from t t' -> grows t t'.
Proof. intros (l1 & l2 & H & _). by exists l1, l2. Qed.

Lemma adds_refl from t : adds from t t.
Proof. exists [], []. split; [|split; constructor]. unfold set_messages, set_group_messages. cbn. rewrite !app_nil_r. apply tables_eta. Qed.

Lemma adds_trans from t1 t2 t3 : adds from t1 t2 -> adds from t2 t3 -> adds from t1 t3.
Proof.
  intros (l1 & l2 & -> & H1 & H2) (l3 & l4 & -> & H3 & H4). exists (l1 ++ l3)%list, (l2 ++ l4)%list.
  split; [unfold set_messages, set_group_messages; cbn; by rewrite !app_assoc|]. split; by apply Forall_app.
Qed.

Lemma adds_more from from' t t' : (forall k, k ∈ from -> k ∈ from') -> adds from t t' -> adds from' t t'.
Proof.
  intros Hsub (l1 & l2 & -> & H1 & H2). exists l1, l2. split; [done|].
  split; (eapply Forall_impl; [eassumption|]); intros row (k & m & id & Hk & Hrest); exists k, m, id; auto.
Qed.

Lemma stored_message_adds k m t t' : Unmarshal_Message (k_Value k) = Ok m -> stored_message (message_row m) t t' -> adds [k] t t'.
Proof.
  intros Hm. unfold stored_message. destruct (uk_message _ t); [intros ->; apply adds_refl|]. intros [id ->].
  exists [message_with_id id (message_row m)], []. split; [unfold set_messages, set_group_messages; cbn; by rewrite app_nil_r|].
  split; [|constructor]. apply Forall_singleton. exists k, m, id. split; [constructor|done].
Qed.

Lemma stored_group_message_adds k m t t' :
  Unmarshal_GroupMessage (k_Value k) = Ok m -> stored_group_message (group_message_row m) t t' -> adds [k] t t'.
Proof.
  intros Hm. unfold stored_group_message. destruct (uk_group_message _ t); [intros ->; apply adds_refl|]. intros [id ->].
  exists [], [group_message_with_id id (group_message_row m)]. split; [unfold set_messages, set_group_messages; cbn; by rewrite app_nil_r|].
  split; [constructor|]. apply Forall_singleton. exists k, m, id. split; [constructor|done].
Qed.
End adds.

Section persist.
Context `{HC : Crypto} `{HCd : Codec} {M : Type} (fl : bool) (c : PersistConsumer).
Implicit Types v : sysview M.

(** A statement that stores a row: on success stored, otherwise stored or not. *)
Lemma wp_store {A} (f : autoinc -> tables -> res unit * tables) (P : tables -> tables -> Prop) v
    (k : res unit -> A) :
  (forall ai t x t', (x, t') = f ai t -> match x with Ok _ => P t t' | Err _ => t' = t end) ->
  wp (ext fl) (bind (call (Sql (Stmt f))) (fun r => Ret (k r))) v (fun o v' =>
    exists r, o = k r /\ match r with
    | Ok _ => P (v_db v) (v_db v')
    | Err _ => v_db v' = v_db v \/ (fl = true /\ P (v_db v) (v_db v')) end).
Proof.
  intros Hf. cbn [bind call]. apply wp_sql. intros t x db Ht Hx. cbn [wp v_db set_db tick]. exists x. split; [done|].
  destruct Hx as [(ai & _ & Hs) | [[Hfl [msg ->]] [-> | (x0 & ai & _ & Hs)]]]; [|by left|].
  - apply Hf in Hs. destruct x; [done|by left].
  - apply Hf in Hs. destruct x0; [by right|by left].
Qed.

(** A private message whose row fits the table. *)
Lemma wp_persistMessage m v :
  DB c = true -> text (m_Content m) = Ok tt -> tinyint (gorm_default 1 (m_MsgType m)) = Ok tt ->
  wp (ext fl) (persistMessage c m) v (fun r v' =>
    if uk_message (message_row m) (v_db v) then v_db v' = v_db v /\ (fl = false -> r = Ok tt)
    else match r with
         | Ok _ => exists id, v_db v' = set_messages (fun l => l ++ [message_with_id id (message_row m)])%list (v_db v)
         | Err e => fl = true \/ e = no_more_ids
         end).
Proof.
  intros Hdb Htext Htiny. unfold persistMessage. rewrite Hdb. cbn [negb]. apply wp_sql. intros t x db Ht Hx. cbn [wp v_db set_db tick] in *.
  assert (forall x0 ai db0, (x0, db0) = insert_message (message_row m) ai (v_db v) ->
    if uk_message (message_row m) (v_db v) then x0 = Ok tt /\ db0 = v_db v
    else match x0 with
         | Ok _ => exists id, db0 = set_messages (fun l => l ++ [message_with_id id (message_row m)])%list (v_db v)
         | Err e => e = no_more_ids end) as Hins.
  { intros x0 ai db0. unfold insert_message. cbn [columns message_row mr_Content mr_MsgType]. rewrite Htext, Htiny.
    destruct (uk_message _ _); [by intros [= -> ->]|]. unfold insert_id. destruct (_ <=? _); intros [= -> ->]; [by eexists|done]. }
  destruct Hx as [(ai & _ & Hs) | [[Hfl [msg ->]] [-> | (x0 & ai & _ & Hs)]]].
  - apply Hins in Hs. destruct (uk_message _ _); [by destruct Hs as [-> ->]|]. destruct x; [done|by right].
  - destruct (uk_message _ _); [split; [done|congruence]|by left].
  - apply Hins in Hs. destruct (uk_message _ _); [split; [apply Hs|congruence]|by left].
Qed.

(** The record is in its table, or cannot be. *)
Definition recorded (msg : kmsg) (t : tables) : Prop :=
  if String.eqb (k_Topic msg) "chat_messages" then
    match Unmarshal_Message (k_Value msg) with Ok m => uk_message (message_row m) t = true | Err _ => True end
  else if String.eqb (k_Topic msg) "group_chat_messages" then
    match Unmarshal_GroupMessage (k_Value msg) with Ok m => uk_group_message (group_message_row m) t = true | Err _ => True end
  else True.

Lemma recorded_grows msg t t' : grows t t' -> recorded msg t -> recorded msg t'.
Proof.
  intros Hg. unfold recorded. repeat case_match; try done; [by apply uk_message_grows|by apply uk_group_message_grows].
Qed.

Lemma wp_persist_one msg v :
  wp (ext fl) (persist_one c msg) v (fun o v' => adds [msg] (v_db v) (v_db v')
    /\ (recorded msg (v_db v) -> v_db v' = v_db v)
    /\ match o with Some (Err _) => True | _ => recorded msg (v_db v') end).
Proof.
  unfold persist_one, recorded. destruct (String.eqb (k_Topic msg) "chat_messages").
  - destruct (Unmarshal_Message (k_Value msg)) as [m|e] eqn:Hm; [|by split_and!; [apply adds_refl|..]].
    unfold persistMessage. destruct (DB c); [|by split_and!; [apply adds_refl|..]]. cbn [negb].
    eapply wp_mono; [apply (wp_store _ (stored_message (message_row m)) v Some); intros; by eapply insert_message_cases|].
    intros o v' (r & -> & Hr).
    assert (v_db v' = v_db v \/ stored_message (message_row m) (v_db v) (v_db v')) as Hor by (destruct r as [|e]; [by right|by destruct Hr as [?|[_ ?]]; auto]).
    split; [|split].
    + destruct Hor as [-> | Hst]; [apply adds_refl|by eapply stored_message_adds].
    + intros Hu. destruct Hor as [? | Hst]; [done|]. unfold stored_message in Hst. by rewrite Hu in Hst.
    + destruct r; [|done]. by apply stored_message_spec in Hr as [_ ?].
  - destruct (String.eqb (k_Topic msg) "group_chat_messages"); [|by split_and!; [apply adds_refl|..]].
    destruct (Unmarshal_GroupMessage (k_Value msg)) as [m|e] eqn:Hm; [|by split_and!; [apply adds_refl|..]].
    unfold persistGroupMessage. destruct (DB c); [|by split_and!; [apply adds_refl|..]]. cbn [negb].
    eapply wp_mono; [apply (wp_store _ (stored_group_message (group_message_row m)) v Some); intros; by eapply insert_group_message_cases|].
    intros o v' (r & -> & Hr).
    assert (v_db v' = v_db v \/ stored_group_message (group_message_row m) (v_db v) (v_db v')) as Hor by (destruct r as [|e]; [by right|by destruct Hr as [?|[_ ?]]; auto]).
    split; [|split].
    + destruct Hor as [-> | Hst]; [apply adds_refl|by eapply stored_group_message_adds].
    + intros Hu. destruct Hor as [? | Hst]; [done|]. unfold stored_group_message in Hst. by rewrite Hu in Hst.
    + destruct r; [|done]. by apply stored_group_message_spec in Hr as [_ ?].
Qed.

(** The row of the record does not fit its table: the content is longer than a
    TEXT, the type is not a TINYINT, or the group id is negative. *)
Definition unfit (msg : kmsg) : bool :=
  if String.eqb (k_Topic msg) "chat_messages" then
    match Unmarshal_Message (k_Value msg) with
    | Ok m => negb (is_ok (columns [text (mr_Content (message_row m)); tinyint (mr_MsgType (message_row m))]))
    | Err _ => false
    end
  else if String.eqb (k_Topic msg) "group_chat_messages" then
    match Unmarshal_GroupMessage (k_Value msg) with
    | Ok m => negb (is_ok (columns [unsigned (gmw_GroupID (group_message_row m)); text (gmw_Content (group_message_row m));
                                    tinyint (gmw_MsgType (group_message_row m))]))
    | Err _ => false
    end
  else false.

(** Every attempt at such a record fails and writes nothing. *)
Lemma wp_persist_unfit msg v : unfit msg = true ->
  wp (ext fl) (persist_one c msg) v (fun o v' => (exists e, o = Some (Err e)) /\ v_db v' = v_db v).
Proof.
  assert (forall f : autoinc -> tables -> res unit * tables, (forall ai t x t', (x, t') = f ai t -> match x with Ok _ => False | Err _ => t' = t end) ->
    wp (ext fl) (bind (call (Sql (Stmt f))) (fun r => Ret (Some r))) v
      (fun o v' => (exists e, o = Some (Err e)) /\ v_db v' = v_db v)) as Hst.
  { intros f Hf. eapply wp_mono; [by apply (wp_store f (fun _ _ => False) v Some)|].
    intros o v' (r & -> & Hr). destruct r as [|e]; [done|]. split; [by exists e|]. by destruct Hr as [?|[_ []]]. }
  unfold unfit, persist_one. destruct (String.eqb (k_Topic msg) "chat_messages").
  - destruct (Unmarshal_Message (k_Value msg)) as [m|e]; [|done]. intros Hun.
    unfold persistMessage. destruct (DB c); [|by cbn; eauto]. cbn [negb]. apply Hst.
    intros ai t x t'. unfold insert_message. destruct (columns _); [done|]. by intros [= -> ->].
  - destruct (String.eqb (k_Topic msg) "group_chat_messages"); [|done].
    destruct (Unmarshal_GroupMessage (k_Value msg)) as [m|e]; [|done]. intros Hun.
    unfold persistGroupMessage. destruct (DB c); [|by cbn; eauto]. cbn [negb]. apply Hst.
    intros ai t x t'. unfold insert_group_message. destruct (columns _); [done|]. by intros [= -> ->].
Qed.

Lemma wp_retry_unfit msg budget v : unfit msg = true ->
  wp (ext fl) (persist_retry c msg budget) v (fun ok v' => ok = false /\ v_db v' = v_db v).
Proof.
  intros Hun. revert v. induction budget as [|b IH]; intros v; cbn [persist_retry]; apply wp_bind;
    (eapply wp_mono; [by apply wp_persist_unfit|]; intros o v1 [[e ->] Hdb]); [done|].
  eapply wp_mono; [apply IH|]. intros ok v2 [-> Hdb2]. by rewrite Hdb2.
Qed.

Lemma wp_persist_retry msg budget v :
  wp (ext fl) (persist_retry c msg budget) v (fun ok v' => adds [msg] (v_db v) (v_db v')
    /\ (recorded msg (v_db v) -> v_db v' = v_db v) /\ (ok = true -> recorded msg (v_db v'))).
Proof.
  revert v. induction budget as [|b IH]; intros v; cbn [persist_retry]; apply wp_bind;
    (eapply wp_mono; [apply wp_persist_one|]; intros o v1 (Hg & Hi & Hr));
    (destruct o as [[u|e]|]; [done| |done]).
  - by split_and!.
  - eapply wp_mono; [apply IH|]. intros ok v2 (Hg2 & Hi2 & Hr2). split_and!; [by eapply adds_trans| |done].
    intros Hrec. specialize (Hi Hrec). rewrite Hi in *. auto.
Qed.

Lemma wp_Persist_ConsumeClaim claim v :
  wp (ext fl) (Persist_ConsumeClaim c claim) v (fun marked v' => adds claim.*1 (v_db v) (v_db v')
    /\ marked `prefix_of` claim.*1 /\ Forall (fun msg => recorded msg (v_db v')) marked
    /\ (Forall (fun msg => recorded msg (v_db v)) claim.*1 -> v_db v' = v_db v)).
Proof.
  revert v. induction claim as [|[msg budget] rest IH]; intros v; cbn [Persist_ConsumeClaim].
  { cbn. split_and!; [apply adds_refl|done|constructor|done]. }
  apply wp_bind. eapply wp_mono; [apply wp_persist_retry|]. intros ok v1 (Hg & Hi & Hr). destruct ok.
  - apply wp_bind. eapply wp_mono; [apply IH|]. intros marked v2 (Hg2 & Hp & Hm & Hid). cbn [wp fmap list_fmap fst].
    split_and!; [|by apply prefix_cons|constructor; [|done]; eapply recorded_grows; [exact (adds_grows _ _ _ Hg2)|by apply Hr]|].
    { eapply adds_trans; (eapply adds_more; [|eassumption]); intros k Hk; [apply list_elem_of_singleton in Hk as ->; constructor|by constructor]. }
    intros [H1 H2]%Forall_cons. specialize (Hi H1). rewrite Hi in *. auto.
  - cbn [wp fmap list_fmap fst]. split_and!; [|apply prefix_nil|constructor|].
    { eapply adds_more; [|eassumption]. intros k ->%list_elem_of_singleton. constructor. }
    intros [H1 _]%Forall_cons. auto.
Qed.
End persist.

(** ** Theorems *)
Section theorems.
Context `{HC : Crypto} `{HCd : Codec} {fl : bool} {M W : Type} `{HW : !World fl M W}.

(** An offset is committed only for a record that MySQL has: in spite of
    failures and lost answers, the records the persistence consumer marks are
    the first of the claim, in order, and each that decodes has its row (or
    the row it conflicts with) in its table; rows are only added. *)
Theorem committed_records_stored c claim w marked w' :
  exec (Persist_ConsumeClaim c claim) w = (marked, w') ->
  marked `prefix_of` claim.*1
  /\ Forall (fun msg => recorded msg (v_db (view w'))) marked
  /\ grows (v_db (view w)) (v_db (view w')).
Proof.
  intros Hrun. by_wp Hrun. eapply wp_mono; [apply wp_Persist_ConsumeClaim|]. intros marked v' (H1%adds_grows & H2 & H3 & _). by split_and!.
Qed.

(** C24. Delivery is at least once, storage exactly once: when records that
    were marked are delivered again, in any order and with any failures, no
    table changes. *)
Theorem redelivery_harmless c claim w marked w1 again w2 marked2 :
  exec (Persist_ConsumeClaim c claim) w = (marked, w1) ->
  (forall msg, msg ∈ again.*1 -> msg ∈ marked) ->
  exec (Persist_ConsumeClaim c again) w1 = (marked2, w2) ->
  v_db (view w2) = v_db (view w1).
Proof.
  intros H1 Hsub H2.
  pose proof (exec_wp _ _ _ (wp_Persist_ConsumeClaim fl c claim (view w)) _ _ H1) as (_ & _ & Hrec & _).
  pose proof (exec_wp _ _ _ (wp_Persist_ConsumeClaim fl c again (view w1)) _ _ H2) as (_ & _ & _ & Hid).
  apply Hid, Forall_forall. intros msg Hmsg. rewrite Forall_forall in Hrec. by apply Hrec, Hsub.
Qed.

(** C36. A private message whose row fits the table is dropped silently when a
    stored message has its id, or has the same sender, recipient and client id:
    no table changes and, if no call fails, the consumer is told that all went
    well.  (Clients that send no client id all send 0.)  Otherwise it is stored
    with all its fields, the type 0 as 1 and the time rounded to a second; only
    a failing call or the end of the ids prevents it. *)
Theorem persistMessage_drops m w r w' :
  text (m_Content m) = Ok tt -> tinyint (gorm_default 1 (m_MsgType m)) = Ok tt ->
  exec (persistMessage {| DB := true |} m) w = (r, w') ->
  let taken row := mr_MsgID row = m_MsgId m
    \/ (mr_FromUserID row = m_FromUserId m /\ mr_ToUserID row = m_ToUserId m /\ mr_ClientMSGID row = m_ClientMsgId m) in
  ((exists row, row ∈ t_messages (v_db (view w)) /\ taken row) ->
     v_db (view w') = v_db (view w) /\ (fl = false -> r = Ok tt))
  /\ ((forall row, row ∈ t_messages (v_db (view w)) -> ~ taken row) ->
     match r with
     | Err e => fl = true \/ e = no_more_ids
     | Ok _ => exists row, v_db (view w') = set_messages (fun l => l ++ [row])%list (v_db (view w))
         /\ mr_MsgID row = m_MsgId m /\ mr_ClientMSGID row = m_ClientMsgId m
         /\ mr_FromUserID row = m_FromUserId m /\ mr_ToUserID row = m_ToUserId m
         /\ mr_Content row = text_value (m_Content m) /\ mr_MsgType row = (if m_MsgType m =? 0 then 1 else m_MsgType m)
         /\ mr_Status row = 0 /\ mr_CreateTime row = datetime (m_CreateTime m)
     end).
Proof.
  intros Htext Htiny Hrun taken. pose proof (exec_wp _ _ _ (wp_persistMessage fl {| DB := true |} m (view w) eq_refl Htext Htiny) _ _ Hrun) as H.
  assert (uk_message (message_row m) (v_db (view w)) = true <-> exists row, row ∈ t_messages (v_db (view w)) /\ taken row) as Huk.
  { unfold uk_message, taken. rewrite existsb_exists. setoid_rewrite list_elem_of_In. cbn. apply exist_proper. intros row.
    rewrite orb_true_iff, !andb_true_iff, !Z.eqb_eq. tauto. }
  split.
  - intros Ht%Huk. by rewrite Ht in H.
  - intros Hno. destruct (uk_message _ _); [by destruct (proj1 Huk eq_refl) as (row & Hin & []%Hno)|].
    destruct r as [u|e]; [|done]. destruct H as [id H]. exists (message_with_id id (message_row m)). by split_and!.
Qed.

(** C35. A record whose row does not fit its table (SendMessage accepts any
    content and any type) is never marked, however often it is tried, and
    nothing after it is read: it blocks its partition. *)
Theorem unfit_record_blocks c msg budget rest w marked w' :
  unfit msg = true ->
  exec (Persist_ConsumeClaim c ((msg, budget) :: rest)) w = (marked, w') ->
  marked = [] /\ v_db (view w') = v_db (view w).
Proof.
  intros Hun Hrun. by_wp Hrun. cbn [Persist_ConsumeClaim]. apply wp_bind.
  eapply wp_mono; [by apply wp_retry_unfit|]. by intros ok v' [-> Hdb].
Qed.
End theorems.
