(* ===== verification/Config.v ===== *)
(** * Configuration (src/internal/common/config.go)

    The struct [Config] with the keys of its mapstructure tags, and LoadConfig.
    viper reads and parses the file and mapstructure converts its values: a key
    that is absent leaves the zero value, a value of the wrong type is an
    error. *)

From Stdlib Require Import ZArith Lia String Ascii.
From stdpp Require Import base tactics option list strings.
From S2P Require Import Prelude Effects.

Local Open Scope string_scope.

(** github.com/spf13/viper: the tree of a parsed file and the conversions of
    its values. *)
Class Viper := {
  table : Type;
  value : Type;
  empty_table : table;
  get : table -> string -> option value;
  get_empty : forall k, get empty_table k = None;
  as_table : value -> option table;
  as_string : value -> option string;
  as_int : value -> option Z;
  as_strings : value -> option (list string);
  decode_error : table -> string }.

Record MySQLConfig := { my_DSN : string }.
Record LogicConfig := { lg_GRPCAddr : string }.
Record APIConfig := { ap_HTTPAddr : string; ap_LogicGRPCAddr : string }.
Record RedisConfig := { rd_RedisAddr : string; rd_Password : string; rd_DB : Z }.
Record SessionConfig := { ss_TTLsec : Z }.
Record LoggerConfig := { lo_LogFilePath : string; lo_LogFileSize : Z; lo_LogFileBackups : Z; lo_LogFileAge : Z; lo_LogFileLevel : string }.
Record ConnectConfig := { ConnectGRPCAddr : string; ConnectHTTPAddr : string; ConnectServerAddr : string }.
Record KafkaConfig := {
  kf_KafkaBrokers : list string;
  kf_SinglechatConsumerGroup : string;
  kf_GroupchatConsumerGroup : string;
  kf_RoomchatConsumerGroup : string;
  kf_PersistchatConsumerGroup : string;
  kf_ChatTopic : string;
  kf_GroupChatTopic : string;
  kf_RoomChatTopic : string;
  kf_Version : string }.

Record Config := {
  cfg_MySQL : MySQLConfig;
  cfg_Logic : LogicConfig;
  cfg_API : APIConfig;
  cfg_Redis : RedisConfig;
  cfg_Session : SessionConfig;
  cfg_Logger : LoggerConfig;
  cfg_Connect1 : ConnectConfig;
  cfg_Connect2 : ConnectConfig;
  cfg_Kafka : KafkaConfig }.

(** The zero value of a ConnectConfig variable. *)
Definition no_connect : ConnectConfig := {| ConnectGRPCAddr := ""; ConnectHTTPAddr := ""; ConnectServerAddr := "" |}.

(** ** filepath.Ext *)

(** The suffix that starts at the last dot after the last slash; empty without
    such a dot. *)
Fixpoint Ext (path : string) : string :=
  match path with
  | EmptyString => ""
  | String c rest =>
      match Ext rest with
      | EmptyString =>
          if Ascii.eqb c "." then
            match String.index 0 "/" rest with Some _ => "" | None => path end
          else ""
      | e => e
      end
  end.

(** [filepath.Ext(path)[1:]]; None: the slice expression panics. *)
Definition config_type (path : string) : option string :=
  match Ext path with EmptyString => None | String _ e => Some e end.

(** ** Unmarshal *)
Section config.
Context `{HV : Viper}.

(** A field with its tag. *)
Definition field {A} (conv : value -> option A) (zero : A) (t : table) (tag : string) : option A :=
  match get t tag with None => Some zero | Some x => conv x end.

Definition string_field := field as_string "".
Definition int_field := field as_int 0%Z.
Definition section_of := field as_table empty_table.

Definition unmarshal_connect (t : table) : option ConnectConfig :=
  g ← string_field t "connect_grpc_addr"; h ← string_field t "connec_http_addr"; s ← string_field t "connect_grpc_addr";
  Some {| ConnectGRPCAddr := g; ConnectHTTPAddr := h; ConnectServerAddr := s |}.

Definition unmarshal_logger (t : table) : option LoggerConfig :=
  p ← string_field t "log_file_path"; s ← int_field t "log_file_size"; b ← int_field t "log_file_backups";
  a ← int_field t "log_file_age"; l ← string_field t "log_file_level";
  Some {| lo_LogFilePath := p; lo_LogFileSize := s; lo_LogFileBackups := b; lo_LogFileAge := a; lo_LogFileLevel := l |}.

Definition unmarshal_kafka (t : table) : option KafkaConfig :=
  brokers ← field as_strings [] t "kafka_brokers";
  single ← string_field t "kafka_singlechat_consumer"; group ← string_field t "kafka_groupchat_consumer";
  room ← string_field t "kafka_roomchat_consumer"; persist ← string_field t "kafka_persistchat_consumer";
  chat ← string_field t "kafka_chat_topic"; group_chat ← string_field t "kafka_group_chat_topic";
  room_chat ← string_field t "kafka_room_chat_topic"; version ← string_field t "kafka_version";
  Some {| kf_KafkaBrokers := brokers; kf_SinglechatConsumerGroup := single; kf_GroupchatConsumerGroup := group;
          kf_RoomchatConsumerGroup := room; kf_PersistchatConsumerGroup := persist; kf_ChatTopic := chat;
          kf_GroupChatTopic := group_chat; kf_RoomChatTopic := room_chat; kf_Version := version |}.

Definition unmarshal (t : table) : option Config :=
  mysql ← section_of t "mysql"; dsn ← string_field mysql "dsn";
  logic ← section_of t "logic"; grpc ← string_field logic "grpc_addr";
  api ← section_of t "api"; http ← string_field api "http_addr"; logic_addr ← string_field api "logic_grpc_addr";
  redis ← section_of t "redis"; addr ← string_field redis "redis_addr"; password ← string_field redis "redis_password"; db ← int_field redis "redis_db";
  session ← section_of t "session"; ttl ← int_field session "session_ttl_seconds";
  logger ← section_of t "logger"; log ← unmarshal_logger logger;
  connect1 ← section_of t "connect1"; c1 ← unmarshal_connect connect1;
  connect2 ← section_of t "connect2"; c2 ← unmarshal_connect connect2;
  kafka ← section_of t "kafka"; k ← unmarshal_kafka kafka;
  Some {| cfg_MySQL := {| my_DSN := dsn |}; cfg_Logic := {| lg_GRPCAddr := grpc |};
          cfg_API := {| ap_HTTPAddr := http; ap_LogicGRPCAddr := logic_addr |};
          cfg_Redis := {| rd_RedisAddr := addr; rd_Password := password; rd_DB := db |};
          cfg_Session := {| ss_TTLsec := ttl |}; cfg_Logger := log; cfg_Connect1 := c1; cfg_Connect2 := c2; cfg_Kafka := k |}.

Definition Unmarshal (t : table) : res Config :=
  match unmarshal t with Some cfg => Ok cfg | None => Err (ErrExt (decode_error t)) end.

(** ** Facts *)

(** Both addresses of a connect section have the tag [connect_grpc_addr]: the
    id a node registers is the address it listens on. *)
Lemma unmarshal_connect_addr t c : unmarshal_connect t = Some c -> ConnectServerAddr c = ConnectGRPCAddr c.
Proof. unfold unmarshal_connect. destruct (string_field t "connect_grpc_addr"), (string_field t "connec_http_addr"); cbn; intros; by simplify_eq. Qed.

Lemma Unmarshal_connect_addr t cfg : Unmarshal t = Ok cfg ->
  ConnectServerAddr (cfg_Connect1 cfg) = ConnectGRPCAddr (cfg_Connect1 cfg)
  /\ ConnectServerAddr (cfg_Connect2 cfg) = ConnectGRPCAddr (cfg_Connect2 cfg).
Proof.
  unfold Unmarshal. destruct (unmarshal t) as [cfg'|] eqn:Hu; [|done]. intros [= <-]. unfold unmarshal in Hu.
  repeat (apply bind_Some in Hu as (? & ? & Hu)). injection Hu as <-. cbn [cfg_Connect1 cfg_Connect2].
  split; by eapply unmarshal_connect_addr.
Qed.
End config.

Lemma dev_config_type : config_type "configs/dev.toml" = Some "toml".
Proof. reflexivity. Qed.
