(* ===== verification/Logging.v ===== *)
(** * Logging (src/internal/common/logger.go)

    Trace ids in contexts, the zap logger every process installs, the gRPC
    interceptor of the logic service and the adapters for gorm and go-redis.  A
    logged line is an event of its own, so that [with_log] can run a program
    that logs and collect what it wrote. *)

From Stdlib Require Import ZArith Lia String.
From stdpp Require Import base tactics list strings.
From S2P Require Import Prelude Effects Redis Database Proto World Rules.

Local Open Scope string_scope.
Local Open Scope Z_scope.

(** ** Trace ids *)

(** [traceIDKeyType{}] is a type of this package: no other package can make
    such a key. *)
Inductive ctx_key := traceIDKey | OtherKey (k : string).
Inductive ctx_value := CString (s : string) | COther.

#[export] Instance ctx_key_eq_dec : EqDecision ctx_key.
Proof. solve_decision. Defined.

(** A context: nil, or the values added to the background context. *)
Definition context := option (list (ctx_key * ctx_value)).

Definition WithValue (ctx : list (ctx_key * ctx_value)) (k : ctx_key) (x : ctx_value) : context := Some ((k, x) :: ctx).

Fixpoint ctx_Value (ctx : list (ctx_key * ctx_value)) (k : ctx_key) : option ctx_value :=
  match ctx with
  | [] => None
  | (k', x) :: rest => if decide (k' = k) then Some x else ctx_Value rest k
  end.

Definition InjectTraceID (ctx : list (ctx_key * ctx_value)) (traceID : string) : context :=
  WithValue ctx traceIDKey (CString traceID).

Definition ExtractTraceID (ctx : context) : string :=
  match ctx with
  | None => ""
  | Some l => match ctx_Value l traceIDKey with Some (CString val) => val | _ => "" end
  end.

(** ** zap *)

(** zapcore.Level: Debug is -1, Info 0, Warn 1, Error 2. *)
Definition Level := Z.
Definition InfoLevel : Level := 0.
Definition WarnLevel : Level := 1.
Definition ErrorLevel : Level := 2.

(** go.uber.org/zap: the level a text names. *)
Class Zap := { UnmarshalText : string -> option Level }.

Inductive sink :=
| Lumberjack (Filename : string) (MaxSize MaxBackups MaxAge : Z)
| Stdout.

(** The value of a field; [Req] is the type of the requests that are logged. *)
Inductive field_value (Req : Type) :=
| FString (s : string)
| FInt64 (z : Z)
| FDuration (ms : Z)
| FError (e : error)
| FAny (r : Req).
Arguments FString {Req}.
Arguments FInt64 {Req}.
Arguments FDuration {Req}.
Arguments FError {Req}.
Arguments FAny {Req}.

Record zlogger (Req : Type) := { zl_sinks : list sink; zl_level : Level; zl_fields : list (string * field_value Req) }.
Arguments zl_sinks {Req}.
Arguments zl_level {Req}.
Arguments zl_fields {Req}.

Record line (Req : Type) := { li_sink : sink; li_level : Level; li_msg : string; li_fields : list (string * field_value Req) }.
Arguments li_sink {Req}.
Arguments li_level {Req}.
Arguments li_msg {Req}.
Arguments li_fields {Req}.

Section logger.
Context {Req : Type}.
Implicit Types Logger : zlogger Req.

Definition With Logger (f : string * field_value Req) : zlogger Req :=
  {| zl_sinks := zl_sinks Logger; zl_level := zl_level Logger; zl_fields := (zl_fields Logger ++ [f])%list |}.

(** Logging at a level: one line for each core, when the level is enabled. *)
Definition log_at Logger (l : Level) (msg : string) (fields : list (string * field_value Req)) : list (line Req) :=
  if zl_level Logger <=? l
  then (fun s => {| li_sink := s; li_level := l; li_msg := msg; li_fields := (zl_fields Logger ++ fields)%list |}) <$> zl_sinks Logger
  else [].

Definition InitLogger `{Zap} (logPath : string) (maxSize maxBackups maxAge : Z) (level : string) : zlogger Req :=
  let l := match UnmarshalText level with Some l => l | None => InfoLevel end in
  {| zl_sinks := [Lumberjack logPath maxSize maxBackups maxAge; Stdout]; zl_level := l; zl_fields := [] |}.

Definition WithContext Logger (ctx : context) : zlogger Req :=
  let traceID := ExtractTraceID ctx in
  if negb (String.eqb traceID "") then With Logger ("trace_id", FString traceID) else Logger.
End logger.

(** ** Programs that log *)
Inductive lev (M Req : Type) : Type -> Type :=
| LSys {A : Type} (e : ev M A) : lev M Req A
| LWrite (l : list (line Req)) : lev M Req unit.
Arguments LSys {M Req A} e.
Arguments LWrite {M Req} l.

Fixpoint quiet {M Req A} (p : prog (ev M) A) : prog (lev M Req) A :=
  match p with
  | Ret a => Ret a
  | Vis e k => Vis (LSys e) (fun x => quiet (k x))
  end.

(** The same calls, with the lines collected. *)
Fixpoint with_log {M Req A} (p : prog (lev M Req) A) (out : list (line Req)) : prog (ev M) (A * list (line Req)) :=
  match p with
  | Ret a => Ret (a, out)
  | @Vis _ _ X e k =>
      match e in lev _ _ X return (X -> prog (lev M Req) A) -> prog (ev M) (A * list (line Req)) with
      | LSys e => fun k => Vis e (fun x => with_log (k x) out)
      | LWrite l => fun k => with_log (k tt) (out ++ l)%list
      end k
  end.

(** ** The gRPC interceptor *)
Definition status_Code {A} (r : res A) : option code :=
  match r with Ok _ => None | Err (ErrStatus c _) => Some c | Err _ => Some Unknown end.

(** [statusCode.String()]. *)
Definition status_string (c : option code) : string := match c with None => "OK" | Some c => code_string c end.

Section interceptor.
Context {M Req Resp : Type} (Logger : zlogger Req).

(** The line written for a finished request. *)
Definition request_line (ctx : context) (FullMethod : string) (req : Req) (r : res Resp) (duration : Z) : list (line Req) :=
  match r with
  | Err err =>
      log_at (WithContext Logger ctx) ErrorLevel "gRPC Request Failed"
        [("method", FString FullMethod); ("request", FAny req); ("code", FString (status_string (status_Code r)));
         ("error", FError err); ("duration", FDuration duration)]
  | Ok _ =>
      log_at (WithContext Logger ctx) InfoLevel "gRPC Request Success"
        [("method", FString FullMethod); ("code", FString (status_string (status_Code r))); ("duration", FDuration duration)]
  end.

(** The interceptor. The handler makes the calls of a service; the trace lines
    its SQL statements write through the same Logger are left out. *)
Definition ZapGrpcLogger (ctx : list (ctx_key * ctx_value)) (req : Req) (FullMethod : string)
    (handler : context -> Req -> prog (ev M) (res Resp)) : prog (lev M Req) (res Resp) :=
  startTime <- call (LSys TimeNow) ;;
  traceID <- call (LSys NewUUID) ;;
  let newCtx := InjectTraceID ctx traceID in
  r <- quiet (handler newCtx req) ;;
  now <- call (LSys TimeNow) ;;
  call (LWrite (request_line newCtx FullMethod req r (now - startTime))) ;;
  Ret r.
End interceptor.

(** ** The gorm logger *)

(** gorm.io/gorm/logger: LogLevel. *)
Definition gl_Silent : Z := 1.
Definition gl_Error : Z := 2.
Definition gl_Warn : Z := 3.
Definition gl_Info : Z := 4.

(** Durations in milliseconds. *)
Record ZapGormLogger := { zg_LogLevel : Z; zg_SlowThreshold : Z; zg_IgnoreRecordNotFoundError : bool }.

Definition LogMode (l : ZapGormLogger) (level : Z) : ZapGormLogger :=
  {| zg_LogLevel := level; zg_SlowThreshold := zg_SlowThreshold l; zg_IgnoreRecordNotFoundError := zg_IgnoreRecordNotFoundError l |}.

Section gorm.
Context {Req : Type} (Logger : zlogger Req) (l : ZapGormLogger).

(** [msg] is the text Sprintf makes of the arguments. *)
Definition gorm_Info (ctx : context) (msg : string) : list (line Req) :=
  if gl_Info <=? zg_LogLevel l then log_at (WithContext Logger ctx) InfoLevel msg [] else [].
Definition gorm_Warn (ctx : context) (msg : string) : list (line Req) :=
  if gl_Warn <=? zg_LogLevel l then log_at (WithContext Logger ctx) WarnLevel msg [] else [].
Definition gorm_Error (ctx : context) (msg : string) : list (line Req) :=
  if gl_Error <=? zg_LogLevel l then log_at (WithContext Logger ctx) ErrorLevel msg [] else [].

(** [err != nil && (!l.IgnoreRecordNotFoundError || err != logger.ErrRecordNotFound)]; None is nil. *)
Definition trace_failed (err : option error) : bool :=
  match err with
  | Some e => negb (zg_IgnoreRecordNotFoundError l) || negb (bool_decide (e = ErrRecordNotFound))
  | None => false
  end.

(** [l.SlowThreshold != 0 && elapsed > l.SlowThreshold && l.LogLevel >= logger.Warn]. *)
Definition trace_slow (elapsed : Z) : bool :=
  negb (zg_SlowThreshold l =? 0) && (zg_SlowThreshold l <? elapsed) && (gl_Warn <=? zg_LogLevel l).

Definition Trace (ctx : context) (elapsed : Z) (sql : string) (rows : Z) (err : option error) : list (line Req) :=
  if zg_LogLevel l <=? gl_Silent then []
  else
    let reqLogger := WithContext Logger ctx in
    let fields := [("elapsed", FDuration elapsed); ("rows", FInt64 rows); ("sql", FString sql)] in
    if trace_failed err
    then log_at reqLogger ErrorLevel "SQL Error" (match err with Some e => [("error", FError e)] | None => [] end ++ fields)%list
    else if trace_slow elapsed then log_at reqLogger WarnLevel "SQL Slow Query" fields
    else if zg_LogLevel l =? gl_Info then log_at reqLogger InfoLevel "SQL Trace" fields
    else [].
End gorm.

(** ** The go-redis logger; [msg] is the text Sprintf makes of the arguments. *)
Definition Redis_Printf {Req} (Logger : zlogger Req) (ctx : context) (msg : string) : list (line Req) :=
  log_at (WithContext Logger ctx) WarnLevel "Redis Internal Log" [("msg", FString msg)].

(** ** What logging does not change *)
Section facts.
Context `{HC : Crypto} {fl : bool} {M W Req : Type} `{HW : !World fl M W}.

Lemma exec_with_log_quiet {A B} (p : prog (ev M) A) (k : A -> prog (lev M Req) B) out w :
  exec (with_log (bind (quiet p) k) out) w = let '(a, w') := exec p w in exec (with_log (k a) out) w'.
Proof.
  unfold exec. revert w. induction p as [a|X e k' IH]; intros w; [done|].
  cbn. destruct (handle X e w). apply IH.
Qed.

Lemma request_line_traced (Logger : zlogger Req) {Resp} ctx u method req (r : res Resp) d : u <> "" ->
  request_line Logger (InjectTraceID ctx u) method req r d
  = request_line (With Logger ("trace_id", FString u)) None method req r d.
Proof.
  intros Hu. unfold request_line, WithContext, ExtractTraceID, InjectTraceID, WithValue. cbn [ctx_Value].
  rewrite decide_True by done. apply String.eqb_neq in Hu. by rewrite Hu.
Qed.

Lemma exec_TimeNow w t w' : handle (World := HW) Z TimeNow w = (t, w') ->
  exists now, v_now (view w) <= now /\ view w' = tick now (view w).
Proof. intros Hh. apply handle_doc in Hh as (now & Hn & [Hd|[_ []]]). by exists now. Qed.

Lemma exec_NewUUID w u w' : handle (World := HW) string NewUUID w = (u, w') ->
  exists now, v_now (view w) <= now /\ u <> "" /\ u ∉ v_uuids (view w) /\ view w' = add_uuid u (tick now (view w)).
Proof. intros Hh. apply handle_doc in Hh as (now & Hn & [(? & ? & ?)|[_ []]]). by exists now. Qed.

(** C26. The interceptor of the logic service is transparent: a call through it
    is the call of the handler, made under a context that carries a fresh trace
    id, with the same answer and the same effect but for the clock and that id;
    it adds exactly the lines of this one request, at the error level with the
    request itself when the call failed, and every line has the trace id. *)
Theorem interceptor_transparent {Resp : Type} (Logger : zlogger Req) ctx req method (handler : context -> Req -> prog (ev M) (res Resp)) out w r out' w' :
  exec (with_log (ZapGrpcLogger Logger ctx req method handler) out) w = ((r, out'), w') ->
  exists traceID w1 w2 now1 now2 duration,
    ExtractTraceID (InjectTraceID ctx traceID) = traceID /\ traceID ∉ v_uuids (view w)
    /\ v_now (view w) <= now1 /\ view w1 = add_uuid traceID (tick now1 (view w))
    /\ exec (handler (InjectTraceID ctx traceID) req) w1 = (r, w2)
    /\ v_now (view w2) <= now2 /\ view w' = tick now2 (view w2)
    /\ out' = (out ++ request_line (With Logger ("trace_id", FString traceID)) None method req r duration)%list.
Proof.
  unfold ZapGrpcLogger. intros Hrun. unfold exec in Hrun. cbn [bind call with_log run] in Hrun.
  destruct (handle Z TimeNow w) as [t0 w0] eqn:H0. destruct (handle string NewUUID w0) as [u w1] eqn:H1.
  apply exec_TimeNow in H0 as (n0 & Hn0 & Hv0). apply exec_NewUUID in H1 as (n1 & Hn1 & Hu & Hfresh & Hv1).
  change (exec (with_log (bind (quiet (handler (InjectTraceID ctx u) req)) (fun r => Vis (LSys TimeNow) (fun now => Vis (LWrite
    (request_line Logger (InjectTraceID ctx u) method req r (now - t0))) (fun _ => Ret r)))) out) w1 = ((r, out'), w')) in Hrun.
  rewrite exec_with_log_quiet in Hrun. destruct (exec (handler _ req) w1) as [r2 w2] eqn:H2.
  unfold exec in Hrun. cbn [with_log run] in Hrun. destruct (handle Z TimeNow w2) as [t3 w3] eqn:H3.
  apply exec_TimeNow in H3 as (n3 & Hn3 & Hv3). injection Hrun as -> <- ->.
  rewrite Hv0 in Hv1, Hfresh, Hn1. cbn in Hn1, Hfresh. exists u, w1, w2, n1, n3, (t3 - t0).
  split_and!; [done..|lia|by rewrite Hv1, tick_tick|done|done|done|]. f_equal. by apply request_line_traced.
Qed.
End facts.

(** C94. The gorm logger OpenMySQL installs (level Info, threshold 200 ms,
    missing records ignored) writes every statement exactly once per sink that
    the zap level lets through: as an error when it failed for another reason
    than a missing record, else as a warning when it took longer than the
    threshold, else as information; the line carries the statement. *)
Theorem trace_logs_once {Req} (Logger : zlogger Req) ctx elapsed sql rows err :
  let opened := {| zg_LogLevel := gl_Info; zg_SlowThreshold := 200; zg_IgnoreRecordNotFoundError := true |} in
  let failed := exists e, err = Some e /\ e <> ErrRecordNotFound in
  exists level msg fields, Trace Logger opened ctx elapsed sql rows err = log_at (WithContext Logger ctx) level msg fields
    /\ ("sql", FString sql) ∈ fields
    /\ (failed <-> level = ErrorLevel) /\ (~ failed -> (200 < elapsed <-> level = WarnLevel) /\ (elapsed <= 200 <-> level = InfoLevel)).
Proof.
  cbv zeta. unfold Trace, trace_failed, trace_slow. cbn -[log_at].
  assert (forall (l : list (string * field_value Req)) x y z, z ∈ l ++ [x; y; z])%list as Hin by (intros; rewrite elem_of_app, !elem_of_cons; auto).
  destruct err as [e|]; [destruct (decide (e = ErrRecordNotFound)) as [->|He]|]; cbn -[log_at].
  - destruct (Z.ltb_spec 200 elapsed); cbn -[log_at]; eexists _, _, _; (split; [reflexivity|]); (split; [apply (Hin [])|]);
      (split; [split; [intros (? & [= <-] & ?); done|discriminate]|]); intros _; unfold WarnLevel, InfoLevel; lia.
  - rewrite bool_decide_false by done. cbn -[log_at]. eexists _, _, _. split; [reflexivity|]. split; [apply (Hin [_])|].
    split; [|intros Hn; destruct Hn; eauto]. split; [done|eauto].
  - destruct (Z.ltb_spec 200 elapsed); cbn -[log_at]; eexists _, _, _; (split; [reflexivity|]); (split; [apply (Hin [])|]);
      (split; [split; [intros (? & ? & ?); done|discriminate]|]); intros _; unfold WarnLevel, InfoLevel; lia.
Qed.
