(* ===== verification/Process.v ===== *)
(** * Processes and the clients they open

    What the four main packages do besides the services: read the
    configuration, open clients (common/redis.go, common/db.go,
    common/logic_client.go, common/connect_client.go, logic/producer.go), start
    goroutines, wait for a signal, run deferred functions.

    A main function and the goroutines it starts are programs over the events
    [pev]; [proc_step] interleaves them.  log.Fatal ends the process at once
    ([Exit]): nothing of it runs any more, deferred functions neither.  When main
    returns the process ends with code 0.  A signal ends a process that did not
    ask for it with signal.Notify. *)

From Stdlib Require Import ZArith Lia String.
From stdpp Require Import base tactics list relations strings.
From S2P Require Import Prelude Effects Redis Database Proto World Store ChatServer Config Logging.

Local Open Scope string_scope.
Local Open Scope Z_scope.

(** ** What is opened and closed *)
Record RedisOptions := {
  ro_Addr : string; ro_Password : string; ro_DB : Z; ro_DialTimeout : Z; ro_ReadTimeout : Z; ro_WriteTimeout : Z;
  ro_PoolSize : Z; ro_MinIdleConns : Z }.

Inductive RequiredAcks := NoResponse | WaitForLocal | WaitForAll.
Inductive Partitioner := RandomPartitioner | HashPartitioner.
Record ProducerConfig := {
  pd_Return_Successes : bool; pd_Return_Errors : bool; pd_RequiredAcks : RequiredAcks; pd_Partitioner : Partitioner; pd_Version : string }.

Inductive InitialOffset := OffsetNewest | OffsetOldest.
Inductive BalanceStrategy := BalanceRange | BalanceRoundRobin.
Record ConsumerConfig := { cm_GroupStrategies : list BalanceStrategy; cm_Offsets_Initial : InitialOffset; cm_Version : string }.

Inductive resource :=
| RRedis (o : RedisOptions)
| RMySQL (dsn : string) (logger : ZapGormLogger)
| RGrpcConn (addr : string)
| RProducer (brokers : list string) (c : ProducerConfig)
| RConsumerGroup (brokers : list string) (groupID : string) (c : ConsumerConfig)
| RClientPool.

(** The handlers of the consumer groups. *)
Inductive handler := SingleChatHander | GroupChatHandler | RoomChatHandler | PersistHandler.

(** The goroutines a main function starts. *)
Inductive goroutine :=
| GrpcServer (addr : string)
| HttpServer (addr : string)
| ConsumeLoop (groupID : string) (topics : list string) (h : handler).

(** The gRPC services of the logic process behind its listener. *)
Record logic_services := { lsv_addr : string; lsv_store : Store; lsv_chat : ChatServer }.

(** IBM/sarama. *)
Class Sarama := { ParseKafkaVersion : string -> res string }.

Inductive pev `{Viper} : Type -> Type :=
| ReadInConfig (path typ : string) : pev (res table)
| SetLogger (c : LoggerConfig) : pev unit                    (* Logger = zap.New(...) *)
| Sync : pev unit                                            (* Logger.Sync() *)
| Make (r : resource) : pev unit                             (* a constructor that cannot fail *)
| Open (r : resource) : pev (res unit)
| Close (r : resource) : pev (res unit)
| Ping : pev (res unit)
| SqlDB : pev (res unit)                                     (* db.DB() *)
| SetPool (maxOpen maxIdle lifetime_ms : Z) : pev unit
| SetRedisLogger : pev unit
| Sys {A : Type} (e : ev unit A) : pev A                     (* a call of the services *)
| Go (g : goroutine) : pev unit
| Listen (addr : string) : pev (res unit)
| RegisterLogic (s : logic_services) : pev unit               (* grpc.NewServer and the Register functions *)
| ServeGrpc (addr : string) : pev (res unit)                 (* returns when the listener breaks *)
| ListenAndServe (addr : string) : pev error                 (* always returns an error *)
| Consume (groupID : string) (topics : list string) (h : handler) : pev (res unit)
| Cancel : pev unit
| CtxCancelled : pev bool
| Notify : pev unit
| Signal : pev unit                                          (* <-quit *)
| Print (msg : string) : pev unit
| Exit (code : Z) : pev unit.

(** The steps of a shutdown: cancel(), and the Close of a resource. *)
Inductive teardown := Cancelled | Closed (r : resource).

(** What main alone writes, and the rest. *)
Record owned := {
  o_logger : option LoggerConfig;
  o_opened : list resource;          (* in the order of opening *)
  o_teardown : list teardown;        (* what was cancelled and closed, in order *)
  o_started : list goroutine;
  o_served : option logic_services;
  o_notified : bool;
  o_synced : bool }.

Record pstate := { p_sys : sysview unit; p_own : owned; p_listening : list string; p_exit : option Z }.

Definition fresh : owned :=
  {| o_logger := None; o_opened := []; o_teardown := []; o_started := []; o_served := None; o_notified := false; o_synced := false |}.

Definition proc_start (v : sysview unit) : pstate := {| p_sys := v; p_own := fresh; p_listening := []; p_exit := None |}.

(** What was closed, in order; is the context cancelled? *)
Definition o_closed (o : owned) : list resource :=
  omap (M := list) (fun t => match t with Closed r => Some r | Cancelled => None end) (o_teardown o).
Definition o_cancelled (o : owned) : bool := existsb (fun t => match t with Cancelled => true | Closed _ => false end) (o_teardown o).

Definition with_own (f : owned -> owned) (s : pstate) : pstate :=
  {| p_sys := p_sys s; p_own := f (p_own s); p_listening := p_listening s; p_exit := p_exit s |}.
Definition with_sys (v : sysview unit) (s : pstate) : pstate :=
  {| p_sys := v; p_own := p_own s; p_listening := p_listening s; p_exit := p_exit s |}.
Definition with_exit (c : Z) (s : pstate) : pstate :=
  {| p_sys := p_sys s; p_own := p_own s; p_listening := p_listening s; p_exit := Some c |}.
Definition with_listening (a : string) (s : pstate) : pstate :=
  {| p_sys := p_sys s; p_own := p_own s; p_listening := p_listening s ++ [a]; p_exit := p_exit s |}.

Definition own_logger c (o : owned) : owned := {| o_logger := Some c; o_opened := o_opened o; o_teardown := o_teardown o; o_started := o_started o; o_served := o_served o; o_notified := o_notified o; o_synced := o_synced o |}.
Definition own_opened r (o : owned) : owned := {| o_logger := o_logger o; o_opened := o_opened o ++ [r]; o_teardown := o_teardown o; o_started := o_started o; o_served := o_served o; o_notified := o_notified o; o_synced := o_synced o |}.
Definition own_closed r (o : owned) : owned := {| o_logger := o_logger o; o_opened := o_opened o; o_teardown := o_teardown o ++ [Closed r]; o_started := o_started o; o_served := o_served o; o_notified := o_notified o; o_synced := o_synced o |}.
Definition own_started g (o : owned) : owned := {| o_logger := o_logger o; o_opened := o_opened o; o_teardown := o_teardown o; o_started := o_started o ++ [g]; o_served := o_served o; o_notified := o_notified o; o_synced := o_synced o |}.
Definition own_served s (o : owned) : owned := {| o_logger := o_logger o; o_opened := o_opened o; o_teardown := o_teardown o; o_started := o_started o; o_served := Some s; o_notified := o_notified o; o_synced := o_synced o |}.
Definition own_cancelled (o : owned) : owned := {| o_logger := o_logger o; o_opened := o_opened o; o_teardown := o_teardown o ++ [Cancelled]; o_started := o_started o; o_served := o_served o; o_notified := o_notified o; o_synced := o_synced o |}.
Definition own_notified (o : owned) : owned := {| o_logger := o_logger o; o_opened := o_opened o; o_teardown := o_teardown o; o_started := o_started o; o_served := o_served o; o_notified := true; o_synced := o_synced o |}.
Definition own_synced (o : owned) : owned := {| o_logger := o_logger o; o_opened := o_opened o; o_teardown := o_teardown o; o_started := o_started o; o_served := o_served o; o_notified := o_notified o; o_synced := true |}.

Lemma o_closed_closed r o : o_closed (own_closed r o) = (o_closed o ++ [r])%list.
Proof. unfold o_closed. cbn. by rewrite omap_app. Qed.

(** ** What an event does *)
Section semantics.
Context `{HV : Viper} `{HC : Crypto}.
(** Can calls fail?  The outcome of reading the configuration file. *)
Context (fl : bool) (file : res table).

(** The answer of a call that may fail. *)
Definition may_fail {A} (x : res A) : Prop := fl = false -> is_ok x = true.

Definition pext {X} (e : pev X) (s : pstate) (x : X) (s' : pstate) : Prop :=
  match e in pev X return X -> Prop with
  | ReadInConfig path typ => fun x => x = file /\ s' = s
  | SetLogger c => fun _ => s' = with_own (own_logger c) s
  | Make r => fun _ => s' = with_own (own_opened r) s
  | Open r => fun x => may_fail x /\ s' = if is_ok x then with_own (own_opened r) s else s
  | Close r => fun x => may_fail x /\ s' = with_own (own_closed r) s
  | Ping => fun x => may_fail x /\ s' = s
  | SqlDB => fun x => may_fail x /\ s' = s
  | Sys e => fun x => exists v, ext fl _ e (p_sys s) x v /\ s' = with_sys v s
  | Go g => fun _ => s' = with_own (own_started g) s
  | Listen addr => fun x => may_fail x /\ s' = if is_ok x then with_listening addr s else s
  | ServeGrpc addr => fun x => fl = true /\ s' = s
  | RegisterLogic svc => fun _ => s' = with_own (own_served svc) s
  | ListenAndServe addr => fun _ => fl = true /\ s' = s
  | Consume _ _ _ => fun x => s' = s
  | Cancel => fun _ => s' = with_own own_cancelled s
  | CtxCancelled => fun x => x = o_cancelled (p_own s) /\ s' = s
  | Notify => fun _ => s' = with_own own_notified s
  | Exit c => fun _ => s' = with_exit c s
  | Sync => fun _ => s' = with_own own_synced s
  | SetPool _ _ _ | SetRedisLogger | Signal | Print _ => fun _ => s' = s
  end x.

(** As [pext], while another process listens on the address [addr]. *)
Definition pext_taken (addr : string) {X} (e : pev X) (s : pstate) (x : X) (s' : pstate) : Prop :=
  match e in pev X return (pstate -> X -> pstate -> Prop) -> X -> Prop with
  | Listen a => fun free x => if String.eqb a addr then is_ok x = false /\ s' = s else free s x s'
  | _ => fun free x => free s x s'
  end (@pext X e) x.
End semantics.

(** ** Main and its goroutines *)
Section threads.
Context `{HV : Viper}.
(** What an event may do; [body] is the function of a goroutine; [others] is what
    the other processes do to the shared systems. *)
Context (px : forall X, pev X -> pstate -> X -> pstate -> Prop).
Context (body : goroutine -> prog pev unit) (others : sysview unit -> sysview unit -> Prop).

Definition spawned {X} (e : pev X) : list (prog pev unit) := match e with Go g => [body g] | _ => [] end.

(** The main function is thread 0. *)
Inductive proc_step : list (prog pev unit) * pstate -> list (prog pev unit) * pstate -> Prop :=
| proc_event ps s i X (e : pev X) k x s' :
    p_exit s = None -> ps !! i = Some (Vis e k) -> px X e s x s' ->
    proc_step (ps, s) ((<[i := k x]> ps ++ spawned e)%list, s')
| proc_return ps s : p_exit s = None -> ps !! 0%nat = Some (Ret tt) -> proc_step (ps, s) (ps, with_exit 0 s)
| proc_kill ps s : p_exit s = None -> o_notified (p_own s) = false -> proc_step (ps, s) (ps, with_exit 143 s)
| proc_others ps s v : p_exit s = None -> others (p_sys s) v -> proc_step (ps, s) (ps, with_sys v s).
End threads.

(** ** Opening clients *)
Section clients.
Context `{HV : Viper} `{HK : Sarama}.

(** log.Fatal: print and exit with code 1. *)
Definition Fatal {A} (msg : string) (after : A) : prog pev A :=
  call (Print msg) ;; call (Exit 1) ;; Ret after.

(** [x, err := p; if err != nil { log.Fatalf(...) }]. *)
Definition must {A} (msg : string) (p : prog pev (res A)) (rest : A -> prog pev unit) : prog pev unit :=
  r <- p ;;
  match r with Ok x => rest x | Err e => Fatal (msg ++ Error e) tt end.

(** [defer d]: [d] runs when the rest of the function has returned. *)
Definition defer {A B} (d : prog pev A) (rest : prog pev B) : prog pev B :=
  r <- rest ;; d ;; Ret r.

(** common.LoadConfig; a path without extension makes the slice expression
    panic, which ends the process with code 2. *)
Definition LoadConfig (path : string) : prog pev (res Config) :=
  match config_type path with
  | None => call (Exit 2) ;; Ret (Err (ErrMsg "slice bounds out of range"))
  | Some typ => try t <- call (ReadInConfig path typ) ;; Ret (Unmarshal t)
  end.

Definition redis_options (addr password : string) (db : Z) : RedisOptions := {|
  ro_Addr := addr; ro_Password := password; ro_DB := db; ro_DialTimeout := 3000; ro_ReadTimeout := 2000; ro_WriteTimeout := 2000;
  ro_PoolSize := 100; ro_MinIdleConns := 20 |}.

Definition OpenRedis (addr password : string) (db : Z) : prog pev (res unit) :=
  call (Make (RRedis (redis_options addr password db))) ;;
  try p <- call Ping ;;
  call SetRedisLogger ;;
  Ret (Ok tt).

Definition mysql_logger : ZapGormLogger := {| zg_LogLevel := gl_Info; zg_SlowThreshold := 200; zg_IgnoreRecordNotFoundError := true |}.

Definition OpenMySQL (dsn : string) : prog pev (res unit) :=
  try db <- call (Open (RMySQL dsn mysql_logger)) ;;
  try sqlDB <- call SqlDB ;;
  call (SetPool 10 10 (30 * minute_ms)) ;;
  Ret (Ok tt).

Definition NewAuthClient (addr : string) : prog pev (res unit) := call (Open (RGrpcConn addr)).
Definition NewChatClient (addr : string) : prog pev (res unit) := call (Open (RGrpcConn addr)).
Definition NewGrouptClient (addr : string) : prog pev (res unit) := call (Open (RGrpcConn addr)).

Definition producer_config (v : string) : ProducerConfig := {|
  pd_Return_Successes := true; pd_Return_Errors := true; pd_RequiredAcks := WaitForAll; pd_Partitioner := HashPartitioner; pd_Version := v |}.

Definition InitProducer (brokers : list string) (verson : string) : prog pev (res resource) :=
  match ParseKafkaVersion verson with
  | Err e => Ret (Err e)
  | Ok v =>
      let r := RProducer brokers (producer_config v) in
      try producer <- call (Open r) ;;
      Ret (Ok r)
  end.

Definition consumer_config (v : string) : ConsumerConfig := {|
  cm_GroupStrategies := [BalanceRoundRobin]; cm_Offsets_Initial := OffsetNewest; cm_Version := v |}.

(** newConsumerGroup (cmd/task/main.go). *)
Definition newConsumerGroup (cfg : Config) (groupID : string) : prog pev (res resource) :=
  match ParseKafkaVersion (kf_Version (cfg_Kafka cfg)) with
  | Err e => Ret (Err e)
  | Ok v =>
      let r := RConsumerGroup (kf_KafkaBrokers (cfg_Kafka cfg)) groupID (consumer_config v) in
      try cg <- call (Open r) ;;
      Ret (Ok r)
  end.
End clients.
