(* ===== verification/Offsets.v ===== *)
(** * Consumer groups across sessions

    The task process re-enters its consumer groups for as long as it lives
    ([Mains.consume_loop]).  What a consumer group makes of that is not code of
    this repository but behaviour of Kafka and IBM/sarama, written out here: a
    session delivers records of the partition from the committed offset on and,
    before it ends, commits some of the records that were marked: the automatic
    commit runs now and then, so a crash or a rebalance may lose the last marks.
    As long as the group has committed no offset, a session starts where
    [Offsets.Initial] of its configuration says.  The code is the consumer that
    handles the records ([Consumer.Persist_ConsumeClaim]) and the configuration
    ([Process.consumer_config]), which asks for the end of the partition. *)

From Stdlib Require Import ZArith Lia String.
From stdpp Require Import base tactics list gmap strings.
From S2P Require Import Prelude GoStd Effects Redis Database Proto World Rules ClientPool Consumer PersistSpec Config Logging Process.

Local Open Scope Z_scope.

(** One session of the persistence consumer on a partition: how many records
    the partition has when it starts, the retries that fit for each record it
    delivers, and how many marks it commits. *)
Record session := { s_newest : nat; s_budgets : list nat; s_commits : nat }.

(** Where a session starts: the committed offset, else the initial one. *)
Definition start_offset (initial : InitialOffset) (committed : option nat) (s : session) : nat :=
  default (match initial with OffsetNewest => s_newest s | OffsetOldest => 0%nat end) committed.

(** The offset after the commits of a session; a session that commits no mark
    leaves the group as it was. *)
Definition commit_offset (committed : option nat) (start marks : nat) : option nat :=
  match marks with O => committed | _ => Some (start + marks)%nat end.

Section loop.
Context `{HCd : Codec} {M : Type} (initial : InitialOffset) (c : PersistConsumer).

(** The claim of a session; [partition] has every record, also those appended
    while the session runs. *)
Definition session_claim (partition : list kmsg) (start : nat) (s : session) : list (kmsg * nat) :=
  zip (drop start partition) (s_budgets s).

(** The sessions of the group one after the other; the answer is the committed
    offset. *)
Fixpoint group_sessions (partition : list kmsg) (committed : option nat) (sessions : list session) : prog (ev M) (option nat) :=
  match sessions with
  | [] => Ret committed
  | s :: rest =>
      let start := start_offset initial committed s in
      marked <- Persist_ConsumeClaim c (session_claim partition start s) ;;
      group_sessions partition (commit_offset committed start (Nat.min (s_commits s) (length marked))) rest
  end.
End loop.

Section proofs.
Context `{HC : Crypto} `{HCd : Codec} {M : Type} (fl : bool) (initial : InitialOffset) (c : PersistConsumer).
Implicit Types v : sysview M.

Lemma zip_fst_prefix {A B} (l : list A) (k : list B) : (zip l k).*1 `prefix_of` l.
Proof.
  revert k. induction l as [|a l IH]; intros [|b k]; cbn; try apply prefix_nil. by apply prefix_cons.
Qed.

Lemma drop_take_extend {A} (l pre : list A) (a b : nat) :
  (a <= b)%nat -> pre `prefix_of` drop b l -> take (b + length pre - a) (drop a l) = (take (b - a) (drop a l) ++ pre)%list.
Proof.
  intros Hab [k Hk]. replace (b + length pre - a)%nat with ((b - a) + length pre)%nat by lia.
  rewrite <- take_take_drop, drop_drop. replace (a + (b - a))%nat with b by lia. by rewrite Hk, take_app_length.
Qed.

(** The records between two offsets. *)
Definition between (partition : list kmsg) (offset0 offset : nat) : list kmsg :=
  take (offset - offset0) (drop offset0 partition).

Lemma wp_group_sessions partition offset0 offset sessions v :
  (offset0 <= offset)%nat -> Forall (fun msg => recorded msg (v_db v)) (between partition offset0 offset) ->
  wp (ext fl) (group_sessions initial c partition (Some offset) sessions) v (fun r v' => exists offset',
    r = Some offset' /\ (offset <= offset')%nat /\ grows (v_db v) (v_db v')
    /\ Forall (fun msg => recorded msg (v_db v')) (between partition offset0 offset')).
Proof.
  revert offset v. induction sessions as [|s rest IH]; intros offset v Hle Hrec; cbn [group_sessions].
  { exists offset. split_and!; [done..|apply grows_refl|done]. }
  apply wp_bind. eapply wp_mono; [apply wp_Persist_ConsumeClaim|]. intros marked v1 (Hg%adds_grows & Hpre & Hm & _).
  set (kept := take (s_commits s) marked).
  assert (commit_offset (Some offset) (start_offset initial (Some offset) s) (Nat.min (s_commits s) (length marked))
    = Some (offset + length kept)%nat) as ->.
  { unfold kept. rewrite length_take. destruct (Nat.min _ _); cbn; [by rewrite Nat.add_0_r|done]. }
  eapply wp_mono; [apply IH|].
  - lia.
  - unfold between. rewrite (drop_take_extend _ kept); [|done|].
    + apply Forall_app. split; [|by apply Forall_take].
      eapply Forall_impl; [exact Hrec|]. intros msg. by apply recorded_grows.
    + etransitivity; [apply prefix_take|]. etransitivity; [exact Hpre|]. apply zip_fst_prefix.
  - intros r v' (offset' & ? & ? & Hg' & ?). exists offset'. split_and!; [done|lia|by eapply grows_trans|done].
Qed.
Lemma zip_fst_take {A B} (l : list A) (k : list B) a : a ∈ (zip l k).*1 -> a ∈ take (length k) l.
Proof.
  revert k. induction l as [|x l IH]; intros [|b k]; cbn; [done..|]. intros [->|Ha]%elem_of_cons; [constructor|].
  apply elem_of_cons. right. by apply IH.
Qed.

(** The first two sessions of a group that has committed nothing, with the
    configuration of the code. *)
Lemma wp_first_sessions ver early skipped rest budgets1 budgets2 commits v :
  let s1 := {| s_newest := length early; s_budgets := budgets1; s_commits := 0 |} in
  let s2 := {| s_newest := length (early ++ skipped); s_budgets := budgets2; s_commits := commits |} in
  wp (ext fl) (group_sessions (cm_Offsets_Initial (consumer_config ver)) c (early ++ skipped ++ rest)%list None [s1; s2]) v (fun r v' =>
    (forall offset, r = Some offset -> (length (early ++ skipped) < offset)%nat)
    /\ adds (take (length budgets1) (skipped ++ rest) ++ rest)%list (v_db v) (v_db v')).
Proof.
  intros s1 s2. cbn [group_sessions]. unfold session_claim, start_offset, s1, s2.
  cbn [consumer_config cm_Offsets_Initial default from_option s_newest s_budgets s_commits Nat.min commit_offset].
  rewrite drop_app_length. apply wp_bind. eapply wp_mono; [apply wp_Persist_ConsumeClaim|]. intros marked1 v1 (Ha1 & _).
  rewrite app_assoc, drop_app_length. apply wp_bind. eapply wp_mono; [apply wp_Persist_ConsumeClaim|]. intros marked2 v2 (Ha2 & _).
  cbn [wp]. split.
  - intros offset. destruct (Nat.min commits (length marked2)) as [|n]; [done|]. cbn. intros [= <-]. lia.
  - eapply adds_trans; (eapply adds_more; [|eassumption]); intros k Hk; apply zip_fst_take in Hk; apply elem_of_app; [by left|right].
    apply (subseteq_take (length budgets2)) in Hk. exact Hk.
Qed.
End proofs.

Section theorems.
Context `{HC : Crypto} `{HCd : Codec} {fl : bool} {M W : Type} `{HW : !World fl M W}.


(** C38. A group that has not committed yet skips records: when its first
    session ends without a commit and the next one starts once the partition
    has the records [skipped], then of these only the ones the first session
    had delivered can have been stored: every row added is that of a record
    delivered by the first session or of one after [skipped], so the id of
    another skipped message is in MySQL only if it was there before or one of
    these has it too; and if the second session commits, the group has moved
    past [skipped] for good. *)
Theorem first_commit_skips_records ver c early skipped rest budgets1 budgets2 commits w r w' :
  let s1 := {| s_newest := length early; s_budgets := budgets1; s_commits := 0 |} in
  let s2 := {| s_newest := length (early ++ skipped); s_budgets := budgets2; s_commits := commits |} in
  let delivered := (take (length budgets1) (skipped ++ rest) ++ rest)%list in
  exec (group_sessions (cm_Offsets_Initial (consumer_config ver)) c (early ++ skipped ++ rest)%list None [s1; s2]) w = (r, w') ->
  adds delivered (v_db (view w)) (v_db (view w'))
  /\ (forall row, row ∈ t_messages (v_db (view w')) -> row ∈ t_messages (v_db (view w))
        \/ exists k m, k ∈ delivered /\ Unmarshal_Message (k_Value k) = Ok m /\ mr_MsgID row = m_MsgId m)
  /\ (forall offset, r = Some offset -> (length (early ++ skipped) < offset)%nat).
Proof.
  intros s1 s2 delivered Hrun.
  pose proof (exec_wp _ _ _ (wp_first_sessions fl c ver early skipped rest budgets1 budgets2 commits (view w)) _ _ Hrun) as [Hoff Ha].
  split_and!; [exact Ha| |exact Hoff]. intros row Hrow. destruct Ha as (l1 & l2 & Heq & H1 & _). rewrite Heq in Hrow.
  cbn in Hrow. apply elem_of_app in Hrow as [Hrow|Hrow]; [by left|right]. rewrite Forall_forall in H1.
  destruct (H1 _ Hrow) as (k & m & id & Hk & Hm & ->). exists k, m. by split_and!.
Qed.
End theorems.
