(* ===== verification/Mains.v ===== *)
(** * The main functions (src/cmd)

    One definition per main function, with its guards, its log.Fatal calls, its
    deferred functions in the order of their registration, and the goroutines it
    starts. *)

From Stdlib Require Import ZArith Lia String.
From stdpp Require Import base tactics list gmap strings.
From S2P Require Import Prelude GoStd Effects Redis Database Proto World Store ChatServer Registry Config Logging Process.

Local Open Scope string_scope.
Local Open Scope Z_scope.

Notation "'must!' msg 'as' x <- p ;; k" := (must msg p (fun x => k))
  (at level 100, msg at level 0, x name, p at next level, right associativity) : prog_scope.

Section mains.
Context `{HV : Viper} `{HK : Sarama}.

Definition config_path : string := "configs/dev.toml".

(** A method of the repository that calls Redis. *)
Fixpoint sys {A} (p : prog (ev unit) A) : prog pev A :=
  match p with
  | Ret a => Ret a
  | Vis e k => Vis (Sys e) (fun x => sys (k x))
  end.

(** ** cmd/api *)
Definition api_main : prog pev unit :=
  must! "" as cfg <- LoadConfig config_path ;;
  must! "" as authClient <- NewAuthClient (ap_LogicGRPCAddr (cfg_API cfg)) ;;
  defer (call (Close (RGrpcConn (ap_LogicGRPCAddr (cfg_API cfg))))) (
  must! "" as chatClient <- NewChatClient (lg_GRPCAddr (cfg_Logic cfg)) ;;
  defer (call (Close (RGrpcConn (lg_GRPCAddr (cfg_Logic cfg))))) (
  call (Print ("api http listening on " ++ ap_HTTPAddr (cfg_API cfg))) ;;
  err <- call (ListenAndServe (ap_HTTPAddr (cfg_API cfg))) ;;
  Fatal (Error err) tt)).

(** ** cmd/logic *)
Definition logic_loadConfig : prog pev (res Config) :=
  try cfg <- LoadConfig config_path ;;
  call (SetLogger (cfg_Logger cfg)) ;;
  Ret (Ok cfg).

Definition initMysql (cfg : Config) : prog pev (res unit) :=
  try db <- OpenMySQL (my_DSN (cfg_MySQL cfg)) ;;
  try sqlDB <- call SqlDB ;;
  Ret (Ok tt).

Definition initRedis (cfg : Config) : prog pev (res unit) :=
  try rdb <- OpenRedis (rd_RedisAddr (cfg_Redis cfg)) (rd_Password (cfg_Redis cfg)) (rd_DB (cfg_Redis cfg)) ;;
  Ret (Ok tt).

(** [time.Duration(cfg.Session.TTLsec) * time.Second], in int64. *)
Definition store_of (cfg : Config) : Store := {| SessionTTL := wrap_i64 (ss_TTLsec (cfg_Session cfg) * second_ns) |}.

Definition services_of (cfg : Config) (store : Store) : logic_services := {|
  lsv_addr := lg_GRPCAddr (cfg_Logic cfg);
  lsv_store := store;
  lsv_chat := {| ChatTopic := kf_ChatTopic (cfg_Kafka cfg); GroupChatTopic := kf_GroupChatTopic (cfg_Kafka cfg);
                 RommChatTopic := kf_RoomChatTopic (cfg_Kafka cfg); cs_Store := Some store |} |}.

Definition buildServices (cfg : Config) (store : Store) : prog pev (res unit) :=
  producer <- InitProducer (kf_KafkaBrokers (cfg_Kafka cfg)) (kf_Version (cfg_Kafka cfg)) ;;
  match producer with
  | Err e => call (Print "init kafka producer failed") ;; Ret (Err e)
  | Ok producer =>
      defer (call (Close producer)) (
      lis <- call (Listen (lg_GRPCAddr (cfg_Logic cfg))) ;;
      match lis with
      | Err e => call (Print "Listen grpc server port faild") ;; Ret (Err e)
      | Ok _ =>
          call (RegisterLogic (services_of cfg store)) ;;
          call (Print ("logic grpc listening on: " ++ lg_GRPCAddr (cfg_Logic cfg))) ;;
          try served <- call (ServeGrpc (lg_GRPCAddr (cfg_Logic cfg))) ;;
          Ret (Ok tt)
      end)
  end.

Definition logic_main : prog pev unit :=
  cfg <- logic_loadConfig ;;
  match cfg with
  | Err e => call (Print ("load config: " ++ Error e))
  | Ok cfg =>
      defer (call Sync) (
      db <- initMysql cfg ;;
      match db with
      | Err e => call (Print "init mysql failed")
      | Ok _ =>
          defer (call (Close (RMySQL (my_DSN (cfg_MySQL cfg)) mysql_logger))) (
          rdb <- initRedis cfg ;;
          match rdb with
          | Err e => call (Print "open redis failed:")
          | Ok _ =>
              defer (call (Close (RRedis (redis_options (rd_RedisAddr (cfg_Redis cfg)) (rd_Password (cfg_Redis cfg)) (rd_DB (cfg_Redis cfg)))))) (
              err <- buildServices cfg (store_of cfg) ;;
              match err with
              | Err e => call (Print "service failed")
              | Ok _ => Ret tt
              end)
          end)
      end)
  end.

(** ** cmd/connect *)

(** The switch on the flag -cn; another number leaves the zero value. *)
Definition connect_config (cfg : Config) (cn : Z) : ConnectConfig :=
  if cn =? 1 then cfg_Connect1 cfg else if cn =? 2 then cfg_Connect2 cfg else no_connect.

Definition connect_main (cn : Z) : prog pev unit :=
  must! "" as cfg <- LoadConfig config_path ;;
  call (SetLogger (cfg_Logger cfg)) ;;
  must! "Redis 连接失败: " as rdb <- OpenRedis (rd_RedisAddr (cfg_Redis cfg)) (rd_Password (cfg_Redis cfg)) (rd_DB (cfg_Redis cfg)) ;;
  if cn =? -1 then Fatal "必须指定节点配置" tt
  else
    let connectConfig := connect_config cfg cn in
    let registry := {| ServerID := ConnectServerAddr connectConfig |} in
    must! "redis注册connect节点失败: " as registered <- sys (RegisterConnectNode registry) ;;
    defer (r <- sys (UnregisterConnectNode registry) ;;
           match r with Err e => call (Print ("redis注销connect节点失败: " ++ Error e)) | Ok _ => Ret tt end) (
    must! "connect logic grpc server failed:" as authClient <- NewAuthClient (lg_GRPCAddr (cfg_Logic cfg)) ;;
    defer (call (Close (RGrpcConn (lg_GRPCAddr (cfg_Logic cfg))))) (
    call (Go (GrpcServer (ConnectGRPCAddr connectConfig))) ;;
    call (Go (HttpServer (ConnectHTTPAddr connectConfig))) ;;
    call Notify ;;
    call Signal ;;
    call (Print "收到退出信号，节点正在关闭...") ;;
    Ret tt)).

(** ** cmd/task *)
Definition close_pool : prog pev unit :=
  r <- call (Close RClientPool) ;;
  match r with Err e => call (Print ("关闭 Connect 客户端池失败: " ++ Error e)) | Ok _ => Ret tt end.

(** The goroutines of the task process. *)
Definition single_loop (cfg : Config) : goroutine := ConsumeLoop (kf_SinglechatConsumerGroup (cfg_Kafka cfg)) [kf_ChatTopic (cfg_Kafka cfg)] SingleChatHander.
Definition group_loop (cfg : Config) : goroutine := ConsumeLoop (kf_GroupchatConsumerGroup (cfg_Kafka cfg)) [kf_GroupChatTopic (cfg_Kafka cfg)] GroupChatHandler.
Definition room_loop (cfg : Config) : goroutine := ConsumeLoop (kf_RoomchatConsumerGroup (cfg_Kafka cfg)) [kf_RoomChatTopic (cfg_Kafka cfg)] RoomChatHandler.
Definition persist_loop (cfg : Config) : goroutine :=
  ConsumeLoop (kf_PersistchatConsumerGroup (cfg_Kafka cfg)) [kf_ChatTopic (cfg_Kafka cfg); kf_GroupChatTopic (cfg_Kafka cfg)] PersistHandler.

Definition task_main : prog pev unit :=
  must! "加载配置文件失败: " as cfg <- LoadConfig config_path ;;
  call (SetLogger (cfg_Logger cfg)) ;;
  must! "Redis 连接失败: " as rdb <- OpenRedis (rd_RedisAddr (cfg_Redis cfg)) (rd_Password (cfg_Redis cfg)) (rd_DB (cfg_Redis cfg)) ;;
  must! "MySQL 连接失败: " as db <- OpenMySQL (my_DSN (cfg_MySQL cfg)) ;;
  call (Make RClientPool) ;;
  defer close_pool (
  logicClient <- NewGrouptClient (lg_GRPCAddr (cfg_Logic cfg)) ;;
  match logicClient with
  | Err e => call (Print ("logic grpc客户端创建失败:" ++ Error e))
  | Ok _ =>
      defer (call (Close (RGrpcConn (lg_GRPCAddr (cfg_Logic cfg))))) (
      must! "" as singleCG <- newConsumerGroup cfg (kf_SinglechatConsumerGroup (cfg_Kafka cfg)) ;;
      defer (call (Close singleCG)) (
      must! "" as groupCG <- newConsumerGroup cfg (kf_GroupchatConsumerGroup (cfg_Kafka cfg)) ;;
      defer (call (Close groupCG)) (
      must! "" as roomCG <- newConsumerGroup cfg (kf_RoomchatConsumerGroup (cfg_Kafka cfg)) ;;
      defer (call (Close roomCG)) (
      must! "" as persistCG <- newConsumerGroup cfg (kf_PersistchatConsumerGroup (cfg_Kafka cfg)) ;;
      defer (call (Close persistCG)) (
      defer (call Cancel) (
      call (Go (single_loop cfg)) ;;
      call (Go (group_loop cfg)) ;;
      call (Go (room_loop cfg)) ;;
      call (Go (persist_loop cfg)) ;;
      call (Print ("Task 层服务已启动，正在监听Kafka Topic: " ++ kf_ChatTopic (cfg_Kafka cfg))) ;;
      call Notify ;;
      call Signal ;;
      call (Print "收到退出信号，Task 节点正在关闭...") ;;
      Ret tt))))))
  end).

(** consumeLoop as a goroutine, over [turns] calls of Consume. *)
Fixpoint consume_loop (turns : nat) (groupID : string) (topics : list string) (h : handler) : prog pev unit :=
  match turns with
  | O => Ret tt
  | S turns =>
      err <- call (Consume groupID topics h) ;;
      match err with Err e => call (Print ("消费组运行异常: " ++ Error e)) | Ok _ => Ret tt end ;;
      cancelled <- call CtxCancelled ;;
      if cancelled : bool then Ret tt else consume_loop turns groupID topics h
  end.

(** What a goroutine runs. *)
Definition goroutine_body (turns : nat) (g : goroutine) : prog pev unit :=
  match g with
  | GrpcServer addr =>
      must! "gRPC端口监听失败: " as lis <- call (Listen addr) ;;
      call (Print ("Connect层内部gRPC服务已启动，监听 " ++ addr)) ;;
      must! "gRPC 服务运行失败: " as served <- call (ServeGrpc addr) ;;
      Ret tt
  | HttpServer addr =>
      call (Print ("Connect层外部WebSocket服务已启动，监听 " ++ addr)) ;;
      err <- call (ListenAndServe addr) ;;
      Fatal ("HTTP 服务运行失败: " ++ Error err) tt
  | ConsumeLoop groupID topics h => consume_loop turns groupID topics h
  end.
End mains.
