(* ===== verification/ProcessLogic.v ===== *)
(** * Reasoning about a process

    [mwp] is a weakest precondition for the main function: what main alone
    writes ([owned]) is known exactly, the shared systems move by [K] between its
    events, and an assertion [J] holds in every state.  [proc_sound] turns it
    into a statement about every state the process can reach, whatever its
    goroutines and the other processes do. *)

From Stdlib Require Import ZArith Lia String.
From stdpp Require Import base tactics list relations strings.
From S2P Require Import Prelude Effects Redis Database Proto World Config Logging Process.


Section mwp.
Context `{HV : Viper} `{HC : Crypto} (fl : bool) (file : res table).
Context (K : sysview unit -> sysview unit -> Prop) `{!PreOrder K} (J : owned -> sysview unit -> Prop).
Hypothesis J_stable : forall o v v', J o v -> K v v' -> J o v'.

(** The answers an event may have, and what main's own state becomes. *)
Definition answer_ok {X} (e : pev X) (o : owned) (x : X) : Prop :=
  match e in pev X return X -> Prop with
  | ReadInConfig _ _ => fun x => x = file
  | Open _ | Close _ | Ping | SqlDB | Listen _ => fun x => may_fail fl x
  | ServeGrpc _ | ListenAndServe _ => fun _ => fl = true
  | CtxCancelled => fun x => x = o_cancelled o
  | Exit _ => fun _ => False
  | _ => fun _ => True
  end x.

Definition own_after {X} (e : pev X) (x : X) (o : owned) : owned :=
  match e in pev X return X -> owned with
  | SetLogger c => fun _ => own_logger c o
  | Sync => fun _ => own_synced o
  | Make r => fun _ => own_opened r o
  | Open r => fun x => if is_ok x then own_opened r o else o
  | Close r => fun _ => own_closed r o
  | Go g => fun _ => own_started g o
  | RegisterLogic svc => fun _ => own_served svc o
  | Cancel => fun _ => own_cancelled o
  | Notify => fun _ => own_notified o
  | _ => fun _ => o
  end x.

Definition sys_after {X} (e : pev X) (v : sysview unit) (x : X) (v' : sysview unit) : Prop :=
  match e in pev X return X -> Prop with Sys e => fun x => ext fl _ e v x v' | _ => fun _ => v' = v end x.

(** The process does not claim success with an exit code. *)
Definition exit_ok {X} (e : pev X) : Prop := match e with Exit c => c <> 0%Z | _ => True end.

Fixpoint mwp {A} (p : prog pev A) (o : owned) (v : sysview unit) (Q : A -> owned -> sysview unit -> Prop) : Prop :=
  J o v /\
  match p with
  | Ret a => Q a o v
  | Vis e k => exit_ok e /\ forall v0 x v', K v v0 -> answer_ok e o x -> sys_after e v0 x v' -> mwp (k x) (own_after e x o) v' Q
  end.

(** Assertions about what follows are kept by the others. *)
Definition stable {A} (Q : A -> owned -> sysview unit -> Prop) : Prop := forall a o v v', Q a o v -> K v v' -> Q a o v'.

Lemma mwp_stable {A} (p : prog pev A) o v v' Q : stable Q -> mwp p o v Q -> K v v' -> mwp p o v' Q.
Proof.
  intros HQ Hp HK. destruct p as [a|X e k]; cbn in *; (split; [by eapply J_stable, HK; apply Hp|]).
  - by eapply HQ, HK; apply Hp.
  - destruct Hp as (_ & He & Hk). split; [done|]. intros v0 x v1 H0. apply Hk. by transitivity v'.
Qed.

Lemma mwp_J {A} (p : prog pev A) o v Q : mwp p o v Q -> J o v.
Proof. by destruct p; intros []. Qed.

Lemma mwp_mono {A} (p : prog pev A) o v (Q Q' : A -> owned -> sysview unit -> Prop) :
  mwp p o v Q -> (forall a o' v', J o' v' -> Q a o' v' -> Q' a o' v') -> mwp p o v Q'.
Proof.
  intros Hp HQ. revert o v Hp. induction p as [a|X e k IH]; cbn; intros o v (HJ & Hp); (split; [done|]); [by apply HQ|].
  destruct Hp as [He Hk]. split; [done|]. intros. apply IH. eauto.
Qed.

Lemma mwp_bind {A B} (p : prog pev A) (f : A -> prog pev B) o v Q :
  mwp p o v (fun a o' v' => mwp (f a) o' v' Q) -> mwp (bind p f) o v Q.
Proof.
  revert o v. induction p as [a|X e k IH]; cbn; intros o v; [by intros []|].
  intros (HJ & He & Hk). split_and!; [done..|]. intros. apply IH. eauto.
Qed.

(** One event that is no call of the services. *)
Lemma mwp_vis {A X} (e : pev X) (k : X -> prog pev A) o v Q :
  match e with Sys _ => False | _ => True end ->
  J o v -> exit_ok e -> (forall v' x, K v v' -> J o v' -> answer_ok e o x -> mwp (k x) (own_after e x o) v' Q) -> mwp (Vis e k) o v Q.
Proof.
  intros Hs HJ He Hk. split; [done|]. split; [done|]. intros v0 x v' HK Hx Hv.
  assert (v' = v0) as -> by (destruct e; done). apply Hk; [done|by eapply J_stable|done].
Qed.

Lemma mwp_Sys {A X} (e : ev unit X) (k : X -> prog pev A) o v Q :
  J o v -> (forall v0 x v', K v v0 -> J o v0 -> ext fl X e v0 x v' -> mwp (k x) o v' Q) -> mwp (Vis (Sys e) k) o v Q.
Proof. intros HJ Hk. split; [done|]. split; [done|]. intros v0 x v' HK _ Hv. apply (Hk v0); [done|by eapply J_stable|done]. Qed.

(** ** Rules for the combinators and the openers *)
Context `{HK : Sarama}.

Lemma may_fail_Err {A} (e : error) : may_fail fl (Err e : res A) -> fl = true.
Proof. unfold may_fail. destruct fl; [done|]. intros H. by specialize (H eq_refl). Qed.

(** What LoadConfig makes of the file. *)
Definition configured : res Config := match file with Ok t => Unmarshal t | Err e => Err e end.

Lemma mwp_ret {A} (a : A) o v Q : J o v -> Q a o v -> mwp (Ret a) o v Q.
Proof. by split. Qed.

Lemma mwp_Fatal {A} msg (a : A) o v Q : J o v -> mwp (Fatal msg a) o v Q.
Proof.
  intros HJ. unfold Fatal. cbn [bind call]. apply mwp_vis; [done..|]. intros v1 x _ H1 _.
  apply mwp_vis; [done..|]. intros ? ? ? ? [].
Qed.

Lemma mwp_must {A} msg (p : prog pev (res A)) rest o v Q :
  mwp p o v (fun r o' v' => match r with Ok x => mwp (rest x) o' v' Q | Err _ => True end) -> mwp (must msg p rest) o v Q.
Proof. intros Hp. apply mwp_bind. eapply mwp_mono; [exact Hp|]. intros [x|e] o' v' HJ H; [done|by apply mwp_Fatal]. Qed.

Lemma mwp_defer {A B} (d : prog pev A) (rest : prog pev B) o v Q :
  mwp rest o v (fun r o' v' => mwp d o' v' (fun _ => Q r)) -> mwp (defer d rest) o v Q.
Proof.
  intros Hr. apply mwp_bind. eapply mwp_mono; [exact Hr|]. intros r o' v' _ Hd. apply mwp_bind.
  eapply mwp_mono; [exact Hd|]. intros ? o2 v2 HJ HQ. by apply mwp_ret.
Qed.

Lemma mwp_Close r (Q : unit -> owned -> sysview unit -> Prop) o v (k : res unit -> prog pev unit) :
  J o v -> (forall v', K v v' -> J o v' -> J (own_closed r o) v' /\ forall x, mwp (k x) (own_closed r o) v' Q) ->
  mwp (x <- call (Close r) ;; k x) o v Q.
Proof. intros HJ Hk. cbn [bind call]. apply mwp_vis; [done..|]. intros v' x HK' HJ' _. by apply Hk. Qed.

Lemma mwp_LoadConfig path (Q : res Config -> owned -> sysview unit -> Prop) o v : config_type path <> None ->
  J o v -> (forall v', K v v' -> J o v' -> Q configured o v') -> mwp (LoadConfig path) o v Q.
Proof.
  intros Hp HJ HQ. unfold LoadConfig. destruct (config_type path) as [typ|]; [|done]. cbn [bind call].
  apply mwp_vis; [done..|]. intros v' x HK' HJ' Hx. cbn in Hx. subst x. unfold configured in HQ. destruct file as [t|e]; apply mwp_ret; auto.
Qed.

Lemma mwp_Open r (Q : res unit -> owned -> sysview unit -> Prop) o v : J o v ->
  (forall v', K v v' -> J o v' -> J (own_opened r o) v' /\ Q (Ok tt) (own_opened r o) v') ->
  (forall v' e, fl = true -> K v v' -> J o v' -> Q (Err e) o v') -> mwp (call (Open r)) o v Q.
Proof.
  intros HJ Hok Herr. apply mwp_vis; [done..|]. intros v' [[]|e] HK' HJ' Ha; cbn.
  - destruct (Hok v' HK' HJ'). by apply mwp_ret.
  - apply mwp_ret; [done|]. apply Herr; [|done..]. by apply may_fail_Err in Ha.
Qed.

Lemma mwp_OpenRedis addr pw db (Q : res unit -> owned -> sysview unit -> Prop) o v : J o v ->
  let o' := own_opened (RRedis (redis_options addr pw db)) o in
  (forall v', K v v' -> J o v' -> J o' v') -> (forall v' r, K v v' -> J o' v' -> may_fail fl r -> Q r o' v') -> mwp (OpenRedis addr pw db) o v Q.
Proof.
  intros HJ o' HJ' HQ. unfold OpenRedis. cbn [bind call]. apply mwp_vis; [done..|]. intros v1 ? K1 J1 _.
  apply mwp_vis; [done|by apply HJ'|done|]. intros v2 [[]|e] K2 J2 Ha; cbn [own_after bind].
  - apply mwp_vis; [done..|]. intros v3 ? K3 J3 _. apply mwp_ret; [done|]. apply HQ; [|done..]. etransitivity; [exact K1|by etransitivity].
  - apply mwp_ret; [done|]. apply HQ; [by etransitivity|done..].
Qed.

Lemma mwp_OpenMySQL dsn (Q : res unit -> owned -> sysview unit -> Prop) o v : J o v ->
  let o' := own_opened (RMySQL dsn mysql_logger) o in
  (forall v', K v v' -> J o v' -> J o' v' /\ Q (Ok tt) o' v') ->
  (forall v' e, fl = true -> K v v' -> J o v' -> Q (Err e) o v') ->
  (forall v' e, fl = true -> K v v' -> J o' v' -> Q (Err e) o' v') -> mwp (OpenMySQL dsn) o v Q.
Proof.
  intros HJ o' Hok Herr Herr'. unfold OpenMySQL. apply mwp_bind. apply mwp_Open; [done| |].
  - intros v1 K1 J1. split; [by apply Hok|]. cbn [bind call]. apply mwp_vis; [done|by apply Hok|done|]. intros v2 [[]|e] K2 J2 Ha; cbn [own_after bind].
    + apply mwp_vis; [done..|]. intros v3 ? K3 J3 _. apply mwp_ret; [done|]. apply Hok; [etransitivity; [exact K1|by etransitivity]|].
      apply (J_stable _ v); [done|]. etransitivity; [exact K1|by etransitivity].
    + apply mwp_ret; [done|]. apply Herr'; [|by etransitivity|done]. by apply may_fail_Err in Ha.
  - intros v1 e Hfl K1 J1. apply mwp_ret; [done|]. by apply Herr.
Qed.

(** A consumer group of a version that parses. *)
Lemma mwp_newConsumerGroup cfg g (Q : res resource -> owned -> sysview unit -> Prop) o v : J o v ->
  (forall v' ver, K v v' -> let r := RConsumerGroup (kf_KafkaBrokers (cfg_Kafka cfg)) g (consumer_config ver) in
    J (own_opened r o) v' /\ Q (Ok r) (own_opened r o) v') ->
  (forall v' e, K v v' -> J o v' -> Q (Err e) o v') -> mwp (newConsumerGroup cfg g) o v Q.
Proof.
  intros HJ Hok Herr. unfold newConsumerGroup. destruct (ParseKafkaVersion _) as [ver|e]; [|apply mwp_ret; [done|by apply Herr]].
  apply mwp_bind. apply mwp_Open; [done| |].
  - intros v' HK' HJ'. destruct (Hok v' ver HK') as [H1 H2]. split; [done|]. by apply mwp_ret.
  - intros v' e _ HK' HJ'. apply mwp_ret; [done|by apply Herr].
Qed.

(** ** Soundness *)
Context (body : goroutine -> prog pev unit) (others : sysview unit -> sysview unit -> Prop).
Hypothesis others_K : forall v v', others v v' -> K v v'.

(** An event of a goroutine leaves main's state alone and calls no service. *)
Definition quiet_event {X} (e : pev X) : Prop :=
  exit_ok e /\ match e with
  | SetLogger _ | Sync | Make _ | Open _ | Close _ | Sys _ | Go _ | RegisterLogic _ | Cancel | Notify => False
  | _ => True
  end.

Fixpoint quiet_thread {A} (p : prog pev A) : Prop :=
  match p with Ret _ => True | Vis e k => quiet_event e /\ forall x, quiet_thread (k x) end.

Hypothesis body_quiet : forall g, quiet_thread (body g).

Lemma pext_after {X} (e : pev X) s x s' : pext fl file e s x s' -> p_exit s = None -> exit_ok e ->
  (p_exit s' = None /\ answer_ok e (p_own s) x /\ p_own s' = own_after e x (p_own s) /\ sys_after e (p_sys s) x (p_sys s'))
  \/ (exists c, c <> 0%Z /\ s' = with_exit c s).
Proof.
  intros Hx Hn He. destruct e; cbn in *; repeat match goal with H : exists _, _ |- _ => destruct H | H : _ /\ _ |- _ => destruct H end;
    subst; try (left; split_and!; first [done | by destruct (is_ok x)]).
  right. eauto.
Qed.

Lemma quiet_own {X} (e : pev X) x o : quiet_event e -> own_after e x o = o.
Proof. by intros [_ Hq]; destruct e. Qed.

Lemma quiet_sys {X} (e : pev X) x v v' : quiet_event e -> sys_after e v x v' -> v' = v.
Proof. by intros [_ Hq]; destruct e. Qed.

Definition proc_inv (Q : owned -> sysview unit -> Prop) (c : list (prog pev unit) * pstate) : Prop :=
  J (p_own c.2) (p_sys c.2)
  /\ match p_exit c.2 with
     | None => exists p ps, c.1 = p :: ps /\ mwp p (p_own c.2) (p_sys c.2) (fun _ => Q) /\ Forall quiet_thread ps
     | Some code => code = 0%Z -> Q (p_own c.2) (p_sys c.2)
     end.

Lemma proc_inv_event Q ps s i X (e : pev X) k x s' : stable (fun _ : unit => Q) ->
  proc_inv Q (ps, s) -> p_exit s = None -> ps !! i = Some (Vis e k) -> pext fl file e s x s' ->
  proc_inv Q ((<[i := k x]> ps ++ spawned body e)%list, s').
Proof.
  intros HQ (HJ & Hinv) Hn Hi Hx. cbn in *. rewrite Hn in Hinv. destruct Hinv as (p & rest & -> & Hp & Hrest).
  assert (Forall quiet_thread (spawned body e)) as Hsp by (destruct e; cbn; auto).
  destruct i as [|i]; cbn in Hi.
  - injection Hi as ->. destruct Hp as (_ & He & Hk).
    destruct (pext_after e s x s' Hx Hn He) as [(Hn' & Ha & Ho & Hs)|(c & Hc & ->)]; [|split; [done|]; cbn; by intros ->].
    specialize (Hk _ _ _ ltac:(reflexivity) Ha Hs). rewrite <- Ho in Hk. split; [by apply mwp_J in Hk|]. cbn. rewrite Hn'.
    exists (k x), (rest ++ spawned body e)%list. split_and!; [done..|by apply Forall_app].
  - pose proof (Forall_lookup_1 _ _ _ _ Hrest Hi) as [Hq Hqk].
    destruct (pext_after e s x s' Hx Hn (proj1 Hq)) as [(Hn' & Ha & Ho & Hs)|(c & Hc & ->)]; [|split; [done|]; cbn; by intros ->].
    rewrite quiet_own in Ho by done. apply quiet_sys in Hs; [|done]. split; cbn; rewrite Ho, Hs; [done|]. rewrite Hn'.
    exists p, (<[i := k x]> rest ++ spawned body e)%list. split_and!; [done..|]. apply Forall_app. split; [|done]. by apply Forall_insert.
Qed.

(** Every state of a process whose main function is [main]. *)
Lemma proc_sound main v Q ps s : stable (fun _ : unit => Q) ->
  mwp main fresh v (fun _ => Q) -> rtc (proc_step (@pext _ _ fl file) body others) ([main], proc_start v) (ps, s) ->
  J (p_own s) (p_sys s) /\ (p_exit s = Some 0%Z -> Q (p_own s) (p_sys s)).
Proof.
  intros HQ Hmain Hr. enough (proc_inv Q (ps, s)) as [HJ He]; [split; [done|]; cbn in He; intros Hx; rewrite Hx in He; auto|].
  assert (proc_inv Q ([main], proc_start v)) as Hinit.
  { split; [by apply mwp_J in Hmain|]. exists main, []. by split_and!. }
  revert Hinit. remember (ps, s) as c eqn:Hc. clear Hc Hmain. induction Hr as [c|c c1 c2 Hstep Hr IH]; intros Hinv; [done|].
  apply IH. destruct Hstep as [ps1 s1 i X e k x s2 Hn Hi Hx|ps1 s1 Hn H0|ps1 s1 Hn H0|ps1 s1 v' Hn Ho].
  - by eapply proc_inv_event.
  - destruct Hinv as (HJ & Hinv). cbn in *. rewrite Hn in Hinv. destruct Hinv as (p & rest & -> & Hp & _).
    injection H0 as ->. split; [done|]. by intros _; destruct Hp.
  - destruct Hinv as (HJ & Hinv). split; [done|]. by intros.
  - destruct Hinv as (HJ & Hinv). cbn in *. rewrite Hn in Hinv. destruct Hinv as (p & rest & -> & Hp & Hrest).
    apply others_K in Ho. assert (mwp p (p_own s1) v' (fun _ => Q)) as Hp' by (eapply mwp_stable; [done|exact Hp|done]).
    split; [by apply mwp_J in Hp'|]. cbn. rewrite Hn. exists p, rest. by split_and!.
Qed.
End mwp.
