(* ===== verification/MainsSpec.v ===== *)
(** * What the main functions guarantee

    Wiring (the topics produced are the topics consumed; the address a connect
    node registers is the one it listens on), the registration of a connect node
    while it runs, the order of the shutdown, and what is not undone when a
    process ends by log.Fatal or by a signal it does not handle. *)

From Stdlib Require Import ZArith Lia String.
From stdpp Require Import base tactics list gmap relations strings.
From S2P Require Import Prelude GoStd Effects Redis Database Proto World Rules Store ChatServer Registry Config Logging.
From S2P Require Import Process Mains ProcessLogic.

Local Open Scope Z_scope.

(** ** Processes that never look at the shared systems *)
Definition anything : sysview unit -> sysview unit -> Prop := fun _ _ => True.
#[export] Instance anything_pre : PreOrder anything.
Proof. by split. Qed.

Section spec.
Context `{HV : Viper} `{HK : Sarama} `{HC : Crypto} (fl : bool) (file : res table) (turns : nat).

(** The states of a process. *)
Definition runs (others : sysview unit -> sysview unit -> Prop) (main : prog pev unit) v ps s : Prop :=
  rtc (proc_step (@pext _ _ fl file) (goroutine_body turns) others) ([main], proc_start v) (ps, s).

Lemma consume_loop_quiet n g ts h : quiet_thread (consume_loop n g ts h).
Proof.
  induction n as [|n IH]; cbn; [done|]. split; [done|]. intros [u|e]; cbn.
  - split; [done|]. by intros [].
  - split; [done|]. intros _. split; [done|]. by intros [].
Qed.

Lemma goroutine_quiet g : quiet_thread (goroutine_body turns g).
Proof.
  destruct g as [a|a|g ts h]; cbn -[String.append]; [| |apply consume_loop_quiet].
  - split; [done|]. intros [u|e]; cbn; repeat (split; [done|]; intros ?); try done. destruct x0; cbn; repeat (split; [done|]; intros ?); done.
  - repeat (split; [done|]; intros ?); done.
Qed.


Section own.
Context (J : owned -> Prop).
Let JO : owned -> sysview unit -> Prop := fun o _ => J o.
Abbreviation mw := (mwp fl file anything JO).

Lemma JO_stable o v v' : JO o v -> anything v v' -> JO o v'.
Proof. done. Qed.

Lemma mw_vis {A X} (e : pev X) (k : X -> prog pev A) o v Q :
  match e with Sys _ => False | _ => True end -> J o -> exit_ok e ->
  (forall v' x, answer_ok fl file e o x -> mw (k x) (own_after e x o) v' Q) -> mw (Vis e k) o v Q.
Proof. intros Hs HJ He Hk. apply mwp_vis; try done. intros v' x _ _. apply Hk. Qed.

Lemma own_sound main Q v ps s :
  mw main fresh v (fun _ o _ => Q o) -> runs anything main v ps s -> J (p_own s) /\ (p_exit s = Some 0 -> Q (p_own s)).
Proof.
  intros Hm Hr. apply (proc_sound fl file anything JO JO_stable (goroutine_body turns) anything (fun _ _ _ => I) goroutine_quiet
    main v (fun o _ => Q o) ps s); [intros ? ? ? ? ? _; assumption|exact Hm|exact Hr].
Qed.
End own.

(** ** The task process *)

(** The goroutines it starts, in their order. *)
Definition task_loops (cfg : Config) : list goroutine := [single_loop cfg; group_loop cfg; room_loop cfg; persist_loop cfg].

(** It starts them all before it asks for signals, and no other. *)
Definition task_J (o : owned) : Prop :=
  match configured file with
  | Ok cfg => o_started o `prefix_of` task_loops cfg /\ (o_notified o = true -> o_started o = task_loops cfg)
  | Err _ => o_started o = [] /\ o_notified o = false
  end.

(** Started consumers are told to stop, then what was opened is closed in the
    reverse order, the clients of Redis and MySQL excepted. *)
Definition task_Q (o : owned) : Prop :=
  exists r m opened, o_opened o = r :: m :: opened
    /\ o_teardown o = (match o_started o with [] => [] | _ => [Cancelled] end ++ (Closed <$> rev opened))%list.

Lemma task_J_stable (o : owned) (v v' : sysview unit) : task_J o -> anything v v' -> task_J o.
Proof. done. Qed.

Lemma task_J_fresh : task_J fresh.
Proof. unfold task_J. destruct (configured file); [|done]. split; [apply prefix_nil|done]. Qed.

Lemma task_J_intro cfg n o : configured file = Ok cfg -> o_started o = take n (task_loops cfg) ->
  (o_notified o = true -> n = 4%nat) -> task_J o.
Proof.
  unfold task_J. intros -> Hs Hn. rewrite Hs. split; [apply prefix_take|]. by intros ->%Hn.
Qed.

(** The assertion of the task process at a concrete state. *)
Ltac task_j :=
  match goal with Hcfg : configured file = Ok ?cfg |- task_J _ =>
    first [ eapply (task_J_intro cfg 0); [exact Hcfg|reflexivity|done]
          | eapply (task_J_intro cfg 1); [exact Hcfg|reflexivity|done]
          | eapply (task_J_intro cfg 2); [exact Hcfg|reflexivity|done]
          | eapply (task_J_intro cfg 3); [exact Hcfg|reflexivity|done]
          | eapply (task_J_intro cfg 4); [exact Hcfg|reflexivity|done] ]
  end.

(** One event of the task process that is no opening. *)
Ltac task_event := cbn [bind call]; apply mw_vis; [exact I|task_j|done|intros ? ? _; cbn [own_after]].

(** Opening and closing starts no goroutine. *)
Lemma task_J_same o o' : o_started o' = o_started o -> o_notified o' = o_notified o -> task_J o -> task_J o'.
Proof. unfold task_J. by intros -> ->. Qed.

Lemma mw_close r (Q : res unit -> owned -> Prop) o v : task_J o ->
  (forall x, Q x (own_closed r o)) -> mwp fl file anything (fun o _ => task_J o) (call (Close r)) o v (fun x o' _ => Q x o').
Proof. intros HJ HQ. apply mw_vis; [done..|]. intros v2 x _. by apply mwp_ret; [eapply task_J_same|]. Qed.

(** The end of a function that closes what it had opened. *)
Lemma mw_defer_close {A} r (rest : prog pev A) (Q : A -> owned -> Prop) o v :
  mwp fl file anything (fun o _ => task_J o) rest o v (fun x o' _ => Q x (own_closed r o')) ->
  mwp fl file anything (fun o _ => task_J o) (defer (call (Close r)) rest) o v (fun x o' _ => Q x o').
Proof.
  intros Hr. apply mwp_defer. eapply mwp_mono; [exact Hr|]. intros x o' v' HJ HQ.
  by apply (mw_close r (fun _ => Q x)).
Qed.

Lemma mw_group cfg g rest o v (Q : unit -> owned -> Prop) : task_J o ->
  (forall ver v', let r := RConsumerGroup (kf_KafkaBrokers (cfg_Kafka cfg)) g (consumer_config ver) in
    mwp fl file anything (fun o _ => task_J o) (rest r) (own_opened r o) v' (fun x o' _ => Q x (own_closed r o'))) ->
  mwp fl file anything (fun o _ => task_J o) (must "" (newConsumerGroup cfg g) (fun r => defer (call (Close r)) (rest r))) o v (fun x o' _ => Q x o').
Proof.
  intros HJ Hr. apply (mwp_must _ _ _ _ task_J_stable). apply (mwp_newConsumerGroup _ _ _ _ task_J_stable); [done| |done].
  intros v' ver _ r. split; [by eapply task_J_same|]. apply mw_defer_close, Hr.
Qed.

Lemma mw_task v : mwp fl file anything (fun o _ => task_J o) task_main fresh v (fun _ o _ => task_Q o).
Proof.
  unfold task_main. apply (mwp_must _ _ _ _ task_J_stable).
  apply (mwp_LoadConfig _ _ _ _ task_J_stable); [done|exact task_J_fresh|]. intros v1 _ _.
  destruct (configured file) as [cfg|e] eqn:Hcfg; [|done]. task_event.
  apply (mwp_must _ _ _ _ task_J_stable). apply (mwp_OpenRedis _ _ _ _ task_J_stable); [task_j|intros; task_j|]. intros v3 [[]|e] _ _ _; [|done].
  apply (mwp_must _ _ _ _ task_J_stable). apply (mwp_OpenMySQL _ _ _ _ task_J_stable); [task_j| |done|done]. intros v4 _ _. split; [task_j|].
  task_event. apply mwp_defer.
  eapply (mwp_mono _ _ _ _ _ _ _ (fun _ o _ => task_Q (own_closed RClientPool o))).
  - apply mwp_bind. apply (mwp_Open _ _ _ _ task_J_stable); [task_j| |].
    + intros v5 _ _. split; [task_j|]. apply (mw_defer_close _ _ (fun _ o => task_Q (own_closed RClientPool o))).
      do 4 (apply mw_group; [task_j|intros ? ? ?]).
      apply mwp_defer. repeat task_event. apply mwp_ret; [task_j|]. cbn [call]. apply mw_vis; [exact I|task_j|done|].
      intros v6 u6 _. cbn [own_after]. apply mwp_ret; [task_j|]. eexists _, _, _. split; reflexivity.
    + intros v5 e _ _ _. task_event. apply mwp_ret; [task_j|]. eexists _, _, _. split; reflexivity.
  - intros u o9 v9 HJ HQ. unfold close_pool. apply mwp_bind. eapply mwp_mono; [by apply (mw_close _ (fun _ o => task_Q o))|].
    intros [[]|e] o2 v2 HJ2 HQ2; [by apply mwp_ret|]. apply mw_vis; [done..|]. intros. by apply mwp_ret.
Qed.
(** ** The logic process *)

(** A configuration that decodes, with a Kafka version that parses, and no
    failing call. *)
Definition sound_setup : Prop :=
  fl = false /\ exists cfg, configured file = Ok cfg /\ is_ok (ParseKafkaVersion (kf_Version (cfg_Kafka cfg))) = true.

(** It serves what the configuration says; without failures it closes and
    flushes nothing. *)
Definition logic_J (o : owned) : Prop :=
  match configured file with
  | Ok cfg => forall svc, o_served o = Some svc -> svc = services_of cfg (store_of cfg)
  | Err _ => o_served o = None
  end
  /\ (sound_setup -> o_closed o = [] /\ o_synced o = false).

Lemma logic_J_stable (o : owned) (v v' : sysview unit) : logic_J o -> anything v v' -> logic_J o.
Proof. done. Qed.

Lemma logic_J_fresh : logic_J fresh.
Proof. unfold logic_J. destruct (configured file); by split. Qed.

Lemma logic_J_same o o' : o_served o' = o_served o -> o_closed o' = o_closed o -> o_synced o' = o_synced o -> logic_J o -> logic_J o'.
Proof. unfold logic_J. by intros -> -> ->. Qed.

(** After a failure. *)
Lemma logic_J_failed o o' : ~ sound_setup -> o_served o' = o_served o -> logic_J o -> logic_J o'.
Proof. unfold logic_J. intros Hn ->. intros [? _]. split; [done|by intros ?%Hn]. Qed.

Abbreviation ml := (mwp fl file anything (fun o _ => logic_J o)).

(** Deferred calls run only when something has failed. *)
Lemma ml_defer {A B} (e : pev A) (rest : prog pev B) o v :
  match e with Close _ | Sync => True | _ => False end ->
  ml rest o v (fun _ _ _ => ~ sound_setup) -> ml (defer (call e) rest) o v (fun _ _ _ => ~ sound_setup).
Proof.
  intros He Hr. apply mwp_defer. eapply mwp_mono; [exact Hr|]. intros x o' v' HJ Hn.
  apply mw_vis; [by destruct e|done|by destruct e|]. intros v2 y _. apply mwp_ret; [|done].
  eapply logic_J_failed; [done| |exact HJ]. by destruct e.
Qed.

Lemma ml_print {A} msg (a : A) o v (Q : A -> owned -> sysview unit -> Prop) : logic_J o ->
  (forall v', Q a o v') -> ml (call (Print msg) ;; Ret a) o v Q.
Proof. intros HJ HQ. cbn [bind call]. apply mw_vis; [done..|]. intros. by apply mwp_ret. Qed.

Lemma unsound_fl : fl = true -> ~ sound_setup.
Proof. unfold sound_setup. by intros -> [? _]. Qed.

Lemma ml_buildServices cfg o v : configured file = Ok cfg -> logic_J o ->
  ml (buildServices cfg (store_of cfg)) o v (fun _ _ _ => ~ sound_setup).
Proof.
  intros Hcfg HJ. unfold buildServices, InitProducer. destruct (ParseKafkaVersion _) as [ver|e] eqn:Hv.
  - apply mwp_bind, mwp_bind. apply (mwp_Open _ _ _ _ logic_J_stable); [done| |].
    + intros v1 _ _. split; [by eapply logic_J_same|]. apply mwp_ret; [by eapply logic_J_same|]. apply ml_defer; [done|].
      cbn [bind call]. apply mw_vis; [done|by eapply logic_J_same|done|]. intros v2 [[]|e] Hl; cbn [own_after].
      * apply mw_vis; [done|by eapply logic_J_same|done|]. intros v3 [] _.
        assert (logic_J (own_served (services_of cfg (store_of cfg)) (own_opened (RProducer (kf_KafkaBrokers (cfg_Kafka cfg)) (producer_config ver)) o))) as HJ'.
        { destruct HJ as [Hs Hc]. split; [|done]. rewrite Hcfg. cbn. by intros ? [= <-]. }
        apply mw_vis; [done..|]. intros v4 [] _. apply mw_vis; [done..|]. intros v5 [[]|e] Hfl; cbn [own_after bind].
        all: apply mwp_ret; [done|by apply unsound_fl].
      * apply ml_print; [by eapply logic_J_same|]. intros _. apply unsound_fl. by apply may_fail_Err in Hl.
    + intros v1 e Hfl _ _. apply mwp_ret; [done|]. apply ml_print; [done|]. intros _. by apply unsound_fl.
  - cbn [bind]. apply ml_print; [done|]. intros _ (_ & cfg' & Hcfg' & Hs). rewrite Hcfg in Hcfg'. injection Hcfg' as <-. by rewrite Hv in Hs.
Qed.

Lemma ml_initMysql cfg o v (Q : res unit -> owned -> sysview unit -> Prop) : logic_J o ->
  (forall v', let o' := own_opened (RMySQL (my_DSN (cfg_MySQL cfg)) mysql_logger) o in Q (Ok tt) o' v') ->
  (forall v' e o', ~ sound_setup -> logic_J o' -> Q (Err e) o' v') -> ml (initMysql cfg) o v Q.
Proof.
  intros HJ Hok Herr. unfold initMysql. apply mwp_bind. apply (mwp_OpenMySQL _ _ _ _ logic_J_stable); [done| | |].
  - intros v1 _ _. split; [by eapply logic_J_same|]. cbn [bind call]. apply mw_vis; [done|by eapply logic_J_same|done|].
    intros v2 [[]|e] Hl; cbn [own_after bind]; (apply mwp_ret; [by eapply logic_J_same|]); [done|].
    apply Herr; [|by eapply logic_J_same]. apply unsound_fl. by apply may_fail_Err in Hl.
  - intros v1 e Hfl _ _. apply mwp_ret; [done|]. apply Herr; [by apply unsound_fl|done].
  - intros v1 e Hfl _ HJ'. apply mwp_ret; [done|]. apply Herr; [by apply unsound_fl|done].
Qed.

Lemma ml_initRedis cfg o v (Q : res unit -> owned -> sysview unit -> Prop) : logic_J o ->
  (forall v' r, logic_J (own_opened (RRedis (redis_options (rd_RedisAddr (cfg_Redis cfg)) (rd_Password (cfg_Redis cfg)) (rd_DB (cfg_Redis cfg)))) o) ->
    may_fail fl r -> Q r (own_opened (RRedis (redis_options (rd_RedisAddr (cfg_Redis cfg)) (rd_Password (cfg_Redis cfg)) (rd_DB (cfg_Redis cfg)))) o) v') ->
  ml (initRedis cfg) o v Q.
Proof.
  intros HJ HQ. unfold initRedis. apply mwp_bind. apply (mwp_OpenRedis _ _ _ _ logic_J_stable); [done|intros; by eapply logic_J_same|].
  intros v' [[]|e] _ HJ' Hf; (apply mwp_ret; [done|]); auto.
Qed.

Lemma mw_logic v : ml logic_main fresh v (fun _ _ _ => ~ sound_setup).
Proof.
  unfold logic_main, logic_loadConfig. apply mwp_bind, mwp_bind. apply (mwp_LoadConfig _ _ _ _ logic_J_stable); [done|exact logic_J_fresh|].
  intros v1 _ _. destruct (configured file) as [cfg|e] eqn:Hcfg.
  2: { apply mwp_ret; [exact logic_J_fresh|]. apply mw_vis; [done|exact logic_J_fresh|done|]. intros. apply mwp_ret; [exact logic_J_fresh|].
       intros (_ & cfg' & Hcfg' & _). congruence. }
  cbn [bind call]. apply mw_vis; [done|exact logic_J_fresh|done|]. intros v2 [] _. cbn [own_after].
  apply mwp_ret; [by eapply logic_J_same, logic_J_fresh|].
  apply ml_defer; [done|]. apply mwp_bind, ml_initMysql; [by eapply logic_J_same, logic_J_fresh| |].
  2: { intros v3 e o' Hs HJ. apply mw_vis; [done..|]. intros. by apply mwp_ret. }
  intros v3 o3. apply ml_defer; [done|]. apply mwp_bind, ml_initRedis; [by eapply logic_J_same, logic_J_fresh|].
  intros v4 [[]|e] HJ4 Hf.
  - apply ml_defer; [done|]. apply mwp_bind. eapply mwp_mono; [by apply ml_buildServices|].
    intros [[]|e] o5 v5 HJ5 Hs; [by apply mwp_ret|]. apply mw_vis; [done..|]. intros. by apply mwp_ret.
  - apply mw_vis; [done..|]. intros. apply mwp_ret; [done|]. by eapply unsound_fl, may_fail_Err.
Qed.

(** ** Theorems *)

(** C27. The task process stops in order: when its main function returns,
    whatever failed and however its goroutines interleaved, the steps of its
    shutdown were exactly these: if it had started consumers, it first told them
    to stop; then it closed everything it had opened after the clients of Redis
    and MySQL, in the reverse order of opening, so the consumers before the
    connections they push through. *)
Theorem task_stops_in_order v ps s : runs anything task_main v ps s -> p_exit s = Some 0 ->
  exists r m opened, o_opened (p_own s) = r :: m :: opened
    /\ o_teardown (p_own s) = (match o_started (p_own s) with [] => [] | _ => [Cancelled] end ++ (Closed <$> rev opened))%list.
Proof. intros Hr He. by apply (own_sound task_J task_main task_Q v ps s (mw_task v) Hr). Qed.

(** What the logic process produces is what the task process consumes: if
    both read the same configuration, then once the logic process serves and
    the task process asks for signals, every topic of the message intake is read
    by the push handler of its kind, and the persistence handler reads exactly
    the topics of private and group messages. *)
Theorem topics_consumed vl psl l svc vt pst t :
  runs anything logic_main vl psl l -> o_served (p_own l) = Some svc ->
  runs anything task_main vt pst t -> o_notified (p_own t) = true ->
  let chat := lsv_chat svc in
  (exists g, ConsumeLoop g [ChatTopic chat] SingleChatHander ∈ o_started (p_own t))
  /\ (exists g, ConsumeLoop g [GroupChatTopic chat] GroupChatHandler ∈ o_started (p_own t))
  /\ (exists g, ConsumeLoop g [RommChatTopic chat] RoomChatHandler ∈ o_started (p_own t))
  /\ (exists g, ConsumeLoop g [ChatTopic chat; GroupChatTopic chat] PersistHandler ∈ o_started (p_own t))
  /\ (forall g topics, ConsumeLoop g topics PersistHandler ∈ o_started (p_own t) -> topics = [ChatTopic chat; GroupChatTopic chat]).
Proof.
  intros Hl Hs Ht Hn chat.
  destruct (own_sound logic_J logic_main (fun _ => ~ sound_setup) vl psl l (mw_logic vl) Hl) as [[Hj _] _].
  destruct (own_sound task_J task_main task_Q vt pst t (mw_task vt) Ht) as [Hk _].
  unfold task_J in Hk. destruct (configured file) as [cfg|e]; [|destruct Hk as [_ Hk]; congruence].
  destruct Hk as [_ Hk]. rewrite Hk by done. subst chat. rewrite (Hj svc Hs). cbn [lsv_chat services_of ChatTopic GroupChatTopic RommChatTopic].
  unfold task_loops. split_and!; try (eexists; rewrite !elem_of_cons; unfold single_loop, group_loop, room_loop, persist_loop; eauto 6; done).
  intros g topics. rewrite !elem_of_cons. intros [[=]|[[=]|[[=]|[[= -> ->]|[]%elem_of_nil]]]]. done.
Qed.

(** The logic process does not clean up when it is stopped: if its
    configuration is sound and no call fails, then in every state it can reach,
    also after the signal that ends it, nothing it opened has been closed and
    its log was not flushed, because it does not ask for signals. *)
Theorem logic_stops_uncleanly v ps s : sound_setup -> runs anything logic_main v ps s ->
  o_closed (p_own s) = [] /\ o_synced (p_own s) = false /\ p_exit s <> Some 0.
Proof.
  intros Hs Hr.
  destruct (own_sound logic_J logic_main (fun _ => ~ sound_setup) v ps s (mw_logic v) Hr) as [[_ Hj] Hq]. destruct (Hj Hs).
  split_and!; [done..|]. by intros ?%Hq.
Qed.
End spec.
