(* ===== verification/NodeSpec.v ===== *)
(** * The life of a connect node (src/cmd/connect/main.go, src/internal/connect/registry.go)

    While a node runs it is in the set of nodes the task process broadcasts to,
    under the address its gRPC server listens on; it leaves the set when it is
    stopped by a signal, but not when it ends by log.Fatal. *)

From Stdlib Require Import ZArith Lia String.
From stdpp Require Import base tactics list gmap relations strings.
From S2P Require Import Prelude GoStd Effects Redis Database Proto World Rules Store Registry Config Logging.
From S2P Require Import Process Mains ProcessLogic MainsSpec.

Local Open Scope Z_scope.

(** ** The set of nodes *)
Definition nodes_set {M} (v : sysview M) : option (gset string) :=
  match v_rds v !! ConnectNodesKeyPrefix with
  | None => Some ∅
  | Some (REntry (VSet m) None) => Some m
  | _ => None
  end.

(** The key holds a set without expiry, or is missing. *)
Definition nodes_ok {M} (v : sysview M) : Prop := is_Some (nodes_set v).
Definition is_node {M} (id : string) (v : sysview M) : Prop := exists m, nodes_set v = Some m /\ id ∈ m.

Section nodes.
Context `{HC : Crypto} {M : Type} (fl : bool).
Implicit Types v : sysview M.

Lemma nodes_tick t v : nodes_ok v -> nodes_set (tick t v) = nodes_set v.
Proof.
  unfold nodes_ok, nodes_set, tick. cbn. intros [m Hm]. destruct (v_rds v !! ConnectNodesKeyPrefix) as [[[|m'] [d|]]|] eqn:He; try done.
  - replace (purge t (v_rds v) !! ConnectNodesKeyPrefix) with (Some (REntry (VSet m') None)); [done|].
    symmetry. by apply lookup_purge.
  - by rewrite purge_missing.
Qed.

Lemma nodes_get_set v m : nodes_set v = Some m -> get_set (v_rds v !! ConnectNodesKeyPrefix) = Ok m /\ exp_of (v_rds v !! ConnectNodesKeyPrefix) = None.
Proof. unfold nodes_set. destruct (v_rds v !! ConnectNodesKeyPrefix) as [[[|m'] [d|]]|]; intros; by simplify_eq. Qed.

Lemma nodes_put m v : nodes_set (set_rds (put_set ConnectNodesKeyPrefix m None (v_rds v)) v) = Some m.
Proof. unfold nodes_set, put_set. cbn. case_decide as Hm; [by rewrite lookup_delete_eq, Hm|by rewrite lookup_insert_eq]. Qed.

(** Adding or removing one id, whether the call is answered or not. *)
Lemma nodes_SADD id v x v' : ext fl _ (Rds (SADD ConnectNodesKeyPrefix [id])) v x v' -> nodes_ok v ->
  nodes_ok v' /\ (is_ok x = true -> is_node id v').
Proof.
  intros (t & Ht & Hx) [m Hm]. rewrite <- (nodes_tick t) in Hm by (by exists m). destruct (nodes_get_set _ _ Hm) as [Hg He].
  assert (forall x0 v1, doc (Rds (SADD ConnectNodesKeyPrefix [id])) (tick t v) x0 v1 -> nodes_set v1 = Some (sadd [id] m)) as Hdoc.
  { intros x0 v1 [_ ->]. cbn [doc_cmd]. rewrite Hg, He. apply nodes_put. }
  assert (id ∈ sadd [id] m) as Hin by (unfold sadd; cbn; set_solver).
  destruct Hx as [Hd|[_ ([msg ->] & [->|[x0 Hd]])]].
  - apply Hdoc in Hd. split; [by exists (sadd [id] m)|]. intros _. by exists (sadd [id] m).
  - split; [by exists m|done].
  - apply Hdoc in Hd. split; [by exists (sadd [id] m)|done].
Qed.

Lemma nodes_SREM id v x v' : ext fl _ (Rds (SREM ConnectNodesKeyPrefix [id])) v x v' -> nodes_ok v ->
  nodes_ok v' /\ (is_ok x = true -> ~ is_node id v') /\ (fl = false -> is_ok x = true).
Proof.
  intros (t & Ht & Hx) [m Hm]. rewrite <- (nodes_tick t) in Hm by (by exists m). destruct (nodes_get_set _ _ Hm) as [Hg He].
  assert (forall x0 v1, doc (Rds (SREM ConnectNodesKeyPrefix [id])) (tick t v) x0 v1 -> nodes_set v1 = Some (srem [id] m) /\ is_ok x0 = true) as Hdoc.
  { intros x0 v1 [Hr ->]. cbn [doc_cmd] in *. rewrite Hg, He in *. split; [apply nodes_put|]. cbn in Hr. by subst. }
  assert (forall v1, nodes_set v1 = Some (srem [id] m) -> ~ is_node id v1) as Hnot.
  { intros v1 Hs (m' & Hm' & Hin). rewrite Hs in Hm'. injection Hm' as <-. unfold srem in Hin. cbn in Hin. set_solver. }
  destruct Hx as [Hd|[Hfl ([msg ->] & [->|[x0 Hd]])]].
  - destruct (Hdoc _ _ Hd) as [Hs Hok]. split_and!; [by eexists|by intros; apply Hnot|done].
  - split_and!; [by exists m|done|by rewrite Hfl].
  - destruct (Hdoc _ _ Hd) as [Hs _]. split_and!; [by eexists|done|by rewrite Hfl].
Qed.
End nodes.

(** The other processes register and unregister themselves, and use Redis for
    other things. *)
Definition leaves_node (id : string) (v v' : sysview unit) : Prop :=
  nodes_ok v -> nodes_ok v' /\ (is_node id v <-> is_node id v').

#[export] Instance leaves_node_pre id : PreOrder (leaves_node id).
Proof.
  split; [by intros v Hv|]. intros v1 v2 v3 H1 H2 Hv. destruct (H1 Hv) as [Hv2 E1]. destruct (H2 Hv2) as [Hv3 E2].
  split; [done|]. by rewrite E1.
Qed.

(** ** The connect process *)
Section node.
Context `{HV : Viper} `{HK : Sarama} `{HC : Crypto} (fl : bool) (file : res table) (turns : nat) (cn : Z).
Context (cfg : Config) (Hcfg : configured file = Ok cfg).

(** The id of the node. *)
Definition node_id : string := ConnectServerAddr (connect_config cfg cn).

(** Servers run only for a known section, on the address the node is known
    under; until the shutdown begins the node is registered. *)
Definition node_J (o : owned) (v : sysview unit) : Prop :=
  nodes_ok v
  /\ (o_started o <> [] -> (cn = 1 \/ cn = 2) /\ node_id <> "" /\ (o_closed o = [] -> is_node node_id v))
  /\ (forall g, g ∈ o_started o -> g = GrpcServer node_id \/ g = HttpServer (ConnectHTTPAddr (connect_config cfg cn))).

Lemma node_J_stable o v v' : node_J o v -> leaves_node node_id v v' -> node_J o v'.
Proof.
  intros (H1 & H2 & H3) H. destruct (H H1) as [H4 H5]. split_and!; [done| |done]. intros Hs. destruct (H2 Hs) as (Hc & Hi & Hn).
  split_and!; [done..|]. intros Hcl. by apply H5, Hn.
Qed.

Definition registered (v : sysview unit) : Prop := nodes_ok v /\ is_node node_id v.

Lemma registered_stable v v' : registered v -> leaves_node node_id v v' -> registered v'.
Proof. intros [H1 H2] H. destruct (H H1) as [H3 H4]. split; [done|by apply H4]. Qed.

(** Main before it starts the servers. *)
Definition idle (o : owned) : Prop := o_started o = [].

Lemma node_J_idle o v : idle o -> nodes_ok v -> node_J o v.
Proof. unfold idle. intros Ho Hv. split_and!; [done|by rewrite Ho|]. intros g. rewrite Ho. by intros []%elem_of_nil. Qed.

Abbreviation mc := (mwp fl file (leaves_node node_id) node_J).

(** The end of main: the connection to the logic process is closed, then the
    node leaves the set. *)
Definition node_Q (o : owned) (v : sysview unit) : Prop := nodes_ok v /\ (fl = false -> ~ is_node node_id v).

Lemma node_Q_stable : stable (leaves_node node_id) (fun _ : unit => node_Q).
Proof. intros [] o v v' [H1 H2] H. destruct (H H1) as [H3 H4]. split; [done|]. intros Hf Hn. by apply H2, H4. Qed.

Lemma mc_unregister o v : o_closed o <> [] -> node_J o v -> node_id <> "" ->
  mc (r <- sys (UnregisterConnectNode {| ServerID := node_id |}) ;;
      match r with Err e => call (Print ("redis注销connect节点失败: " ++ Error e)) | Ok _ => Ret tt end) o v (fun _ => node_Q).
Proof.
  intros Ho HJ Hid. unfold UnregisterConnectNode. cbn [ServerID]. apply String.eqb_neq in Hid as Hidb. rewrite Hidb. cbn [bind call sys].
  assert (forall v' , nodes_ok v' -> node_J o v') as HJ'.
  { intros v' Hv. destruct HJ as (_ & H2 & H3). split_and!; [done| |done]. intros Hs. destruct (H2 Hs) as (? & ? & _). by split_and!. }
  apply (mwp_Sys _ _ _ _ node_J_stable); [done|]. intros v0 x v' HK' HJ0 Hx.
  apply nodes_SREM in Hx as (Hok & Hnot & Hfl); [|apply HJ0]. destruct x as [n|e]; cbn [sys bind].
  - apply mwp_ret; [by apply HJ'|]. split; [done|]. intros _. by apply Hnot.
  - apply (mwp_vis _ _ _ _ node_J_stable); [done|by apply HJ'|done|]. intros v2 u HK2 HJ2 _. apply mwp_ret; [done|].
    split; [apply HJ2|]. by intros ?%Hfl.
Qed.

Lemma node_addr : ConnectGRPCAddr (connect_config cfg cn) = node_id.
Proof.
  unfold configured in Hcfg. destruct file as [t|e]; [|done]. destruct (Unmarshal_connect_addr t cfg Hcfg) as [H1 H2].
  unfold node_id, connect_config. by repeat case_match.
Qed.

Lemma node_known : node_id <> "" -> cn = 1 \/ cn = 2.
Proof. unfold node_id, connect_config. destruct (Z.eqb_spec cn 1), (Z.eqb_spec cn 2); auto. by intros []. Qed.

Lemma node_J_serving o v : registered v -> node_id <> "" ->
  (forall g, g ∈ o_started o -> g = GrpcServer node_id \/ g = HttpServer (ConnectHTTPAddr (connect_config cfg cn))) -> node_J o v.
Proof. intros [Hv Hn] Hid Hg. split_and!; [done| |done]. intros _. split_and!; [by apply node_known|done..]. Qed.

(** Main from the registration to the signal. *)
Lemma mc_serve o v : idle o -> registered v -> node_id <> "" ->
  mc (call (Go (GrpcServer (ConnectGRPCAddr (connect_config cfg cn)))) ;;
      call (Go (HttpServer (ConnectHTTPAddr (connect_config cfg cn)))) ;;
      call Notify ;; call Signal ;; call (Print "收到退出信号，节点正在关闭...") ;; Ret tt) o v (fun _ _ _ => True).
Proof.
  intros Ho Hr Hid. rewrite node_addr. unfold idle in Ho. cbn [bind call].
  apply (mwp_vis _ _ _ _ node_J_stable); [done|by apply node_J_idle; [|apply Hr]|done|]. intros v1 [] K1 _ _. cbn [own_after].
  pose proof (registered_stable _ _ Hr K1) as Hr1.
  assert (forall g, g ∈ o_started (own_started (GrpcServer node_id) o) -> g = GrpcServer node_id \/ g = HttpServer (ConnectHTTPAddr (connect_config cfg cn))) as Hg1.
  { intros g. cbn. rewrite Ho. cbn. rewrite elem_of_cons. intros [->|[]%elem_of_nil]. auto. }
  apply (mwp_vis _ _ _ _ node_J_stable); [done|by apply node_J_serving|done|]. intros v2 [] K2 _ _. cbn [own_after].
  pose proof (registered_stable _ _ Hr1 K2) as Hr2.
  set (o2 := own_started (HttpServer _) _).
  assert (forall g, g ∈ o_started o2 -> g = GrpcServer node_id \/ g = HttpServer (ConnectHTTPAddr (connect_config cfg cn))) as Hg2.
  { intros g. cbn. rewrite Ho. cbn. rewrite !elem_of_cons. intros [->|[->|[]%elem_of_nil]]; auto. }
  apply (mwp_vis _ _ _ _ node_J_stable); [done|by apply node_J_serving|done|]. intros v3 [] K3 HJ3 _. cbn [own_after].
  pose proof (registered_stable _ _ Hr2 K3) as Hr3.
  do 2 (apply (mwp_vis _ _ _ _ node_J_stable); [done|by apply node_J_serving|done|]; intros ? ? ? ? _; cbn [own_after];
    match goal with K : leaves_node _ ?a ?b, H : registered ?a |- _ => pose proof (registered_stable _ _ H K) end).
  by apply mwp_ret; [apply node_J_serving|].
Qed.

Lemma mc_main v : nodes_ok v -> mc (connect_main cn) fresh v (fun _ => node_Q).
Proof.
  intros Hv. unfold connect_main. apply (mwp_must _ _ _ _ node_J_stable).
  apply (mwp_LoadConfig _ _ _ _ node_J_stable); [done|by apply node_J_idle|]. intros v1 K1 _. rewrite Hcfg. cbn [bind call].
  destruct (K1 Hv) as [Hv1 _]. apply (mwp_vis _ _ _ _ node_J_stable); [done|by apply node_J_idle|done|]. intros v2 [] K2 _ _. cbn [own_after].
  destruct (K2 Hv1) as [Hv2 _]. apply (mwp_must _ _ _ _ node_J_stable).
  apply (mwp_OpenRedis _ _ _ _ node_J_stable); [by apply node_J_idle|by intros; apply node_J_idle; [|apply H0]|]. intros v3 [[]|e] K3 HJ3 _; [|done].
  destruct (cn =? -1); [by apply (mwp_Fatal _ _ _ _ node_J_stable)|]. cbn zeta. fold node_id. apply (mwp_must _ _ _ _ node_J_stable).
  unfold RegisterConnectNode. cbn [ServerID]. destruct (String.eqb_spec node_id "") as [He|Hid]; [by apply mwp_ret|]. cbn [bind call sys].
  apply (mwp_Sys _ _ _ _ node_J_stable); [done|]. intros v4 x v5 K4 HJ4 Hx. apply nodes_SADD in Hx as [Hv5 Hreg]; [|apply HJ4].
  destruct x as [n|e]; [|by apply mwp_ret; [apply node_J_idle|]]. cbn [sys bind]. apply mwp_ret; [by apply node_J_idle|].
  assert (registered v5) as Hr5 by (split; [done|by apply Hreg]).
  apply mwp_defer. apply (mwp_must _ _ _ _ node_J_stable).
  apply (mwp_Open _ _ _ _ node_J_stable); [by apply node_J_idle| |done]. intros v6 K6 HJ6. split; [by apply node_J_idle; [|apply HJ6]|].
  apply mwp_defer. eapply mwp_mono; [apply mc_serve; [done|by eapply registered_stable|done]|].
  intros [] o7 v7 HJ7 _. apply (mwp_vis _ _ _ _ node_J_stable); [done..|]. intros v8 r K8 HJ8 _. cbn [own_after].
  assert (node_J (own_closed (RGrpcConn (lg_GRPCAddr (cfg_Logic cfg))) o7) v8) as HJc.
  { destruct HJ8 as (H1 & H2 & H3). split_and!; [done| |done]. intros Hs. destruct (H2 Hs) as (? & ? & _). split_and!; [done..|].
    rewrite o_closed_closed. by intros [_ [=]]%app_nil. }
  apply mwp_ret; [done|]. apply mc_unregister; [|done..]. rewrite o_closed_closed. by intros [_ [=]]%app_nil.
Qed.

(** C22. A connect node is listed exactly while it runs: in every state the
    process can reach, if a server runs then the section of the configuration
    was one of the two known ones, the gRPC server listens on the very id under
    which the node is listed, and the node is in the set of nodes until the
    shutdown begins; and without failing calls it is not in the set once main
    has returned.  The other processes do anything that neither enters nor
    removes this id. *)
Theorem node_listed_while_running others v ps s :
  nodes_ok v -> (forall v1 v2, others v1 v2 -> leaves_node node_id v1 v2) ->
  runs fl file turns others (connect_main cn) v ps s ->
  (forall g, g ∈ o_started (p_own s) ->
    (cn = 1 \/ cn = 2) /\ (forall a, g = GrpcServer a -> a = node_id) /\ (o_closed (p_own s) = [] -> is_node node_id (p_sys s)))
  /\ (fl = false -> p_exit s = Some 0 -> ~ is_node node_id (p_sys s)).
Proof.
  intros Hv Ho Hr.
  destruct (proc_sound fl file (leaves_node node_id) node_J node_J_stable (goroutine_body turns) others Ho (goroutine_quiet turns)
    (connect_main cn) v node_Q ps s node_Q_stable (mc_main v Hv) Hr) as [(_ & H2 & H3) Hq].
  split.
  - intros g Hg. assert (o_started (p_own s) <> []) as Hne by (intros He; rewrite He in Hg; by apply elem_of_nil in Hg).
    destruct (H2 Hne) as (Hc & _ & Hn). split_and!; [done| |done]. intros a ->. destruct (H3 _ Hg) as [[= ->]|[=]]. done.
  - intros Hf He. by apply Hq.
Qed.
End node.

(** ** Ending by log.Fatal *)
Section fatal.
Context `{HV : Viper} `{HK : Sarama} `{HC : Crypto} (file : res table) (turns : nat) (cn : Z).
Context (cfg : Config) (Hcfg : configured file = Ok cfg) (others : sysview unit -> sysview unit -> Prop).

(** The runs in which no call fails, but the address of the gRPC server is taken. *)
Definition runs_taken (v : sysview unit) ps s : Prop :=
  rtc (proc_step (@pext_taken _ _ false file (ConnectGRPCAddr (connect_config cfg cn))) (goroutine_body turns) others)
    ([connect_main cn], proc_start v) (ps, s).

(** They are runs with failures. *)
Lemma pext_taken_fails addr {X} (e : pev X) s x s' : pext_taken false file addr e s x s' -> pext true file e s x s'.
Proof.
  assert (forall B (y : res B), may_fail true y) as Hm by by unfold may_fail.
  destruct e; cbn; try done; try (by intros [_ ?]).
  - intros (v' & Hx & ->). exists v'. split; [by apply ext_weaken|done].
  - destruct (String.eqb _ _); [|by intros [_ ?]]. intros [Hx ->]. rewrite Hx. by split.
Qed.

Lemma runs_taken_fail v ps s : runs_taken v ps s -> runs true file turns others (connect_main cn) v ps s.
Proof.
  apply rtc_subrel. intros c1 c2 Hs. destruct Hs as [ps1 s1 i X e k x s2 Hn Hi Hx|ps1 s1 Hn H0|ps1 s1 Hn H0|ps1 s1 v' Hn Ho].
  - apply (proc_event (@pext _ _ true file)); [done..|]. by eapply pext_taken_fails.
  - by apply proc_return.
  - by apply proc_kill.
  - by apply proc_others.
Qed.

(** Thread [i] makes its next event, with answer [x]. *)
Ltac event i x :=
  eapply rtc_l; [eapply (proc_event _ _ _ _ _ i _ _ _ x); [reflexivity|reflexivity|cbn]|cbn].

Lemma taken_run v : nodes_ok v -> node_id cn cfg <> "" ->
  exists ps s, runs_taken v ps s
    /\ p_exit s = Some 1 /\ is_node (node_id cn cfg) (p_sys s)
    /\ o_started (p_own s) = [GrpcServer (ConnectGRPCAddr (connect_config cfg cn))] /\ o_teardown (p_own s) = [].
Proof.
  intros [m Hm] Hid. assert (cn =? -1 = false) as Hcn.
  { apply Z.eqb_neq. intros ->. by apply Hid. }
  assert (String.eqb (ConnectServerAddr (connect_config cfg cn)) "" = false) as Hidb by by apply String.eqb_neq.
  set (v' := set_rds (put_set ConnectNodesKeyPrefix (sadd [node_id cn cfg] m) None (v_rds (tick (v_now v) v))) (tick (v_now v) v)).
  assert (nodes_set (tick (v_now v) v) = Some m) as Hm' by (rewrite nodes_tick; [done|by exists m]).
  destruct (nodes_get_set _ _ Hm') as [Hg' He'].
  unfold runs_taken.
  unfold configured in Hcfg. destruct file as [t|e] eqn:Hfile; [|done].
  eexists _, _. unfold connect_main, must, LoadConfig, config_path. rewrite dev_config_type. split.
  { event 0%nat (Ok t : res table). { by split. } rewrite Hcfg. cbn.
    event 0%nat tt. { reflexivity. } event 0%nat tt. { reflexivity. } event 0%nat (Ok tt : res unit). { by split. }
    event 0%nat tt. { reflexivity. } rewrite Hcn. unfold RegisterConnectNode. cbn [ServerID]. rewrite Hidb. cbn.
    event 0%nat (Ok (Z.of_nat (size (sadd [node_id cn cfg] m) - size m)) : res Z).
    { exists v'. split; [|reflexivity]. exists (v_now v). split; [cbn; lia|]. left. cbn [doc doc_cmd p_sys with_own proc_start].
      unfold reply_ok. change (v_rds _) with (v_rds (tick (v_now v) v)). fold (node_id cn cfg). rewrite Hg', He'. by split. }
    event 0%nat (Ok tt : res unit). { by split. } event 0%nat tt. { reflexivity. }
    event 1%nat (Err (ErrExt "address already in use") : res unit). { rewrite String.eqb_refl. by split. }
    event 1%nat tt. { reflexivity. } event 1%nat tt. { reflexivity. } apply rtc_refl. }
  cbn. split_and!; [done| |done|done]. exists (sadd [node_id cn cfg] m). split; [apply nodes_put|]. unfold sadd. cbn. set_solver.
Qed.

(** C39. A node that ends by log.Fatal stays listed: while another process
    listens on the address of its gRPC server, and although no call fails
    besides, the connect process has a run in which it registers, starts the
    server and exits with code 1; and in every run that ends with code 1 after
    a server was started and before the shutdown has begun the node is still in
    the set of nodes, so that every room message is sent to it for good. *)
Theorem port_in_use_leaves_node v :
  nodes_ok v -> node_id cn cfg <> "" -> (forall v1 v2, others v1 v2 -> leaves_node (node_id cn cfg) v1 v2) ->
  (exists ps s, runs_taken v ps s /\ p_exit s = Some 1
     /\ o_started (p_own s) = [GrpcServer (ConnectGRPCAddr (connect_config cfg cn))] /\ o_teardown (p_own s) = [])
  /\ forall ps s, runs_taken v ps s -> p_exit s = Some 1 -> o_started (p_own s) <> [] -> o_teardown (p_own s) = [] ->
       is_node (node_id cn cfg) (p_sys s).
Proof.
  intros Hv Hid Ho. split.
  - destruct (taken_run v Hv Hid) as (ps & s & Hr & He & _ & Hs & Ht). by exists ps, s.
  - intros ps s Hr%runs_taken_fail _ Hs Ht.
    destruct (proc_sound true file (leaves_node (node_id cn cfg)) (node_J cn cfg) (node_J_stable cn cfg) (goroutine_body turns) others Ho (goroutine_quiet turns)
      (connect_main cn) v (node_Q true cn cfg) ps s (node_Q_stable true cn cfg) (mc_main true file cn cfg Hcfg v Hv) Hr) as [(_ & H2 & _) _].
    destruct (H2 Hs) as (_ & _ & Hn). apply Hn. unfold o_closed. by rewrite Ht.
Qed.
End fatal.
