(* ===== verification/Api.v ===== *)
(** * The HTTP gateway (src/internal/api)

    The handlers check the method, decode the body, verify the session with the
    logic service, call it and translate the outcome into a status code.  A
    body is given by the value encoding/json decodes it to, or None when it does
    not decode; the gRPC clients are records of operations, whose
    implementation is the logic service behind [rpc]. *)

From Stdlib Require Import ZArith Lia String.
From stdpp Require Import base tactics list gmap strings.
From S2P Require Import Prelude GoStd Effects Redis Database Proto World Store Auth GroupServer ChatServer.

Local Open Scope string_scope.
Local Open Scope Z_scope.

Record AuthServiceClient (M : Type) := {
  ac_Register : RegisterRequest -> prog (ev M) (res RegisterReply);
  ac_Login : LoginRequest -> prog (ev M) (res LoginReply);
  ac_Verify : VerifyRequest -> prog (ev M) (res VerifyReply);
  ac_AddGroup : AddGroupRequest -> prog (ev M) (res AddGroupReply);
  ac_CreateGroup : CreateGroupRequest -> prog (ev M) (res CreateGroupReply) }.
Arguments ac_Register {M}.
Arguments ac_Login {M}.
Arguments ac_Verify {M}.
Arguments ac_AddGroup {M}.
Arguments ac_CreateGroup {M}.

Record ChatServiceClient (M : Type) := {
  cc_SendMessage : SendMessageRequest -> prog (ev M) (res SendMessageReply);
  cc_SendGroupMessage : SendSmallGroupMessageRequest -> prog (ev M) (res SendMessageReply);
  cc_SendRoomMessage : SendRoomMessageRequest -> prog (ev M) (res SendMessageReply) }.
Arguments cc_SendMessage {M}.
Arguments cc_SendGroupMessage {M}.
Arguments cc_SendRoomMessage {M}.

(** The parts of an [http.Request] the handlers look at. *)
Record http_request := { hr_Method : string; hr_Authorization : string; hr_RemoteAddr : string; hr_UserAgent : string }.

(** What the handlers answer. *)
Inductive json :=
| JNum (z : Z)
| JStr (s : string)
| JBool (b : bool)
| JGroups (l : list SmallGroupInfo)
| JObj (l : list (string * json)).

Inductive http_response :=
| HttpError (msg : string) (status : Z)    (* http.Error *)
| HttpJSON (body : json).                  (* writeJSON, status 200 *)

(** Decoded bodies. *)
Record Credentials := { cr_Username : string; cr_Password : string }.
Record SendMessageReq := { mq_ClientMsgID : Z; mq_ToUserID : Z; mq_Content : string; mq_MsgType : Z }.
Record SendGroupMessageReq := { gq_ClientMsgID : Z; gq_GroupID : Z; gq_Content : string; gq_MsgType : Z }.
Record SendRoomMessageReq := { rq_ClientMsgID : Z; rq_RoomID : Z; rq_Content : string; rq_MsgType : Z }.
Record AddGroupReq := { aq_GroupID : Z; aq_SessionID : string }.
Record CreateGroupReq := { cq_SessionID : string; cq_GroupName : string }.

Section api.
Context {M : Type} (AuthClient : AuthServiceClient M) (ChatClient : ChatServiceClient M).
Implicit Types r : http_request.

Definition is_post r : bool := String.eqb (hr_Method r) "POST".

Definition api_Register r (body : option Credentials) : prog (ev M) http_response :=
  if negb (is_post r) then Ret (HttpError "method not allowed" 405)
  else match body with
  | None => Ret (HttpError "bad json" 400)
  | Some in_ =>
      out <- ac_Register AuthClient {| rr_Username := cr_Username in_; rr_Password := cr_Password in_ |} ;;
      match out with
      | Err e => Ret (HttpError (Error e) 500)
      | Ok out => Ret (HttpJSON (JObj [("user_id", JNum (rp_UserId out))]))
      end
  end.

Definition api_Login r (body : option Credentials) : prog (ev M) http_response :=
  if negb (is_post r) then Ret (HttpError "method not allowed" 405)
  else match body with
  | None => Ret (HttpError "bad json" 400)
  | Some in_ =>
      out <- ac_Login AuthClient {| lr_Username := cr_Username in_; lr_Password := cr_Password in_;
                                    lr_Ip := hr_RemoteAddr r; lr_UserAgent := hr_UserAgent r |} ;;
      match out with
      | Err e => Ret (HttpError (Error e) 401)
      | Ok out => Ret (HttpJSON (JObj [("user_id", JNum (lp_UserId out)); ("access_token", JStr (lp_SessionId out));
                                       ("groups", JGroups (lp_SmallGroups out))]))
      end
  end.

Definition api_Verify r : prog (ev M) http_response :=
  if String.eqb (hr_Authorization r) "" then Ret (HttpError "missing sesson id" 401)
  else
    out <- ac_Verify AuthClient {| vr_SessionId := hr_Authorization r |} ;;
    match out with
    | Err e => Ret (HttpError (Error e) 500)
    | Ok out => Ret (HttpJSON (JObj [("user_id", JNum (vp_UserId out))]))
    end.

Definition sent (reply : SendMessageReply) : json :=
  JObj [("msg_id", JNum (smp_MsgId reply)); ("timestamp", JNum (smp_Timestamp reply))].

Definition success (reply : SendMessageReply) : http_response :=
  HttpJSON (JObj [("code", JNum 0); ("message", JStr "success"); ("data", sent reply)]).

Definition api_SendMessage r (body : option SendMessageReq) : prog (ev M) http_response :=
  if negb (is_post r) then Ret (HttpError "Method not allowed" 405)
  else if String.eqb (hr_Authorization r) "" then Ret (HttpError "missing session id" 401)
  else
    v <- ac_Verify AuthClient {| vr_SessionId := hr_Authorization r |} ;;
    match v with
    | Err e => Ret (HttpError "invalid session" 401)
    | Ok verifyReply =>
        match body with
        | None => Ret (HttpError "Invalid request body" 400)
        | Some reqBody =>
            reply <- cc_SendMessage ChatClient
              {| smr_FromUserId := vp_UserId verifyReply; smr_ToUserId := mq_ToUserID reqBody;
                 smr_Content := mq_Content reqBody; smr_MsgType := mq_MsgType reqBody; smr_ClietMsgId := mq_ClientMsgID reqBody |} ;;
            match reply with
            | Err e => Ret (HttpError (Error e) 500)
            | Ok reply => Ret (success reply)
            end
        end
    end.

Definition api_SendGroupMessage r (body : option SendGroupMessageReq) : prog (ev M) http_response :=
  if negb (is_post r) then Ret (HttpError "Method not allowed" 405)
  else if String.eqb (hr_Authorization r) "" then Ret (HttpError "missing session id" 401)
  else
    v <- ac_Verify AuthClient {| vr_SessionId := hr_Authorization r |} ;;
    match v with
    | Err e => Ret (HttpError "invalid session" 401)
    | Ok verifyReply =>
        match body with
        | None => Ret (HttpError "Invalid request body" 400)
        | Some reqBody =>
            reply <- cc_SendGroupMessage ChatClient
              {| sgr_FromUserId := vp_UserId verifyReply; sgr_GroupId := gq_GroupID reqBody;
                 sgr_Content := gq_Content reqBody; sgr_MsgType := gq_MsgType reqBody; sgr_ClientMsgId := gq_ClientMsgID reqBody |} ;;
            match reply with
            | Err e => Ret (HttpError (Error e) 500)
            | Ok reply => Ret (success reply)
            end
        end
    end.

Definition api_SendRoomMessage r (body : option SendRoomMessageReq) : prog (ev M) http_response :=
  if negb (is_post r) then Ret (HttpError "method not allowed" 405)
  else if String.eqb (hr_Authorization r) "" then Ret (HttpError "missing session id" 401)
  else match body with
  | None => Ret (HttpError "Bad json" 400)
  | Some in_ =>
      v <- ac_Verify AuthClient {| vr_SessionId := hr_Authorization r |} ;;
      match v with
      | Err e => Ret (HttpError "invalid session" 401)
      | Ok verifyReply =>
          reply <- cc_SendRoomMessage ChatClient
            {| srr_FromUserId := vp_UserId verifyReply; srr_RoomId := rq_RoomID in_;
               srr_Content := rq_Content in_; srr_MsgType := rq_MsgType in_ |} ;;
          match reply with
          | Err e => Ret (HttpError (Error e) 500)
          | Ok reply => Ret (HttpJSON (sent reply))
          end
      end
  end.

Definition api_AddGroup r (body : option AddGroupReq) : prog (ev M) http_response :=
  if negb (is_post r) then Ret (HttpError "method allowed" 400)
  else match body with
  | None => Ret (HttpError "bad json" 400)
  | Some in_ =>
      v <- ac_Verify AuthClient {| vr_SessionId := aq_SessionID in_ |} ;;
      match v with
      | Err e => Ret (HttpError "invalid session" 400)
      | Ok verifyReply =>
          a <- ac_AddGroup AuthClient {| agr_GroupId := aq_GroupID in_; agr_UserId := vp_UserId verifyReply |} ;;
          match a with
          | Err e => Ret (HttpError ("add group failed:" ++ Error e) 500)
          | Ok _ => Ret (HttpJSON (JObj [("Sucess", JBool true)]))
          end
      end
  end.

Definition api_Creategroup r (body : option CreateGroupReq) : prog (ev M) http_response :=
  if negb (is_post r) then Ret (HttpError "method not allowed" 405)
  else match body with
  | None => Ret (HttpError "bad request" 400)
  | Some in_ =>
      v <- ac_Verify AuthClient {| vr_SessionId := cq_SessionID in_ |} ;;
      match v with
      | Err e => Ret (HttpError ("invalid session:" ++ Error e) 400)
      | Ok verifyReply =>
          reply <- ac_CreateGroup AuthClient {| cgr_UserId := vp_UserId verifyReply; cgr_GroupName := cq_GroupName in_ |} ;;
          match reply with
          | Err e => Ret (HttpError ("Create Group Failed:" ++ Error e) 500)
          | Ok reply => Ret (HttpJSON (JObj [("Success", JBool true); ("GroupId", JNum (cgp_GroupId reply))]))
          end
      end
  end.
End api.

(** ** The logic service behind the clients *)
Section service.
Context `{HC : Crypto} `{HCd : Codec} `{HCo : Collation}.

Definition logic_auth (s : Store) : AuthServiceClient LogicMem := {|
  ac_Register req := rpc (Register req);
  ac_Login req := rpc (Login s req);
  ac_Verify req := rpc (Verify req);
  ac_AddGroup req := rpc (AddGroup req);
  ac_CreateGroup req := rpc (CreateGroup req) |}.

Definition logic_chat (c : ChatServer) (flight : option (res (gset Z))) : ChatServiceClient LogicMem := {|
  cc_SendMessage req := rpc (SendMessage c req);
  cc_SendGroupMessage req := rpc (SendGroupMessage c flight req);
  cc_SendRoomMessage req := rpc (SendRoomMessage c req) |}.
End service.
