(* ===== verification/ApiSpec.v ===== *)
(** * What the gateway guarantees, end to end

    The handlers of the gateway over the logic service: through both gRPC
    calls, with their lost requests and lost answers. *)

From Stdlib Require Import ZArith Lia String.
From stdpp Require Import base tactics list gmap strings.
From S2P Require Import Prelude GoStd Effects Redis Database Proto World Rules Frames RefWorld Store Sessions Auth.
From S2P Require Import AuthSpec GroupServer GroupSpec ChatServer ChatSpec Api.

Local Open Scope string_scope.
Local Open Scope Z_scope.

Section methods.
Context `{HC : Crypto} `{HCd : Codec} `{HCo : Collation} (fl : bool).
Implicit Types v : sysview LogicMem.

Lemma wp_verify_rpc own act v sid :
  sess_rep own act (v_rds v) ->
  wp (ext fl) (rpc (Verify {| vr_SessionId := sid |})) v (fun r v' => waited v v' /\
    match r with Ok rp => exists ex, act !! vp_UserId rp = Some (sid, ex) /\ v_now v < ex | Err _ => True end).
Proof.
  intros R. apply wp_rpc; [intros t msg Ht _; split; [right; eauto|done]|].
  intros t Ht. eapply wp_mono; [apply (wp_Verify fl own); by apply rep_purge|].
  intros r v1 (Hn & Hv1 & Hr) t1 Ht1. cbn in Hn.
  assert (waited v v1) as Hw by (destruct Hv1 as [-> | ->]; [right; eauto|right; exists (v_now v1); split; [lia|by rewrite tick_tick]]).
  split; [|intros _ msg; split; [by apply waited_tick|done]]. split; [by apply waited_tick|].
  destruct r as [rp|e]; [|done]. destruct Hr as (ex & Ha & _). apply act_expire_lookup in Ha as [Ha Hex]. exists ex. split; [done|]. cbn in Hex. lia.
Qed.

(** The outcome of a send as the gateway sees it: accepted and appended once,
    or refused and, unless a call failed, not appended. *)
Definition sent_outcome {A} (decode : string -> res A) (topic key : string) (built : SendMessageReply -> A)
    v (r : res SendMessageReply) v' : Prop :=
  match r with
  | Ok rp => exists payload, decode payload = Ok (built rp) /\ appended [KMsg topic key payload] v v'
  | Err _ => appended [] v v' \/ (fl = true /\ exists payload, appended [KMsg topic key payload] v v')
  end.

Lemma appended_tick {M} ms t (v v' : sysview M) : appended ms v v' -> appended ms v (tick t v').
Proof. done. Qed.

Lemma appended_waited ms v0 v v' : waited v0 v -> appended ms v v' -> appended ms v0 v'.
Proof. by intros [-> | (t & _ & ->)]. Qed.

Lemma wp_send_rpc {A} (p : prog (ev LogicMem) (res SendMessageReply)) (decode : string -> res A) topic key built (P : Prop) v0 v :
  waited v0 v ->
  (forall t, v_now v <= t -> wp (ext fl) p (tick t v) (fun r v' => (is_ok r = true -> P)
     /\ send_outcome fl decode topic key built (tick t v) r v')) ->
  wp (ext fl) (rpc p) v (fun r v' => (is_ok r = true -> P) /\ sent_outcome decode topic key built v0 r v').
Proof.
  intros Hw Hp. apply wp_rpc.
  { intros t msg Ht _. split; [done|]. left. apply (appended_waited [] v0 v); [done|]. by apply appended_nil. }
  intros t Ht. eapply wp_mono; [by apply Hp|]. intros r v1 [HP Hs] t1 Ht1.
  assert (forall ms, appended ms (tick t v) v1 -> appended ms v0 (tick t1 v1)) as Hap.
  { intros ms Ha. apply appended_tick. by apply (appended_waited ms v0 (tick t v)); [apply waited_tick|]. }
  destruct r as [rp|e]; cbn [send_outcome] in Hs.
  - destruct Hs as (_ & payload & Hd & Ha). split.
    + split; [auto|]. exists payload. split; [done|]. by apply Hap.
    + intros Hfl msg. split; [done|]. right. split; [done|]. exists payload. by apply Hap.
  - assert (appended [] v0 (tick t1 v1) \/ (fl = true /\ exists payload, appended [KMsg topic key payload] v0 (tick t1 v1))) as Ho.
    { destruct Hs as [Ha | (Hfl & payload & Ha)]; [left; by apply Hap|right; split; [done|]; exists payload; by apply Hap]. }
    by split; [split|intros _ msg; split].
Qed.
(** A post of a private message, to the end of both calls. *)
Lemma wp_api_SendMessage s c flight own act r body v :
  sess_rep own act (v_rds v) ->
  wp (ext fl) (api_SendMessage (logic_auth s) (logic_chat c flight) r body) v (fun resp v' =>
    match resp with
    | HttpJSON _ => exists u ex b rp payload m,
        body = Some b /\ act !! u = Some (hr_Authorization r, ex) /\ resp = success rp
        /\ Unmarshal_Message payload = Ok m /\ m_FromUserId m = u /\ m_ToUserId m = mq_ToUserID b
        /\ m_Content m = mq_Content b /\ m_MsgId m = smp_MsgId rp /\ u <> mq_ToUserID b
        /\ appended [KMsg (ChatTopic c) (FormatInt (mq_ToUserID b)) payload] v v'
    | HttpError _ _ => appended [] v v' \/ (fl = true /\ exists m, appended [m] v v')
    end).
Proof.
  intros R. unfold api_SendMessage. destruct (is_post r); [|left; by apply appended_nil]. cbn [negb].
  destruct (String.eqb (hr_Authorization r) ""); [left; by apply appended_nil|].
  apply wp_bind. eapply wp_mono; [by apply (wp_verify_rpc own act)|]. intros vr v1 [Hw Hv].
  destruct vr as [rp|e]; [|left; apply (appended_waited [] _ v1); [done|by apply appended_nil]].
  destruct Hv as (ex & Hex & _). destruct body as [b|]; [|left; apply (appended_waited [] _ v1); [done|by apply appended_nil]].
  apply wp_bind. set (req := {| smr_FromUserId := _ |}).
  eapply wp_mono; [apply (wp_send_rpc (SendMessage c req) Unmarshal_Message (ChatTopic c) (FormatInt (smr_ToUserId req))
    (message_of req) (smr_FromUserId req <> smr_ToUserId req) v v1 Hw); intros; apply wp_SendMessage|].
  intros rep v2 [Hne Ho]. destruct rep as [rep|e]; cbn [wp sent_outcome] in *.
  - destruct Ho as (payload & Hd & Ha). exists (vp_UserId rp), ex, b, rep, payload, (message_of req rep).
    split_and!; try done. by apply Hne.
  - destruct Ho as [Ha | (Hfl & payload & Ha)]; [by left|right; eauto].
Qed.

(** A post of a group message, to the end of both calls. *)
Lemma wp_api_SendGroupMessage s c own act r b v :
  sess_rep own act (v_rds v) -> coherent v -> cs_Store c <> None ->
  in_int64 (gq_GroupID b) -> (forall u ex, act !! u = Some (hr_Authorization r, ex) -> u <> -1) ->
  wp (ext fl) (api_SendGroupMessage (logic_auth s) (logic_chat c None) r (Some b)) v (fun resp v' =>
    match resp with
    | HttpJSON _ => exists u ex rp payload m,
        act !! u = Some (hr_Authorization r, ex) /\ resp = success rp
        /\ 0 < gq_GroupID b /\ u ∈ active_members (gq_GroupID b) (v_db v)
        /\ Unmarshal_GroupMessage payload = Ok m /\ gm_FromUserId m = u /\ gm_GroupId m = gq_GroupID b
        /\ gm_Content m = gq_Content b /\ gm_MsgId m = smp_MsgId rp
        /\ appended [KMsg (GroupChatTopic c) (FormatInt (gq_GroupID b)) payload] v v'
    | HttpError _ _ => appended [] v v' \/ (fl = true /\ exists m, appended [m] v v')
    end).
Proof.
  intros R Hco Hst Hg Hne1. unfold api_SendGroupMessage.
  destruct (is_post r); [|left; by apply appended_nil]. cbn [negb].
  destruct (String.eqb (hr_Authorization r) ""); [left; by apply appended_nil|].
  apply wp_bind. eapply wp_mono; [by apply (wp_verify_rpc own act)|]. intros vr v1 [Hw Hv].
  destruct vr as [rp|e]; [|left; apply (appended_waited [] _ v1); [done|by apply appended_nil]].
  destruct Hv as (ex & Hex & _). apply wp_bind. set (req := {| sgr_FromUserId := _ |}).
  assert (in_int64 (vp_UserId rp)) as Hu by (by apply (rep_own _ _ _ R) in Hex as []).
  assert (coherent v1 /\ v_db v1 = v_db v) as [Hco1 Hdb1].
  { destruct Hw as [-> | (t & _ & ->)]; [done|]. split; [by apply coherent_tick|done]. }
  eapply wp_mono; [apply (wp_send_rpc (SendGroupMessage c None req) Unmarshal_GroupMessage (GroupChatTopic c) (FormatInt (sgr_GroupId req))
    (group_message_of req) (0 < sgr_GroupId req /\ sgr_Content req <> "" /\ GroupChatTopic c <> ""
       /\ (cs_Store c <> None -> sgr_FromUserId req ∈ active_members (sgr_GroupId req) (v_db v1))) v v1 Hw)|].
  { intros t Ht. apply (wp_SendGroupMessage fl c None req (tick t v1)).
    split_and!; [by apply coherent_tick|done|done|by eapply Hne1|by left]. }
  intros rep v2 [Hok Ho]. destruct rep as [rep|e]; cbn [wp sent_outcome] in *.
  - destruct Ho as (payload & Hd & Ha). destruct (Hok eq_refl) as (Hpos & _ & _ & Hm). specialize (Hm Hst). rewrite Hdb1 in Hm.
    by exists (vp_UserId rp), ex, rep, payload, (group_message_of req rep).
  - destruct Ho as [Ha | (Hfl & payload & Ha)]; [by left|right; eauto].
Qed.

Lemma wp_api_group_coherent s c own act r b v :
  sess_rep own act (v_rds v) -> coherent v -> in_int64 (gq_GroupID b) ->
  (forall u ex, act !! u = Some (hr_Authorization r, ex) -> u <> -1) ->
  wp (ext fl) (api_SendGroupMessage (logic_auth s) (logic_chat c None) r (Some b)) v (fun _ v' => v_db v' = v_db v /\ coherent v').
Proof.
  intros R Hco Hg Hne1. unfold api_SendGroupMessage.
  destruct (is_post r); [|done]. cbn [negb]. destruct (String.eqb _ _); [done|].
  apply wp_bind. eapply wp_mono; [by apply (wp_verify_rpc own act)|]. intros vr v1 [Hw Hv].
  assert (coherent v1 /\ v_db v1 = v_db v) as [Hco1 Hdb1].
  { destruct Hw as [-> | (t & _ & ->)]; [done|]. split; [by apply coherent_tick|done]. }
  destruct vr as [rp|e]; [|done]. destruct Hv as (ex & Hex & _).
  assert (in_int64 (vp_UserId rp)) as Hu by (by apply (rep_own _ _ _ R) in Hex as []).
  apply wp_bind. apply wp_rpc; [intros t msg Ht _; split; [done|by apply coherent_tick]|]. intros t Ht.
  eapply wp_mono; [apply wp_SendGroupMessage_coherent; split_and!; [by apply coherent_tick|done|done|by eapply Hne1|by left]|].
  intros rep v2 [Hdb2 Hco2] t2 Ht2. cbn in Hdb2.
  assert (v_db (tick t2 v2) = v_db v /\ coherent (tick t2 v2)) by (split; [cbn; congruence|by apply coherent_tick]).
  by destruct rep.
Qed.

(** A post of a room message, to the end of both calls. *)
Lemma wp_api_SendRoomMessage s c flight own act r body v :
  sess_rep own act (v_rds v) ->
  wp (ext fl) (api_SendRoomMessage (logic_auth s) (logic_chat c flight) r body) v (fun resp v' =>
    match resp with
    | HttpJSON _ => exists u ex b payload m,
        body = Some b /\ act !! u = Some (hr_Authorization r, ex)
        /\ Unmarshal_RoomMessage payload = Ok m /\ rm_FromUserId m = u /\ rm_RoomId m = rq_RoomID b
        /\ rm_Content m = rq_Content b
        /\ appended [KMsg (RommChatTopic c) (FormatInt (rq_RoomID b)) payload] v v'
    | HttpError _ _ => appended [] v v' \/ (fl = true /\ exists m, appended [m] v v')
    end).
Proof.
  intros R. unfold api_SendRoomMessage. destruct (is_post r); [|left; by apply appended_nil]. cbn [negb].
  destruct (String.eqb (hr_Authorization r) ""); [left; by apply appended_nil|].
  destruct body as [b|]; [|left; by apply appended_nil].
  apply wp_bind. eapply wp_mono; [by apply (wp_verify_rpc own act)|]. intros vr v1 [Hw Hv].
  destruct vr as [rp|e]; [|left; apply (appended_waited [] _ v1); [done|by apply appended_nil]].
  destruct Hv as (ex & Hex & _). apply wp_bind. set (req := {| srr_FromUserId := _ |}).
  eapply wp_mono; [apply (wp_send_rpc (SendRoomMessage c req) Unmarshal_RoomMessage (RommChatTopic c) (FormatInt (srr_RoomId req))
    (room_message_of req) (0 < srr_RoomId req /\ srr_Content req <> "" /\ RommChatTopic c <> "" /\ cs_Store c <> None) v v1 Hw);
    intros; apply wp_SendRoomMessage|].
  intros rep v2 [_ Ho]. destruct rep as [rep|e]; cbn [wp sent_outcome] in *.
  - destruct Ho as (payload & Hd & Ha). by exists (vp_UserId rp), ex, b, payload, (room_message_of req rep).
  - destruct Ho as [Ha | (Hfl & payload & Ha)]; [by left|right; eauto].
Qed.
End methods.

(** ** Theorems *)
Section theorems.
Context `{HC : Crypto} `{HCd : Codec} `{HCo : Collation} {fl : bool} {W : Type} `{HW : !World fl LogicMem W}.

(** A private message posted to the gateway is accepted only from the
    holder of an active session and is then in Kafka once, with that user as
    its sender, whatever the body says; an error answer means that nothing
    was sent, unless a call failed. *)
Theorem api_SendMessage_authenticated s c flight own act r body w resp w' :
  sess_rep own act (v_rds (view w)) ->
  exec (api_SendMessage (logic_auth s) (logic_chat c flight) r body) w = (resp, w') ->
  match resp with
  | HttpJSON _ => exists u ex b rp payload m,
      body = Some b /\ act !! u = Some (hr_Authorization r, ex) /\ resp = success rp
      /\ Unmarshal_Message payload = Ok m /\ m_FromUserId m = u /\ m_ToUserId m = mq_ToUserID b
      /\ m_Content m = mq_Content b /\ m_MsgId m = smp_MsgId rp /\ u <> mq_ToUserID b
      /\ appended [KMsg (ChatTopic c) (FormatInt (mq_ToUserID b)) payload] (view w) (view w')
  | HttpError _ _ => appended [] (view w) (view w')
      \/ (fl = true /\ exists m, appended [m] (view w) (view w'))
  end.
Proof. intros R Hrun. by_wp Hrun. by apply (wp_api_SendMessage fl s c flight own act). Qed.

(** A group message posted to the gateway is accepted only from the
    holder of an active session who is an active member of the group, and is
    then in Kafka once, with that user as its sender. *)
Theorem api_SendGroupMessage_authenticated s c own act r b w resp w' :
  sess_rep own act (v_rds (view w)) -> coherent (view w) -> cs_Store c <> None ->
  in_int64 (gq_GroupID b) -> (forall u ex, act !! u = Some (hr_Authorization r, ex) -> u <> -1) ->
  exec (api_SendGroupMessage (logic_auth s) (logic_chat c None) r (Some b)) w = (resp, w') ->
  match resp with
  | HttpJSON _ => exists u ex rp payload m,
      act !! u = Some (hr_Authorization r, ex) /\ resp = success rp
      /\ 0 < gq_GroupID b /\ u ∈ active_members (gq_GroupID b) (v_db (view w))
      /\ Unmarshal_GroupMessage payload = Ok m /\ gm_FromUserId m = u /\ gm_GroupId m = gq_GroupID b
      /\ gm_Content m = gq_Content b /\ gm_MsgId m = smp_MsgId rp
      /\ appended [KMsg (GroupChatTopic c) (FormatInt (gq_GroupID b)) payload] (view w) (view w')
  | HttpError _ _ => appended [] (view w) (view w')
      \/ (fl = true /\ exists m, appended [m] (view w) (view w'))
  end.
Proof. intros R Hco Hst Hg Hne1 Hrun. by_wp Hrun. by apply (wp_api_SendGroupMessage fl s c own act). Qed.
End theorems.
