(* ===== verification/Gateway.v ===== *)
(** * The routes of the gateway (src/cmd/api/main.go)

    The request multiplexer of the api process: each path with its handler of
    Api.v, on the raw body.  Nothing behind it changes without a live session,
    registration and login excepted. *)

From Stdlib Require Import ZArith Lia String.
From stdpp Require Import base tactics list gmap strings.
From S2P Require Import Prelude GoStd Effects Redis Database Proto World Rules RefWorld Store Sessions Auth.
From S2P Require Import AuthSpec GroupServer ChatServer ChatSpec Api ApiSpec.

Local Open Scope string_scope.
Local Open Scope Z_scope.

(** encoding/json: the value a body decodes to, for the struct of each handler. *)
Class JsonBodies := {
  json_credentials : string -> option Credentials;
  json_send : string -> option SendMessageReq;
  json_groupsend : string -> option SendGroupMessageReq;
  json_roomsend : string -> option SendRoomMessageReq;
  json_addgroup : string -> option AddGroupReq;
  json_creategroup : string -> option CreateGroupReq }.

Inductive api_route :=
| RouteRegister | RouteLogin | RouteVerify | RouteSend | RouteGroupSend | RouteCreateGroup | RouteAddGroup | RouteRoomSend.

(** The patterns registered with mux.HandleFunc. *)
Definition routes : list (string * api_route) := [
  ("/api/register", RouteRegister); ("/api/login", RouteLogin); ("/api/verify", RouteVerify);
  ("/api/send", RouteSend); ("/api/groupsend", RouteGroupSend);
  ("/api/creategroup", RouteCreateGroup); ("/api/addgroup", RouteAddGroup); ("/api/roomsend", RouteRoomSend)].

Fixpoint match_route (path : string) (rs : list (string * api_route)) : option api_route :=
  match rs with
  | [] => None
  | (p, h) :: rest => if String.eqb path p then Some h else match_route path rest
  end.

Section gateway.
Context `{JsonBodies} {M : Type} (AuthClient : AuthServiceClient M) (ChatClient : ChatServiceClient M).

Definition handle_route (h : api_route) (r : http_request) (body : string) : prog (ev M) http_response :=
  match h with
  | RouteRegister => api_Register AuthClient r (json_credentials body)
  | RouteLogin => api_Login AuthClient r (json_credentials body)
  | RouteVerify => api_Verify AuthClient r
  | RouteSend => api_SendMessage AuthClient ChatClient r (json_send body)
  | RouteGroupSend => api_SendGroupMessage AuthClient ChatClient r (json_groupsend body)
  | RouteCreateGroup => api_Creategroup AuthClient r (json_creategroup body)
  | RouteAddGroup => api_AddGroup AuthClient r (json_addgroup body)
  | RouteRoomSend => api_SendRoomMessage AuthClient ChatClient r (json_roomsend body)
  end.

(** A path that is clean, as ServeMux sees it. *)
Definition ServeHTTP (path : string) (r : http_request) (body : string) : prog (ev M) http_response :=
  match match_route path routes with
  | Some h => handle_route h r body
  | None => Ret (HttpError "404 page not found" 404)
  end.
End gateway.

(** The session a request presents: in the header, or in the body for groups. *)
Definition presented `{JsonBodies} (h : api_route) (r : http_request) (body : string) : option string :=
  match h with
  | RouteRegister | RouteLogin => None
  | RouteCreateGroup => cq_SessionID <$> json_creategroup body
  | RouteAddGroup => aq_SessionID <$> json_addgroup body
  | _ => Some (hr_Authorization r)
  end.

(** Routes that need no session. *)
Definition is_public (h : api_route) : bool := match h with RouteRegister | RouteLogin => true | _ => false end.

Section proofs.
Context `{HC : Crypto} `{HCd : Codec} `{HCo : Collation} `{HJ : JsonBodies} (fl : bool).
Implicit Types v : sysview LogicMem.

(** Only time passes and the answer is an error. *)
Definition refused v (resp : http_response) v' : Prop :=
  waited v v' /\ exists msg status, resp = HttpError msg status.

Lemma refused_now v msg status : refused v (HttpError msg status) v.
Proof. split; [by left|eauto]. Qed.

Lemma wp_no_session own act v sid B (f : res VerifyReply -> prog (ev LogicMem) B) Q :
  sess_rep own act (v_rds v) -> (forall uid ex, act !! uid = Some (sid, ex) -> ex <= v_now v) ->
  (forall e v', waited v v' -> wp (ext fl) (f (Err e)) v' Q) ->
  wp (ext fl) (bind (rpc (Verify {| vr_SessionId := sid |})) f) v Q.
Proof.
  intros R Hn Hf. apply wp_bind. eapply wp_mono; [by apply (wp_verify_rpc fl own act)|]. intros [rp|e] v' [Hw Hr]; [|by apply Hf].
  destruct Hr as (ex & Ha & Hex). specialize (Hn _ _ Ha). lia.
Qed.

Lemma wp_refused s c flight own act v h r body :
  is_public h = false -> sess_rep own act (v_rds v) ->
  (forall sid uid ex, presented h r body = Some sid -> act !! uid = Some (sid, ex) -> ex <= v_now v) ->
  wp (ext fl) (handle_route (logic_auth s) (logic_chat c flight) h r body) v (refused v).
Proof.
  intros Hp R Hn.
  destruct h; try discriminate Hp; cbn [handle_route presented] in *.
  all: unfold api_Verify, api_SendMessage, api_SendGroupMessage, api_Creategroup, api_AddGroup, api_SendRoomMessage; cbn [logic_auth ac_Verify].
  all: repeat match goal with
    | |- context [if ?b then _ else _] => destruct b; try apply refused_now
    | |- context [match ?b with Some _ => _ | None => _ end] =>
        match b with json_creategroup _ => idtac | json_addgroup _ => idtac | json_roomsend _ => idtac end; destruct b; try apply refused_now
    end.
  all: eapply wp_no_session; [exact R|intros uid ex; by apply Hn|intros e v' Hw; split; [exact Hw|eauto]].
Qed.
End proofs.

Section theorems.
Context `{HC : Crypto} `{HCd : Codec} `{HCo : Collation} `{HJ : JsonBodies} {fl : bool} {W : Type} `{HW : !World fl LogicMem W}.

(** C14. Nothing without a session: whatever path a request names, if the
    session it presents (in the header, or in the body for groups) is not a live
    one, then the answer is an error and nothing but the clock has changed, in
    Redis, MySQL, Kafka and the memory of the logic process; registration and
    login are the only exceptions. *)
Theorem gateway_requires_session s c flight own act path r body w resp w' :
  sess_rep own act (v_rds (view w)) ->
  (forall h, match_route path routes = Some h -> is_public h = false
     /\ forall sid uid ex, presented h r body = Some sid -> act !! uid = Some (sid, ex) -> ex <= v_now (view w)) ->
  exec (ServeHTTP (logic_auth s) (logic_chat c flight) path r body) w = (resp, w') ->
  (exists msg status, resp = HttpError msg status) /\ waited (view w) (view w').
Proof.
  intros R Hn Hrun. enough (refused (view w) resp (view w')) as [? ?] by done.
  by_wp Hrun. unfold ServeHTTP. destruct (match_route path routes) as [h|]; [|apply refused_now].
  destruct (Hn h eq_refl). by eapply wp_refused.
Qed.
End theorems.
