(* ===== verification/SessionPool.v ===== *)
(** * Sessions under concurrency

    Any number of Register, Login, Verify and Logout requests run at the same
    time, call by call, with failures: the two Redis indexes stay the two sides
    of one map from users to sessions. *)

From Stdlib Require Import ZArith Lia String.
From stdpp Require Import base tactics list gmap strings.
From S2P Require Import Prelude GoStd Effects Redis Database Proto World Rules Store Sessions Auth AuthSpec.

Local Open Scope string_scope.
Local Open Scope Z_scope.

Inductive auth_op :=
| OpRegister (req : RegisterRequest)
| OpLogin (req : LoginRequest)
| OpVerify (req : VerifyRequest)
| OpLogout (req : LogoutRequest).

Definition auth_prog `{Crypto} `{Collation} {M} (s : Store) (op : auth_op) : prog (ev M) unit :=
  match op with
  | OpRegister req => r <- Register req ;; Ret tt
  | OpLogin req => r <- Login s req ;; Ret tt
  | OpVerify req => r <- Verify req ;; Ret tt
  | OpLogout req => r <- Logout req ;; Ret tt
  end.

(** What is known for good: the user each session was issued to, and rows of the
    table of users. *)
Abbreviation known := (owners * list User)%type.
Definition known_le : relation known := prod_relation (⊆) (⊆).

#[export] Instance known_le_pre : PreOrder known_le.
Proof. split; unfold known_le; apply _. Qed.

(** A login with the password of the user. *)
Definition login_of `{Crypto} `{Collation} (users : list User) (u : Z) (req : LoginRequest) : Prop :=
  exists user, user ∈ users /\ u_ID user = u /\ sql_eq (u_Username user) (lr_Username req) = true
    /\ CompareHashAndPassword (u_PasswordHash user) (lr_Password req) = true.

(** A goroutine of another service that sleeps will not touch the index. *)
Definition index_key (key : string) : Prop := (exists sid, key = sessionKey sid) \/ exists u, key = userSessionKey u.
Definition sleeps_elsewhere (p : Z * rcmd Z) : Prop := exists key, p.2 = DEL key /\ ~ index_key key.

Lemma insert_user_grows `{Collation} name h now ai t x t' :
  fresh_ids ai t -> (x, t') = insert_user name h now ai t ->
  t_users t' = t_users t \/ exists user, 0 < u_ID user <= max_int64 /\ t_users t' = (t_users t ++ [user])%list.
Proof.
  intros [[Hpos _] _]. unfold insert_user, insert_id. repeat case_match; intros Hx; simplify_eq/=; auto.
  right. eexists. split; [|done]. cbn. lia.
Qed.

Section pool.
Context `{HC : Crypto} `{HCo : Collation} {M : Type} (fl : bool) (s : Store) (Httl : 0 < ttl_seconds s).
(** What is known of every user id, and holds of those MySQL gives. *)
Context (good : Z -> Prop) (Hgood : forall id, 0 < id <= max_int64 -> good id).
(** The sessions of the start, and the requests that arrive. *)
Context (start : owners) (allowed : auth_op -> Prop).
Implicit Types v : sysview M.

Definition issued (k : known) : Prop :=
  forall sid u, k.1 !! sid = Some u -> start !! sid = Some u \/ exists req, allowed (OpLogin req) /\ login_of k.2 u req.

(** The index implements some map; sessions were generated here, by logins;
    user ids fit their column and rows of users stay. *)
Record auth_I (k : known) v : Prop := {
  ai_rep : exists act, sess_rep k.1 act (v_rds v);
  ai_dom : dom k.1 ⊆ v_uuids v;
  ai_ids : users_ok (v_db v);
  ai_good : Forall (fun u => good (u_ID u)) (t_users (v_db v));
  ai_asleep : Forall sleeps_elsewhere (v_spawned v);
  ai_rows : k.2 ⊆ t_users (v_db v);
  ai_issued : issued k }.

Abbreviation rga := (rg (ext fl) known_le auth_I).

Lemma auth_I_tick k t v : auth_I k v -> auth_I k (tick t v).
Proof. intros [[act R] H2 H3 H4 H5 H6 H7]. split; [|done..]. exists (act_expire t act). by apply rep_purge. Qed.

Lemma auth_I_rds k ks act t v : auth_I k v -> sess_rep k.1 act ks -> auth_I k (set_rds ks (tick t v)).
Proof. intros [_ H2 H3 H4 H5 H6 H7] R. split; [by exists act|done..]. Qed.

Lemma known_own (k k' : known) sid u : known_le k k' -> k.1 !! sid = Some u -> k'.1 !! sid = Some u.
Proof. intros [Hle _] Ho. by eapply lookup_weaken. Qed.

Lemma login_of_mono (us us' : list User) u req : us ⊆ us' -> login_of us u req -> login_of us' u req.
Proof. intros Hle (user & Hin & Hrest). exists user. split; [by apply Hle|done]. Qed.

(** An event after which only time has passed. *)
Lemma rg_quiet {A X} k (e : ev M X) (f : X -> prog (ev M) A) Q :
  (forall k' v, known_le k k' -> auth_I k' v ->
    wp (ext fl) (call e) v (fun x v' => (exists t, v' = tick t v) /\ rga k' (f x) Q)) ->
  rga k (Vis e f) Q.
Proof.
  intros Hk. apply rg_vis. intros k' v Hle HI. eapply wp_mono; [by apply Hk|].
  intros x v' [[t ->] Hrg]. exists k'. split; [reflexivity|]. split; [by apply auth_I_tick|done].
Qed.

(** The rows a query saw are known from then on. *)
Lemma rg_query {A B} k (q : tables -> res A) (f : res A -> prog (ev M) B) Q :
  (forall k' t, known_le k k' -> users_ok t -> t_users t = k'.2 -> rga k' (f (q t)) Q) ->
  (forall k' msg, known_le k k' -> rga k' (f (Err (ErrExt msg))) Q) ->
  rga k (Vis (Sql (Scan q)) f) Q.
Proof.
  intros Hk He. apply rg_vis. intros k' v Hle HI. apply wp_scan. intros t x Ht Hx. cbn [wp].
  set (k2 := (k'.1, t_users (v_db v)) : known).
  assert (known_le k' k2) as Hle2 by (split; [done|apply HI]).
  exists k2. split; [done|]. split.
  - destruct (auth_I_tick k' t v HI) as [H1 H2 H3 H4 H5 H6 H7]. split; try done.
    intros sid u Ho. destruct (H7 sid u Ho) as [?|(req & Ha & Hl)]; [by left|]. right. exists req.
    split; [done|]. eapply login_of_mono, Hl. apply Hle2.
  - assert (known_le k k2) as Hle3 by by transitivity k'.
    destruct Hx as [-> | [_ [msg ->]]]; [apply Hk; [done|apply HI|done]|by apply He].
Qed.

Lemma rg_get {A} k key (f : res (option string) -> prog (ev M) A) Q :
  (forall k' v act r, known_le k k' -> auth_I k' v -> sess_rep k'.1 act (v_rds v) -> r = get_string (v_rds v !! key) -> rga k' (f r) Q) ->
  (forall k' msg, known_le k k' -> rga k' (f (Err (ErrExt msg))) Q) ->
  rga k (Vis (Rds (GET key)) f) Q.
Proof.
  intros Hk He. apply rg_quiet. intros k' v Hle HI. destruct (ai_rep _ _ HI) as [act R]. apply wp_read; [done|].
  intros t r Ht Hr. cbn [wp]. split; [by exists t|]. destruct Hr as [Hr | [_ [msg ->]]]; [|by apply He].
  eapply (Hk k' (tick t v)); [done|by apply auth_I_tick|by apply rep_purge|done].
Qed.

Lemma rg_insert_user {A} k name h now (f : res Z -> prog (ev M) A) Q :
  (forall k' x, known_le k k' -> rga k' (f x) Q) ->
  rga k (Vis (Sql (Stmt (insert_user name h now))) f) Q.
Proof using Hgood.
  clear Httl s.
  intros Hk. apply rg_vis. intros k' v Hle HI. apply wp_sql. intros t x db Ht Hx. cbn [wp].
  exists k'. split; [reflexivity|]. split; [|by apply Hk].
  assert (users_ok db /\ Forall (fun u => good (u_ID u)) (t_users db) /\ t_users (v_db v) ⊆ t_users db) as (Hdb & Hg & Hsub).
  { assert (forall x0, stmt_run (Stmt (insert_user name h now)) (v_db v) x0 db ->
      users_ok db /\ Forall (fun u => good (u_ID u)) (t_users db) /\ t_users (v_db v) ⊆ t_users db) as Hrun.
    { intros x0 (ai & Hai & Hs). apply insert_user_grows in Hs as [Heq|(user & Hid & Heq)]; [| |done]; unfold users_ok; rewrite Heq.
      - split_and!; [apply HI|apply HI|done].
      - split_and!; [apply Forall_app; split; [apply HI|]|apply Forall_app; split; [apply HI|]|set_solver];
          apply Forall_singleton; [unfold in_int64, min_int64; lia|by apply Hgood]. }
    destruct Hx as [Hx | [_ [-> | [x0 Hx]]]]; [by eapply Hrun|split; [apply HI|split; [apply HI|done]]|by eapply Hrun]. }
  destruct (auth_I_tick k' t v HI) as [R H2 _ _ H4 H5 H6]. split; try done. cbn in *. set_solver.
Qed.

(** The scripts: applied or not, the index implements a map. *)
Lemma rg_refresh {A} k uid sid (f : res Z -> prog (ev M) A) Q :
  in_int64 uid -> k.1 !! sid = Some uid -> (forall k' r, known_le k k' -> rga k' (f r) Q) ->
  rga k (Vis (RdsEval (refresh_script (userSessionKey uid) redisSessPrefix sid (FormatInt uid) (ttl_seconds s))) f) Q.
Proof using Httl Hgood.
  intros Hu Ho Hk. apply rg_vis. intros k' v Hle HI. destruct (ai_rep _ _ HI) as [act R].
  apply wp_eval. intros t r ks Ht Hr. cbn [wp]. exists k'. split; [reflexivity|]. split; [|by apply Hk].
  pose proof (rep_purge k'.1 t act _ R) as R1. rewrite (refresh_script_run k'.1 _ _ _ _ _ _ Httl Hu R1) in Hr.
  assert (k'.1 !! sid = Some uid) as Ho' by by eapply known_own.
  pose proof (rep_login k'.1 t (ttl_seconds s) _ _ _ _ Hu Ho' R1) as R2.
  destruct Hr as [Hr | [_ [-> | ->]]]; [simplify_eq| |]; by eapply auth_I_rds.
Qed.

Lemma rg_delete {A} k uid sid (f : res Z -> prog (ev M) A) Q :
  in_int64 uid -> k.1 !! sid = Some uid -> (forall k' r, known_le k k' -> rga k' (f r) Q) ->
  rga k (Vis (RdsEval (delete_script (sessionKey sid) (userSessionKey uid) sid)) f) Q.
Proof.
  intros Hu Ho Hk. apply rg_vis. intros k' v Hle HI. destruct (ai_rep _ _ HI) as [act R].
  apply wp_eval. intros t r ks Ht Hr. cbn [wp]. exists k'. split; [reflexivity|]. split; [|by apply Hk].
  pose proof (rep_purge k'.1 t act _ R) as R1. rewrite (delete_script_run k'.1 t _ _ _ sid Hu R1) in Hr.
  assert (k'.1 !! sid = Some uid) as Ho' by by eapply known_own.
  pose proof (rep_logout k'.1 _ _ uid sid Hu Ho' R1) as R2.
  destruct Hr as [Hr | [_ [-> | ->]]]; [simplify_eq| |]; by eapply auth_I_rds.
Qed.

(** A new session id belongs to nobody yet; it is issued to a login. *)
Lemma rg_new_session {A} k uid req (f : string -> prog (ev M) A) Q :
  allowed (OpLogin req) -> login_of k.2 uid req ->
  (forall k' sid, known_le k k' -> k'.1 !! sid = Some uid -> rga k' (f sid) Q) ->
  rga k (Vis NewUUID f) Q.
Proof.
  intros Ha Hl Hk. apply rg_vis. intros k' v Hle HI. apply wp_uuid. intros t sid Ht _ Hfresh. cbn [wp].
  destruct HI as [[act R] Hd Hu Hgd Hsp Hrows Hiss]. assert (k'.1 !! sid = None) as Hnone by (apply not_elem_of_dom; set_solver).
  set (k2 := (<[sid := uid]> k'.1, k'.2) : known).
  assert (known_le k' k2) as Hle2 by (split; [by apply insert_subseteq|done]).
  exists k2. split; [done|]. split.
  - split; try done; cbn [k2 fst snd].
    + exists (act_expire t act). eapply rep_own_mono; [by apply insert_subseteq|by apply rep_purge].
    + cbn. rewrite dom_insert. set_solver.
    + intros sid' u Ho. change (<[sid := uid]> k'.1 !! sid' = Some u) in Ho.
      apply lookup_insert_Some in Ho as [[<- <-]|[_ Ho]]; [|by apply Hiss]. right. exists req. split; [done|].
      eapply login_of_mono, Hl. apply Hle.
  - apply Hk; [by transitivity k'|apply lookup_insert_eq].
Qed.

(** The four methods. *)
Lemma rg_Register k req : rga k (Register req) (fun _ _ => True).
Proof using Hgood.
  unfold Register. destruct (_ || _); [done|]. cbn [bind call]. apply rg_quiet. intros k1 v _ _.
  apply wp_bcrypt; [intros t h Ht _ _|intros t msg Ht _]; cbn [wp]; (split; [by exists t|]); [|done].
  unfold CreateUser. cbn [bind call]. apply rg_quiet. intros k2 v2 _ _. apply wp_now. intros t2 x _.
  split; [by exists t2|]. cbn [bind]. apply rg_insert_user. intros k3 [id|e] _; done.
Qed.

Lemma rg_Login k req : allowed (OpLogin req) ->
  rga k (Login s req) (fun k' r => match r with Ok lp => k'.1 !! lp_SessionId lp = Some (lp_UserId lp) | Err _ => True end).
Proof using Httl Hgood.
  intros Ha. unfold Login. destruct (_ || _); [done|]. cbn [bind call]. apply rg_query; [|done].
  intros k1 t Hle Hu Hrows. destruct (Take _ _) as [user|e] eqn:Hq; [|by destruct e].
  destruct (CompareHashAndPassword _ _) eqn:Hpw; [|done]. apply Take_Ok in Hq as [Hin Hname].
  assert (in_int64 (u_ID user)) as Hid by (unfold users_ok in Hu; rewrite Forall_forall in Hu; by apply Hu, list_elem_of_In).
  cbn [bind]. apply (rg_new_session _ (u_ID user) req); [done| |].
  { exists user. split_and!; [|done..]. rewrite <- Hrows. by apply list_elem_of_In. }
  intros k2 sid _ Ho. unfold RefreshSession. cbn [bind call].
  apply rg_refresh; [done|done|]. intros k3 r Hle3. destruct r as [n|e]; [|done]. cbn [res_map bind].
  unfold ListUserSmallGroups. cbn [bind call]. apply rg_query; [|done]. intros k4 t4 Hle4 _ _. cbn.
  eapply known_own; [|exact Ho]. by transitivity k3.
Qed.

(** The user of a session was known at the start or has logged in. *)
Lemma issued_good k v sid u :
  (forall sid u, start !! sid = Some u -> good u) -> auth_I k v -> k.1 !! sid = Some u -> good u.
Proof.
  intros Hstart HI Ho. destruct (ai_issued _ _ HI sid u Ho) as [?|(req & _ & user & Hin & <- & _)]; [by eapply Hstart|].
  pose proof (ai_good _ _ HI) as Hg. rewrite Forall_forall in Hg. apply Hg. by apply (ai_rows _ _ HI).
Qed.

(** An answer of Verify is the user the session was issued to. *)
Lemma rg_Verify k req :
  (forall sid u, start !! sid = Some u -> good u) ->
  rga k (Verify req) (fun k' r => match r with
    | Ok rp => k'.1 !! vr_SessionId req = Some (vp_UserId rp) /\ in_int64 (vp_UserId rp) /\ good (vp_UserId rp)
    | Err _ => True end).
Proof.
  intros Hstart. unfold Verify. destruct (String.eqb _ _); [done|]. unfold IsSessionActive. cbn [bind call].
  apply rg_get; [|done]. intros k1 v act r _ HI R ->.
  destruct (rep_get_sess k1.1 _ _ (vr_SessionId req) R) as [(uid & ex & Ha & -> & Hin) | [_ ->]]; [|done].
  assert (k1.1 !! vr_SessionId req = Some uid) as Ho by by apply (rep_own _ _ _ R) in Ha as [].
  cbn [bind]. rewrite ParseInt_FormatInt by done. cbn [bind call]. apply rg_get; [|done]. intros k2 v2 act2 r2 Hle2 _ R2 ->.
  rewrite (rep_get_user _ _ _ _ R2 Hin). destruct (act2 !! uid) as [[sid' ex']|]; [|done]. cbn.
  destruct (String.eqb sid' _); [|done]. cbn. split_and!; [by eapply known_own|done|by eapply issued_good].
Qed.

Lemma rg_Logout k req : rga k (Logout req) (fun _ _ => True).
Proof.
  unfold Logout. destruct (String.eqb _ _); [done|]. unfold DeleteSession. cbn [bind call].
  apply rg_get; [|done]. intros k1 v act r _ _ R ->.
  destruct (rep_get_sess k1.1 _ _ (lo_SessionId req) R) as [(uid & ex & Ha & -> & Hin) | [_ ->]]; [|done].
  cbn [bind]. rewrite ParseInt_FormatInt by done. cbn [bind call]. apply rg_delete; [done|by apply (rep_own _ _ _ R) in Ha as []|].
  intros k2 r2 _. by destruct r2.
Qed.

Lemma rg_auth_prog k op : (forall sid u, start !! sid = Some u -> good u) -> allowed op -> rga k (auth_prog s op) (fun _ _ => True).
Proof using Httl Hgood.
  intros Hs Ha. destruct op as [req|req|req|req]; cbn [auth_prog]; apply rg_bind; (eapply rg_conseq; [apply _| |done]);
    [apply rg_Register|by apply rg_Login|by apply rg_Verify|apply rg_Logout].
Qed.

(** A sleeping goroutine wakes up. *)
Lemma auth_I_env k v v' : auth_I k v -> env v v' -> auth_I k v'.
Proof.
  intros HI (t & l1 & due & c & l2 & Ht & Heq & _ & Hv). pose proof (ai_asleep _ _ HI) as Hsp. rewrite Heq in Hsp.
  apply Forall_app in Hsp as [Hs1 [(key & Hc & Hkey) Hs2]%Forall_cons]. cbn in Hc. subst c.
  destruct (auth_I_tick k t v HI) as [[act R] H2 H3 H4 H5 H6 H7]. cbn in *.
  destruct Hv as [-> | ->]; split; cbn; try done; try by apply Forall_app.
  - by exists act.
  - exists act. eapply rep_frame; [| |exact R]; intros; apply lookup_delete_ne; intros ->; apply Hkey; [left|right]; by eexists.
Qed.

(** Every reachable state satisfies the invariant. *)
Lemma auth_pool_inv k v ps' v' :
  (forall sid u, start !! sid = Some u -> good u) -> auth_I k v ->
  pool_reachable (ext fl) env (fun p => exists op, allowed op /\ p = auth_prog s op) ([], v) (ps', v') ->
  exists k', known_le k k' /\ auth_I k' v'.
Proof using Httl Hgood.
  intros Hstart HI Hrun.
  assert (forall k s0 s1, auth_I k s0 -> env s0 s1 -> exists k', known_le k k' /\ auth_I k' s1) as Henv
    by (intros k0 s0 s1 H1 H2; exists k0; split; [reflexivity|by eapply auth_I_env]).
  assert (forall k (p : prog (ev M) unit), (exists op, allowed op /\ p = auth_prog s op) -> rga k p (fun _ _ => True)) as Hreq
    by (intros k0 p (op & Ha & ->); by apply rg_auth_prog).
  destruct (pool_invariant (ext fl) env known_le auth_I _ Henv Hreq _ _ _ _ k Hrun HI) as (k' & Hle & HI' & _);
    [constructor|by exists k'].
Qed.

(** The sessions of the start, with no row of the table of users. *)
Lemma auth_I_start act v :
  sess_rep start act (v_rds v) -> dom start ⊆ v_uuids v -> users_ok (v_db v) ->
  Forall (fun u => good (u_ID u)) (t_users (v_db v)) -> v_spawned v = [] -> auth_I (start, []) v.
Proof. intros R Hd Hu Hg Hsp. split; try done; [by exists act|by rewrite Hsp|apply list_subseteq_nil|by left]. Qed.
End pool.

(** ** Theorems *)
Section theorems.
Context `{HC : Crypto} `{HCo : Collation} {M : Type} {fl : bool}.

(** C8. One session per user, always: under every interleaving of
    registrations, logins, checks and logouts, with failing calls, every
    stored session names a user whose index entry names that session, with
    the same expiry; hence no user ever has two sessions. *)
Theorem one_session_per_user s own act (v : sysview M) ps' v' :
  0 < ttl_seconds s -> sess_rep own act (v_rds v) -> dom own ⊆ v_uuids v -> users_ok (v_db v) -> v_spawned v = [] ->
  pool_reachable (ext fl) env (fun p => exists op, p = auth_prog s op) ([], v) (ps', v') ->
  (forall sid e, v_rds v' !! sessionKey sid = Some e -> exists uid ex, in_int64 uid
      /\ e = sess_entry uid ex /\ v_rds v' !! userSessionKey uid = Some (user_entry (sid, ex)))
  /\ (forall sid1 sid2 uid ex1 ex2, v_rds v' !! sessionKey sid1 = Some (sess_entry uid ex1) ->
        v_rds v' !! sessionKey sid2 = Some (sess_entry uid ex2) -> in_int64 uid -> sid1 = sid2).
Proof.
  intros Httl R Hd Hu Hsp Hrun.
  destruct (auth_pool_inv fl s Httl (fun _ => True) (fun _ _ => I) own (fun _ => True) (own, []) v ps' v')
    as ([own' us] & _ & [[act' R'] _ _ _ _ _ _]); [done|eapply auth_I_start; [exact R|done|done|by apply Forall_true|done]|eapply pool_mono, Hrun; intros p [op ->]; by exists op|].
  cbn in R'. split.
  - intros sid e He. apply (rep_sess _ _ _ R') in He as (uid & ex & Ha & ->).
    apply (rep_own _ _ _ R') in Ha as Ho. destruct Ho as [Hin _]. exists uid, ex. split_and!; [done|done|].
    by rewrite (rep_user _ _ _ R' uid Hin), Ha.
  - intros sid1 sid2 uid ex1 ex2 H1 H2 Hin.
    apply (rep_sess _ _ _ R') in H1 as (u1 & e1 & Ha1 & Heq1). apply (rep_sess _ _ _ R') in H2 as (u2 & e2 & Ha2 & Heq2).
    apply (rep_own _ _ _ R') in Ha1 as Ho1. apply (rep_own _ _ _ R') in Ha2 as Ho2. destruct Ho1 as [Hi1 _], Ho2 as [Hi2 _].
    unfold sess_entry in Heq1, Heq2. injection Heq1 as Heq1 _. injection Heq2 as Heq2 _.
    apply FormatInt_inj in Heq1 as <-; [|done|done]. apply FormatInt_inj in Heq2 as <-; [|done|done]. congruence.
Qed.
End theorems.
