(* ===== verification/Knowledge.v ===== *)
(** * What the whole system knows

    The invariants of the sessions (SessionPool.v), of the groups (GroupPool.v)
    and of what has been sent, together: whose session a record in Kafka comes
    from, and which record a call to a connect node comes from.  Every program
    of the logic service keeps them, behind the handlers of the gateway. *)

From Stdlib Require Import ZArith Lia String.
From stdpp Require Import base tactics list gmap strings.
From S2P Require Import Prelude GoStd Effects Redis Database Proto World Rules Frames Store Sessions Auth AuthSpec.
From S2P Require Import GroupServer GroupSpec GroupPool ChatServer Api Gateway SessionPool.

Local Open Scope string_scope.
Local Open Scope Z_scope.

(** ** Sessions and groups side by side *)

Definition same_users (t t' : tables) : Prop := t_users t' = t_users t.
Definition same_groups (t t' : tables) : Prop := t_groups t' = t_groups t /\ t_members t' = t_members t.

#[export] Instance same_users_pre : PreOrder same_users.
Proof. split; unfold same_users; [done|]. intros t1 t2 t3 H1 H2. congruence. Qed.

#[export] Instance same_groups_pre : PreOrder same_groups.
Proof. split; unfold same_groups; [done|]. intros t1 t2 t3 [] []. split; congruence. Qed.

Lemma group_key_not_index key : group_key key -> ~ index_key key.
Proof. intros [gid ->] [[sid H]|[u H]]; done. Qed.

Lemma groups_inv_same t t' : same_groups t t' -> groups_inv t -> groups_inv t'.
Proof.
  intros [H1 H2] [I1 I2 I3 I4]. split; rewrite ?H1, ?H2; try done. intros g Hg. rewrite I4 by done.
  unfold member_rows. by rewrite H2.
Qed.

Lemma knows_same g t t' : same_groups t t' -> knows g t -> knows g t'.
Proof. intros [_ H2]. apply knows_grow. split; intros gid uid; unfold active_members, is_member; by rewrite H2. Qed.

(** Calls that leave the sessions, or the groups, alone. *)
Abbreviation not_sessions := (event_within index_key same_users sleeps_elsewhere).
Abbreviation not_groups := (event_within group_key same_groups deletes_members).

Section frames.
Context `{HC : Crypto} `{HCo : Collation} {M : Type} (fl : bool).
Implicit Types v : sysview M.

Lemma auth_I_within good start allowed k v v' :
  within index_key same_users sleeps_elsewhere v v' -> auth_I good start allowed k v -> auth_I good start allowed k v'.
Proof.
  intros [_ Hk Hu Hd Hs] [[act R] H2 H3 H4 H5 H6 H7]. unfold same_users in Hu. split; unfold users_ok; rewrite ?Hu; auto.
  - exists (act_expire (v_now v') act).
    eapply rep_frame; [| |exact (rep_purge k.1 (v_now v') act _ R)]; intros; apply Hk; [left|right]; by eexists.
  - by transitivity (v_uuids v).
Qed.

Lemma group_I_within g v v' :
  within group_key same_groups deletes_members v v' -> group_I g v -> group_I g v'.
Proof.
  intros [_ Hk Hg Hd Hs] (H1 & H2 & H3 & H4 & H5). split_and!; [by eapply groups_inv_same| |by eapply knows_same| |auto].
  - unfold members_ok. destruct Hg as [_ ->]. exact H2.
  - intros gid e Hin He. rewrite Hk in He by (by exists gid). exact (cache_sound_purge _ _ _ H4 gid e Hin He).
Qed.

Lemma keeps_auth_I good start allowed X (e : ev M X) : not_sessions e -> keeps (ext fl) (auth_I good start allowed) e.
Proof. intros He k v x v' HI Hx. eapply auth_I_within; [by eapply ext_within; [apply _|exact He|exact Hx]|done]. Qed.

Lemma keeps_group_I X (e : ev M X) : not_groups e -> keeps (ext fl) group_I e.
Proof. intros He g v x v' HI Hx. eapply group_I_within; [by eapply ext_within; [apply _|exact He|exact Hx]|done]. Qed.
End frames.

(** ** Records and calls *)

(** Sessions, memberships, and the records known to be in Kafka. *)
Abbreviation awareness := (known * facts * list kmsg)%type.
Definition aware_le : relation awareness := prod_relation (prod_relation known_le facts_le) (⊆).

#[export] Instance aware_le_pre : PreOrder aware_le.
Proof. split; unfold aware_le; apply _. Qed.

Section knowledge.
Context `{HC : Crypto} `{HCo : Collation} `{HCd : Codec} `{HJb : JsonBodies} (fl : bool).
(** The services, the sessions of the start, and the HTTP requests that reach
    the gateway. *)
Context (s : Store) (c : ChatServer) (start : owners) (http : string -> http_request -> string -> Prop).

(** The session an HTTP request presents is one of user [u]. *)
Definition session_of (x : awareness) (r : http_request) (u : Z) : Prop := x.1.1.1 !! hr_Authorization r = Some u.

(** [u] is an active member of group [gid]. *)
Definition member_of (x : awareness) (gid u : Z) : Prop := (gid, u) ∈ x.1.2.1.

(** The request a record of each topic comes from: posted by the user the
    message names as its sender, for a group by an active member. *)
Definition private_posted (x : awareness) (payload : string) (m : Message) : Prop :=
  Unmarshal_Message payload = Ok m /\ exists r body b, http "/api/send" r body /\ json_send body = Some b
    /\ session_of x r (m_FromUserId m) /\ m_ToUserId m = mq_ToUserID b /\ m_Content m = mq_Content b.

Definition group_posted (x : awareness) (payload : string) (m : GroupMessage) : Prop :=
  Unmarshal_GroupMessage payload = Ok m /\ exists r body b, http "/api/groupsend" r body /\ json_groupsend body = Some b
    /\ session_of x r (gm_FromUserId m) /\ gm_GroupId m = gq_GroupID b /\ gm_Content m = gq_Content b
    /\ in_int64 (gm_GroupId m) /\ member_of x (gm_GroupId m) (gm_FromUserId m).

Definition room_posted (x : awareness) (payload : string) (m : RoomMessage) : Prop :=
  Unmarshal_RoomMessage payload = Ok m /\ exists r body b, http "/api/roomsend" r body /\ json_roomsend body = Some b
    /\ session_of x r (rm_FromUserId m) /\ rm_RoomId m = rq_RoomID b /\ rm_Content m = rq_Content b.

Definition record_ok (x : awareness) (k : kmsg) : Prop :=
  (k_Topic k = ChatTopic c -> exists m, private_posted x (k_Value k) m)
  /\ (k_Topic k = GroupChatTopic c -> exists m, group_posted x (k_Value k) m)
  /\ (k_Topic k = RommChatTopic c -> exists m, room_posted x (k_Value k) m).

(** The record a call to a connect node comes from, and whom it may name. *)
Definition call_ok (x : awareness) (call : ConnectCall) : Prop :=
  match call with
  | PushMsg req => exists k m, k ∈ x.2 /\ k_Topic k = ChatTopic c /\ k_Value k = pmr_Payload req
      /\ private_posted x (k_Value k) m /\ pmr_ToUserId req = m_ToUserId m
  | PushMsgToUsers req => exists k m, k ∈ x.2 /\ k_Topic k = GroupChatTopic c /\ k_Value k = par_Payload req
      /\ group_posted x (k_Value k) m /\ forall u, u ∈ par_UserIds req -> member_of x (gm_GroupId m) u
  | BroadcastRoom req => exists k m, k ∈ x.2 /\ k_Topic k = RommChatTopic c /\ k_Value k = brr_Payload req
      /\ room_posted x (k_Value k) m /\ brr_RoomId req = rm_RoomId m
  end.

(** Logins come through the gateway; other calls of the authentication service
    from anywhere. *)
Definition auth_requests (op : auth_op) : Prop :=
  match op with
  | OpLogin req => exists r body b, http "/api/login" r body /\ json_credentials body = Some b
      /\ lr_Username req = cr_Username b /\ lr_Password req = cr_Password b
  | _ => True
  end.

Definition positive (u : Z) : Prop := 0 < u.

(** The invariant of Redis, MySQL, Kafka and the calls made. *)
Record world_ok {M} (x : awareness) (v : sysview M) : Prop := {
  wo_auth : auth_I positive start auth_requests x.1.1 v;
  wo_group : group_I x.1.2 v;
  wo_known : x.2 ⊆ v_log v;
  wo_log : Forall (record_ok x) (v_log v);
  wo_calls : Forall (fun p => call_ok x p.2) (v_calls v) }.

(** *** What is known stays known *)
Lemma session_of_mono x x' r u : aware_le x x' -> session_of x r u -> session_of x' r u.
Proof. intros [[[Hle _] _] _] H. by eapply lookup_weaken. Qed.

Lemma member_of_mono x x' gid u : aware_le x x' -> member_of x gid u -> member_of x' gid u.
Proof. intros [[_ [Hle _]] _] H. by apply Hle. Qed.

Lemma private_posted_mono x x' p m : aware_le x x' -> private_posted x p m -> private_posted x' p m.
Proof.
  intros Hle (Hd & r & body & b & H1 & H2 & H3 & Hrest). split; [done|]. exists r, body, b.
  split_and!; try apply Hrest; try done. by eapply session_of_mono.
Qed.

Lemma group_posted_mono x x' p m : aware_le x x' -> group_posted x p m -> group_posted x' p m.
Proof.
  intros Hle (Hd & r & body & b & H1 & H2 & H3 & H4 & H5 & H6 & H7). split; [done|]. exists r, body, b.
  split_and!; try done; [by eapply session_of_mono|by eapply member_of_mono].
Qed.

Lemma room_posted_mono x x' p m : aware_le x x' -> room_posted x p m -> room_posted x' p m.
Proof.
  intros Hle (Hd & r & body & b & H1 & H2 & H3 & Hrest). split; [done|]. exists r, body, b.
  split_and!; try apply Hrest; try done. by eapply session_of_mono.
Qed.

Lemma record_ok_mono x x' k : aware_le x x' -> record_ok x k -> record_ok x' k.
Proof.
  intros Hle (H1 & H2 & H3). split_and!; intros Ht.
  - destruct (H1 Ht) as [m Hm]. exists m. by eapply private_posted_mono.
  - destruct (H2 Ht) as [m Hm]. exists m. by eapply group_posted_mono.
  - destruct (H3 Ht) as [m Hm]. exists m. by eapply room_posted_mono.
Qed.

Lemma call_ok_mono x x' call : aware_le x x' -> call_ok x call -> call_ok x' call.
Proof.
  intros Hle. pose proof Hle as [_ Hlog]. destruct call as [req|req|req]; intros (k & m & Hk & Ht & Hv & Hp & Hrest);
    exists k, m; (split_and!; [by apply Hlog|done|done| |]).
  - by eapply private_posted_mono.
  - done.
  - by eapply group_posted_mono.
  - intros u Hu. eapply member_of_mono; [done|auto].
  - by eapply room_posted_mono.
  - done.
Qed.

(** ** Programs that keep it *)
Section programs.
Context {M : Type}.
Implicit Types v : sysview M.
Abbreviation rgw := (rg (ext (M := M) fl) aware_le (@world_ok M)).

Lemma world_tick x t v : world_ok x v -> world_ok x (tick t v).
Proof. intros [H1 H2 H3 H4 H5]. split; [by apply auth_I_tick|by apply group_I_tick|done..]. Qed.

(** New knowledge about sessions and members, Kafka and the calls as before. *)
Lemma world_step x a v v' :
  world_ok x v -> prod_relation known_le facts_le x.1 a ->
  auth_I positive start auth_requests a.1 v' -> group_I a.2 v' -> v_log v' = v_log v -> v_calls v' = v_calls v ->
  world_ok (a, x.2) v'.
Proof.
  intros [H1 H2 H3 H4 H5] Hle HA HG Hl Hc. assert (aware_le x (a, x.2)) as Hx by by split.
  split; cbn; rewrite ?Hl, ?Hc; try done.
  - eapply Forall_impl; [exact H4|]. intros k. by apply record_ok_mono.
  - eapply Forall_impl; [exact H5|]. intros k. by apply call_ok_mono.
Qed.

(** A program for which sessions and groups are accounted for and that sends
    nothing. *)
Lemma rgw_inbound {A} x (p : prog (ev M) A) Q :
  rg (ext fl) (prod_relation known_le facts_le)
    (fun a v => auth_I positive start auth_requests a.1 v /\ group_I a.2 v) x.1 p Q ->
  all_events (fun _ e => outbound e = false) p ->
  rgw x p (fun x' r => Q x'.1 r).
Proof.
  destruct x as [a lg]. cbn. revert a lg. induction p as [r|X e k IH]; intros a lg; cbn; [done|]. intros Hrg [He Hk].
  intros [a1 lg1] v y v' [Ha Hlg] HI Hy. cbn in *. pose proof HI as [H1 H2 H3 H4 H5].
  destruct (Hrg a1 v y v' Ha (conj H1 H2) Hy) as (a2 & Ha2 & [HA HG] & Hrg2). exists (a2, lg1).
  split; [by split|]. split; [|by apply IH].
  apply (ext_inbound fl e) in Hy as [Hl Hc]; [|done]. by eapply (world_step (a1, lg1)).
Qed.

(** A program of the session methods. *)
Lemma rgw_auth {A} x (p : prog (ev M) A) Q :
  rg (ext fl) known_le (auth_I positive start auth_requests) x.1.1 p Q ->
  all_events (fun _ e => not_groups e) p -> all_events (fun _ e => outbound e = false) p ->
  rgw x p (fun x' r => Q x'.1.1 r).
Proof.
  intros Hp Hg Ho. eapply rg_conseq; [apply _|apply (rgw_inbound x p (fun a r => Q a.1 r /\ True))|].
  - destruct x as [[k f] lg]. apply (rg_both _ _ _ _ group_I k f p Q (fun _ _ => True)); [exact Hp|].
    apply rg_all_events; [apply _|]. eapply all_events_impl; [|exact Hg]. intros X e. by apply keeps_group_I.
  - done.
  - by intros x' r _ [? _].
Qed.

(** A program of the group methods. *)
Lemma rgw_group {A} x (p : prog (ev M) A) Q :
  rg (ext fl) facts_le group_I x.1.2 p Q ->
  all_events (fun _ e => not_sessions e) p -> all_events (fun _ e => outbound e = false) p ->
  rgw x p (fun x' r => Q x'.1.2 r).
Proof.
  intros Hp Hg Ho. eapply rg_conseq; [apply _|apply (rgw_inbound x p (fun a r => True /\ Q a.2 r))|].
  - destruct x as [[k f] lg]. apply (rg_both _ _ _ (auth_I positive start auth_requests) group_I k f p (fun _ _ => True) Q); [|exact Hp].
    apply rg_all_events; [apply _|]. eapply all_events_impl; [|exact Hg]. intros X e. by apply keeps_auth_I.
  - done.
  - by intros x' r _ [_ ?].
Qed.

(** A call that has nothing to do with any of it. *)
Definition unrelated {X} (e : ev M X) : Prop := not_sessions e /\ not_groups e /\ outbound e = false.

Lemma keeps_world X (e : ev M X) : unrelated e -> keeps (ext fl) (@world_ok M) e.
Proof.
  intros (H1 & H2 & H3) x v y v' HI Hy. replace x with (x.1, x.2) by by destruct x.
  apply (world_step x x.1 v); try done.
  - eapply keeps_auth_I; [exact H1|apply HI|exact Hy].
  - eapply keeps_group_I; [exact H2|apply HI|exact Hy].
  - by apply (ext_inbound fl e) in Hy as [? _].
  - by apply (ext_inbound fl e) in Hy as [_ ?].
Qed.

Lemma rgw_step {A X} x (e : ev M X) (k : X -> prog (ev M) A) Q :
  unrelated e -> (forall x' y, aware_le x x' -> rgw x' (k y) Q) -> rgw x (Vis e k) Q.
Proof.
  intros He Hk x1 v y v' Hle HI Hy. exists x1. split; [reflexivity|]. split; [by eapply keeps_world|by apply Hk].
Qed.

Lemma rgw_unrelated {A} x (p : prog (ev M) A) : all_events (fun _ e => unrelated e) p -> rgw x p (fun _ _ => True).
Proof. intros Hp. apply rg_all_events; [apply _|]. eapply all_events_impl; [|exact Hp]. intros X e. apply keeps_world. Qed.

(** A record that may be sent. *)
Lemma rgw_kafka {A} x m (k : res unit -> prog (ev M) A) Q :
  record_ok x m -> (forall x' r, aware_le x x' -> rgw x' (k r) Q) -> rgw x (Vis (KafkaSend m) k) Q.
Proof.
  intros Hm Hk. apply rg_vis. intros x1 v Hle HI. assert (record_ok x1 m) as Hm1 by by eapply record_ok_mono.
  assert (forall t, world_ok x1 (add_log m (tick t v))) as Hadd.
  { intros t. destruct (world_tick x1 t v HI) as [[] H2 H3 H4 H5]. split; try done.
    - cbn. set_solver.
    - cbn. apply Forall_app. split; [done|]. by constructor. }
  apply wp_kafka; [intros t Ht|intros t msg Ht _; split]; cbn [wp]; exists x1; (split; [reflexivity|]); split; auto using world_tick.
Qed.

(** A call to a connect node that may be made. *)
Lemma rgw_conncall {A} x srv call_ (k : res unit -> prog (ev M) A) Q :
  call_ok x call_ -> (forall x' r, aware_le x x' -> rgw x' (k r) Q) -> rgw x (Vis (ConnCall srv call_) k) Q.
Proof.
  intros Hm Hk. apply rg_vis. intros x1 v Hle HI. assert (call_ok x1 call_) as Hm1 by by eapply call_ok_mono.
  assert (forall t, world_ok x1 (add_call (srv, call_) (tick t v))) as Hadd.
  { intros t. destruct (world_tick x1 t v HI) as [[] H2 H3 H4 H5]. split; try done.
    cbn. apply Forall_app. split; [done|]. by constructor. }
  apply wp_conncall; [intros t Ht|intros t msg Ht _; split]; cbn [wp]; exists x1; (split; [reflexivity|]); split; auto using world_tick.
Qed.

(** A gRPC call. *)
Lemma rgw_rpc {A} x (p : prog (ev M) (res A)) (Q : awareness -> A -> Prop) :
  (forall x1 x2 a, aware_le x1 x2 -> Q x1 a -> Q x2 a) ->
  (forall x', aware_le x x' -> rgw x' p (fun x2 r => forall a, r = Ok a -> Q x2 a)) ->
  rgw x (rpc p) (fun x' r => forall a, r = Ok a -> Q x' a).
Proof.
  intros HQ Hp. unfold rpc. cbn [bind call]. apply rgw_step; [done|]. intros x1 [[]|e] Hle; [|done].
  apply rg_bind. eapply rg_conseq; [apply _|by apply Hp|]. intros x2 r Hle2 Hr. cbn [bind].
  apply rgw_step; [done|]. intros x3 [[]|e] Hle3; [|done]. cbn. destruct r as [a|e]; [|done].
  intros a0 [= <-]. eapply HQ; [exact Hle3|by apply Hr].
Qed.

(** A goroutine that wakes up. *)
Lemma world_env x v v' : world_ok x v -> env v v' -> exists x', aware_le x x' /\ world_ok x' v'.
Proof.
  intros HI He. pose proof HI as [H1 H2 H3 H4 H5]. destruct (group_I_env _ _ _ H2 He) as (f & Hf & HG).
  pose proof (auth_I_env _ _ _ _ _ _ H1 He) as HA. destruct (env_inbound _ _ He) as [Hl Hc].
  exists ((x.1.1, f), x.2). split; [by split|]. by eapply world_step.
Qed.
End programs.
End knowledge.
