(* ===== verification/LogicPool.v ===== *)
(** * The gateway and the logic service among the others

    Whatever HTTP requests reach the gateway, the logic service keeps the
    invariant of the whole system ([world_ok]): it lets a record into Kafka only
    with the user of the session that was presented as its sender, and a group
    message only from a member. *)

From Stdlib Require Import ZArith Lia String.
From stdpp Require Import base tactics list gmap strings.
From S2P Require Import Prelude GoStd Effects Redis Database Proto World Rules Frames Store Sessions Auth AuthSpec.
From S2P Require Import GroupServer GroupSpec GroupPool ChatServer Api Gateway SessionPool Knowledge.

Local Open Scope string_scope.
Local Open Scope Z_scope.

(** ** What the methods write *)

Lemma scan_within (T : relation tables) `{!PreOrder T} {A} (q : tables -> res A) : stmt_within T (Scan q).
Proof. intros t x t' (ai & _ & Hs). by injection Hs as _ ->. Qed.

Lemma scan_users {A} (q : tables -> res A) : stmt_within same_users (Scan q).
Proof. apply scan_within, _. Qed.

Lemma scan_groups {A} (q : tables -> res A) : stmt_within same_groups (Scan q).
Proof. apply scan_within, _. Qed.

Lemma rebuild_within gid ms : Forall (spares_queued index_key) (rebuild_cache (groupMembersKey gid) ms).
Proof.
  assert (~ index_key (groupMembersKey gid)) as Hn by (apply group_key_not_index; by exists gid).
  destruct ms; cbn; repeat constructor; done.
Qed.

#[local] Arguments rebuild_cache : simpl never.

Lemma sessionKey_not_group sid : ~ group_key (sessionKey sid).
Proof. intros [gid H]. done. Qed.

Lemma userSessionKey_not_group u : ~ group_key (userSessionKey u).
Proof. intros [gid H]. done. Qed.

Lemma groupMembersKey_not_index gid : ~ index_key (groupMembersKey gid).
Proof. apply group_key_not_index. by exists gid. Qed.

Lemma sleeping_delete t gid : sleeps_elsewhere (t, DEL (groupMembersKey gid)).
Proof. exists (groupMembersKey gid). split; [done|apply groupMembersKey_not_index]. Qed.

(** A statement of the group tables. *)
Ltac solve_stmt :=
  intros ? ? ? (? & _ & Hs); cbn in Hs;
  repeat match type of Hs with context [match ?x with _ => _ end] => destruct x end; by simplify_eq.

Section events.
Context `{HC : Crypto} `{HCo : Collation} {M : Type}.

Lemma members_stmt_users gm : stmt_within same_users (Stmt (insert_member gm)) /\ stmt_within same_users (Stmt (insert_member_do_nothing gm)).
Proof. unfold insert_member, insert_member_do_nothing. split; solve_stmt. Qed.

Lemma count_stmt_users gid : stmt_within same_users (Stmt (update_member_count gid)).
Proof. unfold update_member_count. solve_stmt. Qed.

Lemma group_stmt_users g : stmt_within same_users (Stmt (insert_group g)).
Proof. unfold insert_group. solve_stmt. Qed.

Lemma insert_user_groups name h now : stmt_within same_groups (Stmt (insert_user name h now)).
Proof. unfold insert_user. solve_stmt. Qed.
End events.

#[export] Hint Resolve scan_users scan_groups rebuild_within sessionKey_not_group userSessionKey_not_group
  groupMembersKey_not_index sleeping_delete members_stmt_users count_stmt_users group_stmt_users insert_user_groups : chat.

(** The calls of a method, one by one. *)
Ltac solve_within := solve_events; auto with chat.

Section methods.
Context `{HC : Crypto} `{HCo : Collation} {M : Type}.

Lemma Register_within req : all_events (fun _ e => not_groups e) (Register req : prog (ev M) _).
Proof. unfold Register, CreateUser. solve_within. Qed.

Lemma refresh_within uid sid u ttl : all_events (fun _ c => spares group_key c)
  (refresh_script (userSessionKey uid) redisSessPrefix sid u ttl).
Proof. unfold refresh_script. solve_within; apply sessionKey_not_group. Qed.

Lemma delete_within uid sid : all_events (fun _ c => spares group_key c) (delete_script (sessionKey sid) (userSessionKey uid) sid).
Proof. unfold delete_script. solve_within. Qed.

Lemma Login_within s req : all_events (fun _ e => not_groups e) (Login s req : prog (ev M) _).
Proof. unfold Login, RefreshSession, ListUserSmallGroups. solve_within. Qed.

Lemma Verify_within req : all_events (fun _ e => not_groups e) (Verify req : prog (ev M) _).
Proof. unfold Verify, IsSessionActive. solve_within. Qed.

Lemma Logout_within req : all_events (fun _ e => not_groups e) (Logout req : prog (ev M) _).
Proof. unfold Logout, DeleteSession. solve_within. Qed.

Lemma AddGroup_within req : all_events (fun _ e => not_sessions e) (AddGroup req : prog (ev M) _).
Proof. unfold AddGroup, doubleDeleteGroupMembersCache, add_group_tx, take_group_for_update. solve_within; apply members_stmt_users. Qed.

Lemma CreateGroup_within req : all_events (fun _ e => not_sessions e) (CreateGroup req : prog (ev M) _).
Proof. unfold CreateGroup, create_group_tx. solve_within; apply members_stmt_users. Qed.

Lemma IsGroupMember_within gid uid : all_events (fun _ e => not_sessions e) (IsGroupMember None gid uid : prog (ev M) _).
Proof. unfold IsGroupMember, sg_do, member_fallback. solve_within. Qed.

Lemma Refresh_within req : all_events (fun _ e => not_sessions e) (RefreshGroupMembersCache req : prog (ev M) _).
Proof. unfold RefreshGroupMembersCache. solve_within. Qed.

(** None of them sends anything. *)
Lemma Register_inbound req : all_events (fun _ e => outbound e = false) (Register req : prog (ev M) _).
Proof. unfold Register, CreateUser. solve_within. Qed.

Lemma Login_inbound s req : all_events (fun _ e => outbound e = false) (Login s req : prog (ev M) _).
Proof. unfold Login, RefreshSession, ListUserSmallGroups. solve_within. Qed.

Lemma Verify_inbound req : all_events (fun _ e => outbound e = false) (Verify req : prog (ev M) _).
Proof. unfold Verify, IsSessionActive. solve_within. Qed.

Lemma Logout_inbound req : all_events (fun _ e => outbound e = false) (Logout req : prog (ev M) _).
Proof. unfold Logout, DeleteSession. solve_within. Qed.

Lemma AddGroup_inbound req : all_events (fun _ e => outbound e = false) (AddGroup req : prog (ev M) _).
Proof. unfold AddGroup, doubleDeleteGroupMembersCache. solve_within. Qed.

Lemma CreateGroup_inbound req : all_events (fun _ e => outbound e = false) (CreateGroup req : prog (ev M) _).
Proof. unfold CreateGroup. solve_within. Qed.

Lemma IsGroupMember_inbound gid uid : all_events (fun _ e => outbound e = false) (IsGroupMember None gid uid : prog (ev M) _).
Proof. unfold IsGroupMember, sg_do, member_fallback. solve_within. Qed.

Lemma Refresh_inbound req : all_events (fun _ e => outbound e = false) (RefreshGroupMembersCache req : prog (ev M) _).
Proof. unfold RefreshGroupMembersCache. solve_within. Qed.
End methods.

(** ** The methods under the invariant *)
Section pool.
Context `{HC : Crypto} `{HCo : Collation} `{HCd : Codec} `{HJb : JsonBodies} (fl : bool).
Context (s : Store) (Httl : 0 < ttl_seconds s) (c : ChatServer) (start : owners) (http : string -> http_request -> string -> Prop).
(** The topics differ and there is a store (logic/main.go sets it); users have
    positive ids; JSON numbers are decoded into int64. *)
Context (Hstore : is_Some (cs_Store c)) (Htopics : NoDup [ChatTopic c; GroupChatTopic c; RommChatTopic c]).
Context (Hstart : forall sid u, start !! sid = Some u -> positive u).
Context (Hjson : (forall body b, json_groupsend body = Some b -> in_int64 (gq_GroupID b))
  /\ (forall body b, json_addgroup body = Some b -> in_int64 (aq_GroupID b))).

Lemma positive_ids id : 0 < id <= max_int64 -> positive id.
Proof. by intros []. Qed.

Section any_memory.
Context {M : Type}.
Abbreviation rgw := (rg (ext (M := M) fl) aware_le (@world_ok _ _ _ _ c start http M)).

Lemma rgw_Register x req : rgw x (Register req) (fun _ _ => True).
Proof. apply (rgw_auth fl c start http x _ (fun _ _ => True)); [apply rg_Register, positive_ids|apply Register_within|apply Register_inbound]. Qed.

Lemma rgw_Login x req : auth_requests http (OpLogin req) -> rgw x (Login s req) (fun _ _ => True).
Proof using Httl.
  intros Hr. eapply rg_conseq; [apply _|eapply (rgw_auth fl c start http x); [apply rg_Login; [done|apply positive_ids|done]|apply Login_within|apply Login_inbound]|done].
Qed.

Lemma rgw_Verify x req : rgw x (Verify req) (fun x' r => forall rp, r = Ok rp ->
  x'.1.1.1 !! vr_SessionId req = Some (vp_UserId rp) /\ in_int64 (vp_UserId rp) /\ positive (vp_UserId rp)).
Proof using Hstart.
  eapply rg_conseq; [apply _|eapply (rgw_auth fl c start http x); [by apply rg_Verify|apply Verify_within|apply Verify_inbound]|].
  intros x' [rp|e] _ Hr; [|done]. by intros rp0 [= <-].
Qed.

Lemma rgw_Logout x req : rgw x (Logout req) (fun _ _ => True).
Proof. apply (rgw_auth fl c start http x _ (fun _ _ => True)); [by apply rg_Logout|apply Logout_within|apply Logout_inbound]. Qed.

Lemma rgw_AddGroup x req : in_int64 (agr_GroupId req) -> in_int64 (agr_UserId req) -> rgw x (AddGroup req) (fun _ _ => True).
Proof.
  intros Hg Hu. eapply rg_conseq; [apply _|eapply (rgw_group fl c start http x); [by apply rgg_AddGroup|apply AddGroup_within|apply AddGroup_inbound]|done].
Qed.

Lemma rgw_CreateGroup x req : in_int64 (cgr_UserId req) -> rgw x (CreateGroup req) (fun _ _ => True).
Proof.
  intros Hu. eapply rg_conseq; [apply _|eapply (rgw_group fl c start http x); [by apply rgg_CreateGroup|apply CreateGroup_within|apply CreateGroup_inbound]|done].
Qed.

Lemma rgw_Refresh x req : in_int64 (gmr_GroupId req) -> rgw x (RefreshGroupMembersCache req)
  (fun x' r => forall rp, r = Ok rp -> forall u, u ∈ gmp_GroupMembers rp -> member_of x' (gmr_GroupId req) u).
Proof.
  intros Hg. eapply rg_conseq; [apply _|eapply (rgw_group fl c start http x); [by apply rgg_Refresh|apply Refresh_within|apply Refresh_inbound]|].
  cbn. intros x' r _ Hr rp -> u Hu. by eapply Hr.
Qed.

Lemma rgw_IsGroupMember x gid uid : in_int64 gid -> in_int64 uid -> positive uid ->
  rgw x (IsGroupMember None gid uid) (fun x' r => r = Ok true -> member_of x' gid uid).
Proof.
  intros Hg Hu Hp. unfold positive in Hp.
  eapply rg_conseq; [apply _|eapply (rgw_group fl c start http x); [apply rgg_IsGroupMember; [done|done|lia]|apply IsGroupMember_within|apply IsGroupMember_inbound]|done].
Qed.
End any_memory.

Abbreviation rgl := (rg (ext (M := LogicMem) fl) aware_le (@world_ok _ _ _ _ c start http LogicMem)).

(** A record of one topic is no record of the others. *)
Lemma record_private x k : k_Topic k = ChatTopic c -> (exists m, private_posted http x (k_Value k) m) -> record_ok c http x k.
Proof using Htopics.
  intros Ht Hm. apply NoDup_cons in Htopics as [H1 _]. split_and!; intros Ht'; [done|exfalso..]; apply H1; rewrite <- Ht, Ht'; repeat constructor.
Qed.

Lemma record_group x k : k_Topic k = GroupChatTopic c -> (exists m, group_posted http x (k_Value k) m) -> record_ok c http x k.
Proof using Htopics.
  intros Ht Hm. apply NoDup_cons in Htopics as [H1 [H2 _]%NoDup_cons].
  split_and!; intros Ht'; [exfalso; apply H1; rewrite <- Ht, Ht'; repeat constructor|done|exfalso; apply H2; rewrite <- Ht, Ht'; repeat constructor].
Qed.

Lemma record_room x k : k_Topic k = RommChatTopic c -> (exists m, room_posted http x (k_Value k) m) -> record_ok c http x k.
Proof using Htopics.
  intros Ht Hm. apply NoDup_cons in Htopics as [H1 [H2 _]%NoDup_cons].
  split_and!; intros Ht'; [exfalso; apply H1; rewrite <- Ht, Ht'; repeat constructor|exfalso; apply H2; rewrite <- Ht, Ht'; repeat constructor|done].
Qed.

(** The clock and the message counter. *)
Lemma rgl_message_id {A} x (f : Z -> Z -> prog (ev LogicMem) A) Q :
  (forall x' now id, aware_le x x' -> rgl x' (f now id) Q) ->
  rgl x (now <- call TimeNow ;; id <- nextMessageID now ;; f now id) Q.
Proof.
  intros Hf. cbn [bind call]. apply rgw_step; [done|]. intros x1 now Hle. unfold nextMessageID. cbn [bind call].
  apply rgw_step; [done|]. intros x2 seq Hle2. apply Hf. by transitivity x1.
Qed.

Lemma rgl_SendMessage x req r body b :
  http "/api/send" r body -> json_send body = Some b -> session_of x r (smr_FromUserId req) ->
  smr_ToUserId req = mq_ToUserID b -> smr_Content req = mq_Content b ->
  rgl x (SendMessage c req) (fun _ _ => True).
Proof using Htopics.
  intros Hh Hb Hs Ht Hcn. unfold SendMessage. destruct (_ =? _); [done|]. apply rgl_message_id. intros x1 now id Hle.
  destruct (Marshal_Message _) as [payload|e] eqn:Hm; [|done]. cbn [bind call].
  apply rgw_kafka; [|by intros x2 [u|e] _]. apply record_private; [done|]. cbn. eexists. split; [by eapply Message_roundtrip|].
  exists r, body, b. split_and!; try done. by eapply session_of_mono.
Qed.

Lemma rgl_SendGroupMessage x req r body b :
  http "/api/groupsend" r body -> json_groupsend body = Some b -> session_of x r (sgr_FromUserId req) ->
  in_int64 (sgr_FromUserId req) -> positive (sgr_FromUserId req) ->
  sgr_GroupId req = gq_GroupID b -> sgr_Content req = gq_Content b ->
  rgl x (SendGroupMessage c None req) (fun _ _ => True).
Proof using Htopics Hstore Hjson.
  intros Hh Hb Hs Hin Hpos Hg Hcn. assert (in_int64 (sgr_GroupId req)) as Hgi by (rewrite Hg; by eapply Hjson).
  unfold SendGroupMessage. do 3 (match goal with |- context [if ?b then _ else _] => destruct b; [done|] end).
  apply rg_bind. unfold check_sender. destruct Hstore as [st ->]. apply rg_bind.
  eapply rg_conseq; [apply _|by apply rgw_IsGroupMember|]. intros x1 [[]|e] Hle Hm; [|done..].
  specialize (Hm eq_refl). cbn [rg]. apply rgl_message_id. intros x2 now id Hle2.
  destruct (Marshal_GroupMessage _) as [payload|e] eqn:Hmar; [|done]. cbn [bind call].
  apply rgw_kafka; [|by intros x3 [u|e] _]. apply record_group; [done|]. cbn. eexists. split; [by eapply GroupMessage_roundtrip|].
  exists r, body, b. split_and!; try done; [|by eapply member_of_mono]. eapply session_of_mono, Hs. by transitivity x1.
Qed.

Lemma rgl_SendRoomMessage x req r body b :
  http "/api/roomsend" r body -> json_roomsend body = Some b -> session_of x r (srr_FromUserId req) ->
  srr_RoomId req = rq_RoomID b -> srr_Content req = rq_Content b ->
  rgl x (SendRoomMessage c req) (fun _ _ => True).
Proof using Htopics Hstore.
  intros Hh Hb Hs Hg Hcn. unfold SendRoomMessage.
  do 3 (match goal with |- context [if ?b then _ else _] => destruct b; [done|] end).
  destruct (cs_Store c); [|done]. apply rgl_message_id. intros x1 now id Hle.
  destruct (Marshal_RoomMessage _) as [payload|e] eqn:Hm; [|done]. cbn [bind call].
  apply rgw_kafka; [|by intros x2 [u|e] _]. apply record_room; [done|]. cbn. eexists. split; [by eapply RoomMessage_roundtrip|].
  exists r, body, b. split_and!; try done. by eapply session_of_mono.
Qed.

(** The sends, behind gRPC and the check of the session. *)
Lemma rgl_rpc {A} x (p : prog (ev LogicMem) (res A)) : (forall x', aware_le x x' -> rgl x' p (fun _ _ => True)) -> rgl x (rpc p) (fun _ _ => True).
Proof.
  intros Hp. eapply rg_conseq; [apply _|apply (rgw_rpc fl c start http x p (fun _ _ => True)); [done|]|done].
  intros x' Hle. eapply rg_conseq; [apply _|by apply Hp|done].
Qed.

Lemma rgl_verified {B} x req (f : res VerifyReply -> prog (ev LogicMem) B) Q :
  (forall x' u, aware_le x x' -> x'.1.1.1 !! vr_SessionId req = Some u -> in_int64 u -> positive u -> rgl x' (f (Ok {| vp_UserId := u |})) Q) ->
  (forall x' e, rgl x' (f (Err e)) Q) ->
  rgl x (bind (rpc (Verify req)) f) Q.
Proof using Hstart.
  intros Hok Herr. apply rg_bind. eapply rg_conseq; [apply _| |].
  - apply (rgw_rpc fl c start http x (Verify req) (fun x' rp =>
      x'.1.1.1 !! vr_SessionId req = Some (vp_UserId rp) /\ in_int64 (vp_UserId rp) /\ positive (vp_UserId rp))).
    + intros x1 x2 rp Hle (H1 & H2). split; [|done]. eapply known_own, H1. apply Hle.
    + intros x' _. apply rgw_Verify.
  - intros x' [[u]|e] Hle Hr; [|apply Herr]. destruct (Hr _ eq_refl) as (H1 & H2 & H3). by apply Hok.
Qed.

(** The guards before a call answer at once. *)
Ltac guards := repeat match goal with |- rg _ _ _ _ (if ?b then _ else _) _ => destruct b; [done|] end.

Lemma rgl_ServeHTTP x path r body :
  http path r body -> rgl x (ServeHTTP (logic_auth s) (logic_chat c None) path r body) (fun _ _ => True).
Proof using Httl Hstore Htopics Hstart Hjson.
  intros Hh. unfold ServeHTTP. unfold routes. cbn [match_route].
  repeat match goal with |- context [String.eqb path ?p] => destruct (String.eqb_spec path p) as [->|_] end;
    [..|done]; cbn [handle_route].
  - unfold api_Register. guards. destruct (json_credentials body); [|done]. apply rg_bind.
    eapply rg_conseq; [apply _|apply rgl_rpc; intros; apply rgw_Register|]. by intros x' [a|e] _ _.
  - unfold api_Login. guards. destruct (json_credentials body) as [b|] eqn:Hb; [|done]. apply rg_bind.
    eapply rg_conseq; [apply _|apply rgl_rpc; intros; apply rgw_Login; by exists r, body, b|]. by intros x' [a|e] _ _.
  - unfold api_Verify. guards. by apply rgl_verified.
  - unfold api_SendMessage. guards. apply rgl_verified; [|done]. intros x1 u _ Ho _ _.
    destruct (json_send body) as [b|] eqn:Hb; [|done]. apply rg_bind.
    eapply rg_conseq; [apply _|apply rgl_rpc; intros x2 Hle; eapply rgl_SendMessage; [exact Hh|exact Hb| |done..]; by eapply session_of_mono|].
    by intros x' [a|e] _ _.
  - unfold api_SendGroupMessage. guards. apply rgl_verified; [|done]. intros x1 u _ Ho Hin Hpos.
    destruct (json_groupsend body) as [b|] eqn:Hb; [|done]. apply rg_bind.
    eapply rg_conseq; [apply _|apply rgl_rpc; intros x2 Hle; eapply rgl_SendGroupMessage; [exact Hh|exact Hb| |done..]; by eapply session_of_mono|].
    by intros x' [a|e] _ _.
  - unfold api_Creategroup. guards. destruct (json_creategroup body) as [b|] eqn:Hb; [|done]. apply rgl_verified; [|done].
    intros x1 u _ _ Hin _. apply rg_bind. eapply rg_conseq; [apply _|apply rgl_rpc; intros; by apply rgw_CreateGroup|]. by intros x' [a|e] _ _.
  - unfold api_AddGroup. guards. destruct (json_addgroup body) as [b|] eqn:Hb; [|done]. apply rgl_verified; [|done].
    intros x1 u _ _ Hin _. apply rg_bind. eapply rg_conseq; [apply _|apply rgl_rpc; intros; apply rgw_AddGroup; [by eapply Hjson|done]|].
    by intros x' [a|e] _ _.
  - unfold api_SendRoomMessage. guards. destruct (json_roomsend body) as [b|] eqn:Hb; [|done]. apply rgl_verified; [|done].
    intros x1 u _ Ho _ _. apply rg_bind.
    eapply rg_conseq; [apply _|apply rgl_rpc; intros x2 Hle; eapply rgl_SendRoomMessage; [exact Hh|exact Hb| |done..]; by eapply session_of_mono|].
    by intros x' [a|e] _ _.
Qed.
End pool.
