(* ===== verification/TaskPool.v ===== *)
(** * The task layer among the others

    Consumers that take records out of Kafka keep the invariant of the whole
    system: a push names the recipient of the record it carries, a push to
    several users names members of the group of its record, a broadcast the
    room of its record. *)

From Stdlib Require Import ZArith Lia String.
From stdpp Require Import base tactics list gmap strings.
From S2P Require Import Prelude GoStd Effects Redis Database Proto World Rules Frames Goroutines Store Sessions Auth AuthSpec.
From S2P Require Import GroupServer GroupSpec GroupPool ChatServer ClientPool Consumer ConsumerSpec Api Gateway SessionPool Knowledge LogicPool.

Local Open Scope string_scope.
Local Open Scope Z_scope.

(** Only users that were asked for are routed. *)
Lemma routing_loop_users us vals m srv l u :
  routing_loop us vals m !! srv = Some l -> u ∈ l -> u ∈ us \/ exists l0, m !! srv = Some l0 /\ u ∈ l0.
Proof.
  revert vals m. induction us as [|u0 us IH]; intros vals m Hl Hu; [right; by exists l|].
  destruct vals as [|[sv|] vals]; cbn in Hl; [right; by exists l| |].
  - destruct (IH _ _ Hl Hu) as [?|(l0 & Hl0 & Hu0)]; [left; by right|].
    destruct (String.eqb sv ""); [right; by exists l0|]. unfold add_target in Hl0.
    apply lookup_insert_Some in Hl0 as [[<- <-]|[_ Hl0]]; [|right; by exists l0].
    apply elem_of_app in Hu0 as [Hu0| ->%list_elem_of_singleton]; [|left; by left].
    destruct (m !! sv) as [l1|] eqn:Hm; [right; by exists l1|by apply not_elem_of_nil in Hu0].
  - destruct (IH _ _ Hl Hu) as [?|?]; [left; by right|by right].
Qed.

Section pool.
Context `{HC : Crypto} `{HCo : Collation} `{HCd : Codec} `{HJb : JsonBodies} `{HD : Dialer} (fl : bool).
Context (c : ChatServer) (start : owners) (http : string -> http_request -> string -> Prop).
Implicit Types v : sysview TaskMem.
Abbreviation rgt := (rg (ext (M := TaskMem) fl) aware_le (@world_ok _ _ _ _ c start http TaskMem)).
Abbreviation call_ok := (call_ok c http).

(** *** Groups of goroutines *)
Lemma rgt_errgroup x fuel limit pending alive result :
  Forall (fun p => rgt x p (fun _ _ => True)) pending -> Forall (fun p => rgt x p (fun _ _ => True)) alive ->
  rgt x (errgroup_run fuel limit pending alive result) (fun _ _ => True).
Proof.
  revert x pending alive result. induction fuel as [|fuel IH]; intros x pending alive result Hp Ha; [done|]. cbn [errgroup_run].
  destruct (Nat.eqb _ 0); [done|]. unfold choose. cbn [bind call]. apply rgw_step; [done|]. intros x1 order Hle. cbn [bind].
  assert (forall x2 ps, aware_le x x2 -> Forall (fun p => rgt x p (fun _ _ => True)) ps ->
    Forall (fun p : prog (ev TaskMem) unit => rgt x2 p (fun _ _ => True)) ps) as Hlater.
  { intros x2 ps Hle2 Hps. eapply Forall_impl; [exact Hps|]. intros p Hp0. by eapply rg_later; [apply _|exact Hle2| |exact Hp0]. }
  destruct (alive !! _) as [[[]|X e k]|] eqn:Hi.
  - apply IH; [by apply Hlater|]. by apply Forall_delete, Hlater.
  - pose proof (Forall_lookup_1 _ _ _ _ Ha Hi) as Hk. cbn in Hk. cbn [bind call]. intros x2 v y v' Hle2 HI Hy.
    assert (aware_le x x2) as Hle' by by transitivity x1.
    destruct (Hk x2 v y v' Hle' HI Hy) as (x3 & Hle3 & HI3 & Hrest). exists x3. split; [done|]. split; [done|].
    assert (aware_le x x3) by by transitivity x2. apply IH; [by apply Hlater|]. apply Forall_insert; [by apply Hlater|done].
  - cbn [bind call]. apply rgw_step; [done|]. intros x2 r Hle2. assert (aware_le x x2) as Hle' by by transitivity x1.
    destruct r as [u|e]; [|apply IH; [constructor|by apply Hlater]].
    destruct pending as [|task rest]; [apply IH; [constructor|by apply Hlater]|].
    apply Forall_cons in Hp as [Ht Hr]. apply IH; [by apply Hlater|]. apply Forall_app. split; [by apply Hlater|].
    apply Hlater; [done|]. by constructor.
Qed.

(** *** Calls to connect nodes *)
Lemma GetClient_unrelated srv : all_events (fun _ e => unrelated e) (GetClient srv).
Proof. unfold GetClient. solve_events; done. Qed.

Lemma rgt_GetClient {A} x srv (f : res pooledConnectClient -> prog (ev TaskMem) A) Q :
  (forall x' r, aware_le x x' -> rgt x' (f r) Q) -> rgt x (bind (GetClient srv) f) Q.
Proof.
  intros Hf. apply rg_bind. eapply rg_conseq; [apply _|apply rgw_unrelated, GetClient_unrelated|]. intros x' r Hle _. by apply Hf.
Qed.

Lemma rgt_push_node x gm payload node :
  call_ok x (group_push gm payload node.2) -> rgt x (push_node gm payload node) (fun _ _ => True).
Proof.
  intros Hc. unfold push_node, pushToConnect. apply rg_bind. apply rgt_GetClient. intros x1 [p|e] Hle; [|done].
  apply rgw_conncall; [by eapply call_ok_mono|]. by intros x2 r _.
Qed.

Lemma rgt_broadcast_node x gm payload srv :
  call_ok x (BroadcastRoom {| brr_RoomId := rm_RoomId gm; brr_FromUserId := rm_FromUserId gm; brr_Payload := payload; brr_MsgType := rm_MsgType gm |}) ->
  rgt x (broadcast_node gm payload srv) (fun _ _ => True).
Proof.
  intros Hc. unfold broadcast_node. apply rgt_GetClient. intros x1 [p|e] Hle; [|done]. cbn [bind call].
  apply rgw_conncall; [by eapply call_ok_mono|]. by intros x2 r _.
Qed.

(** A record in hand: it is in Kafka and it is what it should be. *)
Definition in_hand (x : awareness) (topic : string) (k : kmsg) : Prop := k ∈ x.2 /\ record_ok c http x k /\ k_Topic k = topic.

Lemma in_hand_mono x x' topic k : aware_le x x' -> in_hand x topic k -> in_hand x' topic k.
Proof. intros Hle (H1 & H2 & H3). split_and!; [by apply Hle|by eapply record_ok_mono|done]. Qed.

(** *** Private messages *)
Lemma rgt_single x k : in_hand x (ChatTopic c) k -> rgt x (single_message k) (fun _ _ => True).
Proof.
  intros (Hk & [Hok _] & Ht). destruct (Hok Ht) as [m Hm]. pose proof Hm as [Hd _].
  unfold single_message. rewrite Hd. cbn [bind call]. apply rgw_step; [done|]. intros x1 [[srv|]|e] Hle; [|done..].
  destruct (String.eqb srv ""); [done|]. apply rgt_GetClient. intros x2 [p|e] Hle2; [|done]. cbn [bind call].
  assert (aware_le x x2) as Hle' by by transitivity x1.
  apply rgw_conncall; [|by intros x3 r _]. exists k, m. split_and!; [by apply Hle'|done|done|by eapply private_posted_mono|done].
Qed.

Lemma rgt_Single x claim : Forall (in_hand x (ChatTopic c)) claim -> rgt x (Single_ConsumeClaim claim) (fun _ _ => True).
Proof.
  revert x. induction claim as [|k rest IH]; intros x Hall; cbn [Single_ConsumeClaim]; [done|]. apply Forall_cons in Hall as [Hk Hall].
  apply rg_bind. eapply rg_conseq; [apply _|by apply rgt_single|]. intros x1 _ Hle _.
  apply rg_bind. eapply rg_conseq; [apply _|apply IH|done]. eapply Forall_impl; [exact Hall|]. intros k'. by apply in_hand_mono.
Qed.

(** *** Group messages *)

(** What the routing map may hold. *)
Definition members_routed (x : awareness) (gid : Z) (m : gmap string (list Z)) : Prop :=
  forall srv l u, m !! srv = Some l -> u ∈ l -> member_of x gid u.

Lemma members_routed_mono x x' gid m : aware_le x x' -> members_routed x gid m -> members_routed x' gid m.
Proof. intros Hle Hm srv l u Hl Hu. eapply member_of_mono; [exact Hle|by eapply Hm]. Qed.

Lemma rgt_routing x gid us :
  (forall u, u ∈ us -> member_of x gid u) ->
  rgt x (getOnlineRoutingMap us) (fun x' r => forall m, r = Ok m -> members_routed x' gid m).
Proof.
  intros Hus. unfold getOnlineRoutingMap. destruct us as [|u0 us]; [by intros m [= <-] srv l u Hl|]. cbn [bind call].
  apply rgw_step; [done|]. intros x1 [vals|e] Hle; [|done]. intros m [= <-] srv l u Hl Hu.
  apply (routing_loop_users (u0 :: us) vals ∅ srv l u Hl) in Hu as [Hu|(l0 & Hl0 & _)]; [|by rewrite lookup_empty in Hl0].
  eapply member_of_mono; [exact Hle|auto].
Qed.

(** A cached set is the placeholder or lists members. *)
Lemma cached_members f t ks gid raw :
  in_int64 gid -> cache_sound f ks -> reply_ok (SMEMBERS (memberKey gid)) (doc_cmd t (SMEMBERS (memberKey gid)) ks).1 (Ok raw) ->
  raw <> ["-1"] -> forall u, u ∈ parse_members raw -> (gid, u) ∈ f.1.
Proof.
  intros Hg Hc Hr Hne u Hu. change (memberKey gid) with (groupMembersKey gid) in Hr. cbn in Hr.
  destruct (ks !! groupMembersKey gid) as [e|] eqn:He.
  - destruct (Hc gid e Hg He) as (s & Hs & Hx). destruct e as [d ex]. cbn in Hs. subst d. cbn in Hr.
    unfold parse_members in Hu. apply list_elem_of_omap in Hu as (str & Hstr & Hp). rewrite <- Hr, elem_of_elements in Hstr.
    destruct Hx as [->|Hx].
    + exfalso. apply Hne. rewrite elements_singleton in Hr. apply Permutation_singleton_l in Hr. by subst raw.
    + destruct (Hx str Hstr) as (uid & Hui & -> & Hin). rewrite ParseInt_FormatInt in Hp by done. by injection Hp as <-.
  - cbn in Hr. rewrite elements_empty in Hr. apply Permutation_nil_l in Hr. subst raw. by apply not_elem_of_nil in Hu.
Qed.

Lemma rgt_load x gid : in_int64 gid ->
  rgt x (loadGroupOnlineMemberIDs gid) (fun x' r => forall m, r = Ok m -> members_routed x' gid m).
Proof.
  intros Hg. unfold loadGroupOnlineMemberIDs. cbn [bind call]. apply rg_vis. intros x1 v Hle HI.
  apply wp_read; [done|]. intros t r Ht Hr. cbn [wp]. exists x1. split; [reflexivity|]. split; [by apply world_tick|].
  destruct r as [raw|e]; [|done]. destruct (Nat.eqb _ 0); [done|]. case_bool_decide as Hne; [done|].
  destruct (Nat.eqb _ 0); [done|]. apply rgt_routing. intros u Hu. destruct Hr as [Hr|[_ [msg ?]]]; [|done].
  eapply cached_members; [exact Hg| |exact Hr|exact Hne|exact Hu]. apply cache_sound_purge.
  by destruct (wo_group _ _ _ _ _ HI) as (_ & _ & _ & ? & _).
Qed.

(** A group record and its message. *)
Definition group_in_hand (x : awareness) (payload : string) (gm : GroupMessage) : Prop :=
  exists k, k ∈ x.2 /\ k_Topic k = GroupChatTopic c /\ k_Value k = payload /\ group_posted http x payload gm.

Lemma group_in_hand_mono x x' p gm : aware_le x x' -> group_in_hand x p gm -> group_in_hand x' p gm.
Proof.
  intros Hle (k & H1 & H2 & H3 & H4). exists k. split_and!; [by apply Hle|done|done|by eapply group_posted_mono].
Qed.

Lemma rgt_deliver x gm payload m :
  group_in_hand x payload gm -> members_routed x (gm_GroupId gm) m -> rgt x (deliver gm payload m) (fun _ _ => True).
Proof.
  intros Hh Hm. unfold deliver. case_decide; [done|]. cbn [bind call]. apply rg_vis. intros x1 v Hle HI. apply wp_range.
  intros t nodes Ht Hp. cbn [wp]. exists x1. split; [reflexivity|]. split; [by apply world_tick|].
  unfold push_nodes, Go_all. apply rgt_errgroup; [|constructor]. apply Forall_forall. intros p (n & -> & Hn)%list_elem_of_fmap.
  apply rgt_push_node. destruct n as [srv uids]. apply elem_push_targets in Hn as (l & Hl & -> & _).
  rewrite <- Hp, elem_of_map_to_list in Hl. destruct (group_in_hand_mono _ _ _ _ Hle Hh) as (k & H1 & H2 & H3 & H4).
  exists k, gm. cbn. subst payload. split_and!; try done. intros u [_ Hu]%list_elem_of_filter.
  eapply member_of_mono; [exact Hle|by eapply Hm].
Qed.

(** Another goroutine's rebuild of the members, if it is waited for, failed:
    one that succeeds is a call of its own. *)
Definition flight_ok (f : option (res GroupMembersReply)) : Prop := forall rp, f <> Some (Ok rp).

Abbreviation refresh_call := (fun r => rpc (RefreshGroupMembersCache r)).

Lemma rgt_handle x flight gm payload : flight_ok flight -> group_in_hand x payload gm ->
  rgt x (handleSmallGroupMessage refresh_call flight gm payload) (fun _ _ => True).
Proof.
  intros Hf Hh. assert (in_int64 (gm_GroupId gm)) as Hg.
  { destruct Hh as (k & _ & _ & _ & _ & r & body & b & _ & _ & _ & _ & _ & ? & _). done. }
  unfold handleSmallGroupMessage. apply rg_bind. eapply rg_conseq; [apply _|by apply rgt_load|]. intros x1 [m|e] Hle Hm.
  { apply rgt_deliver; [by eapply group_in_hand_mono|by apply Hm]. }
  destruct (_ || _); [done|]. destruct (String.eqb _ _); [|done]. apply rg_bind.
  eapply rg_conseq with (Q := fun x2 r => forall rp, r = Ok rp -> forall u, u ∈ gmp_GroupMembers rp -> member_of x2 (gm_GroupId gm) u); [apply _| |].
  - destruct flight as [[rp|e']|]; [by destruct (Hf rp)|done|].
    apply (rgw_rpc fl c start http x1 _ (fun x2 rp => forall u, u ∈ gmp_GroupMembers rp -> member_of x2 (gm_GroupId gm) u)).
    + intros x2 x3 rp Hle3 Hrp u Hu. eapply member_of_mono; [exact Hle3|auto].
    + intros x2 _. by apply (rgw_Refresh fl c start http x2 {| gmr_GroupId := gm_GroupId gm |}).
  - intros x2 [rp|e'] Hle2 Hrp; [|done]. specialize (Hrp rp eq_refl). destruct (Nat.eqb _ 0); [done|]. apply rg_bind.
    eapply rg_conseq; [apply _|by apply rgt_routing|]. intros x3 [m|e2] Hle3 Hm3; [|done].
    apply rgt_deliver; [|by apply Hm3]. eapply group_in_hand_mono, Hh. transitivity x1; [done|by transitivity x2].
Qed.

Lemma in_hand_group x k : in_hand x (GroupChatTopic c) k -> exists gm, Unmarshal_GroupMessage (k_Value k) = Ok gm /\ group_in_hand x (k_Value k) gm.
Proof.
  intros (Hk & (_ & Hok & _) & Ht). destruct (Hok Ht) as [gm Hgm]. exists gm. split; [apply Hgm|]. by exists k.
Qed.

Lemma rgt_group_retry x k flight later :
  in_hand x (GroupChatTopic c) k -> flight_ok flight -> Forall flight_ok later ->
  rgt x (group_retry refresh_call k flight later) (fun _ _ => True).
Proof.
  revert x flight. induction later as [|f later IH]; intros x flight Hk Hf Hl; cbn [group_retry];
    (apply rg_bind; destruct (in_hand_group _ _ Hk) as (gm & Hd & Hh); unfold handleGroupMessage; rewrite Hd;
     eapply rg_conseq; [apply _|by apply rgt_handle|]; intros x1 [u|e] Hle _; [done|]; destruct (Contains _ _); [done|]).
  - done.
  - apply Forall_cons in Hl as [Hf' Hl]. apply IH; [by eapply in_hand_mono|done|done].
Qed.

Abbreviation flights := (option (res GroupMembersReply) * list (option (res GroupMembersReply)))%type.

Lemma rgt_Group x (claim : list (kmsg * flights)) :
  Forall (fun r => in_hand x (GroupChatTopic c) r.1 /\ flight_ok r.2.1 /\ Forall flight_ok r.2.2) claim ->
  rgt x (Group_ConsumeClaim refresh_call claim) (fun _ _ => True).
Proof.
  revert x. induction claim as [|[k [flight later]] rest IH]; intros x Hall; cbn [Group_ConsumeClaim]; [done|].
  apply Forall_cons in Hall as [(Hk & Hf & Hl) Hall]. cbn in Hk, Hf, Hl. apply rg_bind.
  eapply rg_conseq; [apply _|by apply rgt_group_retry|]. intros x1 [] Hle _; [|done].
  apply rg_bind. eapply rg_conseq; [apply _|apply IH|done]. eapply Forall_impl; [exact Hall|].
  intros r (H1 & H2 & H3). split; [by eapply in_hand_mono|done].
Qed.

(** *** Room messages *)
Lemma rgt_Room x claim : Forall (in_hand x (RommChatTopic c)) claim -> rgt x (Room_ConsumeClaim claim) (fun _ _ => True).
Proof.
  revert x. induction claim as [|k rest IH]; intros x Hall; cbn [Room_ConsumeClaim]; [done|]. apply Forall_cons in Hall as [Hk Hall].
  apply rg_bind. eapply rg_conseq with (Q := fun _ _ => True); [apply _| |].
  - destruct Hk as (Hk & (_ & _ & Hok) & Ht). destruct (Hok Ht) as [rm Hm]. pose proof Hm as [Hd _].
    unfold handleRoomMessage. rewrite Hd. unfold handleRoomBroadcast, loadGroupNodeIDs. cbn [bind call].
    apply rgw_step; [done|]. intros x1 [ids|e] Hle; [|done]. destruct (Nat.eqb _ 0); [done|]. unfold broadcast_nodes, Go_all.
    apply rgt_errgroup; [|constructor]. apply Forall_forall. intros p (n & -> & Hn)%list_elem_of_fmap.
    apply rgt_broadcast_node. exists k, rm. split_and!; [by apply Hle|done|done|by eapply room_posted_mono|done].
  - intros x1 r Hle _. apply rg_bind. eapply rg_conseq; [apply _|apply IH|done]. eapply Forall_impl; [exact Hall|].
    intros k'. by apply in_hand_mono.
Qed.

(** *** Persistence *)
Lemma insert_message_unrelated r : unrelated (M := TaskMem) (Sql (Stmt (insert_message r))).
Proof. unfold insert_message. split_and!; [cbn; solve_stmt..|done]. Qed.

Lemma insert_group_message_unrelated r : unrelated (M := TaskMem) (Sql (Stmt (insert_group_message r))).
Proof. unfold insert_group_message. split_and!; [cbn; solve_stmt..|done]. Qed.

Lemma persist_one_unrelated p k : all_events (fun _ e => unrelated e) (persist_one p k : prog (ev TaskMem) _).
Proof.
  unfold persist_one, persistMessage, persistGroupMessage.
  solve_events; auto using insert_message_unrelated, insert_group_message_unrelated.
Qed.

Lemma persist_retry_unrelated p k budget : all_events (fun _ e => unrelated e) (persist_retry p k budget : prog (ev TaskMem) _).
Proof.
  induction budget as [|budget IH]; cbn [persist_retry]; (apply all_events_bind; [apply persist_one_unrelated|]);
    intros [[u|e]|]; done.
Qed.

Lemma Persist_unrelated p claim : all_events (fun _ e => unrelated e) (Persist_ConsumeClaim p claim : prog (ev TaskMem) _).
Proof.
  induction claim as [|[k budget] rest IH]; cbn [Persist_ConsumeClaim]; [done|]. apply all_events_bind; [apply persist_retry_unrelated|].
  intros []; [|done]. by apply all_events_bind.
Qed.
End pool.
