(* ===== verification/System.v ===== *)
(** * The whole system

    Any number of logic processes behind gateways, of task processes and of
    connect nodes run at the same time, over one Redis, one MySQL and one Kafka;
    the calls the task layer makes reach the nodes, the records the logic layer
    writes reach the task layer, and any call may fail.  What a user receives
    was meant for him and says truly who sent it. *)

From Stdlib Require Import ZArith Lia String.
From stdpp Require Import base tactics list gmap strings.
From S2P Require Import Prelude GoStd Effects Redis Database Proto World Rules Frames Lift Store Sessions Auth AuthSpec.
From S2P Require Import GroupServer GroupSpec GroupPool ChatServer Room ConnectMem RoomManager RoomSpec Registry Connection.
From S2P Require Import ConnectSpec ClientPool Consumer Api Gateway SessionPool Knowledge LogicPool TaskPool.

Local Open Scope string_scope.
Local Open Scope Z_scope.

(** ** The memory of all processes *)
Record SysMem := {
  sm_logic : nat -> LogicMem;
  sm_task : nat -> TaskMem;
  sm_node : string -> ConnectMem }.

Definition put_logic (i : nat) (m : LogicMem) (n : SysMem) : SysMem :=
  {| sm_logic := fun j => if decide (i = j) then m else sm_logic n j; sm_task := sm_task n; sm_node := sm_node n |}.
Definition put_task (i : nat) (m : TaskMem) (n : SysMem) : SysMem :=
  {| sm_logic := sm_logic n; sm_task := fun j => if decide (i = j) then m else sm_task n j; sm_node := sm_node n |}.
Definition put_node (id : string) (m : ConnectMem) (n : SysMem) : SysMem :=
  {| sm_logic := sm_logic n; sm_task := sm_task n; sm_node := fun j => if decide (id = j) then m else sm_node n j |}.

Definition on_logic {A} (i : nat) : prog (ev LogicMem) A -> prog (ev SysMem) A := lift (fun n => sm_logic n i) (put_logic i).
Definition on_task {A} (i : nat) : prog (ev TaskMem) A -> prog (ev SysMem) A := lift (fun n => sm_task n i) (put_task i).
Definition on_node {A} (id : string) : prog (ev ConnectMem) A -> prog (ev SysMem) A := lift (fun n => sm_node n id) (put_node id).

Lemma get_put_logic i m n : sm_logic (put_logic i m n) i = m.
Proof. cbn. by rewrite decide_True. Qed.
Lemma get_put_task i m n : sm_task (put_task i m n) i = m.
Proof. cbn. by rewrite decide_True. Qed.
Lemma get_put_node id m n : sm_node (put_node id m n) id = m.
Proof. cbn. by rewrite decide_True. Qed.

(** ** What the processes do *)

(** [s.AuthClient.Verify] *)
Definition verify_call `{Crypto} `{Collation} {M} (r : VerifyRequest) : prog (ev M) (res VerifyReply) := rpc (Verify r).

Inductive task_op :=
| TaskPrivate (claim : list kmsg)
| TaskGroup (claim : list (kmsg * (option (res GroupMembersReply) * list (option (res GroupMembersReply)))))
| TaskRoom (claim : list kmsg)
| TaskPersist (consumer : PersistConsumer) (claim : list (kmsg * nat))
| TaskPool (op : client_op)
| TaskHook (hook : prog (ev TaskMem) (res unit)).

Inductive sys_op :=
| AtGateway (i : nat) (path : string) (r : http_request) (body : string)
| AtAuth (i : nat) (req : LogoutRequest)
| AtTask (i : nat) (op : task_op)
| AtNode (id : string) (op : node_op).

Section system.
Context `{HC : Crypto} `{HCo : Collation} `{HCd : Codec} `{HJb : JsonBodies} `{HD : Dialer} `{HF : Farm} `{HJ : JsonRoomCmd}.
Context (s : Store) (c : ChatServer).

Definition task_prog (op : task_op) : prog (ev TaskMem) unit :=
  match op with
  | TaskPrivate claim => ms <- Single_ConsumeClaim claim ;; Ret tt
  | TaskGroup claim => ms <- Group_ConsumeClaim (fun r => rpc (RefreshGroupMembersCache r)) claim ;; Ret tt
  | TaskRoom claim => ms <- Room_ConsumeClaim claim ;; Ret tt
  | TaskPersist consumer claim => ms <- Persist_ConsumeClaim consumer claim ;; Ret tt
  | TaskPool op => r <- client_prog op ;; Ret tt
  | TaskHook hook => r <- hook ;; Ret tt
  end.

Definition sys_prog (op : sys_op) : prog (ev SysMem) unit :=
  match op with
  | AtGateway i path r body => on_logic i (resp <- ServeHTTP (logic_auth s) (logic_chat c None) path r body ;; Ret tt)
  | AtAuth i req => on_logic i (r <- Logout req ;; Ret tt)
  | AtTask i op => on_task i (task_prog op)
  | AtNode id op => on_node id (node_prog op)
  end.

(** What arrives when.  [http] are the HTTP requests peers make, [peers] the
    sessions their WebSocket connections present with the messages they send; a
    consumer has records of its topic that are in Kafka, a node serves the calls
    that were made to it. *)
Context (http : string -> http_request -> string -> Prop) (peers : string -> list string -> Prop).

Definition task_arrives (v : sysview SysMem) (op : task_op) : Prop :=
  match op with
  | TaskPrivate claim => Forall (fun k => k ∈ v_log v /\ k_Topic k = ChatTopic c) claim
  | TaskGroup claim => Forall (fun r => (r.1 ∈ v_log v /\ k_Topic r.1 = GroupChatTopic c)
      /\ flight_ok r.2.1 /\ Forall flight_ok r.2.2) claim
  | TaskRoom claim => Forall (fun k => k ∈ v_log v /\ k_Topic k = RommChatTopic c) claim
  | TaskPersist _ _ | TaskPool _ => True
  | TaskHook hook => hook ∈ handler_hooks
  end.

Definition node_arrives (v : sysview SysMem) (id : string) (op : node_op) : Prop :=
  match op with
  | OpConnect rg auth up sid messages => ServerID rg = id /\ auth = verify_call /\ peers sid messages
  | OpPushMsg req => (id, PushMsg req) ∈ v_calls v
  | OpPushMsgToUsers req => (id, PushMsgToUsers req) ∈ v_calls v
  | OpBroadcastRoom req => (id, Proto.BroadcastRoom req) ∈ v_calls v
  | OpWritePump _ _ _ | OpRemoveClient _ => True
  end.

Definition arrives (v : sysview SysMem) (p : prog (ev SysMem) unit) : Prop :=
  exists op, p = sys_prog op /\
    match op with
    | AtGateway i path r body => http path r body
    | AtAuth i req => True
    | AtTask i op => task_arrives v op
    | AtNode id op => node_arrives v id op
    end.
End system.

(** ** Who may receive what *)
Section invariant.
Context `{HC : Crypto} `{HCo : Collation} `{HCd : Codec} `{HJb : JsonBodies} `{HD : Dialer} `{HF : Farm} `{HJ : JsonRoomCmd}.
Context (fl : bool) (s : Store) (Httl : 0 < ttl_seconds s) (c : ChatServer) (start : owners).
Context (http : string -> http_request -> string -> Prop) (peers : string -> list string -> Prop).
Context (Hstore : is_Some (cs_Store c)) (Htopics : NoDup [ChatTopic c; GroupChatTopic c; RommChatTopic c]).
Context (Hstart : forall sid u, start !! sid = Some u -> positive u).
Context (Hjson : (forall body b, json_groupsend body = Some b -> in_int64 (gq_GroupID b))
  /\ (forall body b, json_addgroup body = Some b -> in_int64 (aq_GroupID b))).

Abbreviation world := (fun M => @world_ok _ _ _ _ c start http M).

(** A connection with a session of user [u] asks to join room [a]. *)
Definition asked (x : awareness) (u a : Z) : Prop :=
  exists sid messages, peers sid messages /\ x.1.1.1 !! sid = Some u /\ asks_room messages a.

(** [payload] is a record that was meant for user [u]. *)
Inductive meant_for (x : awareness) (u : Z) (payload : string) : Prop :=
| meant_private k m : k ∈ x.2 -> k_Topic k = ChatTopic c -> k_Value k = payload ->
    private_posted http x payload m -> m_ToUserId m = u -> meant_for x u payload
| meant_group k m : k ∈ x.2 -> k_Topic k = GroupChatTopic c -> k_Value k = payload ->
    group_posted http x payload m -> member_of x (gm_GroupId m) u -> meant_for x u payload
| meant_room k m : k ∈ x.2 -> k_Topic k = RommChatTopic c -> k_Value k = payload ->
    room_posted http x payload m -> asked x u (rm_RoomId m) -> meant_for x u payload.

Lemma asked_mono x x' u a : aware_le x x' -> asked x u a -> asked x' u a.
Proof. intros [[Hle _] _] (sid & ms & H1 & H2 & H3). exists sid, ms. split_and!; [done|by eapply known_own|done]. Qed.

Lemma meant_for_mono x x' u payload : aware_le x x' -> meant_for x u payload -> meant_for x' u payload.
Proof.
  intros Hle. pose proof Hle as [_ Hlog]. intros [k m H1 H2 H3 H4 H5|k m H1 H2 H3 H4 H5|k m H1 H2 H3 H4 H5].
  - eapply meant_private; [by apply Hlog|done|done|by eapply private_posted_mono|done].
  - eapply meant_group; [by apply Hlog|done|done|by eapply group_posted_mono|by eapply member_of_mono].
  - eapply meant_room; [by apply Hlog|done|done|by eapply room_posted_mono|by eapply asked_mono].
Qed.

(** The routing table is no part of sessions and groups. *)
Lemma routing_unrelated {A} u (cmd : rcmd A) : writes cmd = Some (userServerKey u) -> unrelated (M := ConnectMem) (Rds cmd).
Proof.
  intros Hw. unfold unrelated, event_within, spares. rewrite Hw. split_and!; [|by intros [gid ?]|done].
  by intros [[sid ?]|[u' ?]].
Qed.

(** The memory of the processes is no part of the world. *)
Lemma world_part {M N} (get : N -> M) x (v : sysview N) : world N x v <-> world M x (part get v).
Proof. split; intros [[] H2 H3 H4 H5]; split; done. Qed.

Lemma world_memory x v (m : ConnectMem) t : world ConnectMem x v -> world ConnectMem x (set_mem m (tick t v)).
Proof. intros HI. apply (world_tick c start http x t) in HI as [[] H2 H3 H4 H5]. by split. Qed.

(** *** The surroundings of a node *)
#[local] Instance world_around : Ambient fl.
Proof using HC HCo HCd HJb HJ c start http peers.
  refine {| amb := awareness; amb_le := aware_le; amb_K := world ConnectMem; may_join := asked; may_see := meant_for |}.
  - intros x v m t _. apply world_memory.
  - intros x v u server ttl r v' HI Hx. eapply keeps_world; [|exact HI|exact Hx]. by apply (routing_unrelated u).
  - intros x v u r v' HI Hx. eapply keeps_world; [|exact HI|exact Hx]. by apply (routing_unrelated u).
  - intros x v v'. apply world_env.
  - intros x x' u a. apply asked_mono.
  - intros x x' u payload. apply meant_for_mono.
Defined.

Lemma nomem_rpc_Verify {M} req : nomem (verify_call req : prog (ev M) _).
Proof.
  unfold verify_call, rpc, Verify, IsSessionActive.
  repeat (cbn; match goal with
  | |- True => exact I
  | |- _ /\ _ => split; [done|intros]
  | |- context [match ?x with _ => _ end] => destruct x
  end).
Qed.

(** What arrives at a node fits its surroundings. *)
Lemma node_fits id op x v : world SysMem x v -> node_arrives peers v id op -> op_fits fl x op.
Proof using Hstart.
  intros HI. assert (forall call, (id, call) ∈ v_calls v -> call_ok c http x call) as Hcalls.
  { intros call Hin. pose proof (wo_calls _ _ _ _ _ HI) as H. rewrite Forall_forall in H. exact (H _ Hin). }
  destruct op as [rg auth up sid messages|ch ch' turns|req|req|req|u]; cbn; intros Ha; try done.
  - destruct Ha as (_ & -> & Hp). split; [apply nomem_rpc_Verify|]. intros y.
    eapply rg_conseq; [apply _|apply (rgw_rpc fl c start http y (Verify {| vr_SessionId := sid |})
      (fun x' rp => x'.1.1.1 !! sid = Some (vp_UserId rp)))|].
    + intros x1 x2 rp [[Hle _] _]. by apply known_own.
    + intros y1 _. eapply rg_conseq; [apply _|by apply rgw_Verify|]. intros y2 r _ Hr rp Hrp. by destruct (Hr rp Hrp).
    + intros y' [rp|e] _ Hr; [|done]. intros a Hask. exists sid, messages. split_and!; [done|by apply Hr|done].
  - destruct (Hcalls _ Ha) as (k & m & H1 & H2 & H3 & H4 & H5). rewrite <- H3. eapply meant_private; [done|done|done|exact H4|done].
  - destruct (Hcalls _ Ha) as (k & m & H1 & H2 & H3 & H4 & H5). intros u Hu. rewrite <- H3.
    eapply meant_group; [done|done|done|exact H4|auto].
  - destruct (Hcalls _ Ha) as (k & m & H1 & H2 & H3 & H4 & H5). intros x' u Hle Hj. rewrite <- H3. rewrite H5 in Hj.
    eapply meant_room; [by apply Hle|done|done|by eapply room_posted_mono|exact Hj].
Qed.

(** *** All processes *)
Definition nodes_ghost : Type := string -> ghost.
Definition nodes_le (g g' : nodes_ghost) : Prop := forall id, ghost_le (g id) (g' id).

#[local] Instance nodes_le_pre : PreOrder nodes_le.
Proof. split; [intros g id; reflexivity|]. intros g1 g2 g3 H1 H2 id. by transitivity (g2 id). Qed.

Abbreviation sys_le := (prod_relation nodes_le aware_le).

Definition sys_I (g : nodes_ghost * awareness) (v : sysview SysMem) : Prop :=
  (forall id, node_J (g.1 id, g.2) (sm_node (v_mem v) id)) /\ world SysMem g.2 v.

Abbreviation rgs := (rg (ext (M := SysMem) fl) sys_le sys_I).

(** A program that keeps the world and is not of a node. *)
Lemma lift_world {M} (get : SysMem -> M) put g x (p : prog (ev M) unit) :
  (forall m n, get (put m n) = m) -> (forall m n, sm_node (put m n) = sm_node n) ->
  rg (ext fl) aware_le (world M) x p (fun _ _ => True) -> rgs (g, x) (lift get put p) (fun _ _ => True).
Proof.
  intros Hgp Hn. revert g x. induction p as [a|X e k IH]; intros g x; cbn; [done|].
  intros Hrg [g1 x1] v y v' [Hg Hx] [HJ1 HW] Hy. cbn in Hg, Hx, HJ1, HW.
  apply (ext_lift get put fl Hgp) in Hy as [Hy Hm]. apply (world_part get) in HW.
  destruct (Hrg x1 _ y _ Hx HW Hy) as (x2 & Hx2 & HW2 & Hrg2). exists (g1, x2). split; [by split|]. split; [|by apply IH].
  split; cbn; [|by apply (world_part get)]. intros id.
  assert (sm_node (v_mem v') = sm_node (v_mem v)) as -> by (destruct Hm as [-> | [m ->]]; [done|apply Hn]).
  eapply node_J_amb; [exact Hx2|apply HJ1].
Qed.

(** A program of a node. *)
Lemma lift_node id g x (p : prog (ev ConnectMem) unit) :
  rg (ext fl) (prod_relation ghost_le amb_le) (amb_I node_J (fun g : ghost * amb => amb_K g.2)) (g id, x) p (fun _ _ => True) ->
  rgs (g, x) (on_node id p) (fun _ _ => True).
Proof.
  unfold on_node. revert g x. induction p as [a|X e k IH]; intros g x; cbn; [done|].
  intros Hrg [g1 x1] v y v' [Hg Hx] [HJ1 HW] Hy. cbn in Hg, Hx, HJ1, HW.
  apply (ext_lift (fun n => sm_node n id) (put_node id) fl (get_put_node id)) in Hy as [Hy Hm].
  apply (world_part (fun n => sm_node n id)) in HW.
  destruct (Hrg (g1 id, x1) (part (fun n => sm_node n id) v) y _ (conj (Hg id) Hx) (conj (HJ1 id) HW) Hy) as ([g2 x2] & [Hg2 Hx2] & [HJ2 HW2] & Hrg2).
  cbn in Hg2, Hx2, HJ2, HW2.
  set (g3 := fun j => if decide (id = j) then g2 else g1 j).
  assert (g3 id = g2 /\ forall j, id <> j -> g3 j = g1 j) as [Hg3 Hother].
  { unfold g3. split; [by rewrite decide_True|]. intros j Hne. by rewrite decide_False. }
  clearbody g3. exists (g3, x2). split; [split; [|done]|split].
  - intros j. cbn. destruct (decide (id = j)) as [<-|Hne]; [by rewrite Hg3|by rewrite Hother].
  - split; cbn; [|by apply (world_part (fun n => sm_node n id))]. intros j. destruct (decide (id = j)) as [<-|Hne].
    + rewrite Hg3. exact HJ2.
    + rewrite Hother by done. assert (sm_node (v_mem v') j = sm_node (v_mem v) j) as ->
        by (destruct Hm as [-> | [m ->]]; [done|cbn; by rewrite decide_False]).
      eapply node_J_amb; [exact Hx2|apply HJ1].
  - apply IH. by rewrite Hg3.
Qed.

Lemma client_prog_unrelated op : all_events (fun _ e => unrelated e) (client_prog op).
Proof.
  assert (forall entries errs, all_events (fun _ e => unrelated e) (close_entries entries errs)) as Hclose.
  { induction entries as [|[srv cn] rest IH]; intros errs; cbn; [done|]. split; [done|]. intros r. apply IH. }
  destruct op as [srv|srv|]; cbn [client_prog].
  - apply all_events_bind; [apply GetClient_unrelated|done].
  - unfold CloseClient. solve_events; done.
  - unfold CloseAll. cbn. split; [done|]. intros taken. split; [done|]. intros entries.
    apply all_events_bind; [apply Hclose|done].
Qed.

(** What arrives keeps the invariant. *)
Lemma arrives_rgs g x v p :
  sys_I (g, x) v -> arrives s c http peers v p -> exists x', aware_le x x' /\ sys_I (g, x') v /\ rgs (g, x') p (fun _ _ => True).
Proof using Httl Hstore Htopics Hstart Hjson.
  intros HI (op & -> & Hop). destruct HI as [HJ1 HW]. cbn in HJ1, HW.
  (* every record of Kafka is known from now on *)
  set (x' := (x.1, v_log v) : awareness). assert (aware_le x x') as Hle by (split; [done|apply HW]).
  assert (world SysMem x' v) as HW'.
  { pose proof HW as [H1 H2 H3 H4 H5]. split; cbn; try done.
    eapply Forall_impl; [exact H5|]. intros k. by apply call_ok_mono. }
  exists x'. split; [done|]. split; [split; [|done]; intros id; eapply node_J_amb; [exact Hle|apply HJ1]|].
  assert (forall topic k, k ∈ v_log v /\ k_Topic k = topic -> in_hand c http x' topic k) as Hhand.
  { intros topic k [Hk Ht]. split_and!; [done| |done]. pose proof (wo_log _ _ _ _ _ HW') as Hl. rewrite Forall_forall in Hl. by apply Hl. }
  assert (forall A (p : prog (ev TaskMem) A) (f : A -> unit), rg (ext fl) aware_le (world TaskMem) x' p (fun _ _ => True) ->
    rg (ext fl) aware_le (world TaskMem) x' (a <- p ;; Ret (f a)) (fun _ _ => True)) as Hret.
  { intros A p f Hp. apply rg_bind. eapply rg_conseq; [apply _|exact Hp|done]. }
  destruct op as [i path r body|i req|i op|id op]; cbn [sys_prog].
  - apply lift_world; [apply get_put_logic|done|]. apply rg_bind.
    eapply rg_conseq; [apply _|by apply rgl_ServeHTTP|done].
  - apply lift_world; [apply get_put_logic|done|]. apply rg_bind.
    eapply rg_conseq; [apply _|apply rgw_Logout|done].
  - apply lift_world; [apply get_put_task|done|]. destruct op as [claim|claim|claim|consumer claim|op|hook]; cbn in Hop |- *; apply (Hret _ _ (fun _ => tt)).
    + apply rgt_Single. eapply Forall_impl; [exact Hop|]. apply Hhand.
    + apply rgt_Group. eapply Forall_impl; [exact Hop|]. intros r (H1 & H2 & H3). split; [by apply Hhand|done].
    + apply rgt_Room. eapply Forall_impl; [exact Hop|]. apply Hhand.
    + apply rgw_unrelated, Persist_unrelated.
    + apply rgw_unrelated, client_prog_unrelated.
    + by rewrite (handler_hooks_return _ Hop).
  - apply lift_node. apply rg_node_prog. by eapply node_fits.
Qed.

(** Every reachable state satisfies the invariant. *)
Lemma system_inv g x v ps' v' :
  sys_I (g, x) v -> open_reachable (ext fl) env (arrives s c http peers) ([], v) (ps', v') ->
  exists g' x', aware_le x x' /\ sys_I (g', x') v'.
Proof using Httl Hstore Htopics Hstart Hjson.
  intros HI Hrun.
  destruct (open_invariant_post (ext fl) env sys_le sys_I (arrives s c http peers) (fun _ _ => True)) with (4 := Hrun) (5 := HI)
    as ([g' x'] & [_ Hle] & HI' & _); [done| | |constructor|by exists g', x'].
  - intros [g0 x0] v0 v1 [HJ0 HW0] He. destruct (world_env c start http x0 v0 v1 HW0 He) as (x1 & Hle & HW1).
    exists (g0, x1). split; [by split|]. split; [|done]. intros id. cbn. rewrite (env_mem _ _ He).
    eapply node_J_amb; [exact Hle|apply HJ0].
  - intros [g0 x0] v0 p HI0 Hp. destruct (arrives_rgs g0 x0 v0 p HI0 Hp) as (x1 & Hle & HI1 & Hrg).
    exists (g0, x1). split; [by split|]. done.
Qed.
End invariant.

(** ** Theorems *)
Section theorems.
Context `{HC : Crypto} `{HCo : Collation} `{HCd : Codec} `{HJb : JsonBodies} `{HD : Dialer} `{HF : Farm} `{HJ : JsonRoomCmd}.
Context {fl : bool}.

(** The system before anything has happened: sessions [start] and cached member
    sets that name members [f], nothing sent, no connection. *)
Record starts (start : owners) (f : facts) (v : sysview SysMem) : Prop := {
  st_sessions : exists act, sess_rep start act (v_rds v);
  st_generated : dom start ⊆ v_uuids v;
  st_positive : forall sid u, start !! sid = Some u -> 0 < u;
  st_ids : Forall (fun user => 0 < u_ID user <= max_int64) (t_users (v_db v));
  st_groups : group_I f v;
  st_asleep : v_spawned v = [];
  st_log : v_log v = [];
  st_calls : v_calls v = [];
  st_nodes : forall id, sm_node (v_mem v) id = node_start }.

(** How the logic service is set up, and what decoding JSON means. *)
Record set_up (s : Store) (c : ChatServer) : Prop := {
  su_ttl : 0 < ttl_seconds s;
  su_store : is_Some (cs_Store c);
  su_topics : NoDup [ChatTopic c; GroupChatTopic c; RommChatTopic c];
  su_groupsend body b : json_groupsend body = Some b -> in_int64 (gq_GroupID b);
  su_addgroup body b : json_addgroup body = Some b -> in_int64 (aq_GroupID b) }.

(** Sessions belong to users: those of the start, and those a login with the
    name and the password of the user got. *)
Definition sessions_true (start : owners) (http : string -> http_request -> string -> Prop) (own : owners) (v : sysview SysMem) : Prop :=
  (exists act, sess_rep own act (v_rds v))
  /\ forall sid u, own !! sid = Some u -> start !! sid = Some u
     \/ exists r body b req, http "/api/login" r body /\ json_credentials body = Some b
        /\ lr_Username req = cr_Username b /\ lr_Password req = cr_Password b /\ login_of (t_users (v_db v)) u req.

(** A record in Kafka was posted by the user it names as its sender; a group
    message by an active member of the group. *)
Inductive authentic (c : ChatServer) (http : string -> http_request -> string -> Prop) (own : owners) (v : sysview SysMem) (k : kmsg) : Prop :=
| authentic_private m r body b :
    k_Topic k = ChatTopic c -> Unmarshal_Message (k_Value k) = Ok m ->
    http "/api/send" r body -> json_send body = Some b -> own !! hr_Authorization r = Some (m_FromUserId m) ->
    m_ToUserId m = mq_ToUserID b -> m_Content m = mq_Content b -> authentic c http own v k
| authentic_group m r body b :
    k_Topic k = GroupChatTopic c -> Unmarshal_GroupMessage (k_Value k) = Ok m ->
    http "/api/groupsend" r body -> json_groupsend body = Some b -> own !! hr_Authorization r = Some (gm_FromUserId m) ->
    gm_GroupId m = gq_GroupID b -> gm_Content m = gq_Content b ->
    gm_FromUserId m ∈ active_members (gm_GroupId m) (v_db v) -> authentic c http own v k
| authentic_room m r body b :
    k_Topic k = RommChatTopic c -> Unmarshal_RoomMessage (k_Value k) = Ok m ->
    http "/api/roomsend" r body -> json_roomsend body = Some b -> own !! hr_Authorization r = Some (rm_FromUserId m) ->
    rm_RoomId m = rq_RoomID b -> rm_Content m = rq_Content b -> authentic c http own v k.

(** User [u] is one the record [k] is for: its recipient, an active member of its
    group, or a user who asked to join its room over a connection with a session
    of his. *)
Inductive recipient (c : ChatServer) (peers : string -> list string -> Prop) (own : owners) (v : sysview SysMem) (k : kmsg) (u : Z) : Prop :=
| recipient_private m :
    k_Topic k = ChatTopic c -> Unmarshal_Message (k_Value k) = Ok m -> m_ToUserId m = u -> recipient c peers own v k u
| recipient_group m :
    k_Topic k = GroupChatTopic c -> Unmarshal_GroupMessage (k_Value k) = Ok m ->
    u ∈ active_members (gm_GroupId m) (v_db v) -> recipient c peers own v k u
| recipient_room m sid messages :
    k_Topic k = RommChatTopic c -> Unmarshal_RoomMessage (k_Value k) = Ok m ->
    peers sid messages -> own !! sid = Some u -> asks_room messages (rm_RoomId m) -> recipient c peers own v k u.

Lemma system_reached s c start f http peers v ps' v' :
  set_up s c -> starts start f v -> open_reachable (ext fl) env (arrives s c http peers) ([], v) (ps', v') ->
  exists g x, sys_I fl c start http peers (g, x) v'.
Proof.
  intros [U1 U2 U3 U4 U5] [[act S1] S2 S3 S4 S5 S6 S7 S8 S9] Hrun.
  destruct (system_inv fl s U1 c start http peers U2 U3 S3 (conj U4 U5) (fun _ => (∅, ∅)) ((start, []), f, []) v ps' v') as (g & x & _ & HI);
    [|exact Hrun|by exists g, x].
  split.
  - intros id. cbn. rewrite S9. by apply node_start_ok.
  - split; cbn; rewrite ?S7, ?S8; try done. eapply auth_I_start; [exact S1|done| | |done].
    + eapply Forall_impl; [exact S4|]. intros user. unfold in_int64, min_int64. lia.
    + eapply Forall_impl; [exact S4|]. by intros user [? _].
Qed.

Lemma sessions_known c start http x v : world_ok c start http x v -> sessions_true start http x.1.1.1 v.
Proof.
  intros [HA _ _ _ _]. split; [apply HA|]. intros sid u Ho.
  destruct (ai_issued _ _ _ _ _ HA sid u Ho) as [?|(req & (r & body & b & H1 & H2 & H3 & H4) & Hl)]; [by left|]. right.
  exists r, body, b, req. split_and!; try done. eapply login_of_mono, Hl. apply HA.
Qed.

Lemma member_known c start http x gid u (v : sysview SysMem) : world_ok c start http x v -> member_of x gid u -> u ∈ active_members gid (v_db v).
Proof. intros [_ HG _ _ _] Hm. destruct HG as (_ & _ & [K1 _] & _). by apply K1. Qed.

(** C2. No message is forged, in the whole system: however requests to the
    gateways, consumers, connections, pushes and failures interleave, every
    record in Kafka was posted to a gateway with a session of the user it names
    as its sender (and by a member, if it is for a group); sessions are got by
    logins with the right password only. *)
Theorem no_forged_records s c start f http peers v ps' v' :
  set_up s c -> starts start f v ->
  open_reachable (ext fl) env (arrives s c http peers) ([], v) (ps', v') ->
  exists own, sessions_true start http own v'
    /\ forall k, k ∈ v_log v' -> k_Topic k ∈ [ChatTopic c; GroupChatTopic c; RommChatTopic c] -> authentic c http own v' k.
Proof.
  intros HU HS Hrun. destruct (system_reached _ _ _ _ _ _ _ _ _ HU HS Hrun) as (g & x & _ & HW).
  exists x.1.1.1. split; [by eapply sessions_known|]. intros k Hk Ht.
  pose proof (wo_log _ _ _ _ _ HW) as Hl. rewrite Forall_forall in Hl. destruct (Hl k Hk) as (H1 & H2 & H3).
  apply elem_of_cons in Ht as [Ht|[Ht|Ht%list_elem_of_singleton]%elem_of_cons].
  - destruct (H1 Ht) as (m & Hd & r & body & b & ? & ? & ? & ? & ?). by eapply authentic_private.
  - destruct (H2 Ht) as (m & Hd & r & body & b & ? & ? & ? & ? & ? & ? & Hm).
    eapply authentic_group; try done. by eapply member_known.
  - destruct (H3 Ht) as (m & Hd & r & body & b & ? & ? & ? & ? & ?). by eapply authentic_room.
Qed.

(** C1. Messages reach nobody else: in every reachable state of the whole system,
    whatever waits in the send buffer of a connection of user [u], on any
    node, is a record of Kafka that is for [u], and its sender is the user who
    posted it. *)
Theorem only_recipients_receive s c start f http peers v ps' v' :
  set_up s c -> starts start f v ->
  open_reachable (ext fl) env (arrives s c http peers) ([], v) (ps', v') ->
  exists own, sessions_true start http own v'
    /\ forall id n cl buf payload,
         client_heap (sm_node (v_mem v') id) !! n = Some cl -> chan_heap (sm_node (v_mem v') id) !! c_Send cl = Some buf ->
         payload ∈ buf ->
         exists k, k ∈ v_log v' /\ k_Value k = payload /\ authentic c http own v' k /\ recipient c peers own v' k (c_UserID cl).
Proof.
  intros HU HS Hrun. destruct (system_reached _ _ _ _ _ _ _ _ _ HU HS Hrun) as (g & x & HJ1 & HW). cbn in HJ1, HW.
  exists x.1.1.1. split; [by eapply sessions_known|]. intros id n cl buf payload Hcl Hbuf Hp.
  destruct (HJ1 id) as (_ & Hok & HB). destruct (co_client _ _ Hok _ _ Hcl) as (Hs & _).
  assert ((g id).2 !! c_Send cl = Some (c_UserID cl)) as Hgc by (rewrite Hs; apply (co_alloc _ _ Hok); by exists cl).
  specialize (HB _ _ _ Hbuf Hgc). rewrite Forall_forall in HB. specialize (HB _ Hp).
  pose proof (wo_known _ _ _ _ _ HW) as Hlog.
  destruct HB as [k m Hk Ht Hv Hm Hu|k m Hk Ht Hv Hm Hu|k m Hk Ht Hv Hm Hu];
    pose proof Hm as (Hd & r & body & b & Hrest); subst payload; exists k; (split; [by apply Hlog|]); (split; [done|]); split.
  - destruct Hrest as (? & ? & ? & ? & ?). by eapply authentic_private.
  - by eapply recipient_private.
  - destruct Hrest as (? & ? & ? & ? & ? & ? & Hmem). eapply authentic_group; try done. by eapply member_known.
  - eapply recipient_group; [done|done|]. by eapply member_known.
  - destruct Hrest as (? & ? & ? & ? & ?). by eapply authentic_room.
  - destruct Hu as (sid & ms & ? & ? & ?). by eapply recipient_room.
Qed.
End theorems.
