(* ===== verification/Delivery.v ===== *)
(** * A message from its post to its recipient

    The four processes one after the other, without failing calls: the recipient
    connects to a node, the sender posts to the gateway, a consumer takes the
    record out of Kafka, the node serves the push.  The theorem says that the
    message then waits in the send buffer of the recipient's connection, from
    where the write pump sends it ([ConnectSpec.writePump_fifo]). *)

From Stdlib Require Import ZArith Lia String.
From stdpp Require Import base tactics list gmap strings.
From S2P Require Import Prelude GoStd Effects Redis Database Proto World Rules Frames Lift Store Sessions Auth AuthSpec.
From S2P Require Import GroupServer GroupSpec GroupPool ChatServer ChatSpec Room ConnectMem RoomManager Registry Connection ConnectSpec.
From S2P Require Import ClientPool Consumer ConsumerSpec Goroutines Api ApiSpec Gateway SessionPool Knowledge LogicPool System.

Local Open Scope string_scope.
Local Open Scope Z_scope.

(** ** What the stages leave alone *)
Section frames.
Context `{HC : Crypto} `{HCo : Collation} `{HCd : Codec}.

Abbreviation spares_keys P := (fun _ e => event_within P (fun _ _ => True) (fun _ => True) e).

Definition is_route (u : Z) (key : string) : Prop := key = userServerKey u.

(** Sessions, member sets and the list of nodes. *)
Definition shared_key (key : string) : Prop := index_key key \/ group_key key \/ key = connectNodesKeyPrefix.

Lemma userServerKey_not_shared u : ~ shared_key (userServerKey u).
Proof. intros [[[sid ?]|[u' ?]]|[[gid ?]|?]]; done. Qed.

Lemma ServeWS_within rg up sid :
  all_events (fun _ e => event_within shared_key eq (fun _ => True) e) (ServeWS rg verify_call up sid : prog (ev ConnectMem) _).
Proof.
  pose proof userServerKey_not_shared as Hr. unfold ServeWS, verify_call, rpc, Verify, IsSessionActive, AddClient, closeConn, RegisterUser, RemoveClientIfMatch.
  solve_events; done.
Qed.

(** The sessions that have not expired meanwhile are still there. *)
Lemma kept_sess {M} own act (v v' : sysview M) :
  kept shared_key v v' -> sess_rep own act (v_rds v) -> exists act', sess_rep own act' (v_rds v') /\ act' ⊆ act.
Proof.
  intros [[_ ->] | [_ Hk]] R; [by exists act|]. exists (act_expire (v_now v') act). split; [|apply map_filter_subseteq].
  eapply rep_frame; [| |apply (rep_purge own (v_now v') act _ R)]; intros; apply Hk; left; [left|right]; by eexists.
Qed.

Lemma post_spares s c u r body :
  all_events (spares_keys (is_route u)) (api_SendMessage (logic_auth s) (logic_chat c None) r body : prog (ev LogicMem) _).
Proof.
  unfold api_SendMessage, logic_auth, logic_chat, rpc, Verify, IsSessionActive, SendMessage, nextMessageID.
  solve_events; done.
Qed.
End frames.

(** ** The stages *)
Section stages.
Context `{HC : Crypto} `{HCo : Collation} `{HCd : Codec} `{HJb : JsonBodies} `{HD : Dialer} {W : Type} `{HW : !World false SysMem W}.
Implicit Types w : W.

Abbreviation node id w := (sm_node (v_mem (view w)) id).

(** User [u] is connected to node [id] by connection [cl], where [waiting] is to
    be sent, and routed to it until [ex]. *)
Record connected (id : string) (u : Z) (cl : nat) (waiting : list string) (ex : Z) w : Prop := {
  cn_client : find_client u (node id w) = Some (cl, cl);
  cn_open : is_done cl (node id w) = false;
  cn_buffer : chan_heap (node id w) !! cl = Some waiting;
  cn_route : v_now (view w) < ex -> v_rds (view w) !! userServerKey u = Some (REntry (VStr id) (Some ex)) }.

Lemma connected_routed id u cl waiting ex w t :
  connected id u cl waiting ex w -> id <> "" -> v_now (view w) <= t < ex -> route_of (purge t (v_rds (view w))) u = Some id.
Proof.
  intros Hc Hne Ht. unfold route_of. change (routeKey u) with (userServerKey u).
  assert (purge t (v_rds (view w)) !! userServerKey u = Some (REntry (VStr id) (Some ex))) as ->.
  { apply lookup_purge. split; [apply (cn_route _ _ _ _ _ _ Hc); lia|]. cbn. lia. }
  cbn. by destruct (String.eqb_spec id "").
Qed.

(** A stage that touches neither the node nor the route. *)
Lemma connected_kept id u cl waiting ex w w' :
  node id w' = node id w -> kept (is_route u) (view w) (view w') -> connected id u cl waiting ex w -> connected id u cl waiting ex w'.
Proof.
  intros Hn Hk [C1 C2 C3 C4]. split; rewrite ?Hn; [done..|]. destruct Hk as [[-> ->] | [Ht Hk]]; [done|]. intros Hex.
  rewrite Hk by done. apply lookup_purge. split; [apply C4; lia|]. cbn. lia.
Qed.

Lemma exec_lift {M A} (get : SysMem -> M) put (p : prog (ev M) A) w a w' Q :
  (forall m n, get (put m n) = m) ->
  wp (ext false) p (part get (view w)) Q -> exec (lift get put p) w = (a, w') ->
  Q a (part get (view w')) /\ forall B (f : SysMem -> B), (forall m n, f (put m n) = f n) -> f (v_mem (view w')) = f (v_mem (view w)).
Proof. intros Hgp Hp Hrun. by apply (exec_wp _ _ _ (wp_lift get put false Hgp p (view w) Q Hp) _ _ Hrun). Qed.

Lemma connect_stage rg own act gc up sid w cl u w' :
  sess_rep own act (v_rds (view w)) -> conn_ok gc (node (ServerID rg) w) ->
  exec (on_node (ServerID rg) (ServeWS rg verify_call up sid)) w = (Serving cl u, w') ->
  connected (ServerID rg) u cl [] (v_now (view w') + 24 * hour_ms) w'
  /\ (exists act', sess_rep own act' (v_rds (view w')) /\ act' ⊆ act)
  /\ kept shared_key (view w) (view w') /\ v_db (view w') = v_db (view w).
Proof.
  intros R Hok Hrun.
  destruct (exec_lift (fun n => sm_node n (ServerID rg)) (put_node (ServerID rg)) _ w _ w' _ (get_put_node _)
    (wp_and _ _ _ _ _ (wp_ServeWS false rg gc own act up sid (part _ (view w)) R Hok)
      (wp_within false shared_key eq _ (part _ (view w)) (ServeWS_within rg up sid))) Hrun) as [[H [Hk Hdb]] _].
  destruct H as (_ & _ & _ & _ & Hd & Hf & Hb & Hr). split_and!; [by split|exact (kept_sess _ _ _ _ Hk R)|exact Hk|by symmetry].
Qed.

Lemma post_stage s c own act i r body w out w' :
  sess_rep own act (v_rds (view w)) ->
  exec (on_logic i (ServeHTTP (logic_auth s) (logic_chat c None) "/api/send" r body)) w = (HttpJSON out, w') ->
  exists b payload m ex, json_send body = Some b /\ act !! m_FromUserId m = Some (hr_Authorization r, ex)
    /\ Unmarshal_Message payload = Ok m /\ m_ToUserId m = mq_ToUserID b /\ m_Content m = mq_Content b
    /\ v_log (view w') = (v_log (view w) ++ [KMsg (ChatTopic c) (FormatInt (mq_ToUserID b)) payload])%list
    /\ forall id u cl waiting ex, connected id u cl waiting ex w -> connected id u cl waiting ex w'.
Proof.
  intros R Hrun.
  change (ServeHTTP _ _ "/api/send" r body) with (api_SendMessage (logic_auth s) (logic_chat c None) r (json_send body)) in Hrun.
  pose proof (fun u => exec_lift (fun n => sm_logic n i) (put_logic i) _ w _ w' _ (get_put_logic i)
    (wp_and _ _ _ _ _ (wp_api_SendMessage false s c None own act r (json_send body) (part _ (view w)) R)
      (wp_kept false (is_route u) _ (part _ (view w)) (post_spares s c u r (json_send body)))) Hrun) as H.
  destruct (H 0) as [[(u0 & ex & b & rp & payload & m & Hb & Ha & _ & Hd & <- & Ht & Hc & _ & _ & (_ & _ & Hl)) _] _].
  exists b, payload, m, ex. split_and!; try done.
  intros id u cl waiting ex'. destruct (H u) as [[_ Hk] Hm]. by apply connected_kept; [apply (Hm _ (fun n => sm_node n id))|].
Qed.

Lemma consume_stage id u cl waiting ex j k m w marked w' :
  dialable -> connected id u cl waiting ex w -> id <> "" -> Unmarshal_Message (k_Value k) = Ok m -> m_ToUserId m = u ->
  exec (on_task j (Single_ConsumeClaim [k])) w = (marked, w') -> v_now (view w') < ex ->
  marked = [k] /\ v_calls (view w') = (v_calls (view w) ++ [(id, private_call m (k_Value k))])%list
  /\ node id w' = node id w.
Proof.
  intros Hdial Hc Hne Hd Hu Hrun Hex.
  assert (wp (ext false) (Single_ConsumeClaim [k]) (part (fun n => sm_task n j) (view w)) (fun marked v' => marked = [k] /\ exists t cs,
      v_now (view w) <= t <= v_now v' /\ v_calls v' = (v_calls (view w) ++ cs)%list /\
      cs = match route_of (purge t (v_rds (view w))) (m_ToUserId m) with Some s => [(s, private_call m (k_Value k))] | None => [] end)) as Hwp.
  { cbn [Single_ConsumeClaim]. apply wp_bind. eapply wp_mono; [apply wp_single_message|].
    intros _ v' (t & cs & Ht & (Hcs & _ & _) & _ & Hall). cbn [bind wp]. split; [done|]. exists t, cs. split_and!; [apply Ht..|done|].
    rewrite Hd in Hall. by apply Hall. }
  destruct (exec_lift (fun n => sm_task n j) (put_task j) _ w _ w' _ (get_put_task j) Hwp Hrun) as [(-> & t & cs & Ht & Hcs & ->) Hm].
  split; [done|]. split; [|by apply (Hm _ (fun n => sm_node n id))]. cbn in Hcs, Ht. rewrite Hcs, Hu.
  by rewrite (connected_routed _ _ _ _ _ _ t Hc) by (done || lia).
Qed.

Lemma push_stage id u cl waiting req w rp w' :
  find_client u (node id w) = Some (cl, cl) -> is_done cl (node id w) = false ->
  chan_heap (node id w) !! cl = Some waiting -> (length waiting < sendCap)%nat -> pmr_ToUserId req = u ->
  exec (on_node id (PushMsg_handler req)) w = (rp, w') ->
  rp = Ok {| pmp_Success := true |} /\ chan_heap (node id w') !! cl = Some (waiting ++ [pmr_Payload req])%list.
Proof.
  intros Hf Ho Hb Hlen Hu Hrun.
  destruct (exec_lift (fun n => sm_node n id) (put_node id) _ w _ w' _ (get_put_node id) (wp_PushMsg false req (part _ (view w))) Hrun)
    as [(b & -> & H) _].
  change (v_mem (part (fun n => sm_node n id) (view w))) with (node id w) in H.
  change (v_mem (part (fun n => sm_node n id) (view w'))) with (node id w') in H.
  assert (chan_ready cl (node id w) = true) as Hr by (unfold chan_ready; change (chan_heap (node id w) !! (cl : chan) = Some waiting) in Hb; rewrite Hb; by apply Nat.ltb_lt).
  rewrite Hu in H. destruct b.
  - destruct H as (c' & ch & Hf' & _ & ->). rewrite Hf in Hf'. injection Hf' as <- <-. split; [done|]. cbn [set_chan chan_heap]. by rewrite lookup_alter_eq, Hb.
  - destruct H as [_ H]. destruct (H cl cl Hf); congruence.
Qed.

(** C3. A private message arrives: when its recipient is connected to a node, the
    gateway has accepted it, and neither the session of the sender nor the
    route of the recipient has expired, it is the one new record in Kafka, with
    the user of the session as its sender; the consumer that takes it makes one
    call, to the node of the recipient, and marks it; the node that serves the
    call puts it into the send buffer of the recipient's connection. *)
Theorem private_message_arrives s c own act gc rg up sid i j r body w0 cl u w1 out w2 :
  sess_rep own act (v_rds (view w0)) -> conn_ok gc (node (ServerID rg) w0) -> ServerID rg <> "" -> dialable ->
  exec (on_node (ServerID rg) (ServeWS rg verify_call up sid)) w0 = (Serving cl u, w1) ->
  exec (on_logic i (ServeHTTP (logic_auth s) (logic_chat c None) "/api/send" r body)) w1 = (HttpJSON out, w2) ->
  exists b k m, json_send body = Some b /\ v_log (view w2) = (v_log (view w1) ++ [k])%list
    /\ k_Topic k = ChatTopic c /\ Unmarshal_Message (k_Value k) = Ok m
    /\ (exists ex, act !! m_FromUserId m = Some (hr_Authorization r, ex)) /\ m_Content m = mq_Content b /\ m_ToUserId m = mq_ToUserID b
    /\ (mq_ToUserID b = u -> forall marked w3,
        exec (on_task j (Single_ConsumeClaim [k])) w2 = (marked, w3) -> v_now (view w3) < v_now (view w1) + 24 * hour_ms ->
        exists req, marked = [k] /\ v_calls (view w3) = (v_calls (view w2) ++ [(ServerID rg, PushMsg req)])%list
        /\ forall rp w4, exec (on_node (ServerID rg) (PushMsg_handler req)) w3 = (rp, w4) ->
           rp = Ok {| pmp_Success := true |} /\ chan_heap (node (ServerID rg) w4) !! cl = Some [k_Value k]).
Proof.
  intros R Hok Hne Hdial H1 H2. destruct (connect_stage _ _ _ _ _ _ _ _ _ _ R Hok H1) as (Hc & (act' & R' & Hsub) & _ & _).
  destruct (post_stage _ _ _ _ _ _ _ _ _ _ R' H2) as (b & payload & m & ex & Hb & Ha & Hd & Ht & Hcn & Hl & Hkeep).
  apply Hkeep in Hc. exists b, (KMsg (ChatTopic c) (FormatInt (mq_ToUserID b)) payload), m. split_and!; try done.
  { exists ex. by eapply lookup_weaken. }
  intros Hu marked w3 H3 Hex.
  destruct (consume_stage _ _ _ _ _ _ (KMsg (ChatTopic c) (FormatInt (mq_ToUserID b)) payload) m _ _ _ Hdial Hc Hne Hd ltac:(congruence) H3 Hex) as (-> & Hcall & Hn).
  eexists. split; [done|]. split; [exact Hcall|]. intros rp w4 H4.
  destruct Hc as [C1 C2 C3 _]. rewrite <- Hn in C1, C2, C3.
  apply (push_stage (ServerID rg) u cl [] _ _ _ _ C1 C2 C3) in H4; [exact H4|cbn; unfold sendCap; lia|cbn; congruence].
Qed.
End stages.
