(* ===== verification/DeliveryMany.v ===== *)
(** * A message from its post to many recipients

    What Delivery.v says of private messages, for group and room messages: the
    recipient is connected (and has joined the room), the sender posts to the
    gateway, a consumer takes the record out of Kafka and makes its fan-out, the
    node of the recipient serves its call; when these stages follow one another
    without failing calls the message then waits in the send buffer of the recipient's connection. *)

From Stdlib Require Import ZArith Lia String.
From stdpp Require Import base tactics list gmap strings.
From S2P Require Import Prelude GoStd Effects Redis Database Proto World Rules Frames Lift Store Sessions Auth AuthSpec.
From S2P Require Import GroupServer GroupSpec GroupPool ChatServer ChatSpec Room ConnectMem RoomManager RoomSpec Registry Connection ConnectSpec.
From S2P Require Import ClientPool Consumer ConsumerSpec ClaimSpec Goroutines Api ApiSpec Gateway SessionPool Knowledge LogicPool System Delivery.

Local Open Scope string_scope.
Local Open Scope Z_scope.

(** ** The node serves a push to many users *)

(** A push to a list of clients reaches the one whose buffer has room. *)
Lemma pushed_keeps payload clients m n m' ch buf :
  pushed payload clients m n m' -> chan_heap m !! ch = Some buf ->
  exists more, chan_heap m' !! ch = Some (buf ++ more)%list /\ Forall (eq payload) more.
Proof.
  intros Hp. revert buf. induction Hp as [m|c ch0 rest m n m' _ _ IH|c ch0 rest m n m' _ _ IH]; intros buf Hb; [|..|by apply IH].
  - exists []. by rewrite app_nil_r.
  - destruct (decide (ch0 = ch)) as [->|Hne].
    + destruct (IH (buf ++ [payload])%list) as (more & Hm & Hf); [cbn; by rewrite lookup_alter_eq, Hb|].
      exists (payload :: more). split; [by rewrite Hm, <- app_assoc|by constructor].
    + apply IH. cbn. by rewrite lookup_alter_ne.
Qed.

Lemma pushed_reaches payload clients m n m' c ch buf :
  pushed payload clients m n m' -> (c, ch) ∈ clients -> is_done c m = false ->
  chan_heap m !! ch = Some buf -> (length buf < sendCap)%nat ->
  exists more, chan_heap m' !! ch = Some (buf ++ payload :: more)%list /\ Forall (eq payload) more.
Proof.
  intros Hp. revert buf. induction Hp as [m|c0 ch0 rest m n m' Hr Hrest IH|c0 ch0 rest m n m' Hr _ IH];
    intros buf Hin Ho Hb Hlen; [set_solver|..].
  - destruct (decide (ch0 = ch)) as [->|Hne].
    + destruct (pushed_keeps _ _ _ _ _ ch (buf ++ [payload])%list Hrest) as (more & Hm & Hf); [cbn; by rewrite lookup_alter_eq, Hb|].
      exists more. by rewrite Hm, <- app_assoc.
    + apply IH; [|done|cbn; by rewrite lookup_alter_ne|done]. apply elem_of_cons in Hin as [[= _ ->]|?]; done.
  - apply elem_of_cons in Hin as [[= <- <-]|Hin]; [|by apply IH]. exfalso. destruct Hr as [Hr|Hr]; [congruence|].
    unfold chan_ready in Hr. change (chan_heap m !! (ch : chan) = Some buf) in Hb. rewrite Hb in Hr. apply Nat.ltb_ge in Hr. lia.
Qed.

Lemma wp_PushMsgToUsers `{Crypto} fl req (v : sysview ConnectMem) :
  wp (ext fl) (PushMsgToUsers_handler req) v (fun _ v' => exists n,
    pushed (par_Payload req) (omap (M := list) (fun u => find_client u (v_mem v)) (par_UserIds req)) (v_mem v) n (v_mem v')).
Proof.
  unfold PushMsgToUsers_handler. cbn [bind call]. apply wp_mem. intros t Ht. apply wp_bind.
  eapply wp_mono; [apply wp_push_all|]. intros n v' (f & _ & Hp). by exists f.
Qed.

(** ** Group messages *)
Section group.
Context `{HC : Crypto} `{HCo : Collation} `{HCd : Codec} `{HJb : JsonBodies} `{HD : Dialer} {W : Type} `{HW : !World false SysMem W}.
Implicit Types w : W.

Abbreviation node id w := (sm_node (v_mem (view w)) id).
Abbreviation refresh_call := (fun r => rpc (RefreshGroupMembersCache r)).

Lemma group_post_spares s c u r b :
  all_events (fun _ e => event_within (is_route u) (fun _ _ => True) (fun _ => True) e)
    (api_SendGroupMessage (logic_auth s) (logic_chat c None) r (Some b) : prog (ev LogicMem) _).
Proof.
  assert (forall gid ms, Forall (spares_queued (is_route u)) (rebuild_cache (groupMembersKey gid) ms)) as Hrebuild.
  { intros gid ms. destruct ms; repeat constructor; done. }
  unfold api_SendGroupMessage, logic_auth, logic_chat, rpc, Verify, IsSessionActive, SendGroupMessage, check_sender, IsGroupMember, sg_do,
    member_fallback, nextMessageID.
  solve_events; done || apply Hrebuild.
Qed.

Lemma group_post_stage s c own act i r b w out w' :
  sess_rep own act (v_rds (view w)) -> coherent (view w) -> cs_Store c <> None -> in_int64 (gq_GroupID b) ->
  (forall u ex, act !! u = Some (hr_Authorization r, ex) -> u <> -1) ->
  exec (on_logic i (api_SendGroupMessage (logic_auth s) (logic_chat c None) r (Some b))) w = (HttpJSON out, w') ->
  exists payload m ex, act !! gm_FromUserId m = Some (hr_Authorization r, ex)
    /\ 0 < gq_GroupID b /\ gm_FromUserId m ∈ active_members (gq_GroupID b) (v_db (view w))
    /\ Unmarshal_GroupMessage payload = Ok m /\ gm_GroupId m = gq_GroupID b /\ gm_Content m = gq_Content b
    /\ v_log (view w') = (v_log (view w) ++ [KMsg (GroupChatTopic c) (FormatInt (gq_GroupID b)) payload])%list
    /\ v_db (view w') = v_db (view w) /\ coherent (view w')
    /\ forall id u cl waiting ex, connected id u cl waiting ex w -> connected id u cl waiting ex w'.
Proof.
  intros R Hco Hst Hg Hne1 Hrun. set (v := part (fun n => sm_logic n i) (view w)).
  pose proof (fun u => exec_lift (fun n => sm_logic n i) (put_logic i) _ w _ w' _ (get_put_logic i)
    (wp_and _ _ _ _ _ (wp_api_SendGroupMessage false s c own act r b v R Hco Hst Hg Hne1)
      (wp_and _ _ _ _ _ (wp_api_group_coherent false s c own act r b v R Hco Hg Hne1)
        (wp_kept false (is_route u) _ v (group_post_spares s c u r b)))) Hrun) as H.
  destruct (H 0) as [[(u0 & ex & rp & payload & m & Ha & _ & Hpos & Hm & Hd & <- & Hgid & Hc & _ & (_ & _ & Hl)) [[Hdb Hco'] _]] _].
  exists payload, m, ex. split_and!; try done.
  intros id u cl waiting ex'. destruct (H u) as [[_ [_ Hk]] Hmem]. by apply connected_kept; [apply (Hmem _ (fun n => sm_node n id))|].
Qed.

(** The consumer makes one attempt, which pushes to every online member. *)
Lemma wp_one_claim k gm v :
  Unmarshal_GroupMessage (k_Value k) = Ok gm -> in_int64 (gm_GroupId gm) -> gm_GroupId gm <> 0 -> coherent v ->
  -1 ∉ active_members (gm_GroupId gm) (v_db v) ->
  wp (ext false) (Group_ConsumeClaim refresh_call [(k, (None, []))]) v (fun marked v' => marked = [k]
    /\ exists r, fan_post false v gm (k_Value k) r v').
Proof.
  intros Hd Hg Hnz Hco Hneg. cbn [Group_ConsumeClaim group_retry]. unfold handleGroupMessage. rewrite Hd.
  apply wp_bind, wp_bind. eapply wp_mono; [by apply wp_handleSmallGroupMessage|]. intros r v' Hp.
  pose proof Hp as (t & cs & _ & _ & _ & Hr). rewrite (Hr eq_refl) in Hp |- *. cbn. split; [done|]. by exists (Ok tt).
Qed.

Lemma group_consume_stage id u cl waiting ex j k gm w marked w' :
  dialable -> connected id u cl waiting ex w -> id <> "" -> coherent (view w) ->
  Unmarshal_GroupMessage (k_Value k) = Ok gm -> in_int64 (gm_GroupId gm) -> gm_GroupId gm <> 0 ->
  -1 ∉ active_members (gm_GroupId gm) (v_db (view w)) ->
  u ∈ active_members (gm_GroupId gm) (v_db (view w)) -> u <> gm_FromUserId gm ->
  exec (on_task j (Group_ConsumeClaim refresh_call [(k, (None, []))])) w = (marked, w') -> v_now (view w') < ex ->
  marked = [k] /\ node id w' = node id w
  /\ exists cs uids, v_calls (view w') = (v_calls (view w) ++ cs)%list /\ NoDup cs.*1
     /\ (id, group_push gm (k_Value k) uids) ∈ cs /\ u ∈ uids.
Proof.
  intros Hdial Hc Hne Hco Hd Hg Hnz Hneg Hu Hself Hrun Hex.
  destruct (exec_lift (fun n => sm_task n j) (put_task j) _ w _ w' _ (get_put_task j)
    (wp_one_claim k gm (part (fun n => sm_task n j) (view w)) Hd Hg Hnz Hco Hneg) Hrun) as [(-> & r & t & cs & Ht & (Hcs & _ & _) & [H1 _ H3] & _) Hm].
  cbn in Ht, Hcs, H3. split; [done|]. split; [by apply (Hm _ (fun n => sm_node n id))|].
  destruct (H3 (conj eq_refl Hdial) u id) as (uids & Hin & Huids); [|by exists cs, uids].
  split_and!; [done|done|]. eapply connected_routed; [exact Hc|done|lia].
Qed.

Lemma group_push_stage id u cl waiting req w rp w' :
  find_client u (node id w) = Some (cl, cl) -> is_done cl (node id w) = false ->
  chan_heap (node id w) !! cl = Some waiting -> (length waiting < sendCap)%nat -> u ∈ par_UserIds req ->
  exec (on_node id (PushMsgToUsers_handler req)) w = (rp, w') ->
  exists more, chan_heap (node id w') !! cl = Some (waiting ++ par_Payload req :: more)%list /\ Forall (eq (par_Payload req)) more.
Proof.
  intros Hf Ho Hb Hlen Hu Hrun.
  destruct (exec_lift (fun n => sm_node n id) (put_node id) _ w _ w' _ (get_put_node id) (wp_PushMsgToUsers false req (part _ (view w))) Hrun)
    as [[n Hp] _].
  eapply pushed_reaches; [exact Hp| |exact Ho|exact Hb|exact Hlen]. apply list_elem_of_omap. by exists u.
Qed.

End group.

(** ** Room messages *)
Section room.
Context `{HC : Crypto} `{HCo : Collation} `{HCd : Codec} `{HJb : JsonBodies} `{HF : Farm} `{HJ : JsonRoomCmd} `{HD : Dialer}.
Context {W : Type} `{HW : !World false SysMem W}.
Implicit Types w : W.

Abbreviation node id w := (sm_node (v_mem (view w)) id).

(** The invariant of a node ([ConnectSpec.node_invariant]), about which nothing more is known. *)
Definition node_ok (g : ghost) (m : ConnectMem) : Prop := @node_J _ _ false (ambient_any false) (g, tt) m.

Lemma wp_node_ok {A} g (p : prog (ev ConnectMem) A) Q v :
  rg (ext false) (prod_relation ghost_le (amb_le (Ambient := ambient_any false)))
    (amb_I (@node_J _ _ false (ambient_any false)) (fun g => amb_K (Ambient := ambient_any false) g.2)) (g, tt) p Q ->
  node_ok g (v_mem v) -> wp (ext false) p v (fun a v' => exists g', node_ok g' (v_mem v') /\ Q (g', tt) a).
Proof.
  intros Hp Hn. eapply wp_mono; [apply (wp_rg _ _ _ _ _ _ v Hp); by split|].
  intros a v' ([g' []] & _ & [Hn' _] & HQ). by exists g'.
Qed.

(** The node is in the set of nodes that consumers broadcast to. *)
Definition listed (id : string) w : Prop :=
  exists N, v_rds (view w) !! connectNodesKeyPrefix = Some (REntry (VSet N) None) /\ id ∈ N.

Lemma listed_kept id w w' : kept shared_key (view w) (view w') -> listed id w -> listed id w'.
Proof.
  intros Hk (N & HN & Hid). exists N. split; [|done]. destruct Hk as [[_ ->] | [_ Hk]]; [done|].
  rewrite Hk by by right; right. apply lookup_purge. by split.
Qed.

Lemma abs_join_in u ch l : (u, ch) ∈ abs_join u ch l.
Proof.
  unfold abs_join. case_decide as Hd; [|apply elem_of_app; right; by apply list_elem_of_singleton].
  apply list_elem_of_fmap in Hd as (p & -> & Hp). apply list_elem_of_fmap. exists p. by rewrite decide_True.
Qed.

Lemma wp_join_command c u ch cmd (v : sysview ConnectMem) :
  Op cmd = "joinRoom" -> 0 < RoomID cmd -> rooms_ok (v_mem v) ->
  wp (ext false) (room_command c u ch cmd) v (fun _ v' =>
    (u, ch) ∈ room_view (RoomID cmd) (v_mem v') /\ chan_heap (v_mem v') = chan_heap (v_mem v)).
Proof.
  intros Hop Hpos Ho. unfold room_command. rewrite Hop. cbn [String.eqb Ascii.eqb Bool.eqb].
  destruct (Z.leb_spec (RoomID cmd) 0); [lia|]. apply wp_bind. eapply wp_mono; [by apply wp_JoinRoom|].
  intros _ v1 (_ & (_ & _ & Hch) & Hv1). apply wp_mem. intros t Ht. cbn [wp v_mem set_mem tick snd add_room].
  rewrite room_view_client, Hv1, decide_True by done. split; [apply abs_join_in|exact Hch].
Qed.

Lemma command_within c u ch cmd :
  all_events (fun _ e => event_within shared_key eq (fun _ => True) e) (room_command c u ch cmd).
Proof. unfold room_command, JoinRoom, LeaveRoom, addRoom, removeRoom. solve_events; done. Qed.

Lemma serve_node_ok rg up sid g w cl u w' :
  node_ok g (node (ServerID rg) w) ->
  exec (on_node (ServerID rg) (ServeWS rg verify_call up sid)) w = (Serving cl u, w') ->
  exists g', node_ok g' (node (ServerID rg) w') /\ g'.2 !! cl = Some u.
Proof.
  intros Hn Hrun.
  assert (@auth_ok _ false (ambient_any false) verify_call sid (asks_room [])) as Hauth.
  { apply (op_ok_fits false (OpConnect rg verify_call up sid [])). cbn. intros r. apply nomem_rpc_Verify. }
  destruct (exec_lift (fun n => sm_node n (ServerID rg)) (put_node (ServerID rg)) _ w _ w' _ (get_put_node _)
    (wp_node_ok g _ _ (part _ (view w)) (rg_ServeWS false (HA := ambient_any false) rg verify_call up sid (g, tt) _ Hauth) Hn) Hrun)
    as [(g' & Hn' & Hcl & _) _].
  by exists g'.
Qed.

Lemma join_stage id g cl u cmd w x w' :
  node_ok g (node id w) -> g.2 !! cl = Some u -> Op cmd = "joinRoom" -> 0 < RoomID cmd ->
  exec (on_node id (room_command cl u cl cmd)) w = (x, w') ->
  (exists g', node_ok g' (node id w')) /\ (u, cl) ∈ room_view (RoomID cmd) (node id w')
  /\ chan_heap (node id w') = chan_heap (node id w) /\ kept shared_key (view w) (view w').
Proof.
  intros Hn Hg Hop Hpos Hrun. set (v := part (fun n => sm_node n id) (view w)).
  destruct (exec_lift (fun n => sm_node n id) (put_node id) _ w _ w' _ (get_put_node id)
    (wp_and _ _ _ _ _ (wp_node_ok g _ _ v (rg_room_command false (HA := ambient_any false) (g, tt) cl u cl cmd Hg (fun _ => I)) Hn)
      (wp_and _ _ _ _ _ (wp_join_command cl u cl cmd v Hop Hpos (proj1 (proj1 Hn)))
        (wp_within false shared_key eq _ v (command_within cl u cl cmd)))) Hrun) as [((g' & Hn' & _) & [Hin Hch] & Hk & _) _].
  split_and!; [by exists g'|done|done|exact Hk].
Qed.
Lemma room_post_within s c r b :
  all_events (fun _ e => event_within shared_key eq (fun _ => True) e)
    (api_SendRoomMessage (logic_auth s) (logic_chat c None) r b : prog (ev LogicMem) _).
Proof.
  unfold api_SendRoomMessage, logic_auth, logic_chat, rpc, Verify, IsSessionActive, SendRoomMessage, nextMessageID.
  solve_events; done || (intros [[[? ?]|[? ?]]|[[? ?]|?]]; done).
Qed.

Lemma room_post_stage s c own act i r body w out w' :
  sess_rep own act (v_rds (view w)) ->
  exec (on_logic i (ServeHTTP (logic_auth s) (logic_chat c None) "/api/roomsend" r body)) w = (HttpJSON out, w') ->
  exists b payload m ex, json_roomsend body = Some b /\ act !! rm_FromUserId m = Some (hr_Authorization r, ex)
    /\ Unmarshal_RoomMessage payload = Ok m /\ rm_RoomId m = rq_RoomID b /\ rm_Content m = rq_Content b
    /\ v_log (view w') = (v_log (view w) ++ [KMsg (RommChatTopic c) (FormatInt (rq_RoomID b)) payload])%list
    /\ kept shared_key (view w) (view w') /\ forall id, node id w' = node id w.
Proof.
  intros R Hrun.
  change (ServeHTTP _ _ _ r body) with (api_SendRoomMessage (logic_auth s) (logic_chat c None) r (json_roomsend body)) in Hrun.
  set (v := part (fun n => sm_logic n i) (view w)).
  destruct (exec_lift (fun n => sm_logic n i) (put_logic i) _ w _ w' _ (get_put_logic i)
    (wp_and _ _ _ _ _ (wp_api_SendRoomMessage false s c None own act r (json_roomsend body) v R)
      (wp_within false shared_key eq _ v (room_post_within s c r (json_roomsend body)))) Hrun)
    as [[(u0 & ex & b & payload & m & Hb & Ha & Hd & <- & Hr & Hc & (_ & _ & Hl)) [Hk _]] Hm].
  exists b, payload, m, ex. split_and!; try done. intros id. by apply (Hm _ (fun n => sm_node n id)).
Qed.

Lemma room_consume_stage id j k m w marked w' :
  dialable -> listed id w -> Unmarshal_RoomMessage (k_Value k) = Ok m ->
  exec (on_task j (Room_ConsumeClaim [k])) w = (marked, w') ->
  marked = [k] /\ node id w' = node id w
  /\ exists cs, v_calls (view w') = (v_calls (view w) ++ cs)%list /\ NoDup cs.*1 /\ (id, room_call m (k_Value k)) ∈ cs.
Proof.
  intros Hdial (N & HN & Hid) Hd Hrun. set (v := part (fun n => sm_task n j) (view w)).
  assert (wp (ext false) (Room_ConsumeClaim [k]) v (fun marked v' => marked = [k] /\ exists r, room_post false v m (k_Value k) r v')) as Hwp.
  { cbn [Room_ConsumeClaim]. unfold handleRoomMessage. rewrite Hd. apply wp_bind.
    eapply wp_mono; [apply wp_handleRoomBroadcast|]. intros r v' Hp. cbn [bind wp]. split; [done|]. by exists r. }
  destruct (exec_lift (fun n => sm_task n j) (put_task j) _ w _ w' _ (get_put_task j) Hwp Hrun)
    as [(-> & r & t & cs & _ & (Hcs & _ & _) & Hnd & _ & Hall) Hm].
  split; [done|]. split; [by apply (Hm _ (fun n => sm_node n id))|]. exists cs. split; [exact Hcs|]. split; [exact Hnd|].
  assert (purge t (v_rds (view w)) !! connectNodesKeyPrefix = Some (REntry (VSet N) None)) as HN' by (apply lookup_purge; by split).
  apply (Hall eq_refl Hdial N); [|exact Hid]. change (v_rds v) with (v_rds (view w)). by rewrite HN'.
Qed.

Lemma room_broadcast_stage id g u cl waiting req w rp w' :
  node_ok g (node id w) -> (u, cl) ∈ room_view (brr_RoomId req) (node id w) -> u <> brr_FromUserId req ->
  chan_heap (node id w) !! cl = Some waiting -> (length waiting < sendCap)%nat ->
  exec (on_node id (BroadcastRoom_handler req)) w = (rp, w') ->
  chan_heap (node id w') !! cl = Some (waiting ++ [brr_Payload req])%list.
Proof.
  intros ((Ho & _ & _ & Hown) & _ & _) Hin Hne Hb Hlen Hrun.
  set (v := part (fun n => sm_node n id) (view w)).
  assert (wp (ext false) (BroadcastRoom_handler req) v (fun _ v' => delivered
    (filter (fun p => p.1 <> brr_FromUserId req) (room_view (brr_RoomId req) (v_mem v))).*2 (brr_Payload req) (v_mem v) (v_mem v'))) as Hwp.
  { unfold BroadcastRoom_handler. apply wp_bind. eapply wp_mono; [apply wp_BroadcastRoom; [exact Ho|]|by intros n v' [Hd _]].
    apply (rooms_distinct _ _ _ _ Ho (Hown _)). }
  destruct (exec_lift (fun n => sm_node n id) (put_node id) _ w _ w' _ (get_put_node id) Hwp Hrun) as [[_ Hd] _].
  rewrite (Hd cl : chan_heap (node id w') !! cl = _). rewrite decide_True, (Hb : chan_heap (v_mem v) !! cl = _); [done|].
  split; [|unfold chan_ready; rewrite (Hb : chan_heap (v_mem v) !! cl = _); by apply Nat.ltb_lt].
  apply list_elem_of_fmap. exists (u, cl). split; [done|]. by apply list_elem_of_filter.
Qed.
(** C5. A room message arrives: when a user has connected to a node, which consumers
    know, and has joined a room with this connection, and the gateway has accepted
    a message to the room from another user, it is the one new record in Kafka, with
    the user of the session as its sender; the consumer that takes it marks it and
    calls each node at most once, among them this node; serving the call puts the
    message into the send buffer of the connection, once. *)
Theorem room_message_arrives s c own act g rg up sid i j r body cmd w0 cl u w1 x w2 out w3 :
  sess_rep own act (v_rds (view w0)) -> node_ok g (node (ServerID rg) w0) -> listed (ServerID rg) w0 -> dialable ->
  Op cmd = "joinRoom" -> 0 < RoomID cmd ->
  exec (on_node (ServerID rg) (ServeWS rg verify_call up sid)) w0 = (Serving cl u, w1) ->
  exec (on_node (ServerID rg) (room_command cl u cl cmd)) w1 = (x, w2) ->
  exec (on_logic i (ServeHTTP (logic_auth s) (logic_chat c None) "/api/roomsend" r body)) w2 = (HttpJSON out, w3) ->
  exists b k m, json_roomsend body = Some b /\ v_log (view w3) = (v_log (view w2) ++ [k])%list
    /\ k_Topic k = RommChatTopic c /\ Unmarshal_RoomMessage (k_Value k) = Ok m
    /\ (exists ex, act !! rm_FromUserId m = Some (hr_Authorization r, ex))
    /\ rm_RoomId m = rq_RoomID b /\ rm_Content m = rq_Content b
    /\ (rq_RoomID b = RoomID cmd -> u <> rm_FromUserId m -> forall marked w4,
        exec (on_task j (Room_ConsumeClaim [k])) w3 = (marked, w4) ->
        exists cs req, marked = [k] /\ v_calls (view w4) = (v_calls (view w3) ++ cs)%list /\ NoDup cs.*1
        /\ (ServerID rg, Proto.BroadcastRoom req) ∈ cs
        /\ forall rp w5, exec (on_node (ServerID rg) (BroadcastRoom_handler req)) w4 = (rp, w5) ->
           chan_heap (node (ServerID rg) w5) !! cl = Some [k_Value k]).
Proof.
  intros R Hok Hl Hdial Hop Hpos H1 H2 H3.
  destruct (connect_stage _ _ _ _ _ _ _ _ _ _ R (proj1 (proj2 Hok)) H1) as ([_ _ Hb1 _] & (act1 & R1 & Hsub1) & Hk1 & _).
  destruct (serve_node_ok _ _ _ _ _ _ _ _ Hok H1) as (g1 & Hok1 & Hcl).
  destruct (join_stage _ _ _ _ _ _ _ _ Hok1 Hcl Hop Hpos H2) as ((g2 & Hok2) & Hin & Hch & Hk2).
  destruct (kept_sess _ _ _ _ Hk2 R1) as (act2 & R2 & Hsub2).
  destruct (room_post_stage _ _ _ _ _ _ _ _ _ _ R2 H3) as (b & payload & m & ex & Hb & Ha & Hd & Hr & Hct & Hlog & Hk3 & Hn3).
  apply (listed_kept _ _ _ Hk1), (listed_kept _ _ _ Hk2), (listed_kept _ _ _ Hk3) in Hl.
  exists b, (KMsg (RommChatTopic c) (FormatInt (rq_RoomID b)) payload), m. split_and!; try done.
  { exists ex. by eapply lookup_weaken, Hsub1; eapply lookup_weaken. }
  intros Hroom Hne marked w4 H4. set (k := KMsg _ _ _) in *.
  destruct (room_consume_stage _ _ k m _ _ _ Hdial Hl Hd H4) as (-> & Hn4 & cs & Hcs & Hnd & Hcall).
  exists cs. eexists. split; [done|]. split; [exact Hcs|]. split; [exact Hnd|]. split; [exact Hcall|]. intros rp w5 H5.
  assert (node (ServerID rg) w4 = node (ServerID rg) w2) as Hn by by rewrite Hn4.
  rewrite <- Hn in Hok2, Hin, Hch. assert (chan_heap (node (ServerID rg) w4) !! cl = Some []) as Hb4 by by rewrite Hch.
  refine (room_broadcast_stage _ _ u cl [] _ _ _ _ Hok2 _ _ Hb4 _ H5); cbn; [by rewrite Hr, Hroom|done|unfold sendCap; lia].
Qed.
End room.
