(* ===== verification/Schema.v ===== *)
(** * What MySQL holds (src/sql/schema.sql), under everything the system does

    Rows of the types of their columns, under keys that do not clash, group
    counters that count, and an owner in every group: no interleaving of the
    services breaks it, and no row is ever changed or removed but for the counter
    of a group. *)

From Stdlib Require Import ZArith Lia String.
From stdpp Require Import base tactics list gmap strings.
From S2P Require Import Prelude GoStd Effects Redis Database Proto World Rules Frames Lift Goroutines Store Auth GroupServer.
From S2P Require Import GroupSpec ChatServer Room ConnectMem RoomManager Registry Connection ConnectSpec ClientPool.
From S2P Require Import Consumer Api ApiSpec Gateway LogicPool System.

Local Open Scope string_scope.
Local Open Scope Z_scope.

(** ** Tables *)

(** A table: distinct ids in the range of the column, rows whose keys do not
    [clash], and rows that are [fit]. *)
Section table.
Context {A : Type} (id : A -> Z) (clash : A -> A -> bool) (fit : A -> Prop).

Record table_ok (l : list A) : Prop := {
  tb_ids : NoDup (id <$> l);
  tb_range : Forall (fun a => 0 < id a <= max_int64) l;
  tb_keys : ForallOrdPairs (fun a b => clash a b = false) l;
  tb_fit : Forall fit l }.

Lemma pairs_snoc (R : A -> A -> Prop) l x : ForallOrdPairs R l -> Forall (fun a => R a x) l -> ForallOrdPairs R (l ++ [x]).
Proof.
  intros H Hx. induction H as [|a l Ha _ IH]; cbn; [by repeat constructor|]. apply Forall_cons in Hx as [Hax Hx].
  constructor; [|by apply IH]. apply Forall_app. split; [done|by apply Forall_singleton].
Qed.

(** An INSERT. *)
Lemma table_ok_snoc l x :
  table_ok l -> above (id x) (id <$> l) -> id x <= max_int64 -> existsb (fun a => clash a x) l = false -> fit x -> table_ok (l ++ [x]).
Proof.
  intros [H1 H2 H3 H4] Hab Hmax Hno Hx. split.
  - rewrite fmap_app. apply NoDup_app. split_and!; [done| |apply NoDup_singleton]. intros i Hi ->%list_elem_of_singleton.
    by apply above_not_in in Hab.
  - apply Forall_app. split; [done|]. apply Forall_singleton. split; [apply Hab|done].
  - apply pairs_snoc; [done|]. rewrite existsb_false in Hno. apply Forall_forall. intros a Ha. by apply Hno, list_elem_of_In.
  - apply Forall_app. split; [done|by apply Forall_singleton].
Qed.

(** An UPDATE of columns that are no keys. *)
Lemma table_ok_fmap (f : A -> A) l :
  (forall a, id (f a) = id a) -> (forall a b, clash (f a) (f b) = clash a b) -> Forall (fun a => fit a -> fit (f a)) l ->
  table_ok l -> table_ok (f <$> l).
Proof.
  intros Hid Hcl Hf [H1 H2 H3 H4]. split.
  - by rewrite <- list_fmap_compose, (list_fmap_ext (id ∘ f) id) by (intros i a _; apply Hid).
  - apply Forall_fmap. eapply Forall_impl; [exact H2|]. intros a. cbn. by rewrite Hid.
  - clear -H3 Hcl. induction H3 as [|a l Ha _ IH]; cbn; constructor; [|done]. apply Forall_fmap.
    eapply Forall_impl; [exact Ha|]. intros b. cbn. by rewrite Hcl.
  - apply Forall_fmap, Forall_forall. intros a Ha. rewrite Forall_forall in Hf, H4. by apply Hf, H4.
Qed.
End table.

(** [l'] is [l] with its rows changed as [R] allows, and more rows. *)
Definition extends {A} (R : relation A) (l l' : list A) : Prop := exists l1 l2, l' = (l1 ++ l2)%list /\ Forall2 R l l1.

#[export] Instance extends_preorder {A} (R : relation A) `{!PreOrder R} : PreOrder (extends R).
Proof.
  split.
  - intros l. exists l, []. by rewrite app_nil_r.
  - intros l l' l'' (l1 & l2 & -> & H1) (m1 & m2 & -> & H2). apply Forall2_app_inv_l in H2 as (n1 & n2 & Hn1 & Hn2 & ->).
    exists n1, (n2 ++ m2)%list. split; [by rewrite app_assoc|]. by transitivity l1.
Qed.

Lemma extends_snoc {A} (R : relation A) `{!PreOrder R} l x : extends R l (l ++ [x]).
Proof. exists l, [x]. done. Qed.

(** ** The schema *)

(** VARCHAR(n) *)
Definition fits (n : nat) (s : string) : Prop := (utf8_take n s).2 = "".

Lemma utf8_take_fits n s : fits n (utf8_take n s).1.
Proof.
  unfold fits. revert n. induction s as [|ch s IH]; intros n; cbn; [done|]. destruct (utf8_continues ch) eqn:Hc.
  - specialize (IH n). destruct (utf8_take n s) as [a b]. cbn in *. rewrite Hc. by destruct (utf8_take n a).
  - destruct n as [|n]; [done|]. specialize (IH n). destruct (utf8_take n s) as [a b]. cbn in *. rewrite Hc. by destruct (utf8_take n a).
Qed.

Lemma varchar_stored_fits n s stored : varchar n s = Ok stored -> fits n stored.
Proof.
  unfold varchar. pose proof (utf8_take_fits n s) as H. destruct (utf8_take n s) as [a b]. destruct (forallb _ _); [|done].
  intros [= <-]. exact H.
Qed.

Section schema.
Context `{HCo : Collation}.

Definition user_clash (u u' : User) : bool := sql_eq (u_Username u) (u_Username u').
(** The hash of the password is left out: bcrypt's have 60 bytes, its column is
    VARCHAR(100). *)
Definition user_fit (u : User) : Prop := fits 64 (u_Username u).

Definition group_clash (g g' : Group) : bool := sql_eq (g_Name g) (g_Name g').
Definition group_row_fit (g : Group) : Prop :=
  (0 < String.length (g_Name g) <= 30)%nat /\ tinyint (g_Status g) = Ok tt /\ unsigned (g_OwnerUserID g) = Ok tt
  /\ 0 <= g_MemberCount g < 2 ^ 32.

Definition member_clash (m m' : GroupMember) : bool := (gmb_GroupID m =? gmb_GroupID m') && (gmb_UserID m =? gmb_UserID m').
Definition member_fit (m : GroupMember) : Prop :=
  unsigned (gmb_GroupID m) = Ok tt /\ unsigned (gmb_UserID m) = Ok tt /\ tinyint (gmb_UserRole m) = Ok tt /\ tinyint (gmb_UserStatus m) = Ok tt.

Definition message_clash (m m' : MessageRow) : bool := (mr_MsgID m =? mr_MsgID m')
  || ((mr_FromUserID m =? mr_FromUserID m') && (mr_ToUserID m =? mr_ToUserID m') && (mr_ClientMSGID m =? mr_ClientMSGID m')).
Definition message_fit (m : MessageRow) : Prop :=
  Z.of_nat (String.length (mr_Content m)) <= 65535 /\ tinyint (mr_MsgType m) = Ok tt /\ tinyint (mr_Status m) = Ok tt.

Definition group_message_clash (m m' : GroupMessageRow) : bool := (gmw_MsgID m =? gmw_MsgID m')
  || ((gmw_FromUserID m =? gmw_FromUserID m') && (gmw_GroupID m =? gmw_GroupID m') && (gmw_ClientMSGID m =? gmw_ClientMSGID m')).
Definition group_message_fit (m : GroupMessageRow) : Prop :=
  unsigned (gmw_GroupID m) = Ok tt /\ Z.of_nat (String.length (gmw_Content m)) <= 65535 /\ tinyint (gmw_MsgType m) = Ok tt /\ tinyint (gmw_Status m) = Ok tt.

Record schema_ok (t : tables) : Prop := {
  sc_users : table_ok u_ID user_clash user_fit (t_users t);
  sc_groups : table_ok g_ID group_clash group_row_fit (t_groups t);
  sc_members : table_ok gmb_ID member_clash member_fit (t_members t);
  sc_messages : table_ok mr_ID message_clash message_fit (t_messages t);
  sc_group_messages : table_ok gmw_ID group_message_clash group_message_fit (t_group_messages t) }.

(** Every group has its owner as a member. *)
Definition owners_belong (t : tables) : Prop := Forall (fun g => is_member (g_ID g) (g_OwnerUserID g) t) (t_groups t).

Record well_stored (t : tables) : Prop := {
  ws_schema : schema_ok t;
  ws_groups : groups_inv t;
  ws_owned : owners_belong t }.

(** The row of a group after some joins. *)
Record regroup (g g' : Group) : Prop := {
  rgp_row : (g_ID g, g_Name g, g_Status g, g_OwnerUserID g) = (g_ID g', g_Name g', g_Status g', g_OwnerUserID g');
  rgp_created : g_CreatedAt g = g_CreatedAt g';
  rgp_count : g_MemberCount g <= g_MemberCount g' }.

#[export] Instance regroup_preorder : PreOrder regroup.
Proof. split; [by split|]. intros x y z [H1 H2 H3] [K1 K2 K3]. split; [congruence..|lia]. Qed.

Record rows_kept (t t' : tables) : Prop := {
  rk_users : extends eq (t_users t) (t_users t');
  rk_groups : extends regroup (t_groups t) (t_groups t');
  rk_members : extends eq (t_members t) (t_members t');
  rk_messages : extends eq (t_messages t) (t_messages t');
  rk_group_messages : extends eq (t_group_messages t) (t_group_messages t') }.

#[export] Instance rows_kept_preorder : PreOrder rows_kept.
Proof. split; [by split|]. intros x y z [] []. split; by etransitivity. Qed.
End schema.

(** ** Statements *)

(** A statement keeps the schema and the rows. *)
Definition keeps_schema `{Collation} (t t' : tables) : Prop := schema_ok t -> schema_ok t' /\ rows_kept t t'.

#[export] Instance keeps_schema_preorder `{Collation} : PreOrder keeps_schema.
Proof.
  split; [by split|]. intros x y z H1 H2 Hx. destruct (H1 Hx) as [Hy Hxy]. destruct (H2 Hy) as [Hz Hyz]. split; [done|by etransitivity].
Qed.

(** The id MySQL draws for a row. *)
Ltac draw_id Hi :=
  destruct (insert_id _) as [?|?] eqn:Hi; [apply insert_id_Ok in Hi as [-> Hi]; simplify_eq|by simplify_eq].

(** An INSERT into one table. *)
Ltac solve_insert Hok Hab Hmax Hkey :=
  split; [split; try done; apply table_ok_snoc; [exact Hok|exact Hab|exact Hmax|exact Hkey|]|split; try done; cbn; by apply (extends_snoc _)].

Section statements.
Context `{HCo : Collation}.

Lemma scan_schema {A} (q : tables -> res A) : stmt_within keeps_schema (Scan q).
Proof. intros t x t' (ai & _ & [= -> ->]). done. Qed.

Lemma insert_user_schema name h now : stmt_within keeps_schema (Stmt (insert_user name h now)).
Proof.
  intros t x t' (ai & [Hai _] & Hx) [H1 H2 H3 H4 H5]. unfold insert_user in Hx.
  destruct (varchar 64 name) as [stored|e] eqn:Hv; [|by simplify_eq]. destruct (uk_username stored t) eqn:Hk; [by simplify_eq|].
  draw_id Hi.
  solve_insert H1 Hai Hi Hk. by eapply varchar_stored_fits.
Qed.

Lemma insert_group_schema g :
  group_row_fit g -> stmt_within keeps_schema (Stmt (insert_group g)).
Proof.
  intros Hg t x t' (ai & (_ & Hai & _) & Hx) [H1 H2 H3 H4 H5]. unfold insert_group in Hx.
  destruct (uk_group_name _ _) eqn:Hk; [by simplify_eq|].
  draw_id Hi.
  by solve_insert H2 Hai Hi Hk.
Qed.

Lemma member_row_fit i gm : columns [unsigned (gmb_GroupID gm); unsigned (gmb_UserID gm)] = Ok tt ->
  tinyint (gmb_UserRole gm) = Ok tt -> tinyint (gmb_UserStatus gm) = Ok tt -> member_fit (member_row i gm).
Proof. rewrite columns_Ok, !Forall_cons. intros (H1 & H2 & _) H3 H4. by split_and!. Qed.

Lemma insert_member_schema gm : tinyint (gmb_UserRole gm) = Ok tt -> tinyint (gmb_UserStatus gm) = Ok tt ->
  stmt_within keeps_schema (Stmt (insert_member gm)) /\ stmt_within keeps_schema (Stmt (insert_member_do_nothing gm)).
Proof.
  intros Hr Hs. split; intros t x t' (ai & (_ & _ & Hai & _) & Hx) [H1 H2 H3 H4 H5].
  - unfold insert_member in Hx. destruct (columns _) as [[]|e] eqn:Hc; [|by simplify_eq]. destruct (uk_group_user _ _ t) eqn:Hk; [by simplify_eq|].
    draw_id Hi.
    solve_insert H3 Hai Hi Hk. by apply member_row_fit.
  - unfold insert_member_do_nothing in Hx. destruct (columns _) as [[]|e] eqn:Hc; [|by simplify_eq]. destruct (uk_group_user _ _ t) eqn:Hk; [by simplify_eq|].
    draw_id Hi.
    solve_insert H3 Hai Hi Hk. by apply member_row_fit.
Qed.

Lemma regroup_incr gid now g : regroup g (incr_member_count gid now g).
Proof. unfold incr_member_count. destruct (_ =? _); split; cbn; (done || lia). Qed.

Lemma update_member_count_schema gid : stmt_within keeps_schema (Stmt (update_member_count gid)).
Proof.
  intros t x t' (ai & _ & Hx) [H1 H2 H3 H4 H5]. unfold update_member_count in Hx. destruct (existsb _ _) eqn:Hmax; [by simplify_eq|].
  rewrite existsb_false in Hmax. simplify_eq. split.
  - split; try done. apply table_ok_fmap; [intros; apply g_ID_incr| | |done].
    + intros g g'. unfold incr_member_count, group_clash. by destruct (_ =? _), (_ =? _).
    + apply Forall_forall. intros g Hg (F1 & F2 & F3 & F4). apply list_elem_of_In, Hmax in Hg. unfold incr_member_count.
      destruct (g_ID g =? gid); [|done]. cbn in Hg. split_and!; cbn; (done || lia).
  - split; try done. exists (incr_member_count gid (ai_now ai) <$> t_groups t), []. split; [by rewrite app_nil_r|].
    apply Forall2_fmap_r, Forall_Forall2_diag, Forall_forall. intros g _. apply regroup_incr.
Qed.

Lemma insert_message_schema r : mr_Status r = 0 -> stmt_within keeps_schema (Stmt (insert_message r)).
Proof.
  intros Hs t x t' (ai & (_ & _ & _ & Hai & _) & Hx) [H1 H2 H3 H4 H5]. unfold insert_message in Hx.
  destruct (columns _) as [[]|e] eqn:Hc; [|by simplify_eq]. destruct (uk_message _ t) eqn:Hk; [by simplify_eq|].
  draw_id Hi.
  apply columns_Ok in Hc. rewrite !Forall_cons in Hc. destruct Hc as (Hc1 & Hc2 & _).
  solve_insert H4 Hai Hi Hk. split_and!; [apply text_value_length|done|cbn; by rewrite Hs].
Qed.

Lemma insert_group_message_schema r : gmw_Status r = 0 -> stmt_within keeps_schema (Stmt (insert_group_message r)).
Proof.
  intros Hs t x t' (ai & (_ & _ & _ & _ & Hai) & Hx) [H1 H2 H3 H4 H5]. unfold insert_group_message in Hx.
  destruct (columns _) as [[]|e] eqn:Hc; [|by simplify_eq]. destruct (uk_group_message _ t) eqn:Hk; [by simplify_eq|].
  draw_id Hi.
  apply columns_Ok in Hc. rewrite !Forall_cons in Hc. destruct Hc as (Hc1 & Hc2 & Hc3 & _).
  solve_insert H5 Hai Hi Hk. split_and!; [done|apply text_value_length|done|cbn; by rewrite Hs].
Qed.
End statements.

(** ** Calls *)

(** Statements, transactions and calls that keep what is well stored. *)
Definition keeps_stored `{Collation} (t t' : tables) : Prop := well_stored t -> well_stored t' /\ rows_kept t t'.

Definition stores `{Collation} {M X} (e : ev M X) : Prop :=
  match e with
  | Sql s => stmt_within keeps_stored s
  | SqlTx body => forall t x t', tx_exec true body t t x t' -> keeps_stored t t'
  | _ => True
  end.

(** All calls of a program do. *)
Abbreviation storing := (all_events (fun _ e => stores e)).

Section calls.
Context `{HC : Crypto} `{HCo : Collation}.

Lemma stmt_stored {X} (st : sqlE X) :
  stmt_within keeps_schema st ->
  stmt_within (fun t t' => t_groups t' = t_groups t /\ t_members t' = t_members t) st -> stmt_within keeps_stored st.
Proof.
  intros H1 H2 t x t' Hx [W1 W2 W3]. destruct (H1 t x t' Hx W1) as [W1' Hk]. destruct (H2 t x t' Hx) as [Hg Hm].
  split; [|done]. split; [done| |].
  - destruct W2 as [I1 I2 I3 I4]. split; rewrite ?Hg, ?Hm; try done. intros g Hin. unfold member_rows. rewrite Hm. by apply I4.
  - unfold owners_belong, is_member. by rewrite Hg, Hm.
Qed.

Lemma stores_ext {M X} fl (e : ev M X) v x v' : stores e -> ext fl X e v x v' -> keeps_stored (v_db v) (v_db v').
Proof.
  intros He (t & _ & Hx). assert (forall db, keeps_stored db db) as Hrefl by by split.
  destruct e; cbn in He, Hx; repeat match goal with
    | H : _ /\ _ |- _ => destruct H
    | H : _ \/ _ |- _ => destruct H
    | H : exists _, _ |- _ => destruct H
    | H : context [let '(_, _) := ?p in _] |- _ => destruct p
    end; simplify_eq/=; try apply Hrefl; try done; try (by eapply He); eapply He, tx_exec_weaken; eassumption.
Qed.

Lemma stores_lift {M N A} (get : N -> M) (put : M -> N -> N) (p : prog (ev M) A) : storing p -> storing (lift get put p).
Proof. induction p as [a|X e k IH]; cbn; [done|]. intros [He Hk]. split; [by destruct e|]. intros x. apply IH, Hk. Qed.

(** *** The transactions *)
Lemma add_group_tx_stored gid uid now t r t' :
  tx_exec true (add_group_tx gid uid now) t t r t' -> keeps_stored t t'.
Proof.
  intros Hx [W1 W2 W3].
  assert (keeps_schema t t') as [W1' Hk]; [|done|].
  { eapply tx_within; [apply _| |reflexivity|exact Hx]. unfold add_group_tx, take_group_for_update. solve_events.
    - apply scan_schema.
    - by apply insert_member_schema.
    - apply update_member_count_schema. }
  split; [|done]. pose proof (tx_wp_sound _ _ _ _ _ _ _ (add_group_tx_wp true gid uid now t) Hx) as Hp.
  destruct r as [[]|e]; cbn in Hp; [|by destruct Hp as (_ & _ & _ & ->)|by destruct Hp as [-> _]].
  destruct Hp as (_ & Ho & Hn & id & at_ & ->). split; [done|by apply groups_inv_joined|].
  unfold owners_belong, joined. cbn. apply Forall_fmap. eapply Forall_impl; [exact W3|]. intros g Hg. cbn.
  unfold is_member in *. cbn. rewrite fmap_app, elem_of_app, g_ID_incr. left.
  assert (g_OwnerUserID (incr_member_count gid at_ g) = g_OwnerUserID g) as -> by (unfold incr_member_count; by destruct (_ =? _)). done.
Qed.

Lemma create_group_tx_stored g m t r t' :
  group_row_fit g -> g_MemberCount g = 1 -> g_OwnerUserID g = gmb_UserID m ->
  tinyint (gmb_UserRole m) = Ok tt -> tinyint (gmb_UserStatus m) = Ok tt ->
  tx_exec true (create_group_tx g m) t t r t' -> keeps_stored t t'.
Proof.
  intros Hg Hc Ho Hr Hs Hx [W1 W2 W3].
  assert (keeps_schema t t') as [W1' Hk]; [|done|].
  { eapply tx_within; [apply _| |reflexivity|exact Hx]. unfold create_group_tx. solve_events.
    - by apply insert_group_schema.
    - by apply insert_member_schema. }
  split; [|done]. pose proof (tx_wp_sound _ _ _ _ _ _ _ (create_group_tx_wp true g m t) Hx) as Hp.
  destruct r as [id|e]; cbn in Hp; [|by subst]. destruct Hp as (_ & Hnew & row & -> & Hgid & Huid & _).
  split; [done|by apply groups_inv_create|]. unfold owners_belong. cbn. apply Forall_app. split.
  - eapply Forall_impl; [exact W3|]. intros g0 Hg0. unfold is_member in *. cbn. rewrite fmap_app. apply elem_of_app. by left.
  - apply Forall_singleton. unfold is_member. cbn. rewrite fmap_app. apply elem_of_app. right. apply list_elem_of_singleton.
    unfold member_key. by rewrite Hgid, Huid, Ho.
Qed.

(** *** The statements *)
Lemma scan_stored {A} (q : tables -> res A) : stmt_within keeps_stored (Scan q).
Proof. intros t x t' (ai & _ & [= -> ->]). done. Qed.

Lemma insert_user_stored name h now : stmt_within keeps_stored (Stmt (insert_user name h now)).
Proof. apply stmt_stored; [apply insert_user_schema|]. unfold insert_user. solve_stmt. Qed.

Lemma insert_message_stored m : stmt_within keeps_stored (Stmt (insert_message (message_row m))).
Proof. apply stmt_stored; [by apply insert_message_schema|]. unfold insert_message. solve_stmt. Qed.

Lemma insert_group_message_stored m : stmt_within keeps_stored (Stmt (insert_group_message (group_message_row m))).
Proof. apply stmt_stored; [by apply insert_group_message_schema|]. unfold insert_group_message. solve_stmt. Qed.
End calls.

(** ** Programs *)

Create HintDb stored.
#[export] Hint Resolve scan_stored insert_user_stored insert_message_stored insert_group_message_stored : stored.

Ltac solve_stores := solve_events; eauto with stored.

(** The same, without looking into the programs called. *)
Ltac walk_stores :=
  repeat match goal with
  | |- all_events _ (Ret _) => exact I
  | |- all_events _ (bind _ _) => apply all_events_bind; [|intros]
  | |- all_events _ (match ?x with _ => _ end) => destruct x
  end; auto with stored.

(** *** The logic service and the gateway *)
Section logic.
Context `{HC : Crypto} `{HCo : Collation} `{HCd : Codec} `{HJb : JsonBodies}.

Lemma Register_storing {M} req : storing (Register req : prog (ev M) _).
Proof. unfold Register, CreateUser. solve_stores. Qed.

Lemma Login_storing {M} s req : storing (Login s req : prog (ev M) _).
Proof. unfold Login, RefreshSession, ListUserSmallGroups. solve_stores. Qed.

Lemma Verify_storing {M} req : storing (Verify req : prog (ev M) _).
Proof. unfold Verify, IsSessionActive. solve_stores. Qed.

Lemma Logout_storing {M} req : storing (Logout req : prog (ev M) _).
Proof. unfold Logout, DeleteSession. solve_stores. Qed.

Lemma AddGroup_storing {M} req : storing (AddGroup req : prog (ev M) _).
Proof. unfold AddGroup, doubleDeleteGroupMembersCache. solve_stores. intros t r t'. apply add_group_tx_stored. Qed.

Lemma CreateGroup_storing {M} req : storing (CreateGroup req : prog (ev M) _).
Proof.
  unfold CreateGroup. destruct ((_ =? 0) || _) eqn:Hlen; [done|]. destruct (_ <=? 0) eqn:Hu; [done|].
  cbn [bind call all_events]. split; [done|]. intros now. split; [|intros [id|e]; done].
  intros t x t'. apply create_group_tx_stored; [|done..]. split_and!; cbn; [lia|lia|done| |lia|lia]. apply unsigned_Ok. lia.
Qed.

Lemma IsGroupMember_storing {M} flight gid uid : storing (IsGroupMember flight gid uid : prog (ev M) _).
Proof. unfold IsGroupMember, sg_do, member_fallback. solve_stores. Qed.

Lemma Refresh_storing {M} req : storing (RefreshGroupMembersCache req : prog (ev M) _).
Proof. unfold RefreshGroupMembersCache. solve_stores. Qed.

Lemma rpc_storing {M A} (p : prog (ev M) (res A)) : storing p -> storing (rpc p).
Proof. intros Hp. unfold rpc. solve_stores. Qed.

Hint Resolve Register_storing Login_storing Verify_storing AddGroup_storing CreateGroup_storing IsGroupMember_storing rpc_storing : stored.

Lemma send_storing c :
  (forall req, storing (SendMessage c req)) /\ (forall flight req, storing (SendGroupMessage c flight req)) /\ (forall req, storing (SendRoomMessage c req)).
Proof.
  split_and!; intros; [unfold SendMessage|unfold SendGroupMessage, check_sender, IsGroupMember, sg_do|unfold SendRoomMessage]; unfold nextMessageID; solve_stores.
Qed.

Lemma ServeHTTP_storing s c flight path r body : storing (ServeHTTP (logic_auth s) (logic_chat c flight) path r body).
Proof.
  destruct (send_storing c) as (Hm & Hg & Hr). unfold ServeHTTP. destruct (match_route _ _) as [[]|]; [..|done]; cbn [handle_route];
    unfold api_Register, api_Login, api_Verify, api_SendMessage, api_SendGroupMessage, api_SendRoomMessage, api_AddGroup, api_Creategroup;
    cbn [logic_auth logic_chat ac_Register ac_Login ac_Verify ac_AddGroup ac_CreateGroup cc_SendMessage cc_SendGroupMessage cc_SendRoomMessage];
    walk_stores.
Qed.
End logic.

(** *** The task layer *)
Section task.
Context `{HC : Crypto} `{HCo : Collation} `{HCd : Codec} `{HD : Dialer}.

Lemma fanout_storing {M} steps limit (tasks : list (prog (ev M) unit)) : Forall (fun p => storing p) tasks -> storing (Go_all steps limit tasks).
Proof. by apply Go_all_events. Qed.

Lemma GetClient_storing srv : storing (GetClient srv).
Proof. unfold GetClient. solve_stores. Qed.

Hint Resolve GetClient_storing : stored.

Lemma push_nodes_storing gm payload nodes : storing (push_nodes gm payload nodes).
Proof.
  apply fanout_storing, Forall_fmap, Forall_forall. intros n _. cbn. unfold push_node, pushToConnect. solve_stores.
Qed.

Lemma deliver_storing gm payload nodes : storing (deliver gm payload nodes).
Proof. unfold deliver. destruct (decide _); [done|]. split; [done|]. intros l. apply push_nodes_storing. Qed.

Lemma handleSmallGroupMessage_storing flight gm payload :
  storing (handleSmallGroupMessage (fun r => rpc (RefreshGroupMembersCache r)) flight gm payload).
Proof.
  assert (forall ids, storing (getOnlineRoutingMap ids : prog (ev TaskMem) _)) as Hmap by (intros [|i l]; unfold getOnlineRoutingMap; solve_stores).
  assert (forall req, storing (RefreshGroupMembersCache req : prog (ev TaskMem) _)) as Href by (intros; apply Refresh_storing).
  unfold handleSmallGroupMessage. apply all_events_bind.
  - unfold loadGroupOnlineMemberIDs. apply all_events_bind; [done|]. intros [raw|e]; [|done]. walk_stores.
  - intros [m|e]; [apply deliver_storing|]. cbv zeta. walk_stores; [by apply rpc_storing|apply deliver_storing].
Qed.

Lemma group_retry_storing k flight later : storing (group_retry (fun r => rpc (RefreshGroupMembersCache r)) k flight later).
Proof.
  revert flight. induction later as [|next later IH]; intros flight; cbn [group_retry]; (apply all_events_bind; [|intros [u|e]; walk_stores]);
    unfold handleGroupMessage; walk_stores; apply handleSmallGroupMessage_storing.
Qed.

Lemma handleRoomMessage_storing k : storing (handleRoomMessage k).
Proof.
  unfold handleRoomMessage, handleRoomBroadcast, loadGroupNodeIDs. destruct (Unmarshal_RoomMessage _) as [gm|]; [|done].
  apply all_events_bind; [done|]. intros [nodes|e]; [|done]. destruct (Nat.eqb _ _); [done|].
  apply fanout_storing, Forall_fmap, Forall_forall. intros n _. cbn. unfold broadcast_node. solve_stores.
Qed.

Lemma persist_retry_storing p k budget : storing (persist_retry p k budget : prog (ev TaskMem) _).
Proof.
  assert (storing (persist_one p k : prog (ev TaskMem) _)) as H1.
  { unfold persist_one, persistMessage, persistGroupMessage. walk_stores; (split; [apply insert_message_stored || apply insert_group_message_stored|done]). }
  induction budget as [|budget IH]; cbn [persist_retry]; walk_stores.
Qed.

(** A consume loop over what it does with each record. *)
Lemma task_storing op : match op with TaskHook hook => hook ∈ handler_hooks | _ => True end -> storing (task_prog op).
Proof.
  destruct op as [claim|claim|claim|p claim|op|hook]; intros Hh; cbn [task_prog].
  1-4: clear Hh; apply all_events_bind; [|by intros].
  - induction claim as [|k rest IH]; cbn [Single_ConsumeClaim]; [done|]. apply all_events_bind; [|intros u; by apply all_events_bind].
    unfold single_message. solve_stores.
  - induction claim as [|[k [flight later]] rest IH]; cbn [Group_ConsumeClaim]; [done|].
    apply all_events_bind; [apply group_retry_storing|]. intros []; [|done]. by apply all_events_bind.
  - induction claim as [|k rest IH]; cbn [Room_ConsumeClaim]; [done|]. apply all_events_bind; [apply handleRoomMessage_storing|].
    intros _. by apply all_events_bind.
  - induction claim as [|[k budget] rest IH]; cbn [Persist_ConsumeClaim]; [done|]. apply all_events_bind; [apply persist_retry_storing|].
    intros []; [|done]. by apply all_events_bind.
  - apply all_events_bind; [|done]. destruct op as [srv|srv|]; cbn [client_prog].
    + unfold GetClient. solve_stores.
    + unfold CloseClient. solve_stores.
    + unfold CloseAll. cbn. split; [done|]. intros taken. split; [done|]. intros entries. apply all_events_bind; [|done].
      generalize (@nil string). induction entries as [|[srv cn] rest IH]; intros errs; [done|]. split; [done|]. intros r. apply IH.
  - by rewrite (handler_hooks_return hook Hh).
Qed.
End task.

(** *** The connect nodes *)
Section node.
Context `{HC : Crypto} `{HCo : Collation} `{HF : Farm} `{HJ : JsonRoomCmd}.

Lemma LeaveRoom_storing room u ch : storing (LeaveRoom room u ch).
Proof. unfold LeaveRoom. solve_stores. Qed.

Lemma readPump_storing c u ch messages : storing (readPump c u ch messages).
Proof.
  assert (storing (leaveAllRooms c u ch)) as Hleave.
  { unfold leaveAllRooms. cbn. split; [done|]. intros set_. split; [done|]. intros ids.
    induction ids as [|i ids IH]; cbn [for_each]; [done|]. apply all_events_bind; [apply LeaveRoom_storing|by intros]. }
  assert (forall cmd, storing (room_command c u ch cmd)) as Hcmd.
  { intros cmd. unfold room_command, JoinRoom, addRoom, removeRoom, LeaveRoom. solve_stores. }
  unfold readPump, offline, RemoveClientIfMatch, closeConn, UnregisterUser. apply all_events_bind; [|intros e; solve_stores].
  induction messages as [|message rest IH]; cbn [read_loop]; walk_stores.
Qed.

Lemma writePump_storing c ch turns : storing (writePump c ch turns).
Proof. induction turns as [|t rest IH]; cbn [writePump]; [done|]. cbn. split; [done|]. intros order. split; [done|]. intros [[[] m]|]; solve_stores. Qed.

Lemma trySend_storing c ch payload : storing (trySend c ch payload).
Proof. unfold trySend. solve_stores. Qed.

Lemma push_all_storing clients payload n : storing (push_all clients payload n).
Proof. revert n. induction clients as [|[c ch] rest IH]; intros n; cbn [push_all]; [done|]. apply all_events_bind; [apply trySend_storing|intros ok; apply IH]. Qed.

Lemma offer_all_storing targets payload n : storing (offer_all targets payload n).
Proof. revert n. induction targets as [|ch rest IH]; intros n; cbn [offer_all]; [done|]. split; [done|intros ok; apply IH]. Qed.

(** A goroutine of a node whose calls to Verify reach the logic service. *)
Lemma node_storing op :
  match op with OpConnect _ auth _ _ _ => auth = verify_call | _ => True end -> storing (node_prog op).
Proof.
  destruct op as [rg auth up sid messages|c ch turns|req|req|req|u]; intros Hop; cbn [node_prog].
  - subst auth. apply all_events_bind.
    + unfold ServeWS, AddClient, RemoveClientIfMatch, closeConn, RegisterUser. destruct (String.eqb _ _); [done|].
      apply all_events_bind; [apply rpc_storing, Verify_storing|]. intros r. solve_stores.
    + intros [| | |c u]; try done. apply all_events_bind; [apply readPump_storing|done].
  - apply all_events_bind; [apply writePump_storing|done].
  - apply all_events_bind; [|done]. unfold PushMsg_handler. cbn [bind call all_events]. split; [done|]. intros [[c ch]|]; [|done].
    apply all_events_bind; [apply trySend_storing|]. by intros [].
  - apply all_events_bind; [|done]. unfold PushMsgToUsers_handler. cbn [bind call all_events]. split; [done|]. intros l.
    apply all_events_bind; [apply push_all_storing|done].
  - apply all_events_bind; [|done]. unfold BroadcastRoom_handler. apply all_events_bind; [|done].
    unfold RoomManager.BroadcastRoom, Broadcast. cbn [bind call all_events]. split; [done|]. intros [r|]; [|done]. split; [done|]. intros l. apply offer_all_storing.
  - unfold RemoveClient, RemoveClientIfMatch, closeConn. solve_stores.
Qed.
End node.

(** ** Theorem *)
Section theorem.
Context `{HC : Crypto} `{HCo : Collation} `{HCd : Codec} `{HJb : JsonBodies} `{HD : Dialer} `{HF : Farm} `{HJ : JsonRoomCmd}.
Context {fl : bool}.

Lemma arrives_storing s c http peers v p : arrives s c http peers v p -> storing p.
Proof.
  intros (op & -> & Hop). destruct op as [i path r body|i req|i op|id op]; cbn [sys_prog]; apply stores_lift.
  - apply all_events_bind; [apply ServeHTTP_storing|done].
  - apply all_events_bind; [apply Logout_storing|done].
  - apply task_storing. by destruct op.
  - apply node_storing. destruct op; try done. by destruct Hop as (_ & ? & _).
Qed.

(** C6. The tables are what their schema and the services say they are.
    However the gateways, the logic service, the consumers and the nodes
    interleave, and whatever calls fail: ids and unique keys (names of users and
    groups, pairs of group and user, message ids, client message ids) never
    clash, every value is of the type of its column, the counter of each group is
    its number of members, one of which is its owner; and no row is removed or
    changed, but for the counter of a group, which never falls, and the time of
    its update. *)
Theorem tables_conform s c http peers v ps' v' :
  well_stored (v_db v) ->
  open_reachable (ext fl) env (arrives s c http peers) ([], v) (ps', v') ->
  well_stored (v_db v') /\ rows_kept (v_db v) (v_db v').
Proof.
  intros Hv Hrun.
  destruct (open_invariant_post (ext fl) env eq (fun (t : tables) (u : sysview SysMem) => well_stored (v_db u) /\ rows_kept t (v_db u))
    (arrives s c http peers) (fun _ _ => True)) with (4 := Hrun) (g := v_db v) as (g & <- & H & _); [done| | |done|constructor|done].
  - intros t u u' HI He. exists t. split; [done|]. destruct He as (t0 & l1 & due & cm & l2 & _ & _ & _ & [-> | ->]); exact HI.
  - intros t u p HI Hp. exists t. split; [done|]. split; [done|]. apply rg_all_events; [apply _|].
    eapply all_events_impl; [|by eapply arrives_storing]. intros X e He g u1 x u2 [H1 H2] Hx.
    destruct (stores_ext fl e u1 x u2 He Hx H1) as [H3 H4]. split; [done|by etransitivity].
Qed.
End theorem.
