(* ===== verification/RefCodec.v ===== *)
(** * Concrete instances of the interfaces

    Instances of the classes that stand for third-party code (protobuf, farm
    hash, encoding/json, grpc.NewClient), with their laws: the witnesses run on
    them. *)

From Stdlib Require Import ZArith Lia String Ascii.
From stdpp Require Import base tactics list countable strings.
From S2P Require Import Prelude GoStd Proto RoomManager Connection ClientPool.

Local Open Scope Z_scope.

(** ** protobuf: the binary digits of a number that encodes the fields *)

Fixpoint pos_string (p : positive) : string :=
  match p with
  | xH => EmptyString
  | xO q => String "0" (pos_string q)
  | xI q => String "1" (pos_string q)
  end.

Fixpoint string_pos (s : string) : positive :=
  match s with
  | EmptyString => xH
  | String c s' => if Ascii.eqb c "0" then xO (string_pos s') else xI (string_pos s')
  end.

Lemma string_pos_string p : string_pos (pos_string p) = p.
Proof. induction p as [q IH|q IH|]; cbn; [by rewrite IH..|done]. Qed.

Section encode.
Context {A B : Type} `{Countable B} (to : A -> B) (from : B -> A) (Hft : forall a, from (to a) = a).

Definition marshal (a : A) : res string := Ok (pos_string (encode (to a))).
Definition unmarshal (s : string) : res A :=
  match decode (string_pos s) with Some b => Ok (from b) | None => Err (ErrExt "proto: cannot parse invalid wire-format data") end.

Lemma marshal_unmarshal a s : marshal a = Ok s -> unmarshal s = Ok a.
Proof using Hft. unfold marshal, unmarshal. intros [= <-]. by rewrite string_pos_string, decode_encode, Hft. Qed.
End encode.

#[export] Instance ref_codec : Codec.
Proof.
  refine {|
    Marshal_Message := marshal (fun m => (m_MsgId m, m_FromUserId m, m_ToUserId m, m_Content m, m_MsgType m, m_CreateTime m, m_ClientMsgId m));
    Unmarshal_Message := unmarshal (fun '(a, b, c, d, e, f, g) => {| m_MsgId := a; m_FromUserId := b; m_ToUserId := c; m_Content := d;
        m_MsgType := e; m_CreateTime := f; m_ClientMsgId := g |});
    Marshal_GroupMessage := marshal (fun m => (gm_MsgId m, gm_FromUserId m, gm_GroupId m, gm_Content m, gm_MsgType m, gm_CreateTime m, gm_ClientMsgId m));
    Unmarshal_GroupMessage := unmarshal (fun '(a, b, c, d, e, f, g) => {| gm_MsgId := a; gm_FromUserId := b; gm_GroupId := c; gm_Content := d;
        gm_MsgType := e; gm_CreateTime := f; gm_ClientMsgId := g |});
    Marshal_RoomMessage := marshal (fun m => (rm_MsgId m, rm_FromUserId m, rm_RoomId m, rm_Content m, rm_MsgType m, rm_CreateTime m));
    Unmarshal_RoomMessage := unmarshal (fun '(a, b, c, d, e, f) => {| rm_MsgId := a; rm_FromUserId := b; rm_RoomId := c; rm_Content := d;
        rm_MsgType := e; rm_CreateTime := f |}) |};
  intros m s; apply marshal_unmarshal; by intros [].
Defined.

(** ** farm hash: the bytes, added up *)
#[export] Instance ref_farm : Farm.
Proof.
  refine {| Hash32 := fun b => foldr Z.add 0 b mod 2 ^ 32 |}.
  intros b. apply Z.mod_pos_bound. lia.
Defined.

(** ** encoding/json: the texts used by the witnesses *)
Definition ref_json (s : string) : res (option RoomCmd) :=
  if String.eqb s "null" then Ok None
  else if String.eqb s "join 5" then Ok (Some {| Op := "joinRoom"; RoomID := 5 |})
  else if String.eqb s "leave 5" then Ok (Some {| Op := "leaveRoom"; RoomID := 5 |})
  else Err (ErrExt "invalid character").

#[export] Instance ref_json_instance : JsonRoomCmd.
Proof. by refine {| Unmarshal_RoomCmd := ref_json |}. Defined.

(** ** grpc.NewClient accepts every address *)
#[export] Instance ref_dialer : Dialer := {| NewClient _ := Ok tt |}.
