(* ===== verification/WitnessLogic.v ===== *)
(** * Witnesses: the logic service

    For each theorem about sessions, groups and messages, a concrete run in the
    reference environment in which its hypotheses hold. *)

From Stdlib Require Import ZArith Lia String.
From stdpp Require Import base tactics list gmap strings.
From S2P Require Import Prelude GoStd Effects Redis Database Proto World Rules RefWorld Store Sessions Auth.
From S2P Require Import AuthSpec GroupServer GroupSpec ChatServer ChatSpec Api ApiSpec Gateway SessionPool RefCodec GroupPool.

Local Open Scope string_scope.
Local Open Scope Z_scope.

(** The answer of a run, [d] standing for the answer of one that failed. *)
Definition answer {A} (d : A) (r : res A) : A := match r with Ok a => a | Err _ => d end.

Lemma run_ok {fl M W A} `{World fl M W} (d : A) (p : prog (ev M) (res A)) w :
  is_ok (exec p w).1 = true -> exec p w = (Ok (answer d (exec p w).1), (exec p w).2).
Proof. destruct (exec p w) as [[a|e] w']; [done|discriminate]. Qed.

Lemma run_pair {fl M W A} `{World fl M W} (p : prog (ev M) A) w : exec p w = ((exec p w).1, (exec p w).2).
Proof. apply surjective_pairing. Qed.

(** ** A database with one user, one group of two members *)
Definition store30 : Store := {| SessionTTL := 30 * second_ns |}.

Definition ann : User := {| u_ID := 7; u_Username := "ann"; u_PasswordHash := ref_hash "pw"; u_CreatTime := 0 |}.
Definition chess : Group :=
  {| g_ID := 3; g_Name := "chess"; g_Status := 0; g_OwnerUserID := 7; g_MemberCount := 2; g_CreatedAt := 0; g_UpdatedAt := 0 |}.
Definition membership id uid : GroupMember :=
  {| gmb_ID := id; gmb_GroupID := 3; gmb_UserID := uid; gmb_UserRole := 0; gmb_UserStatus := 0; gmb_JoinAt := 0; gmb_UpdateAt := 0 |}.

Definition demo_db : tables := Tables [ann] [chess] [membership 1 7; membership 2 8] [] [].

Definition demo (M : Type) (m : M) : refworld M := ref_start 1000 ∅ demo_db m [].
(** Every other call fails. *)
Definition flaky (M : Type) (m : M) : refworld M := ref_start 1000 ∅ demo_db m [(5, false); (5, true); (5, false); (5, true)].

Lemma demo_users : users_ok demo_db.
Proof. unfold users_ok. repeat constructor; vm_compute; discriminate. Qed.

Lemma demo_ttl : 0 < ttl_seconds store30.
Proof. reflexivity. Qed.

Definition ann_login : LoginRequest := {| lr_Username := "ann"; lr_Password := "pw"; lr_Ip := ""; lr_UserAgent := "" |}.

(** ** Sessions *)
Definition no_login : LoginReply := {| lp_UserId := 0; lp_SessionId := ""; lp_SmallGroups := [] |}.
Definition login1 := exec (fl := false) (Login store30 ann_login) (demo unit tt).
Definition login2 := exec (fl := false) (Login store30 ann_login) login1.2.
Definition session1 : string := lp_SessionId (answer no_login login1.1).
Definition session2 : string := lp_SessionId (answer no_login login2.1).
Definition check1 := exec (fl := false) (Verify {| vr_SessionId := session1 |}) login2.2.
Definition check2 := exec (fl := false) (Verify {| vr_SessionId := session2 |}) check1.2.

Lemma single_active_session_witness :
  is_ok check1.1 = false /\ check2.1 = Ok {| vp_UserId := lp_UserId (answer no_login login2.1) |}.
Proof.
  eapply (single_active_session store30 ∅ ∅ (demo unit tt) ann_login ann_login (answer no_login login1.1) (answer no_login login2.1)
    check1.1 check2.1 login1.2 login2.2 check1.2 check2.2).
  - apply rep_empty.
  - set_solver.
  - apply demo_users.
  - apply demo_ttl.
  - apply run_ok. vm_compute. reflexivity.
  - apply run_ok. vm_compute. reflexivity.
  - vm_compute. reflexivity.
  - apply run_pair.
  - apply run_pair.
  - vm_compute. reflexivity.
Defined.

(** The session map after the first login. *)
Definition act1 : active := act_login 1000 30 7 session1 ∅.
Definition own1 : owners := {[session1 := 7]}.

Lemma in_7 : in_int64 7.
Proof. vm_compute. split; discriminate. Qed.

Lemma login1_rep : sess_rep own1 act1 (v_rds (view (fl := false) (M := unit) login1.2)).
Proof.
  replace (v_rds (view (fl := false) (M := unit) login1.2)) with (ks_login ∅ 7 session1 (1000 + 30 * 1000) ∅) by (vm_compute; reflexivity).
  apply rep_login; [apply in_7|apply lookup_insert_eq|]. eapply rep_own_mono; [|apply rep_empty]. apply map_empty_subseteq.
Qed.

Lemma session1_set : session1 <> "".
Proof. apply String.eqb_neq. vm_compute. reflexivity. Qed.

Definition verify1 := exec (fl := false) (Verify {| vr_SessionId := session1 |}) login1.2.

Lemma Verify_refines_witness :
  verify1.1 = Ok {| vp_UserId := 7 |} <-> exists ex, act_expire (v_now (view (fl := false) (M := unit) verify1.2)) act1 !! 7 = Some (session1, ex).
Proof.
  apply (Verify_refines own1 act1 login1.2 session1 verify1.1 verify1.2 login1_rep); [apply session1_set|apply run_pair].
Defined.

Definition logout1 := exec (fl := false) (Logout {| lo_SessionId := session1 |}) login1.2.

Lemma Logout_refines_witness : logout1.1 = Ok {| lop_Ok := true |}.
Proof.
  eapply (Logout_refines own1 act1 login1.2 session1 logout1.1 logout1.2 login1_rep); [apply session1_set|apply run_pair].
Defined.

Definition bob_register : RegisterRequest := {| rr_Username := "bob"; rr_Password := "secret" |}.
Definition bob_login : LoginRequest := {| lr_Username := "bob"; lr_Password := "secret"; lr_Ip := ""; lr_UserAgent := "" |}.
Definition register1 := exec (fl := false) (Register bob_register) (demo unit tt).
Definition login3 := exec (fl := false) (Login store30 bob_login) register1.2.

Lemma register_then_login_witness : exists lp, login3.1 = Ok lp /\ lp_UserId lp = rp_UserId (answer {| rp_UserId := 0 |} register1.1).
Proof.
  eapply (register_then_login store30 ∅ ∅ (demo unit tt) "bob" "secret" "" "" _ register1.2 login3.1 login3.2).
  - apply rep_empty.
  - set_solver.
  - apply demo_users.
  - apply demo_ttl.
  - reflexivity.
  - apply run_ok. vm_compute. reflexivity.
  - apply run_pair.
Defined.

Definition groups_of_ann := exec (fl := false) (ListUserSmallGroups 7) (demo unit tt).

(** Ann is a member of group 3, by row 1: her login lists no group. *)
Lemma small_groups_by_row_id_witness : 7 ∈ active_members 3 demo_db /\ answer [] groups_of_ann.1 = [].
Proof.
  split; [vm_compute; constructor|].
  eapply (small_groups_by_row_id 7 (demo unit tt) _ groups_of_ann.2); [apply run_ok; vm_compute; reflexivity|].
  intros row [->|[->|[]%not_elem_of_nil]%elem_of_cons]%elem_of_cons; discriminate.
Defined.

Definition verify_op : auth_op := OpVerify {| vr_SessionId := "x" |}.

(** A Verify that has arrived and not yet made its first call. *)
Lemma one_session_per_user_witness : exists uid ex,
  in_int64 uid /\ v_rds (view (fl := false) (M := unit) login1.2) !! userSessionKey uid = Some (user_entry (session1, ex)).
Proof.
  destruct (one_session_per_user (fl := true) store30 own1 act1 (view (fl := false) (M := unit) login1.2)
    [auth_prog store30 verify_op] (view (fl := false) (M := unit) login1.2)) as [H _].
  - apply demo_ttl.
  - apply login1_rep.
  - apply (bool_decide_unpack _). vm_compute. exact I.
  - apply demo_users.
  - reflexivity.
  - apply rtc_once. apply (pool_arrive _ _ _ [] _ (auth_prog store30 verify_op)). by exists verify_op.
  - destruct (H session1 (sess_entry 7 (1000 + 30 * 1000))) as (uid & ex & H1 & _ & H3).
    + replace (v_rds (view (fl := false) (M := unit) login1.2)) with (ks_login ∅ 7 session1 (1000 + 30 * 1000) ∅)
        by (vm_compute; reflexivity).
      apply lookup_insert_eq.
    + exists uid, ex. split; [exact H1|exact H3].
Defined.

(** ** Groups *)
Lemma demo_groups : groups_inv demo_db.
Proof.
  split.
  - apply NoDup_singleton.
  - cbn. apply NoDup_cons. split; [|apply NoDup_singleton]. intros H%list_elem_of_singleton. discriminate.
  - intros m [->|[->|[]%not_elem_of_nil]%elem_of_cons]%elem_of_cons; constructor.
  - intros g ->%list_elem_of_singleton. vm_compute. reflexivity.
Qed.

Lemma demo_coherent {M} (m : M) : coherent (view (fl := false) (M := M) (demo M m)).
Proof.
  split.
  - intros gid e _ He. change (v_rds _) with (∅ : keyspace) in He. by rewrite lookup_empty in He.
  - unfold members_ok. repeat constructor; vm_compute; discriminate.
Qed.

Definition join : AddGroupRequest := {| agr_GroupId := 3; agr_UserId := 9 |}.
Definition join_flaky := exec (fl := true) (AddGroup join) (flaky unit tt).
Definition join1 := exec (fl := false) (AddGroup join) (demo unit tt).
Definition join2 := exec (fl := false) (AddGroup join) join1.2.
Definition ask9 := exec (fl := false) (IsGroupMember None 3 9) join1.2.
Definition ask7 := exec (fl := false) (IsGroupMember None 3 7) (demo unit tt).

(** The transaction of this run fails. *)
Lemma AddGroup_consistent_witness :
  is_ok join_flaky.1 = false /\ groups_inv (v_db (view (fl := true) (M := unit) join_flaky.2)).
Proof.
  split; [vm_compute; reflexivity|].
  apply (AddGroup_consistent (fl := true) (flaky unit tt) join join_flaky.1 join_flaky.2); [exact demo_groups|apply run_pair].
Defined.

Lemma AddGroup_idempotent_witness :
  join2.1 = Ok {| agp_Ok := true |}
  /\ v_db (view (fl := false) (M := unit) join2.2) = v_db (view (fl := false) (M := unit) join1.2).
Proof.
  apply (AddGroup_idempotent (fl := false) (demo unit tt) join (answer {| agp_Ok := false |} join1.1) join1.2 join2.1 join2.2).
  - reflexivity.
  - apply run_ok. vm_compute. reflexivity.
  - apply run_pair.
Defined.

Lemma in_range z : bool_decide (in_int64 z) = true -> in_int64 z.
Proof. apply bool_decide_eq_true. Qed.


Lemma join_then_member_witness : ask9.1 = Ok true.
Proof.
  eapply (join_then_member (fl := false) (demo unit tt) join (answer {| agp_Ok := false |} join1.1) join1.2 ask9.1 ask9.2).
  - reflexivity.
  - apply demo_coherent.
  - by apply in_range.
  - by apply in_range.
  - discriminate.
  - cbn. intros [H|[H|[]%not_elem_of_nil]%elem_of_cons]%elem_of_cons; discriminate.
  - apply run_ok. vm_compute. reflexivity.
  - apply run_pair.
Defined.

Definition new_group : CreateGroupRequest := {| cgr_UserId := 7; cgr_GroupName := "go" |}.
Definition create1 := exec (fl := false) (CreateGroup new_group) (demo unit tt).

Lemma CreateGroup_consistent_witness :
  is_ok create1.1 = true /\ groups_inv (v_db (view (fl := false) (M := unit) create1.2)).
Proof.
  split; [vm_compute; reflexivity|].
  apply (CreateGroup_consistent (fl := false) (demo unit tt) new_group create1.1 create1.2); [exact demo_groups|apply run_pair].
Defined.

(** ** Messages *)
Definition fresh_mem : LogicMem := {| localMsgSeq := 0 |}.
Definition mint1 := exec (fl := false) (mint [1000; 1000; 999]) (demo LogicMem fresh_mem).

Lemma message_ids_unique_witness : NoDup mint1.1.
Proof.
  apply (message_ids_unique (fl := false) (demo LogicMem fresh_mem) [1000; 1000; 999] mint1.1 mint1.2).
  - repeat constructor; vm_compute; discriminate.
  - intros i j now Hij Hi Hj. apply lookup_lt_Some in Hi, Hj. cbn in Hi, Hj. lia.
  - apply run_pair.
Defined.

Lemma message_id_order_witness : message_id 999 5 < message_id 1000 1.
Proof.
  apply (message_id_order 999 1000 5 1); [vm_compute; split; [discriminate|reflexivity]|vm_compute; split; [discriminate|reflexivity]|].
  left. reflexivity.
Defined.

Definition mint_a := exec (fl := false) (nextMessageID 1000) (demo LogicMem fresh_mem).
Definition mint_b := exec (fl := false) (nextMessageID 1000) (ref_start 0 ∅ empty_tables fresh_mem []).

Lemma message_ids_collide_witness : mint_a.1 = mint_b.1.
Proof.
  apply (message_ids_collide (fl := false) 1000 (demo LogicMem fresh_mem) (ref_start 0 ∅ empty_tables fresh_mem []) mint_a.1 mint_b.1 mint_a.2 mint_b.2).
  - reflexivity.
  - apply run_pair.
  - apply run_pair.
Defined.

Definition chat : ChatServer :=
  {| ChatTopic := "chat_messages"; GroupChatTopic := "group_chat_messages"; RommChatTopic := "room_chat_messages"; cs_Store := Some store30 |}.
Definition hello : SendMessageRequest := {| smr_FromUserId := 7; smr_ToUserId := 8; smr_Content := "hi"; smr_MsgType := 0; smr_ClietMsgId := 1 |}.
Definition send1 := exec (fl := false) (SendMessage chat hello) (demo LogicMem fresh_mem).

Lemma SendMessage_delivers_witness :
  is_ok send1.1 = true /\ (is_ok send1.1 = true -> smr_FromUserId hello <> smr_ToUserId hello).
Proof.
  split; [vm_compute; reflexivity|].
  apply (SendMessage_delivers (fl := false) chat hello (demo LogicMem fresh_mem) send1.1 send1.2 (run_pair _ _)).
Defined.

Definition hello_group : SendSmallGroupMessageRequest :=
  {| sgr_FromUserId := 7; sgr_GroupId := 3; sgr_Content := "hi"; sgr_MsgType := 0; sgr_ClientMsgId := 1 |}.
Definition send2 := exec (fl := false) (SendGroupMessage chat None hello_group) (demo LogicMem fresh_mem).


Definition hello_room : SendRoomMessageRequest := {| srr_FromUserId := 7; srr_RoomId := 5; srr_Content := "hi"; srr_MsgType := 0 |}.
Definition send3 := exec (fl := false) (SendRoomMessage chat hello_room) (demo LogicMem fresh_mem).

Lemma SendRoomMessage_delivers_witness :
  is_ok send3.1 = true /\
  send_outcome false Unmarshal_RoomMessage "room_chat_messages" "5" (room_message_of hello_room)
    (view (fl := false) (M := LogicMem) (demo LogicMem fresh_mem)) send3.1 (view (fl := false) (M := LogicMem) send3.2).
Proof.
  split; [vm_compute; reflexivity|].
  apply (SendRoomMessage_delivers (fl := false) chat hello_room (demo LogicMem fresh_mem) send3.1 send3.2 (run_pair _ _)).
Defined.

(** ** Through the gateway *)
Definition login4 := exec (fl := false) (Login store30 ann_login) (demo LogicMem fresh_mem).
Definition post : http_request := {| hr_Method := "POST"; hr_Authorization := session1; hr_RemoteAddr := ""; hr_UserAgent := "" |}.
Definition private_body : SendMessageReq := {| mq_ClientMsgID := 1; mq_ToUserID := 8; mq_Content := "hi"; mq_MsgType := 0 |}.
Definition group_body : SendGroupMessageReq := {| gq_ClientMsgID := 1; gq_GroupID := 3; gq_Content := "hi"; gq_MsgType := 0 |}.
Definition api1 := exec (fl := false) (api_SendMessage (logic_auth store30) (logic_chat chat None) post (Some private_body)) login4.2.
Definition api2 := exec (fl := false) (api_SendGroupMessage (logic_auth store30) (logic_chat chat None) post (Some group_body)) login4.2.

Lemma login4_rep : sess_rep own1 act1 (v_rds (view (fl := false) (M := LogicMem) login4.2)).
Proof.
  replace (v_rds (view (fl := false) (M := LogicMem) login4.2)) with (v_rds (view (fl := false) (M := unit) login1.2)) by (vm_compute; reflexivity).
  apply login1_rep.
Qed.

Definition accepted (r : http_response) : bool := match r with HttpJSON _ => true | _ => false end.

Lemma api_SendMessage_authenticated_witness :
  accepted api1.1 = true /\ match api1.1 with
    | HttpJSON _ => exists u ex, act1 !! u = Some (session1, ex)
    | HttpError _ _ => True end.
Proof.
  split; [vm_compute; reflexivity|].
  pose proof (api_SendMessage_authenticated (fl := false) store30 chat None own1 act1 post (Some private_body) login4.2 api1.1 api1.2
    login4_rep (run_pair _ _)) as H.
  destruct api1.1; [exact I|]. destruct H as (u & ex & b & rp & payload & m & _ & Ha & _). exists u, ex. exact Ha.
Defined.

Lemma api_SendGroupMessage_authenticated_witness :
  accepted api2.1 = true /\ match api2.1 with
    | HttpJSON _ => exists u ex, act1 !! u = Some (session1, ex)
    | HttpError _ _ => True end.
Proof.
  split; [vm_compute; reflexivity|].
  pose proof (api_SendGroupMessage_authenticated (fl := false) store30 chat own1 act1 post group_body login4.2 api2.1 api2.2 login4_rep) as H.
  assert (forall u ex, act1 !! u = Some (hr_Authorization post, ex) -> u <> -1) as Hu.
  { unfold act1, act_login. intros u ex [[<- _]|[_ Hx]]%lookup_insert_Some; [discriminate|by rewrite lookup_empty in Hx]. }
  assert (coherent (view (fl := false) (M := LogicMem) login4.2)) as Hco.
  { split.
    - intros gid e _ He.
      replace (v_rds (view (fl := false) (M := LogicMem) login4.2)) with (ks_login ∅ 7 session1 (1000 + 30 * 1000) ∅) in He by (vm_compute; reflexivity).
      unfold ks_login in He. rewrite !lookup_insert_ne in He by done.
      replace (drop_old ∅ 7 ∅) with (∅ : keyspace) in He by (vm_compute; reflexivity). by rewrite lookup_empty in He.
    - unfold members_ok. replace (v_db (view (fl := false) (M := LogicMem) login4.2)) with demo_db by (vm_compute; reflexivity).
      repeat constructor; vm_compute; discriminate. }
  specialize (H Hco ltac:(discriminate) ltac:(by apply in_range) Hu (run_pair _ _)).
  destruct api2.1; [exact I|]. destruct H as (u & ex & rp & payload & m & Ha & _). exists u, ex. exact Ha.
Defined.

Definition room_body : SendRoomMessageReq := {| rq_ClientMsgID := 2; rq_RoomID := 5; rq_Content := "all"; rq_MsgType := 0 |}.

(** Bodies are written by what they decode to. *)
#[export] Instance ref_bodies : JsonBodies := {|
  json_credentials b :=
    if String.eqb b "ann" then Some {| cr_Username := "ann"; cr_Password := "pw" |}
    else if String.eqb b "bob" then Some {| cr_Username := "bob"; cr_Password := "secret" |} else None;
  json_send b := if String.eqb b "private" then Some private_body else None;
  json_groupsend b := if String.eqb b "group" then Some group_body else None;
  json_roomsend b := if String.eqb b "room" then Some room_body else None;
  json_addgroup b := if String.eqb b "join" then Some {| aq_GroupID := 3; aq_SessionID := "forged" |} else None;
  json_creategroup b := None |}.

Definition no_session : http_request := {| hr_Method := "POST"; hr_Authorization := ""; hr_RemoteAddr := ""; hr_UserAgent := "" |}.
Definition api3 := exec (fl := false) (ServeHTTP (logic_auth store30) (logic_chat chat None) "/api/addgroup" no_session "join") login4.2.

(** A join with a forged session while user 7 is logged in. *)
Lemma gateway_requires_session_witness : api3.1 = HttpError "invalid session" 400
  /\ v_db (view (fl := false) (M := LogicMem) api3.2) = v_db (view (fl := false) (M := LogicMem) login4.2).
Proof.
  split; [vm_compute; reflexivity|].
  destruct (gateway_requires_session (fl := false) store30 chat None own1 act1 "/api/addgroup" no_session "join" login4.2 api3.1 api3.2 login4_rep)
    as [_ Hw].
  - intros h [= <-]. split; [reflexivity|]. intros sid uid ex [= <-]. unfold act1, act_login.
    intros [[_ Hx]|[_ Hx]]%lookup_insert_Some; [|by rewrite lookup_empty in Hx].
    assert (session1 <> "forged") as Hne by (vm_compute; discriminate). congruence.
  - apply run_pair.
  - destruct Hw as [-> | (t & _ & ->)]; reflexivity.
Defined.

(** ** Groups under concurrency: the run of the stale cache *)
Lemma race_inv : group_I (∅, ∅) race_start.
Proof.
  split_and!.
  - split; cbn.
    + apply NoDup_singleton.
    + apply NoDup_singleton.
    + intros m ->%list_elem_of_singleton. constructor.
    + intros g ->%list_elem_of_singleton. reflexivity.
  - repeat constructor; vm_compute; discriminate.
  - split; intros gid uid Hin; cbn in Hin; set_solver.
  - intros gid e _ He. by vm_compute in He.
  - constructor.
Qed.

Lemma strangers_never_admitted_witness :
  groups_inv (v_db race_end.2) /\ is_member 3 8 (v_db race_end.2).
Proof.
  assert (pool_reachable (ext false) env (fun p => exists op, group_op_ok op /\ p = group_prog op) ([], race_start) (race_end.1, race_end.2)) as Hrun.
  { rewrite <- surjective_pairing. apply sched_reachable. unfold race_ops. repeat constructor.
    - exists (OpIsGroupMember 3 7). split; [|reflexivity]. vm_compute. repeat split; discriminate.
    - exists (OpAddGroup {| agr_GroupId := 3; agr_UserId := 8 |}). split; [|reflexivity]. vm_compute. repeat split; discriminate. }
  destruct (strangers_never_admitted (fl := false) (∅, ∅) race_start race_end.1 race_end.2 race_inv Hrun) as (H1 & _ & H3).
  split; [exact H1|]. apply (H3 (Joined 3 8)). vm_compute. apply list_elem_of_further, list_elem_of_here.
Defined.
