(* ===== verification/WitnessConnect.v ===== *)
(** * Witnesses: the connect node

    For each theorem about rooms and connections, a concrete run in which its
    hypotheses hold. *)

From Stdlib Require Import ZArith Lia String.
From stdpp Require Import base tactics list gmap strings relations.
From S2P Require Import Prelude GoStd Effects Redis Database Proto World Rules RefWorld Store Sessions Auth.
From S2P Require Import AuthSpec Room ConnectMem RoomManager RoomSpec Registry Connection ConnectSpec.
From S2P Require Import RefCodec WitnessLogic.

Local Open Scope string_scope.
Local Open Scope Z_scope.

(** ** Steps of a pool *)
Section steps.
Context {M A : Type} (Req : prog (ev M) A -> Prop).
Abbreviation step := (pool_step (ext false) (@env M) (fun _ => Req)).

Lemma step_mem ps (v : sysview M) i {B} (f : M -> B * M) k :
  ps !! i = Some (Vis (Mem f) k) ->
  step (ps, v) (<[i := k (f (v_mem v)).1]> ps, set_mem (f (v_mem v)).2 (tick (v_now v) v)).
Proof.
  intros Hi. eapply pool_event; [exact Hi|]. exists (v_now v). split; [lia|]. left. cbn. by destruct (f (v_mem v)).
Qed.

(** A goroutine arrives and makes its first access to memory. *)
Lemma arrive_mem ps (v : sysview M) {B} (f : M -> B * M) k :
  Req (Vis (Mem f) k) ->
  pool_reachable (ext false) (@env M) Req (ps, v)
    (ps ++ [k (f (v_mem v)).1], set_mem (f (v_mem v)).2 (tick (v_now v) v))%list.
Proof.
  intros Hreq. eapply rtc_l; [apply pool_arrive; exact Hreq|]. eapply rtc_l; [|apply rtc_refl].
  pose proof (step_mem (ps ++ [Vis (Mem f) k])%list v (length ps) f k) as Hs.
  rewrite insert_app_r_alt, Nat.sub_diag in Hs by done. apply Hs.
  by rewrite lookup_app_r, Nat.sub_diag by done.
Qed.
End steps.

(** ** Rooms *)
Definition pair_room : Room := Join 8 1 (Join 7 0 NewRoom).

Lemma pair_room_wf : room_wf pair_room.
Proof. apply join_wf, join_wf, new_room_wf. Qed.

Lemma room_refines_map_witness : broadcast_targets 7 pair_room = [1%nat] /\ (Leave 7 (Some 3%nat) pair_room).1 = false.
Proof.
  destruct (room_refines_map pair_room pair_room_wf) as (_ & _ & Hleave & Htargets). split.
  - rewrite Htargets. vm_compute. reflexivity.
  - destruct (Hleave 7 (Some 3%nat)) as (_ & _ & ->). vm_compute. reflexivity.
Defined.

Definition start_view (m : ConnectMem) : sysview ConnectMem := View 1000 ∅ demo_db [] ∅ [] [] m.

Definition join_7 : room_op := OpJoin 5 7 0.
(** User 7 has joined room 5. *)
Definition joined_view : sysview ConnectMem :=
  set_mem (join_section 5 7 0 node_start).2 (tick 1000 (start_view node_start)).

Lemma joined_run : rooms_run false (fun _ => True) ([], start_view node_start) ([Ret tt], joined_view).
Proof.
  exact (arrive_mem _ [] (start_view node_start) (join_section 5 7 0) Ret (ex_intro _ join_7 (conj I eq_refl))).
Qed.

Lemma joined_members : room_view 5 (v_mem joined_view) = [(7, 0%nat)].
Proof. vm_compute. reflexivity. Qed.

Lemma rooms_invariant_witness : rooms_ok (v_mem joined_view) /\ NoDup (room_view 5 (v_mem joined_view)).*1.
Proof.
  destruct (rooms_invariant (fl := false) (start_view node_start) [Ret tt] joined_view eq_refl joined_run) as [Ho Hn].
  split; [exact Ho|apply Hn].
Defined.

(** User 8 joins room 5 and leaves it; before the leave collects the room it saw
    empty, user 7 joins. *)
Definition race_progs : list (prog (ev ConnectMem) unit) := room_prog <$> [OpJoin 5 8 1; OpLeave 5 8 None; join_7].
Definition race1 := sched false [Turn 0 1 false; Turn 1 1 false; Turn 1 1 false; Turn 2 1 false] (race_progs, start_view node_start).
(** Now the collection. *)
Definition race2 := sched false [Turn 1 1 false] race1.

Definition returned (o : option (prog (ev ConnectMem) unit)) : bool := match o with Some (Ret _) => true | _ => false end.

Lemma member_kept_witness :
  returned (race1.1 !! 1%nat) = false /\ returned (race2.1 !! 1%nat) = true /\ (7, 0%nat) ∈ room_view 5 (v_mem race2.2).
Proof.
  split; [vm_compute; reflexivity|]. split; [vm_compute; reflexivity|].
  apply (member_kept (fl := false) 5 7 0 (start_view node_start) [] (start_view node_start) race1.1 race1.2 race2.1 race2.2).
  - reflexivity.
  - apply rtc_refl.
  - constructor.
  - rewrite <- surjective_pairing. apply sched_reachable.
    repeat (apply Forall_cons; split; [eexists; split; [|reflexivity]; vm_compute; reflexivity|]). apply Forall_nil_2.
  - apply (bool_decide_eq_true_1 _). vm_compute. reflexivity.
  - rewrite <- !surjective_pairing. apply sched_ok.
Defined.

(** ** A node with two connections, in one room *)
Definition connect (u : Z) (m : ConnectMem) : ConnectMem := (add_section u (next_ptr m) (alloc_client u m).2).2.
Definition two_clients : ConnectMem := connect 8 (connect 7 node_start).
Definition meeting : ConnectMem := (join_section 5 8 1 (join_section 5 7 0 two_clients).2).2.
(** User 7 has reconnected. *)
Definition reconnected : ConnectMem := connect 7 meeting.

Lemma connect_ok gc u m : conn_ok gc m -> exists gc', conn_ok gc' (connect u m).
Proof.
  intros Hok. destruct (alloc_conn gc u m Hok) as [_ Hok1]. exists (<[next_ptr m := u]> gc).
  apply add_conn; [apply lookup_insert_eq|exact Hok1].
Qed.

Lemma meeting_conn_ok : exists gc, conn_ok gc meeting.
Proof.
  destruct (node_start_ok false (HA := ambient_any false) tt) as (_ & H0 & _). destruct (connect_ok _ 7 _ H0) as [g1 H1]. destruct (connect_ok _ 8 _ H1) as [g2 H2].
  exists g2. apply join_conn, join_conn, H2.
Qed.

Lemma reconnected_conn_ok : exists gc, conn_ok gc reconnected.
Proof. destruct meeting_conn_ok as [g H]. by apply (connect_ok g). Qed.

Lemma two_clients_rooms_ok : rooms_ok two_clients.
Proof.
  eapply (rooms_J_ext (fun _ _ => True) ∅ node_start two_clients); [reflexivity..|cbn; lia|apply node_start_J].
Qed.

Lemma meeting_rooms_ok : rooms_ok meeting.
Proof. apply join_section_ok, join_section_ok, two_clients_rooms_ok. Qed.

Definition on_node (m : ConnectMem) : refworld ConnectMem := demo ConnectMem m.
Abbreviation mem_of w := (v_mem (view (fl := false) (M := ConnectMem) w)).

Definition broadcast1 := exec (fl := false) (BroadcastRoom 5 7 "hi") (on_node meeting).

Lemma BroadcastRoom_delivers_witness : broadcast1.1 = 1 /\ chan_heap (mem_of broadcast1.2) !! 1%nat = Some ["hi"].
Proof.
  destruct (BroadcastRoom_delivers (fl := false) (HW := ref_env false ConnectMem) 5 7 "hi" (on_node meeting) broadcast1.1 broadcast1.2 meeting_rooms_ok) as [[_ Hd] Hn].
  - apply (bool_decide_unpack _). vm_compute. exact I.
  - apply run_pair.
  - rewrite Hn, Hd. split; vm_compute; reflexivity.
Defined.

(** ** Connections *)
Definition trusted (r : VerifyRequest) : prog (ev ConnectMem) (res VerifyReply) := Ret (Ok {| vp_UserId := 7 |}).
Definition node_a : Registry := {| ServerID := "node-a" |}.
Definition open_7 : node_op := OpConnect node_a trusted true "s" ["join 5"].

(** A connection has been allocated and not yet registered. *)
Definition allocated_view : sysview ConnectMem :=
  set_mem (alloc_client 7 node_start).2 (tick 1000 (start_view node_start)).

Lemma node_invariant_witness :
  client_heap (v_mem allocated_view) !! 0%nat = Some (MkClient 7 0 ∅ false 0 false)
  /\ forall c cl, client_heap (v_mem allocated_view) !! c = Some cl -> c_closes cl = (if c_once cl then 1 else 0)%nat.
Proof.
  split; [reflexivity|].
  refine (proj1 (proj2 (proj2 (node_invariant (fl := false) (start_view node_start) _ allocated_view eq_refl
    (arrive_mem _ [] (start_view node_start) (alloc_client 7) _ (ex_intro _ open_7 (conj _ eq_refl))))))).
  intros r. exact I.
Defined.

Definition login5 := exec (fl := false) (Login store30 ann_login) (on_node node_start).
Definition serve1 := exec (fl := false) (ServeWS node_a (fun r => rpc (Verify r)) true session1) login5.2.

Lemma login5_rep : sess_rep own1 act1 (v_rds (view (fl := false) (M := ConnectMem) login5.2)).
Proof.
  replace (v_rds (view (fl := false) (M := ConnectMem) login5.2)) with (v_rds (view (fl := false) (M := unit) login1.2)) by (vm_compute; reflexivity).
  apply login1_rep.
Qed.

Lemma ServeWS_authenticates_witness : serve1.1 = Serving 0 7 /\ find_client 7 (mem_of serve1.2) = Some (0%nat, 0%nat).
Proof.
  pose proof (ServeWS_authenticates (fl := false) (HW := ref_env false ConnectMem) node_a ∅ own1 act1 true session1 login5.2 serve1.1 serve1.2 login5_rep) as H.
  assert (conn_ok ∅ (mem_of login5.2)) as Hok.
  { replace (mem_of login5.2) with node_start by (vm_compute; reflexivity). apply (node_start_ok false (HA := ambient_any false) tt). }
  specialize (H Hok (run_pair _ _)).
  replace serve1.1 with (Serving 0 7) in * by (vm_compute; reflexivity).
  destruct H as (_ & _ & _ & _ & _ & Hf & _). split; [reflexivity|exact Hf].
Defined.

Definition stale1 := exec (fl := false) (offline 0 7) (on_node reconnected).

Lemma stale_pump_harmless_witness : mem_of stale1.2 = reconnected.
Proof.
  destruct reconnected_conn_ok as [gc Hok].
  refine (proj1 (stale_pump_harmless (fl := false) (HW := ref_env false ConnectMem) gc 0 7 (on_node reconnected) stale1.1 stale1.2 Hok _ (run_pair _ _))).
  intros Heq. apply (f_equal (fun o => bool_decide (o = Some 0%nat))) in Heq. vm_compute in Heq. discriminate Heq.
Defined.

(** User 7 is connected here and, since, to node-b, which the table names. *)
Definition moved : refworld ConnectMem :=
  ref_start 1000 {[userServerKey 7 := REntry (VStr "node-b") None]} demo_db meeting [].
Definition offline1 := exec (fl := false) (offline 0 7) moved.

Lemma reconnect_elsewhere_unrouted_witness :
  v_rds (view (fl := false) (M := ConnectMem) offline1.2) !! userServerKey 7 = None.
Proof.
  destruct meeting_conn_ok as [gc Hok].
  apply (reconnect_elsewhere_unrouted (fl := false) (HW := ref_env false ConnectMem) gc 0 7 "node-b" None moved offline1.1 offline1.2 eq_refl Hok).
  - vm_compute. reflexivity.
  - apply lookup_insert_eq.
  - apply run_pair.
Defined.

Definition push_8 : PushMsgRequest := {| pmr_ToUserId := 8; pmr_Payload := "hi"; pmr_MsgType := 0 |}.
Definition push1 := exec (fl := false) (PushMsg_handler push_8) (on_node meeting).

Lemma PushMsg_delivers_witness : exists c ch, find_client 8 meeting = Some (c, ch) /\ chan_ready ch meeting = true
  /\ mem_of push1.2 = set_chan ch (fun buf => buf ++ ["hi"])%list meeting.
Proof.
  destruct (PushMsg_delivers (fl := false) (HW := ref_env false ConnectMem) push_8 (on_node meeting) push1.1 push1.2 (run_pair _ _)) as (b & Hb & H).
  replace push1.1 with (Ok {| pmp_Success := true |} : res PushMsgReply) in Hb by (vm_compute; reflexivity).
  injection Hb as <-. exact H.
Defined.

Definition push_both : PushAllRequest := {| par_GroupId := 3; par_Payload := "hi"; par_UserIds := [7; 9; 8]; par_MsgType := 0 |}.
Definition push2 := exec (fl := false) (PushMsgToUsers_handler push_both) (on_node meeting).

Lemma PushMsgToUsers_delivers_witness :
  exists fail, push2.1 = Ok {| pmp_Success := Nat.eqb fail 0 |}
    /\ pushed "hi" (omap (M := list) (fun u => find_client u meeting) [7; 9; 8]) meeting fail (mem_of push2.2).
Proof. exact (PushMsgToUsers_delivers (fl := false) (HW := ref_env false ConnectMem) push_both (on_node meeting) push2.1 push2.2 (run_pair _ _)). Defined.

(** Two messages in the buffer of client 0; the second write fails. *)
Definition buffered : ConnectMem := set_chan 0 (fun _ => ["a"; "b"]) meeting.
Definition turns2 : list write_turn := [{| wt_tick := true; wt_write_ok := true |}; {| wt_tick := false; wt_write_ok := false |}].
Definition pump1 := exec (fl := false) (writePump 0 0 turns2) (on_node buffered).

Lemma writePump_fifo_witness : exists lost rest, ["a"; "b"] = (pump1.1 ++ lost ++ rest)%list /\ (length lost <= 1)%nat.
Proof.
  destruct (writePump_fifo (fl := false) (HW := ref_env false ConnectMem) 0 0 turns2 ["a"; "b"] (on_node buffered) pump1.1 pump1.2) as (lost & rest & _ & H).
  - vm_compute. reflexivity.
  - apply run_pair.
  - exists lost, rest. exact H.
Defined.

Definition reads1 := exec (fl := false) (read_loop 0 7 0 ["join 5"; "garbage"; "leave 5"; "join 5"]) (on_node two_clients).

Lemma two_clients_view a : room_view a two_clients = [].
Proof.
  unfold room_view. change (room_ptr a two_clients) with (room_ptr a node_start).
  destruct (room_ptr a node_start) as [r|]; reflexivity.
Qed.

Lemma ended_connection_roomless_witness : roomless 7 0 (mem_of reads1.2).
Proof.
  eapply (ended_connection_roomless (fl := false) (HW := ref_env false ConnectMem) 0 7 0 ["join 5"; "garbage"; "leave 5"; "join 5"] (on_node two_clients) reads1.2).
  - split; [apply two_clients_rooms_ok|]. eexists. split; [reflexivity|]. intros a Ha. exfalso. revert Ha.
    change (v_mem _) with two_clients. rewrite two_clients_view. apply not_elem_of_nil.
  - replace PumpDone with reads1.1 by (vm_compute; reflexivity). apply run_pair.
Defined.

Definition null1 := exec (fl := false) (readPump 0 7 0 ["null"; "join 5"]) (on_node meeting).

Lemma null_message_panics_witness : null1.1 = PumpPanic.
Proof. apply (null_message_panics (fl := false) (HW := ref_env false ConnectMem) 0 7 0 ["join 5"] (on_node meeting) null1.1 null1.2), run_pair. Defined.
