(* ===== verification/WitnessTask.v ===== *)
(** * Witnesses: the task layer

    For each theorem about the client pool, the push consumers and the
    persistence consumer, a concrete run in which its hypotheses hold. *)

From Stdlib Require Import ZArith Lia String.
From stdpp Require Import base tactics list gmap strings relations.
From S2P Require Import Prelude GoStd Effects Redis Database Proto World Rules RefWorld Store GroupServer.
From S2P Require Import GroupSpec Room ClientPool Consumer ConsumerSpec FanOut ClaimSpec PersistSpec Config Logging Process Offsets RefCodec WitnessLogic.
From S2P Require Import WitnessConnect.

Local Open Scope string_scope.
Local Open Scope Z_scope.

(** ** The client pool *)
Definition pool_view : sysview TaskMem := View 1000 ∅ demo_db [] ∅ [] [] task_start.
(** A goroutine has found no client for node-a and is about to dial. *)
Definition missed_view : sysview TaskMem := set_mem task_start (tick 1000 pool_view).

Lemma one_connection_per_node_witness : exists ps v,
  pool_reachable (ext false) env (fun p => exists s, p = GetClient s) ([], pool_view) (ps, v)
  /\ clients (v_mem v) !! "node-a" = Some 0%nat /\ size (clients (v_mem v)) = opened (v_mem v).
Proof.
  set (req := fun p : prog (ev TaskMem) (res pooledConnectClient) => exists s, p = GetClient s).
  assert (pool_reachable (ext false) env req ([], pool_view)
    ([Ret (Ok {| pc_server := "node-a"; pc_conn := 0 |})], set_mem (dial_section "node-a" task_start).2 (tick 1000 missed_view))) as Hrun.
  { eapply transitivity.
    - exact (arrive_mem req [] pool_view (fun m => (clients m !! "node-a", m)) _ (ex_intro _ "node-a" eq_refl)).
    - eapply rtc_l; [|apply rtc_refl]. exact (step_mem req [Vis (Mem (dial_section "node-a")) Ret] missed_view 0%nat (dial_section "node-a") Ret eq_refl). }
  eexists _, _. split; [exact Hrun|]. split; [vm_compute; reflexivity|].
  apply (one_connection_per_node (fl := false) pool_view _ _ eq_refl Hrun).
Defined.

Lemma pooled_clients_open_witness : exists ps v,
  pool_reachable (ext false) env (fun p => exists op, p = client_prog op) ([], pool_view) (ps, v)
  /\ clients (v_mem v) !! "node-a" = Some 0%nat /\ 0%nat ∉ closed_conns (v_mem v).
Proof.
  set (req := fun p : prog (ev TaskMem) (res unit) => exists op, p = client_prog op).
  set (k := fun r : res pooledConnectClient => Ret (res_map (fun _ => tt) r) : prog (ev TaskMem) (res unit)).
  assert (pool_reachable (ext false) env req ([], pool_view)
    ([Ret (Ok tt)], set_mem (dial_section "node-a" task_start).2 (tick 1000 missed_view))) as Hrun.
  { eapply transitivity.
    - exact (arrive_mem req [] pool_view (fun m => (clients m !! "node-a", m)) _ (ex_intro _ (OpGetClient "node-a") eq_refl)).
    - eapply rtc_l; [|apply rtc_refl].
      exact (step_mem req [Vis (Mem (dial_section "node-a")) k] missed_view 0%nat (dial_section "node-a") k eq_refl). }
  eexists _, _. split; [exact Hrun|]. split; [vm_compute; reflexivity|].
  refine (proj2 (pooled_clients_open (fl := false) pool_view _ _ eq_refl Hrun "node-a" 0%nat _)). vm_compute. reflexivity.
Defined.

(** ** Pushing: user 8 is on node-a; node-a and node-b are registered *)
Definition routes : keyspace :=
  <["connect_nodes:" := REntry (VSet {["node-a"; "node-b"]}) None]> {[routeKey 8 := REntry (VStr "node-a") None]}.

Definition routed : refworld TaskMem := ref_start 1000 routes demo_db task_start [].
(** The second call fails. *)
Definition routed_flaky : refworld TaskMem := ref_start 1000 routes demo_db task_start [(5, false); (5, true)].

Lemma routed_coherent : coherent (view (fl := false) (M := TaskMem) routed).
Proof.
  split.
  - intros gid e _ He. change (v_rds _) with routes in He. unfold routes in He.
    rewrite lookup_insert_ne, lookup_singleton_ne in He by done. discriminate He.
  - unfold members_ok. repeat constructor; vm_compute; discriminate.
Qed.

Lemma ref_dialable : dialable.
Proof. intros s. reflexivity. Qed.

(** User 7 writes to group 3, whose members are 7 and 8. *)
Definition gm1 : GroupMessage :=
  {| gm_MsgId := 1; gm_FromUserId := 7; gm_GroupId := 3; gm_Content := "hi"; gm_MsgType := 0; gm_CreateTime := 0; gm_ClientMsgId := 1 |}.
Definition group1 := exec (fl := false) (handleSmallGroupMessage (fun r => rpc (RefreshGroupMembersCache r)) None gm1 "p") routed.

(** A stale cached set: user 9 has left the group, or never was in it. *)
Definition stale_set : gset string := {["7"; "8"; "9"]}.
Definition stale : refworld TaskMem := ref_start 1000 (<[groupMembersKey 3 := REntry (VSet stale_set) None]> routes) demo_db task_start [].
Definition group3 := exec (fl := false) (handleSmallGroupMessage (fun r => rpc (RefreshGroupMembersCache r)) None gm1 "p") stale.

Lemma group_message_fanout_witness :
  (group1.1 = Ok tt
   /\ exists us t cs, 1000 <= t /\ v_calls (view (fl := false) (M := TaskMem) group1.2) = cs
     /\ (forall u, u ∈ us <-> u ∈ active_members 3 demo_db) /\ fanout (false = false /\ dialable) (purge t routes) us gm1 "p" cs)
  /\ (group3.1 = Ok tt
   /\ exists t cs, v_calls (view (fl := false) (M := TaskMem) group3.2) = cs
     /\ fanout (false = false /\ dialable) (purge t (v_rds (view (fl := false) (M := TaskMem) stale)))
          (parse_members (elements stale_set)) gm1 "p" cs).
Proof.
  split.
  - destruct (group_message_fanout (fl := false) (HW := ref_env false TaskMem) gm1 "p" routed group1.1 group1.2 ltac:(discriminate) (run_pair _ _))
      as (t0 & us & t & cs & Ht0 & Ht & _ & (Hc & _) & Hf & _ & Hco).
    destruct Hco as [Hus Hr]; [vm_compute; split; discriminate|exact routed_coherent|apply (bool_decide_unpack _); vm_compute; exact I|].
    split; [exact (Hr eq_refl)|]. exists us, t, cs. split; [exact (proj1 Ht)|]. split; [exact Hc|]. split; [exact Hus|exact Hf].
  - destruct (group_message_fanout (fl := false) (HW := ref_env false TaskMem) gm1 "p" stale group3.1 group3.2 ltac:(discriminate) (run_pair _ _))
      as (t0 & us & t & cs & Ht0 & Ht & Hus & (Hc & _) & Hf & Hr & _).
    assert (purge t0 (v_rds (view (fl := false) (M := TaskMem) stale)) !! groupMembersKey (gm_GroupId gm1) = Some (REntry (VSet stale_set) None)) as Ho.
    { apply lookup_purge. split; [reflexivity|exact I]. }
    rewrite Ho in Hr, Hus. split; [exact (Hr eq_refl)|]. exists t, cs. split; [exact Hc|].
    destruct Hus as [-> | [Hfl _]]; [|discriminate Hfl]. exact Hf.
Defined.

(** The fan-out to three nodes: user 7 is the sender, so node-c gets nothing. *)
Definition three_nodes : list (string * list Z) := [("node-a", [8; 9]); ("node-b", [10]); ("node-c", [7])].
Definition fan1 := exec (fl := true) (push_nodes gm1 "p" three_nodes) routed_flaky.

Lemma push_fanout_terminates_witness :
  (length (push_targets gm1 three_nodes) = 2)%nat
  /\ runs_out true 10 (push_node gm1 "p" <$> push_targets gm1 three_nodes) (view (fl := true) (M := TaskMem) routed_flaky) fan1.1
       (view (fl := true) (M := TaskMem) fan1.2).
Proof.
  split; [vm_compute; reflexivity|].
  exact (proj1 (push_fanout_terminates (fl := true) (HW := ref_env true TaskMem) gm1 "p" three_nodes routed_flaky fan1.1 fan1.2 (run_pair _ _))).
Defined.

Definition room1 : RoomMessage :=
  {| rm_MsgId := 1; rm_FromUserId := 7; rm_RoomId := 5; rm_Content := "hi"; rm_MsgType := 0; rm_CreateTime := 0 |}.
Definition cast1 := exec (fl := true) (handleRoomBroadcast room1 "p") routed_flaky.

Lemma room_message_fanout_witness :
  room_post true (view (fl := true) (M := TaskMem) routed_flaky) room1 "p" cast1.1 (view (fl := true) (M := TaskMem) cast1.2).
Proof. exact (room_message_fanout (fl := true) (HW := ref_env true TaskMem) room1 "p" routed_flaky cast1.1 cast1.2 (run_pair _ _)). Defined.

Definition msg1 : Message :=
  {| m_MsgId := 1; m_FromUserId := 7; m_ToUserId := 8; m_Content := "hi"; m_MsgType := 0; m_CreateTime := 0; m_ClientMsgId := 0 |}.
Definition record_of (m : Message) : kmsg := KMsg "chat_messages" "8" (answer "" (Marshal_Message m)).
Definition private1 := exec (fl := false) (single_message (record_of msg1)) routed.

Lemma private_message_routed_witness : exists cs,
  v_calls (view (fl := false) (M := TaskMem) private1.2) = cs /\ cs = [("node-a", private_call msg1 (k_Value (record_of msg1)))].
Proof.
  destruct (private_message_routed (fl := false) (HW := ref_env false TaskMem) (record_of msg1) routed private1.1 private1.2 (run_pair _ _))
    as (t & cs & Ht & (Hc & _) & _ & Hall).
  exists cs. split; [exact Hc|]. rewrite (Hall eq_refl ref_dialable).
  replace (Unmarshal_Message (k_Value (record_of msg1))) with (Ok msg1 : res Message) by (vm_compute; reflexivity).
  assert (route_of (purge t (v_rds (view (fl := false) (M := TaskMem) routed))) (m_ToUserId msg1) = Some "node-a") as ->; [|reflexivity].
  unfold route_of. replace (purge t _ !! _) with (Some (REntry (VStr "node-a") None)); [reflexivity|]. symmetry.
  apply lookup_purge. split; [reflexivity|exact I].
Defined.

(** ** Persistence *)
Definition msg2 : Message :=
  {| m_MsgId := 2; m_FromUserId := 7; m_ToUserId := 8; m_Content := "again"; m_MsgType := 0; m_CreateTime := 0; m_ClientMsgId := 0 |}.
Definition db_on : PersistConsumer := {| DB := true |}.
Definition claim1 : list (kmsg * nat) := [(record_of msg1, 3%nat); (KMsg "chat_messages" "8" "garbage", 0%nat); (record_of msg2, 0%nat)].
Definition persist1 := exec (fl := true) (Persist_ConsumeClaim db_on claim1) (flaky unit tt).
Definition persist2 := exec (fl := true) (Persist_ConsumeClaim db_on [(record_of msg1, 0%nat)]) persist1.2.

Lemma committed_records_stored_witness :
  persist1.1 `prefix_of` claim1.*1 /\ grows demo_db (v_db (view (fl := true) (M := unit) persist1.2)).
Proof.
  destruct (committed_records_stored (fl := true) (HW := ref_env true unit) db_on claim1 (flaky unit tt) persist1.1 persist1.2 (run_pair _ _))
    as (H1 & _ & H3).
  split; [exact H1|exact H3].
Defined.

Lemma redelivery_harmless_witness :
  v_db (view (fl := true) (M := unit) persist2.2) = v_db (view (fl := true) (M := unit) persist1.2).
Proof.
  eapply (redelivery_harmless (fl := true) (HW := ref_env true unit) db_on claim1 (flaky unit tt) persist1.1 persist1.2
    [(record_of msg1, 0%nat)] persist2.2 persist2.1); [apply run_pair| |apply run_pair].
  intros msg ->%list_elem_of_singleton. replace persist1.1 with [record_of msg1; KMsg "chat_messages" "8" "garbage"] by (vm_compute; reflexivity). constructor.
Defined.

(** Two messages to user 8, with a record between them that does not decode. *)
Definition single2 := exec (fl := false) (Single_ConsumeClaim claim1.*1) routed.

Lemma private_partition_order_witness : single2.1 = claim1.*1
  /\ v_calls (view (fl := false) (M := TaskMem) single2.2)
     = [("node-a", private_call msg1 (k_Value (record_of msg1))); ("node-a", private_call msg2 (k_Value (record_of msg2)))]
  /\ exists cs, Goroutines.called cs (view (fl := false) (M := TaskMem) routed) (view (fl := false) (M := TaskMem) single2.2)
     /\ in_turn (private_push false (view (fl := false) (M := TaskMem) routed)) claim1.*1 cs.
Proof.
  destruct (private_partition_order (fl := false) (HW := ref_env false TaskMem) claim1.*1 routed single2.1 single2.2 (run_pair _ _)) as [H1 H2].
  split; [exact H1|]. split; [vm_compute; reflexivity|exact H2].
Defined.

(** The first session marks two records and commits one of them; the second
    gets the other again, and the record after it. *)
Definition partition1 : list kmsg := claim1.*1.
Definition sessions1 : list session :=
  [{| s_newest := 2; s_budgets := [3; 0]%nat; s_commits := 1 |}; {| s_newest := 3; s_budgets := [0; 4]%nat; s_commits := 5 |}].
Definition loop1 := exec (fl := true) (group_sessions OffsetNewest db_on partition1 (Some 0%nat) sessions1) (flaky unit tt).


(** The first session sees no record; the message of user 7 arrives between
    the two sessions, and the one after it is stored and committed. *)
Definition skipping := exec (fl := true) (group_sessions (cm_Offsets_Initial (consumer_config "3.6.0")) db_on
  ([KMsg "chat_messages" "8" "garbage"] ++ [record_of msg1] ++ [record_of msg2])%list None
  [{| s_newest := 1; s_budgets := []; s_commits := 0 |}; {| s_newest := 2; s_budgets := [3%nat]; s_commits := 1 |}]) (flaky unit tt).

Lemma first_commit_skips_records_witness :
  skipping.1 = Some 3%nat
  /\ adds [record_of msg2] demo_db (v_db (view (fl := true) (M := unit) skipping.2))
  /\ (forall row, row ∈ t_messages (v_db (view (fl := true) (M := unit) skipping.2)) -> mr_MsgID row = 2).
Proof.
  destruct (first_commit_skips_records (fl := true) (HW := ref_env true unit) "3.6.0" db_on [KMsg "chat_messages" "8" "garbage"]
    [record_of msg1] [record_of msg2] [] [3%nat] 1 (flaky unit tt) skipping.1 skipping.2 (run_pair _ _)) as (Ha & Hrows & _).
  split; [vm_compute; reflexivity|]. split; [exact Ha|]. intros row Hrow. destruct (Hrows row Hrow) as [H0 | (k & m & Hk & Hm & ->)].
  - apply not_elem_of_nil in H0. destruct H0.
  - apply list_elem_of_singleton in Hk as ->. assert (Unmarshal_Message (k_Value (record_of msg2)) = Ok msg2) as Hd by (vm_compute; reflexivity).
    rewrite Hd in Hm. injection Hm as <-. reflexivity.
Defined.

(** A group record whose first attempt fails, and one that does not decode. *)
Definition group_record : kmsg := KMsg "group_chat_messages" "3" (answer "" (Marshal_GroupMessage gm1)).
Definition group_claim : list (kmsg * (option (res GroupMembersReply) * list (option (res GroupMembersReply)))) :=
  [(group_record, (None, [None; None])); (KMsg "group_chat_messages" "3" "garbage", (None, []))].
Definition group2 := exec (fl := true) (Group_ConsumeClaim (fun r => rpc (RefreshGroupMembersCache r)) group_claim) routed_flaky.

Lemma group_partition_order_witness : group2.1 = group_claim.*1
  /\ in_order (fl := true) (HW := ref_env true TaskMem) group_claim.*1 routed_flaky group2.1 group2.2
  /\ claim_post true (view (fl := true) (M := TaskMem) routed_flaky) group_claim.*1 group2.1 (view (fl := true) (M := TaskMem) group2.2).
Proof.
  split; [vm_compute; reflexivity|].
  destruct (group_partition_order (fl := true) (HW := ref_env true TaskMem) group_claim routed_flaky group2.1 group2.2 (run_pair _ _)) as [Ho Hp].
  split; [exact Ho|]. apply Hp; [exact routed_coherent|].
  assert (Unmarshal_GroupMessage (k_Value group_record) = Ok gm1) as Hd by (vm_compute; reflexivity).
  assert (is_ok (Unmarshal_GroupMessage "garbage") = false) as Hg by (vm_compute; reflexivity).
  constructor; [|constructor; [|constructor]]; (split; [|split; [reflexivity|repeat constructor]]); intros gm Hgm.
  - assert (gm = gm1) as -> by (cbn [fst group_claim] in Hgm; congruence).
    split; [vm_compute; split; discriminate|]. split; [discriminate|]. apply (bool_decide_unpack _). vm_compute. exact I.
  - cbn [fst k_Value] in Hgm. rewrite Hgm in Hg. discriminate Hg.
Defined.

Definition store1 := exec (fl := false) (persistMessage db_on msg1) (demo unit tt).
Definition store2 := exec (fl := false) (persistMessage db_on msg2) store1.2.

(** The second message of user 7 to user 8 without client id is not stored. *)
Lemma persistMessage_drops_witness : store2.1 = Ok tt
  /\ v_db (view (fl := false) (M := unit) store2.2) = v_db (view (fl := false) (M := unit) store1.2).
Proof.
  destruct (persistMessage_drops (fl := false) (HW := ref_env false unit) msg2 store1.2 store2.1 store2.2
    ltac:(vm_compute; reflexivity) ltac:(vm_compute; reflexivity) (run_pair _ _)) as [Hdrop _].
  destruct Hdrop as [Hdb Hr].
  - exists (message_with_id 1 (message_row msg1)). split; [vm_compute; constructor|]. right. split; [|split]; reflexivity.
  - split; [exact (Hr eq_refl)|exact Hdb].
Defined.

(** A type that is not a TINYINT, then an ordinary message. *)
Definition odd_msg : Message :=
  {| m_MsgId := 3; m_FromUserId := 7; m_ToUserId := 8; m_Content := "hi"; m_MsgType := 200; m_CreateTime := 0; m_ClientMsgId := 1 |}.
Definition claim2 : list (kmsg * nat) := [(record_of odd_msg, 5%nat); (record_of msg1, 5%nat)].
Definition persist3 := exec (fl := false) (Persist_ConsumeClaim db_on claim2) (demo unit tt).

Lemma unfit_record_blocks_witness : persist3.1 = [] /\ v_db (view (fl := false) (M := unit) persist3.2) = demo_db.
Proof.
  apply (unfit_record_blocks (fl := false) (HW := ref_env false unit) db_on (record_of odd_msg) 5 [(record_of msg1, 5%nat)]
    (demo unit tt) persist3.1 persist3.2); [vm_compute; reflexivity|apply run_pair].
Defined.
