(* ===== verification/WitnessMains.v ===== *)
(** * Witnesses: the processes

    The configuration file configs/dev.toml as a tree, and concrete runs of the
    main functions in which the hypotheses of their theorems hold. *)

From Stdlib Require Import ZArith Lia String.
From stdpp Require Import base tactics list gmap relations strings.
From S2P Require Import Prelude GoStd Effects Redis Database Proto World RefWorld Store Auth ChatServer Registry Config Logging.
From S2P Require Import Process Mains ProcessLogic MainsSpec NodeSpec RefCodec WitnessLogic.

Local Open Scope string_scope.
Local Open Scope Z_scope.

(** ** A parsed file *)
Inductive cval := CStr (s : string) | CInt (z : Z) | CStrs (l : list string) | CTab (l : list (string * cval)).

Fixpoint assoc (k : string) (l : list (string * cval)) : option cval :=
  match l with [] => None | (k', x) :: l' => if String.eqb k k' then Some x else assoc k l' end.

#[export] Instance ref_viper : Viper := {|
  table := list (string * cval);
  value := cval;
  empty_table := [];
  get t k := assoc k t;
  get_empty _ := eq_refl;
  as_table x := match x with CTab l => Some l | _ => None end;
  as_string x := match x with CStr s => Some s | _ => None end;
  as_int x := match x with CInt z => Some z | _ => None end;
  as_strings x := match x with CStrs l => Some l | _ => None end;
  decode_error _ := "decoding failed" |}.

#[export] Instance ref_sarama : Sarama := {| ParseKafkaVersion v := if String.eqb v "" then Err (ErrExt "invalid version") else Ok v |}.

Definition dev_toml : list (string * cval) := [
  ("mysql", CTab [("dsn", CStr "root:123456@tcp(127.0.0.1:3306)/likegochat?parseTime=true&charset=utf8mb4&loc=Local")]);
  ("logic", CTab [("grpc_addr", CStr "127.0.0.1:50051"); ("chat_topic", CStr "chat_messages")]);
  ("api", CTab [("http_addr", CStr "127.0.0.1:8080"); ("logic_grpc_addr", CStr "127.0.0.1:50051")]);
  ("redis", CTab [("redis_addr", CStr "127.0.0.1:6379"); ("redis_password", CStr "sudo"); ("redis_db", CInt 0)]);
  ("session", CTab [("session_ttl_seconds", CInt 2592000)]);
  ("logger", CTab [("log_file_path", CStr "./logs/dev.log"); ("log_file_size", CInt 10); ("log_file_backups", CInt 5);
                   ("log_file_age", CInt 7); ("log_file_level", CStr "debug")]);
  ("connect1", CTab [("connect_grpc_addr", CStr "127.0.0.1:50052"); ("connec_http_addr", CStr "127.0.0.1:8081")]);
  ("connect2", CTab [("connect_grpc_addr", CStr "127.0.0.1:50053"); ("connec_http_addr", CStr "127.0.0.1:8082")]);
  ("kafka", CTab [("kafka_brokers", CStrs ["127.0.0.1:9092"]); ("kafka_chat_topic", CStr "chat_messages");
                  ("kafka_singlechat_consumer", CStr "singlechat_task_group"); ("kafka_group_chat_topic", CStr "group_chat_messages");
                  ("kafka_groupchat_consumer", CStr "groupchat_task_group"); ("kafka_room_chat_topic", CStr "room_chat_messages");
                  ("kafka_roomchat_consumer", CStr "roomchat_task_group"); ("kafka_persistchat_consumer", CStr "persistchat_task_group");
                  ("kafka_version", CStr "3.8.1")])].

Definition dev_file : res table := Ok dev_toml.

Definition dev_config : Config := Eval vm_compute in
  match configured dev_file with
  | Ok cfg => cfg
  | Err _ => Build_Config (Build_MySQLConfig "") (Build_LogicConfig "") (Build_APIConfig "" "") (Build_RedisConfig "" "" 0) (Build_SessionConfig 0)
               (Build_LoggerConfig "" 0 0 0 "") no_connect no_connect (Build_KafkaConfig [] "" "" "" "" "" "" "" "")
  end.

Lemma dev_configured : configured dev_file = Ok dev_config.
Proof. vm_compute. reflexivity. Qed.

(** ** Runs in which every call succeeds *)

(** The answer of a call that goes through, for the events but those of the
    services and those that block. *)
Definition good {X} (e : pev X) (s : pstate) : option (X * pstate) :=
  match e in pev X return option (X * pstate) with
  | ReadInConfig _ _ => Some (dev_file, s)
  | SetLogger c => Some (tt, with_own (own_logger c) s)
  | Sync => Some (tt, with_own own_synced s)
  | Make r => Some (tt, with_own (own_opened r) s)
  | Open r => Some (Ok tt, with_own (own_opened r) s)
  | Close r => Some (Ok tt, with_own (own_closed r) s)
  | Ping => Some (Ok tt, s)
  | SqlDB => Some (Ok tt, s)
  | SetPool _ _ _ => Some (tt, s)
  | SetRedisLogger => Some (tt, s)
  | Go g => Some (tt, with_own (own_started g) s)
  | Listen a => Some (Ok tt, with_listening a s)
  | RegisterLogic svc => Some (tt, with_own (own_served svc) s)
  | Cancel => Some (tt, with_own own_cancelled s)
  | Notify => Some (tt, with_own own_notified s)
  | Signal => Some (tt, s)
  | Print _ => Some (tt, s)
  | _ => None
  end.

Lemma pext_good `{Crypto} fl {X} (e : pev X) s x s' : good e s = Some (x, s') -> pext fl dev_file e s x s'.
Proof. destruct e; cbn; intros; simplify_eq; by repeat split. Qed.

(** The main function alone, for at most [n] events; the goroutines it starts
    do not move yet. *)
Fixpoint drive (n turns : nat) (p : prog pev unit) (ps : list (prog pev unit)) (s : pstate) : list (prog pev unit) * pstate :=
  match n, p with
  | S n, Vis e k =>
      match good e s with
      | Some (x, s') => drive n turns (k x) (ps ++ spawned (goroutine_body turns) e)%list s'
      | None => (p :: ps, s)
      end
  | _, _ => (p :: ps, s)
  end.

Lemma good_exit {X} (e : pev X) s x s' : good e s = Some (x, s') -> p_exit s' = p_exit s.
Proof. destruct e; cbn; intros; by simplify_eq. Qed.

Lemma drive_runs `{Crypto} fl others n turns p ps s : p_exit s = None ->
  rtc (proc_step (@pext _ _ fl dev_file) (goroutine_body turns) others) (p :: ps, s) (drive n turns p ps s).
Proof.
  revert p ps s. induction n as [|n IH]; intros p ps s Hn; cbn; [apply rtc_refl|]. destruct p as [a|X e k]; [apply rtc_refl|].
  destruct (good e s) as [[x s']|] eqn:Hg; [|apply rtc_refl].
  eapply rtc_l; [|apply IH; by rewrite (good_exit _ _ _ _ Hg)].
  apply (proc_event _ _ _ (Vis e k :: ps) s 0 X e k x s' Hn eq_refl). by apply pext_good.
Qed.

(** ** The task process *)
Definition unit_view : sysview unit := View 1000 ∅ empty_tables [] ∅ [] [] tt.
Definition task_run := drive 100 3 task_main [] (proc_start unit_view).

Lemma task_run_runs fl : runs fl dev_file 3 anything task_main unit_view task_run.1 task_run.2.
Proof. unfold runs. rewrite <- surjective_pairing. by apply drive_runs. Qed.

Lemma task_stops_in_order_witness : exists s, p_exit s = Some 0 /\ length (o_opened (p_own s)) = 8%nat
  /\ exists r m opened, o_opened (p_own s) = r :: m :: opened /\ o_teardown (p_own s) = Cancelled :: (Closed <$> rev opened).
Proof.
  assert (runs true dev_file 3 anything task_main unit_view task_run.1 (with_exit 0 task_run.2)) as Hr.
  { eapply rtc_r; [apply task_run_runs|]. apply proc_return; vm_compute; reflexivity. }
  exists (with_exit 0 task_run.2). split; [reflexivity|]. split; [vm_compute; reflexivity|].
  destruct (task_stops_in_order true dev_file 3 unit_view _ _ Hr eq_refl) as (r & m & opened & Ho & Ht).
  exists r, m, opened. split; [exact Ho|]. rewrite Ht.
  destruct (o_started (p_own (with_exit 0 task_run.2))) eqn:Hs; [vm_compute in Hs; discriminate Hs|reflexivity].
Defined.

(** ** The logic process serves, then it is killed *)
Definition logic_run := drive 100 3 logic_main [] (proc_start unit_view).

Lemma logic_run_runs fl : runs fl dev_file 3 anything logic_main unit_view logic_run.1 logic_run.2.
Proof. unfold runs. rewrite <- surjective_pairing. by apply drive_runs. Qed.

Definition dev_services : logic_services := services_of dev_config (store_of dev_config).

Lemma topics_consumed_witness :
  exists g, ConsumeLoop g ["chat_messages"; "group_chat_messages"] PersistHandler ∈ o_started (p_own task_run.2).
Proof.
  destruct (topics_consumed true dev_file 3 unit_view _ _ dev_services unit_view _ _ (logic_run_runs true) ltac:(vm_compute; reflexivity)
    (task_run_runs true) ltac:(vm_compute; reflexivity)) as (_ & _ & _ & H & _).
  exact H.
Defined.

Lemma logic_stops_uncleanly_witness : exists s, p_exit s = Some 143 /\ length (o_opened (p_own s)) = 3%nat /\ o_closed (p_own s) = [].
Proof.
  assert (runs false dev_file 3 anything logic_main unit_view logic_run.1 (with_exit 143 logic_run.2)) as Hr.
  { eapply rtc_r; [apply logic_run_runs|]. apply proc_kill; vm_compute; reflexivity. }
  exists (with_exit 143 logic_run.2). split; [reflexivity|]. split; [vm_compute; reflexivity|].
  refine (proj1 (logic_stops_uncleanly false dev_file 3 unit_view _ _ _ Hr)).
  split; [reflexivity|]. exists dev_config. split; [exact dev_configured|reflexivity].
Defined.

(** ** The connect process *)
Lemma unit_nodes_ok : nodes_ok unit_view.
Proof. exists ∅. reflexivity. Qed.

Definition nobody : sysview unit -> sysview unit -> Prop := fun _ _ => False.

Lemma node_listed_while_running_witness : exists s, o_started (p_own s) = [GrpcServer "127.0.0.1:50052"] /\ is_node "127.0.0.1:50052" (p_sys s).
Proof.
  destruct (taken_run dev_file 0 1 dev_config dev_configured nobody unit_view unit_nodes_ok ltac:(discriminate)) as (ps & s & Hr%runs_taken_fail & _ & _ & Hs & Hc).
  exists s. split; [exact Hs|].
  refine (proj2 (proj2 (proj1 (node_listed_while_running true dev_file 0 1 dev_config dev_configured nobody unit_view ps s unit_nodes_ok _ Hr)
    (GrpcServer "127.0.0.1:50052") _)) _).
  - intros v1 v2 [].
  - rewrite Hs. constructor.
  - unfold o_closed. by rewrite Hc.
Defined.

Lemma port_in_use_leaves_node_witness : exists ps s, runs_taken dev_file 0 2 dev_config nobody unit_view ps s
  /\ p_exit s = Some 1 /\ is_node "127.0.0.1:50053" (p_sys s).
Proof.
  destruct (port_in_use_leaves_node dev_file 0 2 dev_config dev_configured nobody unit_view unit_nodes_ok ltac:(discriminate) (fun _ _ H => match H with end))
    as [(ps & s & Hr & He & Hs & Ht) Hall].
  exists ps, s. split; [exact Hr|]. split; [exact He|]. apply (Hall ps s Hr He); [by rewrite Hs|exact Ht].
Defined.

(** ** Logging: a failed login *)
Definition debug_logger : zlogger LoginRequest := {| zl_sinks := [Stdout]; zl_level := -1; zl_fields := [] |}.
Definition bad_login : LoginRequest := {| lr_Username := "ann"; lr_Password := "secret"; lr_Ip := ""; lr_UserAgent := "" |}.
Definition logged1 := exec (fl := false)
  (with_log (ZapGrpcLogger debug_logger [] bad_login "/auth.AuthService/Login" (fun _ req => Login store30 req)) []) (demo unit tt).

(** The password of the request is in the log. *)
Lemma interceptor_transparent_witness : exists l, l ∈ logged1.1.2 /\ li_level l = ErrorLevel /\ ("request", FAny bad_login) ∈ li_fields l.
Proof.
  destruct (interceptor_transparent (fl := false) (HW := ref_env false unit) debug_logger [] bad_login "/auth.AuthService/Login"
    (fun _ req => Login store30 req) [] (demo unit tt) logged1.1.1 logged1.1.2 logged1.2) as (u & w1 & w2 & n1 & n2 & d & _ & _ & _ & _ & _ & _ & _ & Hout).
  { unfold logged1. by destruct (exec _ _) as [[r out] w]. }
  rewrite Hout. replace logged1.1.1 with (Err (ErrMsg "invalid password or username") : res LoginReply) by (vm_compute; reflexivity).
  eexists. split; [constructor|]. split; [reflexivity|]. cbn. do 2 (apply list_elem_of_further). constructor.
Defined.
