(* ===== verification/WitnessSystem.v ===== *)
(** * Witnesses of the whole system

    Two users log in at the gateway, one opens a connection to a node, the other
    posts a message to him and one to the group of both; the task process routes
    both to the node, which puts them into his send buffer.  The theorems of
    System.v are applied to the end of that run. *)

From Stdlib Require Import ZArith Lia String.
From stdpp Require Import base tactics list gmap strings.
From S2P Require Import Prelude GoStd Effects Redis Database Proto World Rules Store Sessions Auth AuthSpec GroupServer GroupSpec GroupPool ChatServer Api Gateway.
From S2P Require Import Room ConnectMem RoomManager Registry Connection ConnectSpec ClientPool Consumer SessionPool Knowledge LogicPool TaskPool System Delivery Schema RefWorld RefCodec.
From S2P Require Import WitnessLogic WitnessConnect.

Local Open Scope string_scope.
Local Open Scope Z_scope.

(** ** The run *)
Definition bob : User := {| u_ID := 8; u_Username := "bob"; u_PasswordHash := ref_hash "secret"; u_CreatTime := 0 |}.
Definition two_users : tables := Tables [ann; bob] [chess] [membership 1 7; membership 2 8] [] [].
Definition all_start : SysMem :=
  {| sm_logic _ := {| localMsgSeq := 0 |}; sm_task _ := task_start; sm_node _ := node_start |}.
Definition sys_start : sysview SysMem := View 1000 ∅ two_users [] ∅ [] [] all_start.

Definition state : Type := list (prog (ev SysMem) unit) * sysview SysMem.

(** The program of [op] starts and makes its first [n] calls. *)
Definition act (op : sys_op) (n : nat) (st : state) : state :=
  sched false (replicate n (Turn (List.length st.1) 1 false)) ((st.1 ++ [sys_prog store30 chat op])%list, st.2).

Definition ann_session : string := fresh_uuid ∅.
Definition bob_session : string := fresh_uuid {[ann_session]}.
Definition by_ann : http_request := {| hr_Method := "POST"; hr_Authorization := ann_session; hr_RemoteAddr := ""; hr_UserAgent := "" |}.

Definition op1 : sys_op := AtGateway 0 "/api/login" no_session "ann".
Definition st1 := act op1 30 ([], sys_start).
Definition op2 : sys_op := AtGateway 1 "/api/login" no_session "bob".
Definition st2 := act op2 30 st1.
Definition op3 : sys_op := AtNode "node-a" (OpConnect node_a verify_call true bob_session ["join 5"]).
Definition st3 := act op3 9 st2.
Definition op4 : sys_op := AtGateway 0 "/api/send" by_ann "private".
Definition st4 := act op4 30 st3.
Definition op5 : sys_op := AtGateway 1 "/api/groupsend" by_ann "group".
Definition st5 := act op5 40 st4.
Definition private_record : kmsg := nth 0 (v_log st5.2) (KMsg "" "" "").
Definition group_record : kmsg := nth 1 (v_log st5.2) (KMsg "" "" "").
Definition op6 : sys_op := AtTask 0 (TaskPrivate [private_record]).
Definition st6 := act op6 20 st5.
Definition op7 : sys_op := AtTask 1 (TaskGroup [(group_record, (None, []))]).
Definition st7 := act op7 40 st6.
Definition private_req : PushMsgRequest := {| pmr_ToUserId := 8; pmr_Payload := k_Value private_record; pmr_MsgType := 0 |}.
Definition group_req : PushAllRequest := {| par_GroupId := 3; par_Payload := k_Value group_record; par_UserIds := [8]; par_MsgType := 0 |}.
Definition op8 : sys_op := AtNode "node-a" (OpPushMsg private_req).
Definition st8 := act op8 10 st7.
Definition op9 : sys_op := AtNode "node-a" (OpPushMsgToUsers group_req).
Definition st9 := act op9 10 st8.

(** ** Its requests are the ones that may arrive *)
Definition requests (path : string) (r : http_request) (body : string) : Prop :=
  (path = "/api/login" /\ r = no_session) \/ ((path = "/api/send" \/ path = "/api/groupsend") /\ r = by_ann).
Definition connects (sid : string) (messages : list string) : Prop := sid = bob_session /\ messages = ["join 5"].

Abbreviation reached := (open_reachable (ext false) env (arrives store30 chat requests connects) ([], sys_start)).

Lemma act_reached op n st : reached st ->
  arrives store30 chat requests connects st.2 (sys_prog store30 chat op) -> reached (act op n st).
Proof. destruct st as [ps v]. apply sched_arrive. Qed.

Lemma at_gateway i path r body v : requests path r body -> arrives store30 chat requests connects v (sys_prog store30 chat (AtGateway i path r body)).
Proof. intros Hr. by eexists. Qed.

(** A record, or a call, that is there. *)
Lemma nth_there {A} (l : list A) i d : (i < List.length l)%nat -> nth i l d ∈ l.
Proof. intros Hi. apply list_elem_of_In. by apply nth_In. Qed.

Lemma st5_reached : reached st5.
Proof.
  apply act_reached; [|apply at_gateway; right; auto]. apply act_reached; [|apply at_gateway; right; auto].
  apply act_reached; [|by eexists].
  apply act_reached; [|apply at_gateway; left; auto]. apply act_reached; [|apply at_gateway; left; auto]. apply rtc_refl.
Qed.

Lemma log_st5 : List.length (v_log st5.2) = 2%nat /\ v_log st6.2 = v_log st5.2 /\ v_log st9.2 = v_log st5.2
  /\ k_Topic private_record = "chat_messages" /\ k_Topic group_record = "group_chat_messages".
Proof. split_and!; vm_compute; reflexivity. Qed.

Lemma st7_reached : reached st7.
Proof.
  destruct log_st5 as (Hl & Hl6 & _ & Ht1 & Ht2). apply (act_reached op7 40 st6); [apply (act_reached op6 20 st5); [exact st5_reached|]|].
  - eexists. split; [reflexivity|]. cbn [op6 op7 task_arrives]. constructor; [|constructor]. split; [|exact Ht1].
    apply nth_there. rewrite Hl. lia.
  - eexists. split; [reflexivity|]. cbn [op6 op7 task_arrives]. constructor; [|constructor]. split_and!; [|exact Ht2|discriminate|constructor].
    rewrite Hl6. apply nth_there. rewrite Hl. lia.
Qed.

Lemma calls_st7 : v_calls st7.2 = [("node-a", PushMsg private_req); ("node-a", PushMsgToUsers group_req)]
  /\ v_calls st8.2 = v_calls st7.2.
Proof. split; vm_compute; reflexivity. Qed.

Lemma st9_reached : reached st9.
Proof.
  destruct calls_st7 as [Hc Hc8]. apply (act_reached op9 10 st8); [apply (act_reached op8 10 st7); [exact st7_reached|]|].
  - eexists. split; [reflexivity|]. cbn [op8 op9 node_arrives]. rewrite Hc. apply list_elem_of_here.
  - eexists. split; [reflexivity|]. cbn [op8 op9 node_arrives]. rewrite Hc8, Hc. apply list_elem_of_further, list_elem_of_here.
Qed.

(** ** The start *)
Lemma chat_set_up : set_up store30 chat.
Proof.
  split; [reflexivity|by eexists|apply (bool_decide_eq_true_1 _); vm_compute; reflexivity| |]; intros body b; unfold json_groupsend, json_addgroup, ref_bodies; destruct (String.eqb body _); intros [= <-]; split; cbn; unfold min_int64, max_int64; lia.
Qed.

Lemma sys_start_ok : starts ∅ (∅, ∅) sys_start.
Proof.
  split; try done.
  - exists ∅. split.
    + done.
    + intros sid e. split; [done|]. by intros (uid & ex & Hx & _).
    + done.
  - repeat constructor; vm_compute; discriminate.
  - split_and!.
    + split; cbn.
      * apply NoDup_singleton.
      * apply NoDup_cons_2; [rewrite list_elem_of_singleton; discriminate|apply NoDup_singleton].
      * intros m [->|[->|[]%not_elem_of_nil]%elem_of_cons]%elem_of_cons; constructor.
      * intros g ->%list_elem_of_singleton. reflexivity.
    + repeat constructor; vm_compute; discriminate.
    + split; intros gid uid Hin; cbn in Hin; set_solver.
    + intros gid e _ He. by vm_compute in He.
    + constructor.
Qed.

(** The tables at the start are well stored; at the end both records were
    written by the persistence consumer. *)
Definition op10 : sys_op := AtTask 2 (TaskPersist {| DB := true |} [(private_record, 0%nat); (group_record, 0%nat)]).
Definition st10 := act op10 10 st9.

Lemma st10_reached : reached st10.
Proof. apply act_reached; [exact st9_reached|by eexists]. Qed.

Lemma two_ids (a b : Z) : a <> b -> NoDup [a; b].
Proof. intros Hab. apply NoDup_cons_2; [by rewrite list_elem_of_singleton|apply NoDup_singleton]. Qed.

Lemma two_users_stored : well_stored two_users.
Proof.
  split; [|apply (st_groups _ _ _ sys_start_ok)|].
  - split; split; cbn; try apply NoDup_nil_2; try (apply two_ids; discriminate); try apply NoDup_singleton; try constructor.
    all: repeat (apply Forall_cons; split); try apply Forall_nil_2; try constructor.
    all: try done; try (by constructor); cbn; lia.
  - apply Forall_singleton. apply list_elem_of_here.
Qed.

Lemma tables_conform_witness :
  List.length (t_messages (v_db st10.2)) = 1%nat /\ List.length (t_group_messages (v_db st10.2)) = 1%nat
  /\ well_stored (v_db st10.2) /\ rows_kept two_users (v_db st10.2).
Proof.
  split; [vm_compute; reflexivity|]. split; [vm_compute; reflexivity|].
  apply (tables_conform (fl := false) store30 chat requests connects sys_start st10.1 st10.2); [exact two_users_stored|].
  rewrite <- surjective_pairing. exact st10_reached.
Defined.

(** Both records name ann, whose session the gateway was shown. *)
Lemma no_forged_records_witness :
  List.length (v_log st9.2) = 2%nat /\ exists own, sessions_true ∅ requests own st9.2
    /\ authentic chat requests own st9.2 private_record /\ authentic chat requests own st9.2 group_record.
Proof.
  destruct log_st5 as (Hl & _ & Hl9 & Ht1 & Ht2). split; [by rewrite Hl9|].
  destruct (no_forged_records (fl := false) store30 chat ∅ (∅, ∅) requests connects sys_start st9.1 st9.2 chat_set_up sys_start_ok) as (own & H1 & H2).
  - rewrite <- surjective_pairing. exact st9_reached.
  - exists own. split; [exact H1|]. split; apply H2; rewrite ?Hl9.
    + apply nth_there. rewrite Hl. lia.
    + rewrite Ht1. apply list_elem_of_here.
    + apply nth_there. rewrite Hl. lia.
    + rewrite Ht2. apply list_elem_of_further, list_elem_of_here.
Defined.

(** The private message waits in the buffer of bob's connection. *)
Lemma only_recipients_receive_witness :
  chan_heap (sm_node (v_mem st9.2) "node-a") !! 0%nat = Some [k_Value private_record; k_Value group_record]
  /\ exists own, sessions_true ∅ requests own st9.2 /\ exists k, k ∈ v_log st9.2 /\ k_Value k = k_Value private_record
      /\ authentic chat requests own st9.2 k /\ recipient chat connects own st9.2 k 8.
Proof.
  assert (chan_heap (sm_node (v_mem st9.2) "node-a") !! 0%nat = Some [k_Value private_record; k_Value group_record]) as Hb
    by (vm_compute; reflexivity).
  split; [exact Hb|].
  assert (match client_heap (sm_node (v_mem st9.2) "node-a") !! 0%nat with Some cl => c_Send cl = 0%nat /\ c_UserID cl = 8 | None => False end) as Hc
    by (vm_compute; split; reflexivity).
  destruct (client_heap (sm_node (v_mem st9.2) "node-a") !! 0%nat) as [cl|] eqn:Hcl; [|destruct Hc]. destruct Hc as [Hs Hu].
  destruct (only_recipients_receive (fl := false) store30 chat ∅ (∅, ∅) requests connects sys_start st9.1 st9.2 chat_set_up sys_start_ok) as (own & H1 & H2).
  - rewrite <- surjective_pairing. exact st9_reached.
  - exists own. split; [exact H1|]. rewrite <- Hu. eapply H2; [exact Hcl|rewrite Hs; exact Hb|apply list_elem_of_here].
Defined.

(** ** A private message, stage by stage *)
Definition both_sessions : keyspace := ks_login act1 8 bob_session (1000 + 30 * 1000) (ks_login ∅ 7 session1 (1000 + 30 * 1000) ∅).
Definition act2 : active := act_login 1000 30 8 bob_session act1.
Definition own2 : owners := <[bob_session := 8]> own1.
Definition deliver0 : refworld SysMem := ref_start 1000 both_sessions two_users all_start [].
Definition deliver1 := exec (fl := false) (System.on_node "node-a" (ServeWS node_a verify_call true bob_session)) deliver0.
Definition deliver2 := exec (fl := false) (on_logic 0 (ServeHTTP (logic_auth store30) (logic_chat chat None) "/api/send" by_ann "private")) deliver1.2.
Definition sent : kmsg := nth 0 (v_log (view (fl := false) (M := SysMem) deliver2.2)) (KMsg "" "" "").
Definition deliver3 := exec (fl := false) (on_task 0 (Single_ConsumeClaim [sent])) deliver2.2.
Definition deliver4 := exec (fl := false) (System.on_node "node-a" (PushMsg_handler {| pmr_ToUserId := 8; pmr_Payload := k_Value sent; pmr_MsgType := 0 |})) deliver3.2.

Lemma both_sessions_rep : sess_rep own2 act2 both_sessions.
Proof.
  assert (own1 ⊆ own2) as Hsub by (apply insert_subseteq; vm_compute; reflexivity).
  unfold both_sessions, act2. apply (rep_login own2 1000 30 act1 _ 8 bob_session); [vm_compute; split; discriminate|apply lookup_insert_eq|].
  apply (rep_login own2 1000 30 ∅ ∅ 7 session1); [apply in_7|eapply lookup_weaken; [apply lookup_insert_eq|exact Hsub]|].
  eapply rep_own_mono; [|apply rep_empty]. apply map_empty_subseteq.
Qed.

Lemma push_inj (a b : string) r1 r2 : [(a, PushMsg r1)] = ([] ++ [(b, PushMsg r2)])%list -> r2 = r1.
Proof. cbn. by intros [= _ <-]. Qed.

Lemma private_message_arrives_witness :
  deliver4.1 = Ok {| pmp_Success := true |}
  /\ chan_heap (sm_node (v_mem (view (fl := false) (M := SysMem) deliver4.2)) "node-a") !! 0%nat = Some [k_Value sent].
Proof.
  assert (deliver1.1 = Serving 0 8) as Hserved by (vm_compute; reflexivity).
  assert (exec (fl := false) (System.on_node "node-a" (ServeWS node_a verify_call true bob_session)) deliver0 = (Serving 0 8, deliver1.2)) as H1
    by (rewrite <- Hserved; apply run_pair).
  assert (match deliver2.1 with HttpJSON out => True | _ => False end) as H2 by (vm_compute; exact I).
  destruct deliver2.1 as [msg st|out] eqn:Hout; [destruct H2|].
  assert (exec (fl := false) (on_logic 0 (ServeHTTP (logic_auth store30) (logic_chat chat None) "/api/send" by_ann "private")) deliver1.2
    = (HttpJSON out, deliver2.2)) as H2' by (rewrite <- Hout; apply run_pair).
  destruct (private_message_arrives (HW := ref_env false SysMem) store30 chat own2 act2 ∅ node_a true bob_session 0 0 by_ann "private" deliver0 0 8 deliver1.2 out deliver2.2
    both_sessions_rep) as (b & k & m & Hb & Hl & _ & _ & _ & _ & _ & Hrest).
  - apply (node_start_ok false (HA := ambient_any false) tt).
  - discriminate.
  - intros srv; reflexivity.
  - exact H1.
  - exact H2'.
  - injection Hb as <-. assert (k = sent) as ->.
    { unfold sent. rewrite Hl. replace (v_log (view (fl := false) (M := SysMem) deliver1.2)) with (@nil kmsg) by (vm_compute; reflexivity). reflexivity. }
    destruct (Hrest eq_refl deliver3.1 deliver3.2 (run_pair _ _)) as (req & _ & Hc & Hpush); [vm_compute; reflexivity|].
    assert (req = {| pmr_ToUserId := 8; pmr_Payload := k_Value sent; pmr_MsgType := 0 |}) as ->.
    { assert (v_calls (view (fl := false) (M := SysMem) deliver3.2) = [("node-a", PushMsg {| pmr_ToUserId := 8; pmr_Payload := k_Value sent; pmr_MsgType := 0 |})]
        /\ v_calls (view (fl := false) (M := SysMem) deliver2.2) = []) as [Hc3 Hc2] by (split; vm_compute; reflexivity).
      rewrite Hc3, Hc2 in Hc. exact (push_inj _ _ _ _ Hc). }
    exact (Hpush deliver4.1 deliver4.2 (run_pair _ _)).
Defined.
