(* ===== verification/WitnessDelivery.v ===== *)
(** * Witnesses of deliveries to many recipients

    The run of WitnessSystem.v with a message to the group of both users, and
    with a message to a room that the recipient has joined: the theorems of
    DeliveryMany.v applied to it, stage by stage. *)

From Stdlib Require Import ZArith Lia String.
From stdpp Require Import base tactics list gmap strings.
From S2P Require Import Prelude GoStd Effects Redis Database Proto World Rules Store Sessions Auth AuthSpec GroupServer GroupSpec GroupPool ChatServer Api Gateway.
From S2P Require Import Room ConnectMem RoomManager Registry Connection ConnectSpec ClientPool Consumer ConsumerSpec SessionPool Knowledge LogicPool TaskPool System Delivery DeliveryMany.
From S2P Require Import RefWorld RefCodec WitnessLogic WitnessConnect WitnessSystem.

Local Open Scope string_scope.
Local Open Scope Z_scope.

Abbreviation after := (view (fl := false) (M := SysMem)).

Lemma ann_not_minus_one u ex : act2 !! u = Some (hr_Authorization by_ann, ex) -> u <> -1.
Proof.
  unfold act2, act1, act_login. intros [[<- _]|[_ [[<- _]|[_ Hx]]%lookup_insert_Some]]%lookup_insert_Some; [discriminate..|by rewrite lookup_empty in Hx].
Qed.

Lemma deliver1_serves :
  exec (fl := false) (System.on_node "node-a" (ServeWS node_a verify_call true bob_session)) deliver0 = (Serving 0 8, deliver1.2).
Proof. assert (deliver1.1 = Serving 0 8) as <- by (vm_compute; reflexivity). apply run_pair. Qed.

Lemma deliver0_coherent : coherent (after deliver0).
Proof.
  split.
  - intros gid e _ He.
    replace (v_rds (after deliver0)) with both_sessions in He by reflexivity.
    unfold both_sessions, ks_login in He. rewrite !lookup_insert_ne in He by done.
    replace (drop_old _ 8 _) with (ks_login ∅ 7 session1 (1000 + 30 * 1000) ∅) in He by (vm_compute; reflexivity).
    unfold ks_login in He. rewrite !lookup_insert_ne in He by done.
    replace (drop_old ∅ 7 ∅) with (∅ : keyspace) in He by (vm_compute; reflexivity). by rewrite lookup_empty in He.
  - unfold members_ok. replace (v_db (after deliver0)) with two_users by reflexivity.
    repeat constructor; vm_compute; discriminate.
Qed.

Lemma is_json r : match r with HttpJSON _ => True | HttpError _ _ => False end -> exists out, r = HttpJSON out.
Proof. destruct r; [done|eauto]. Qed.

Lemma bob_is_not_ann ex : act2 !! 8 <> Some (hr_Authorization by_ann, ex).
Proof.
  unfold act2, act_login. rewrite lookup_insert_eq. intros Hs. injection Hs as Hs _. apply (f_equal (String.eqb ann_session)) in Hs.
  vm_compute in Hs. discriminate Hs.
Qed.

(** ** A group message *)
Definition group2 := exec (fl := false) (on_logic 0 (ServeHTTP (logic_auth store30) (logic_chat chat None) "/api/groupsend" by_ann "group")) deliver1.2.
Definition group_sent : kmsg := nth 0 (v_log (after group2.2)) (KMsg "" "" "").
Definition group3 := exec (fl := false) (on_task 0 (Group_ConsumeClaim (fun r => rpc (RefreshGroupMembersCache r)) [(group_sent, (None, []))])) group2.2.
Definition group_req4 : PushAllRequest := {| par_GroupId := 3; par_Payload := k_Value group_sent; par_UserIds := [8]; par_MsgType := 0 |}.
Definition group4 := exec (fl := false) (System.on_node "node-a" (PushMsgToUsers_handler group_req4)) group3.2.

Lemma group_calls : v_calls (after group3.2) = [("node-a", PushMsgToUsers group_req4)] /\ v_calls (after group2.2) = [].
Proof. split; vm_compute; reflexivity. Qed.

Lemma only_push (a b : string) gm p uids req :
  (a, group_push gm p uids) ∈ [(b, PushMsgToUsers req)] ->
  {| par_GroupId := gm_GroupId gm; par_Payload := p; par_UserIds := uids; par_MsgType := gm_MsgType gm |} = req.
Proof. by intros [= _ <-]%list_elem_of_singleton. Qed.


(** ** A room message *)
Definition nodes_key : keyspace := <[connectNodesKeyPrefix := REntry (VSet {["node-a"]}) None]> both_sessions.
Definition room0 : refworld SysMem := ref_start 1000 nodes_key two_users all_start [].
Definition join_5 : RoomCmd := {| Op := "joinRoom"; RoomID := 5 |}.
Definition room1 := exec (fl := false) (System.on_node "node-a" (ServeWS node_a verify_call true bob_session)) room0.
Definition room2 := exec (fl := false) (System.on_node "node-a" (room_command 0 8 0 join_5)) room1.2.
Definition room3 := exec (fl := false) (on_logic 0 (ServeHTTP (logic_auth store30) (logic_chat chat None) "/api/roomsend" by_ann "room")) room2.2.
Definition room_sent : kmsg := nth 0 (v_log (after room3.2)) (KMsg "" "" "").
Definition room4 := exec (fl := false) (on_task 0 (Room_ConsumeClaim [room_sent])) room3.2.
Definition room_req : BroadcastRoomRequest := {| brr_RoomId := 5; brr_FromUserId := 7; brr_Payload := k_Value room_sent; brr_MsgType := 0 |}.
Definition room5 := exec (fl := false) (System.on_node "node-a" (BroadcastRoom_handler room_req)) room4.2.

Lemma nodes_key_rep : sess_rep own2 act2 nodes_key.
Proof. eapply rep_frame; [| |exact both_sessions_rep]; intros; unfold nodes_key; by rewrite lookup_insert_ne. Qed.

Lemma room_calls : v_calls (after room4.2) = [("node-a", Proto.BroadcastRoom room_req)] /\ v_calls (after room3.2) = [].
Proof. split; vm_compute; reflexivity. Qed.

Lemma only_broadcast (a b : string) r req : (a, Proto.BroadcastRoom r) ∈ [(b, Proto.BroadcastRoom req)] -> r = req.
Proof. by intros [= _ <-]%list_elem_of_singleton. Qed.

Lemma room_message_arrives_witness :
  k_Topic room_sent = "room_chat_messages"
  /\ chan_heap (sm_node (v_mem (after room5.2)) "node-a") !! 0%nat = Some [k_Value room_sent].
Proof.
  destruct (is_json room3.1 ltac:(vm_compute; exact I)) as [out Hout].
  destruct (room_message_arrives (HW := ref_env false SysMem) store30 chat own2 act2 (∅, ∅) node_a true bob_session 0 0 by_ann "room" join_5
    room0 0 8 room1.2 room2.1 room2.2 out room3.2 nodes_key_rep) as (b & k & m & Hb & Hl & Ht & _ & (ex & Hex) & _ & _ & Hrest).
  - apply (node_start_ok false (HA := ambient_any false) tt).
  - exists {["node-a"]}. split; [apply lookup_insert_eq|by apply elem_of_singleton].
  - intros srv; reflexivity.
  - reflexivity.
  - reflexivity.
  - assert (room1.1 = Serving 0 8) as <- by (vm_compute; reflexivity). apply run_pair.
  - apply run_pair.
  - rewrite <- Hout. apply run_pair.
  - injection Hb as <-. assert (k = room_sent) as ->.
    { unfold room_sent. rewrite Hl. replace (v_log (after room2.2)) with (@nil kmsg) by (vm_compute; reflexivity). reflexivity. }
    split; [exact Ht|]. destruct room_calls as [Hc4 Hc3].
    destruct (Hrest eq_refl) with (marked := room4.1) (w4 := room4.2) as (cs & req & _ & Hc & _ & Hin & Hpush).
    + intros Hx. rewrite <- Hx in Hex. exact (bob_is_not_ann ex Hex).
    + apply run_pair.
    + rewrite Hc4, Hc3 in Hc. cbn [app] in Hc. rewrite <- Hc in Hin. apply only_broadcast in Hin as ->.
      exact (Hpush room5.1 room5.2 (run_pair _ _)).
Defined.
